(* ===== verification/_CoqProject ===== *)
-Q . S2P
Prelude.v
PyStr.v
PyVal.v
PyEq.v
Revendor.v
RevendorFacts.v
Graphs.v
Json.v
Sha256.v
Calendar.v
ComponentDag.v
Tarjan.v
Bfs.v
Deadlock.v
Migrate.v
Io.v
Emitter.v
EmitterFacts.v
EmitterRuns.v
Base64.v
PyRe.v
PyText.v
Preflight.v
PreflightRuns.v
Gate.v
Udp.v
ConfigClosure.v
ConfigClosureFacts.v
Redis.v
Manifests.v
PyAst.v
Glance.v
GateAudit.v
Gnocchi.v
Keystone.v
Horizon.v
ConfigRefs.v
UwsgiWorker.v
UwsgiStats.v
Colocation.v
DurableState.v
ValPaths.v
CollectImages.v
SchemaGen.v
RoleMapping.v
PasteHealth.v
ServiceWorkers.v
NoPidof.v
Divergences.v
CapabilityRoles.v
Multidoc.v
SeriesScope.v
ShippedPython.v
ValuesSchema.v
YamlStyle.v
Umbrella.v
UmbrellaFacts.v
UmbrellaRuns.v
UmbrellaManifests.v
Provisioning.v
UpgradeNotPrune.v
ReadGate.v
OriginPin.v
OriginPinFacts.v
NodeLabels.v
NodeLabelsFacts.v
Powerdns.v
PowerdnsRules.v
PowerdnsRuns.v
PowerdnsSeen.v
EmitterSchedule.v
Files.v
Rendering.v
RenderingRuns.v
