(* ===== verification/Prelude.v ===== *)
(** * Verification of the krateo OpenStack blueprint

    The repository packages OpenStack as Helm charts: an umbrella chart
    (src/blueprints/openstack/chart) that emits one Composition per component, the component charts
    vendored from openstack-helm, a contract emitter that runs beside them, and the programs under
    src/hack: gates that read the charts before a release, and tools that operators run. This
    library models the Python programs and the umbrella's own templates, and proves what they
    promise.

    ** How the parts fit together

    The umbrella renders at every reconcile. It selects components, resolves the version each is
    emitted at, and creates one when its dependencies allow it; beside them it emits their
    definitions, the roles and admission policies of its capabilities and the state of the node
    labels (UmbrellaManifests). The gates make sure that these decisions are sound before they run:
    the component graph is closed and acyclic (ComponentDag), the runtime waits it adds up to with the charts' own startup waits cannot
    deadlock (Tarjan, Bfs, Deadlock, ReadGate), a version bump keeps what is live
    (UpgradeNotPrune, OriginPin), the node labels the pods select on are declared (NodeLabels), a
    profile's preconditions are those of the selection (Provisioning), same-node dependencies are
    satisfiable (Colocation), every name and file a component waits on or reads is there
    (ConfigClosure, ConfigRefs), every chart and image reference can be pulled (Preflight), ports
    speak their protocol (Udp), probes measure what they claim (Redis, Gnocchi, Keystone, Horizon,
    Glance, UwsgiStats, UwsgiWorker, PasteHealth), state is on claims (DurableState), and what is
    declared is well formed and complete (RoleMapping, CapabilityRoles, Divergences, Multidoc,
    ServiceWorkers, NoPidof, ShippedPython, ValuesSchema, YamlStyle). GateAudit reads the gates
    themselves: none may pass because a module it imports is missing. Most gates render the charts
    they judge (Rendering): each copies a chart, stamps it, adds helm-toolkit and runs helm on the
    copy; the other models take the documents from there. Migrate moves a database
    from a node path to a claim; Revendor merges a new upstream version of a chart into ours;
    Emitter writes usage and health rows of the service contract, in the jobs that the umbrella
    schedules for it (EmitterSchedule); CollectImages, SchemaGen and SeriesScope list and generate;
    Powerdns runs the pods of one chart against a real database.

    ** Files

    Foundations, shared by the components:
    - Prelude: results and exceptions, loops that may raise, sorting. PyStr: strings as Python has
      them. PyVal and PyEq: YAML and JSON values with Python's operations and equality. Json,
      Base64, Sha256, Calendar: the codecs and the clock of the standard library. PyRe and PyText:
      regular expressions with a backtracking matcher proved against a denotation, and
      substitution. Graphs: readiness as an inductive predicate, walks, cycles. Io: programs with
      state, events and exceptions. Gate: programs that collect findings. Manifests: reading
      rendered objects. Files: a file system and the calls that change it, with their errors.
      PyAst: Python's syntax trees and ast.walk. ValPaths: the values a document holds at its paths.

    Components, each a Module named after its file; a file whose name ends in Facts or Runs holds
    the theorems of the one before it:
    - Umbrella: templates/_helpers.tpl (the osh. helpers) and templates/compositions.yaml. A helper
      is a function of the values and of the cluster it looks up; [render] is one pass.
    - UmbrellaManifests: the other templates of the umbrella chart; the API server that authorizes
      and admits with them is an interface, with its documentation as laws.
    - Rendering: the renders of the gates, with their temporary directories, as programs on Files;
      RenderingRuns: its theorems.
    - ComponentDag: hack/validate-component-dag.py. Tarjan, Bfs and Deadlock:
      hack/validate-readiness-deadlock.py, its iterative algorithms with an explicit stack of
      frames and queue; ReadGate: the part of it that reads the templates.
    - UpgradeNotPrune, OriginPin, NodeLabels, Colocation, ConfigClosure, ConfigRefs, Preflight,
      Udp, Redis, Gnocchi, Keystone, Horizon, UwsgiStats: hack/validate-upgrade-does-not-prune.py,
      -origin-version-pin.py, -node-label-preconditions.py, -same-node-colocation.py,
      -component-config-closure.py, -config-file-refs.py, hack/preflight-refs.py,
      -udp-services.py, -redis-readiness.py, -gnocchi-readiness.py, -keystone-readiness.py,
      -horizon-liveness.py, -probe-not-uwsgi-stats.py.
    - Glance, Provisioning, GateAudit, UwsgiWorker, DurableState, RoleMapping, PasteHealth,
      ServiceWorkers, NoPidof, Divergences, CapabilityRoles, Multidoc, ShippedPython, ValuesSchema,
      YamlStyle: hack/validate-glance-readiness.py, -provisioning-preconditions.py,
      -gates-cannot-skip.py, -uwsgi-probe-traverses-worker.py, -durable-state.py, -rolemapping.py,
      -paste-healthcheck.py, -service-workers.py, -no-pidof.py, -upstream-divergences.py,
      -capability-roles.py, -umbrella-multidoc.py, -shipped-python.py, -values-schema.py,
      -yaml-block-style.py.
    - CollectImages: tools/collect-images.py. SchemaGen: hack/gen-componentvalues-schema.py.
      SeriesScope: hack/series-scope.py.
    - Powerdns: hack/smoke-powerdns.py, a program on Io over an environment of docker, files and
      the clock; PowerdnsRules: the interface of a judgement and that it passes from the steps to
      the program; PowerdnsRuns: its theorems; PowerdnsSeen: what a run that ends well did, as a
      trace.
    - Migrate: hack/migrate-to-pvc.py. Revendor: hack/revendor.py. Emitter: files/contract-emitter.py
      of the umbrella chart; EmitterSchedule: templates/contract-emitter.yaml and the schedule
      helper osh.cronFromInterval, read with Emitter's window.

    ** What the theorems show

    - The umbrella: through any upgrades a live component that stays selected and served is never
      removed ([never_pruned]); on a catalogue that the component gate accepts every selected
      component is created and becomes ready ([install_completes], which uses ComponentDag); which
      version is chosen ([resolve_decides]); no render looks anything up at a version that is not
      served ([render_served]); the selection ([selection_closure]); an admission policy decides the
      writes whose verbs its capability names, but for subresources by a star
      ([abac_guards_writes], and [star_unguarded] for what it misses); definitions and reported state agree
      with the render ([manifests_agree]).
    - Refinements between a gate and the chart: the upgrade gate passes exactly when the helpers
      are wired in ([decided_by_wiring]); on charts that the label gate accepts the umbrella
      refuses a render exactly when a pod could not be placed ([refused_iff_unplaceable]); when the
      deadlock gate passes, the chart gates each dependency as declared and the install so gated
      cannot deadlock ([gate_passed_installs]); the profile gate passes exactly when the declared
      preconditions are those of the flagged components and the umbrella's strict selection has
      none of them ([profiles_decided]).
    - Graph algorithms: the coloured depth-first search, Tarjan's components and the breadth-first
      witness are total and exact ([find_cycles_acyclic], [sccs_of_partition],
      [witness_shortest]); the wait graph is the wait relation ([build_graph_edges]); readiness of
      everything is acyclicity ([no_deadlock_iff], [silent_iff_all_emitted]); the verdicts are
      exact ([gate_passes_iff], [verdict_exact]).
    - Gates: what a run that passes has established of the rendered charts, for every object it is
      about ([passed_closed], [main_passes], [redis_passed] and the other theorems so named); for
      the smaller ones, exactly when they pass ([paste_decided], [style_decided],
      [capabilities_decided], [pidof_decided]); the hand-written tokenizer reads back what was
      written ([lookup_args_reads]); the audit's judgement of a handler is sound for the execution
      of its statements where what they call is known, whatever the names mean ([audit_passed]; what
      it wrongly accepts is in [exits_with_0]).
    - Renders of the gates: they leave no trace ([repository_kept]); those of a component's chart run helm
      on the same tree, the chart of the repository with its version and the toolkit, and those of
      the umbrella on it with a template more or, for the version pin, without the toolkit
      ([gates_render_alike]; a probe on a prepared copy is in [probes_leave_copy], the schema's
      harness in [schema_asks]); which of them return documents of a render that succeeded, and
      which of these can be empty ([docs_measured]); the component gate on the file system is the
      one that is verified ([dag_gate_refines]).
    - Programs that list and generate: exactly the images, the series and the schema of their
      input ([images_exact], [scope_exact], [generated], [strip_exact]).
    - Programs that change things: the order of the migration's steps, what it may run, that a
      refused run changed nothing and that every run ends ([prepare_in_order] to [main_ends]); the
      three-way merge ([merge_three_way]); the emitter's rows, requests and record ids
      ([collect_usage_conforms], [bootstrap_order], [record_id_window]); its jobs run in every
      window of their signal exactly when the interval is a minute or more ([windows_emitted]).
    - The smoke test: whatever docker answers and however the run ends, what docker answered
      to have created is named by a later removal ([everything_removed]); pods run restricted
      ([pods_restricted]); a run that ends well is the sequence of steps that it claims, on the
      chart that was rendered ([smoke_passed]); its waits end ([smoke_ends]); names are read
      back from the wire ([qname_read_back]).

    ** Conventions and bounds

    A string is a list of 8-bit characters, so text is its UTF-8 bytes; the classes of regular
    expressions and the case of letters are those of ASCII. Mappings keep their order and have
    string keys; where the code builds a mapping with other keys, it is an association list under
    Python's equality. Printed messages are constructors that carry the values they show. A finding
    is recorded where the code appends it, and an exception ends a run with a traceback.

    Fuel stands for a bound of the program or is enough by proof: Python's recursion limit in
    ComponentDag and Deadlock's recursion-free loops, where the theorems ask for the number of
    nodes; the 361 polls of [wait_for] in Migrate; one turn for each second of the longest wait
    and one more in Powerdns, for a clock that goes forward; the length of the text in PyRe; the
    number of declared names in ConfigClosure; the eight passes of the selection are the
    template's own.

    What is outside src is a parameter: what helm prints for a chart, a profile or a probe, kubectl
    and docker, the registries and HTTP services with what they answer, the files of the migration
    and of the smoke test, the clock, uuids, the names of temporary directories, the exit status of
    a shell or Python script of a chart, Sprig's int and its comparison of versions, the API server
    with CEL (with what is documented of them as hypotheses that a concrete function meets),
    Python's parser and compiler, the events of PyYAML's parser. PyYAML's and helm's parsed
    documents are inputs.

    ** Not modelled

    The charts vendored from openstack-helm are data for Helm. Comments and quoting that ruamel
    keeps in a values file, the layout of a written JSON text, and the printed reports beyond the
    values they show. The shell tools (the migration's smoke test, the determinism check, the
    loading of images, the deep links) drive kubectl, kind and docker, and are not Python; the
    emitter's tests exercise functions that are modelled. A signal that interrupts a program, and
    Python's recursion limit where a program recurses on the shape of a document, are left out. *)
From Stdlib Require Export Ascii String ZArith Lia.
From stdpp Require Export base list strings gmap sorting.
#[global] Set Default Goal Selector "!".

Declare Scope py_scope.
Delimit Scope py_scope with py.
#[global] Open Scope py_scope.
#[global] Arguments String.append !_ _ / : simpl nomatch.

(** ** Results: a value, or the Python exception that was raised *)

Inductive exn :=
  | KeyError (k : string)
  | TypeError
  | AttributeError
  | ValueError
  | IndexError
  | OverflowError
  | ZeroDivisionError
  | RecursionError
  | SystemExit (code : Z).

#[global] Instance exn_eq_dec : EqDecision exn.
Proof. solve_decision. Defined.

Inductive res (A : Type) :=
  | Ok (a : A)
  | Raise (e : exn).
Arguments Ok {A} a.
Arguments Raise {A} e.

#[global] Instance res_eq_dec `{EqDecision A} : EqDecision (res A).
Proof. solve_decision. Defined.

#[global] Instance res_ret : MRet res := λ A a, Ok a.
#[global] Instance res_bind : MBind res := λ A B f m,
  match m with Ok a => f a | Raise e => Raise e end.
#[global] Instance res_fmap : FMap res := λ A B f m,
  match m with Ok a => Ok (f a) | Raise e => Raise e end.

Notation "'let*' x ':=' m 'in' k" := (mbind (fun x => k) m)
  (at level 10, x pattern, m at level 100, k at level 200) : py_scope.

(** [for x in l: acc = f(acc, x)] where the body may raise. *)
Fixpoint foldM {A B} (f : A → B → res A) (acc : A) (l : list B) : res A :=
  match l with
  | [] => Ok acc
  | x :: l' => let* acc' := f acc x in foldM f acc' l'
  end.

Lemma bind_Ok {A B} (m : res A) (f : A → res B) b :
  m ≫= f = Ok b ↔ ∃ a, m = Ok a ∧ f a = Ok b.
Proof. destruct m; simpl; naive_solver. Qed.

Lemma mapM_Ok_Forall2 {A B} (f : A → res B) l k :
  mapM f l = Ok k ↔ Forall2 (λ x y, f x = Ok y) l k.
Proof.
  revert k. induction l as [|x l IH]; intros k; simpl.
  - split; [intros [= <-]; constructor | by inversion 1].
  - setoid_rewrite bind_Ok. setoid_rewrite bind_Ok. split.
    + intros (y & Hy & k' & Hk' & [= <-]). constructor; [done|]. by apply IH.
    + inversion 1; subst. eexists; split; [done|]. eexists; split; [by apply IH|done].
Qed.

(** [enumerate(l, n)] *)
Fixpoint enumerate_from {A} (n : nat) (l : list A) : list (nat * A) :=
  match l with [] => [] | x :: l' => (n, x) :: enumerate_from (S n) l' end.

Lemma enumerate_elem {A} (l : list A) : ∀ n x, (∃ i, (i, x) ∈ enumerate_from n l) ↔ x ∈ l.
Proof.
  induction l as [|y l IH]; intros n x; cbn [enumerate_from].
  - split; [by intros (i & ?%elem_of_nil)|by intros ?%elem_of_nil].
  - setoid_rewrite elem_of_cons. rewrite <- (IH (S n)). split.
    + intros (i & [[= -> ->]|H]); [by left|right; eauto].
    + intros [->|(i & H)]; [exists n; by left|exists i; by right].
Qed.

Lemma concat_nil_elem {A} (l : list (list A)) : concat l = [] → ∀ x, x ∈ l → x = [].
Proof.
  induction l as [|y l IH]; intros H x Hx; [by apply elem_of_nil in Hx|]. cbn [concat] in H.
  apply app_eq_nil in H as [-> H]. apply elem_of_cons in Hx as [->|Hx]; auto.
Qed.

(** What a filter leaves out. *)
Lemma filter_none {A} (f : A → bool) l : List.filter f l = [] → ∀ x, x ∈ l → f x = false.
Proof.
  intros H x Hx. destruct (f x) eqn:E; [|done].
  assert (Hin : In x (List.filter f l)) by (apply filter_In; split; [by apply list_elem_of_In|done]).
  by rewrite H in Hin.
Qed.

(** Where a result of the loop comes from. *)
Lemma mapM_elem {A B} (f : A → res B) l k y :
  mapM f l = Ok k → y ∈ k → ∃ x, x ∈ l ∧ f x = Ok y.
Proof.
  intros H%mapM_Ok_Forall2. induction H as [|x z l k Hx _ IH]; [by intros ?%elem_of_nil|].
  intros [->|Hy]%elem_of_cons; [exists x|destruct (IH Hy) as (w & Hw & Hf); exists w];
    rewrite elem_of_cons; auto.
Qed.
Lemma mapM_covers {A B} (f : A → res B) l k x :
  mapM f l = Ok k → x ∈ l → ∃ y, y ∈ k ∧ f x = Ok y.
Proof.
  intros H%mapM_Ok_Forall2. induction H as [|z y l k Hz _ IH]; [by intros ?%elem_of_nil|].
  intros [->|Hx]%elem_of_cons; [exists y|destruct (IH Hx) as (w & Hw & Hf); exists w];
    rewrite elem_of_cons; auto.
Qed.

(** What every successful step preserves holds of a successful fold. *)
Lemma foldM_invariant {A B} (P : A → Prop) (f : A → B → res A) acc l acc' :
  (∀ a x a', P a → f a x = Ok a' → P a') → P acc → foldM f acc l = Ok acc' → P acc'.
Proof.
  intros Hf. revert acc. induction l as [|x l IH]; intros acc Hacc; simpl; [by intros [= <-]|].
  intros H. apply bind_Ok in H as (a & Ha & H). eauto.
Qed.

Lemma foldM_invariant_in {A B} (P : A → Prop) (f : A → B → res A) l : ∀ acc acc',
  (∀ a x a', x ∈ l → P a → f a x = Ok a' → P a') → P acc → foldM f acc l = Ok acc' → P acc'.
Proof.
  induction l as [|x l IH]; intros acc acc' Hf Hacc; simpl; [by intros [= <-]|].
  intros H. apply bind_Ok in H as (a & Ha & H). eapply IH; [|eapply Hf; [by left|done|done]|done].
  intros ????. apply Hf. by right.
Qed.

Lemma app_nil {A} (l k : list A) : l ++ k = [] ↔ l = [] ∧ k = [].
Proof. split; [apply app_eq_nil|by intros [-> ->]]. Qed.

Lemma flat_map_nil_iff {A B} (f : A → list B) l :
  flat_map f l = [] ↔ ∀ x, x ∈ l → f x = [].
Proof.
  induction l as [|x l IH]; simpl; [set_solver|].
  rewrite app_nil, IH. setoid_rewrite elem_of_cons. naive_solver.
Qed.

(** ** Sorting, as Python's [sorted] does it on a total order (stable) *)

Section Sorting.
  Context {A : Type} (leb : A → A → bool).

Fixpoint insert_sorted (x : A) (l : list A) : list A :=
    match l with
    | [] => [x]
    | y :: l' => if leb x y then x :: l else y :: insert_sorted x l'
    end.

Definition isort (l : list A) : list A := foldr insert_sorted [] l.

Lemma insert_sorted_Permutation x l : insert_sorted x l ≡ₚ x :: l.
  Proof.
    induction l as [|y l IH]; simpl; [done|]. destruct (leb x y); [done|].
    rewrite IH. constructor.
  Qed.

Lemma isort_Permutation l : isort l ≡ₚ l.
  Proof.
    induction l as [|x l IH]; simpl; [done|]. by rewrite insert_sorted_Permutation, IH.
  Qed.

Lemma elem_of_isort x l : x ∈ isort l ↔ x ∈ l.
  Proof. by rewrite isort_Permutation. Qed.

Lemma NoDup_isort l : NoDup (isort l) ↔ NoDup l.
  Proof. by rewrite isort_Permutation. Qed.

Lemma length_isort l : length (isort l) = length l.
  Proof. by rewrite isort_Permutation. Qed.

Lemma isort_nil l : isort l = [] ↔ l = [].
  Proof.
    split; [|by intros ->]. intros H. apply Permutation_nil_r. by rewrite <- H, isort_Permutation.
  Qed.
End Sorting.

#[global] Instance isort_proper {A} (leb : A → A → bool) :
  Proper ((≡ₚ) ==> (≡ₚ)) (isort leb).
Proof. intros l1 l2 H. by rewrite !isort_Permutation. Qed.

(** ** Automation shared by the components *)

Create HintDb pydb discriminated.
#[export] Hint Constants Opaque : pydb.
#[export] Hint Resolve list_elem_of_here list_elem_of_further : pydb.

Create Rewrite HintDb pysimpl.
#[export] Hint Rewrite @elem_of_isort @NoDup_isort @length_isort
  @elem_of_app @elem_of_cons @elem_of_nil @list_elem_of_singleton : pysimpl.

(** [res_inv H] opens a successful monadic computation. *)
Ltac res_inv H :=
  repeat (lazymatch type of H with
  | mbind _ _ = Ok _ =>
      let a := fresh "a" in let Ha := fresh "Ha" in
      apply bind_Ok in H; destruct H as (a & Ha & H)
  | Ok _ = Ok _ => injection H as H
  end).

(** [cases] splits the booleans and decisions a handler tests. *)
Ltac cases :=
  repeat (case_decide || case_match); simplify_eq/=.
