(* ===== verification/PyStr.v ===== *)
(** * Python's string methods, on Rocq strings

    The strings of the model are sequences of 8-bit characters; the methods below are
    those the modelled programs call, with Python's behaviour on ASCII text. *)
From S2P Require Import Prelude.
#[local] Open Scope string_scope.

Definition newline : string := String (ascii_of_nat 10) EmptyString.
Definition dquote : string := String (ascii_of_nat 34) EmptyString.

(** The ASCII characters [str.strip] and [str.split] treat as whitespace. *)
Definition is_space (c : ascii) : bool :=
  let n := nat_of_ascii c in
  ((9 <=? n) && (n <=? 13) || (28 <=? n) && (n <=? 32))%nat%bool.

Fixpoint lstrip_by (p : ascii → bool) (s : string) : string :=
  match s with
  | EmptyString => EmptyString
  | String c s' => if p c then lstrip_by p s' else s
  end.

Fixpoint rstrip_by (p : ascii → bool) (s : string) : string :=
  match s with
  | EmptyString => EmptyString
  | String c s' =>
      match rstrip_by p s' with
      | EmptyString => if p c then EmptyString else String c EmptyString
      | t => String c t
      end
  end.

Definition strip (s : string) : string := rstrip_by is_space (lstrip_by is_space s).

(** [s.rstrip("/")] *)
Definition rstrip_char (c : ascii) (s : string) : string := rstrip_by (Ascii.eqb c) s.

(** [s.split(c)] for a one-character separator: never the empty list. *)
Fixpoint split_on (c : ascii) (s : string) : list string :=
  match s with
  | EmptyString => [EmptyString]
  | String d s' =>
      if Ascii.eqb c d then EmptyString :: split_on c s'
      else match split_on c s' with
           | [] => [String d EmptyString]
           | w :: ws => String d w :: ws
           end
  end.

(** [s.partition(c)] for a one-character separator. *)
Fixpoint partition_at (c : ascii) (s : string) : string * bool * string :=
  match s with
  | EmptyString => (EmptyString, false, EmptyString)
  | String d s' =>
      if Ascii.eqb c d then (EmptyString, true, s')
      else let '(k, sep, v) := partition_at c s' in (String d k, sep, v)
  end.

Definition startswith (p s : string) : bool := String.prefix p s.

Fixpoint endswith (p s : string) : bool :=
  String.eqb p s || match s with EmptyString => false | String _ s' => endswith p s' end.

(** [p in s] *)
Fixpoint contains (p s : string) : bool :=
  String.prefix p s || match s with EmptyString => false | String _ s' => contains p s' end.

Definition lower_char (c : ascii) : ascii :=
  let n := nat_of_ascii c in
  if ((65 <=? n) && (n <=? 90))%nat%bool then ascii_of_nat (n + 32) else c.
Definition upper_char (c : ascii) : ascii :=
  let n := nat_of_ascii c in
  if ((97 <=? n) && (n <=? 122))%nat%bool then ascii_of_nat (n - 32) else c.

Fixpoint lower (s : string) : string :=
  match s with EmptyString => EmptyString | String c s' => String (lower_char c) (lower s') end.

(** [s.capitalize()] *)
Definition capitalize (s : string) : string :=
  match s with EmptyString => EmptyString | String c s' => String (upper_char c) (lower s') end.

(** [s.count(c)] *)
Fixpoint count_char (c : ascii) (s : string) : nat :=
  match s with
  | EmptyString => O
  | String d s' => ((if Ascii.eqb c d then 1 else 0) + count_char c s')%nat
  end.

(** The line boundaries of [str.splitlines] in ASCII; ["\r\n"] is one boundary. *)
Definition is_linebreak (c : ascii) : bool :=
  let n := nat_of_ascii c in
  ((10 <=? n) && (n <=? 13) || (28 <=? n) && (n <=? 30))%nat%bool.

Fixpoint splitlines (s : string) : list string :=
  match s with
  | EmptyString => []
  | String c s' =>
      if is_linebreak c then
        EmptyString ::
          (if Ascii.eqb c (ascii_of_nat 13)
           then match s' with
                | String d s'' =>
                    if Ascii.eqb d (ascii_of_nat 10) then splitlines s'' else splitlines s'
                | EmptyString => []
                end
           else splitlines s')
      else match splitlines s' with
           | [] => [String c EmptyString]
           | w :: ws =>
               (* an empty rest-of-line starts a fresh line only when [s'] begins one *)
               String c w :: ws
           end
  end.

(** Whitespace-separated words, [s.split()]. *)
Fixpoint words_aux (s : string) (cur : string) : list string :=
  match s with
  | EmptyString => if String.eqb cur EmptyString then [] else [cur]
  | String c s' =>
      if is_space c
      then (if String.eqb cur EmptyString then words_aux s' EmptyString
            else cur :: words_aux s' EmptyString)
      else words_aux s' (cur +:+ String c EmptyString)
  end.
Definition words (s : string) : list string := words_aux s EmptyString.

(** ** Order on strings: code point order, as Python's [<] *)

Definition str_leb (a b : string) : bool := String.leb a b.

(** [sorted(l)] for a list of strings, and [sorted(set(l))]. *)
Definition sorted_strs (l : list string) : list string := isort str_leb l.
Definition sorted_set (l : list string) : list string := isort str_leb (remove_dups l).

Lemma elem_of_sorted_strs x l : x ∈ sorted_strs l ↔ x ∈ l.
Proof. apply elem_of_isort. Qed.

Lemma elem_of_sorted_set x l : x ∈ sorted_set l ↔ x ∈ l.
Proof. unfold sorted_set. by rewrite elem_of_isort, elem_of_remove_dups. Qed.

Lemma NoDup_sorted_set l : NoDup (sorted_set l).
Proof. unfold sorted_set. rewrite NoDup_isort. apply NoDup_remove_dups. Qed.

#[export] Hint Rewrite elem_of_sorted_strs elem_of_sorted_set : pysimpl.

(** ** Decimal rendering of integers, as [str(n)] and [f"{n}"] *)

Definition digit (n : Z) : ascii := ascii_of_nat (48 + Z.to_nat n).

Fixpoint str_of_pos_aux (fuel : nat) (n : Z) (acc : string) : string :=
  match fuel with
  | O => acc
  | S f =>
      let acc' := String (digit (n mod 10)) acc in
      if (n <? 10)%Z then acc' else str_of_pos_aux f (n / 10)%Z acc'
  end.

Definition str_of_Z (n : Z) : string :=
  let m := Z.abs n in
  let body := str_of_pos_aux (S (Z.to_nat (Z.log2 m))) m EmptyString in
  if (n <? 0)%Z then String "-"%char body else body.

(** ** Reading integers *)

Definition code (c : ascii) : Z := Z.of_nat (nat_of_ascii c).
Definition char (n : Z) : ascii := ascii_of_nat (Z.to_nat n).
Definition is_digit (c : ascii) : bool := ((48 <=? code c) && (code c <=? 57))%Z.

(** [int(s)] on a string. *)
Fixpoint int_digits (acc : Z) (seen : bool) (s : string) : option Z :=
  match s with
  | EmptyString => if seen then Some acc else None
  | String c s' =>
      if is_digit c then int_digits (acc * 10 + (code c - 48))%Z true s'
      else if Ascii.eqb c "_"%char then
        match s' with
        | String d _ => if seen && is_digit d then int_digits acc false s' else None
        | EmptyString => None
        end
      else None
  end.

Definition py_int (s : string) : res Z :=
  let r := match strip s with
           | String "-"%char t => Z.opp <$> int_digits 0 false t
           | String "+"%char t => int_digits 0 false t
           | t => int_digits 0 false t
           end in
  match r with Some z => Ok z | None => Raise ValueError end.

(** ** Facts the components use *)

Lemma split_on_not_nil c s : split_on c s ≠ [].
Proof.
  destruct s as [|d s]; simpl; [done|]. destruct (Ascii.eqb c d); [done|].
  by destruct (split_on c s).
Qed.

(** Splitting and re-joining with the same separator is the identity. *)
Lemma split_on_concat c s :
  String.concat (String c EmptyString) (split_on c s) = s.
Proof.
  induction s as [|d s IH]; [done|]. simpl.
  destruct (Ascii.eqb_spec c d) as [->|Hne].
  - destruct (split_on d s) as [|w ws] eqn:E; [by destruct (split_on_not_nil d s)|].
    change (String d (String.concat (String d "") (w :: ws)) = String d s). by rewrite IH.
  - destruct (split_on c s) as [|w [|w' ws]] eqn:E.
    + by destruct (split_on_not_nil c s).
    + simpl in *. by subst.
    + change (String d (String.concat (String c "") (w :: w' :: ws)) = String d s).
      by rewrite IH.
Qed.

Lemma partition_at_eq c s k sep v :
  partition_at c s = (k, sep, v) →
  s = k +:+ (if sep then String c v else v) ∧ (sep = false → v = EmptyString).
Proof.
  revert k. induction s as [|d s IH]; intros k; simpl.
  - by intros [= <- <- <-].
  - destruct (Ascii.eqb_spec c d) as [->|Hne]; [by intros [= <- <- <-]|].
    destruct (partition_at c s) as [[k' sep'] v'] eqn:E. intros [= <- <- <-].
    destruct (IH _ eq_refl) as [-> Hv]. by split.
Qed.

(** The characters of a string satisfy a predicate. *)
Fixpoint all_chars (p : ascii → bool) (s : string) : bool :=
  match s with EmptyString => true | String c s' => p c && all_chars p s' end.

Lemma partition_at_key c s k sep v :
  partition_at c s = (k, sep, v) → all_chars (λ d, negb (Ascii.eqb c d)) k = true.
Proof.
  revert k. induction s as [|d s IH]; intros k; simpl; [by intros [= <- <- <-]|].
  destruct (Ascii.eqb c d) eqn:E; [by intros [= <- <- <-]|].
  destruct (partition_at c s) as [[k' sep'] v']. intros [= <- <- <-]. simpl.
  rewrite E. by apply IH.
Qed.

Lemma append_nil_r s : s +:+ EmptyString = s.
Proof. induction s as [|c s IH]; simpl; [done|]. by rewrite IH. Qed.

Lemma length_append s t : String.length (s +:+ t) = (String.length s + String.length t)%nat.
Proof. induction s as [|c s IH]; [done|]. cbn. by rewrite IH. Qed.
Lemma append_assoc s t u : (s +:+ t) +:+ u = s +:+ (t +:+ u).
Proof. induction s as [|c s IH]; simpl; [done|]. by rewrite IH. Qed.

Lemma append_inj_l s t u : s +:+ t = s +:+ u → t = u.
Proof. apply (inj (String.append s)). Qed.

(** *** Reading back what [str] prints *)

Lemma digit_code n : (0 <= n < 10)%Z → code (digit n) = (48 + n)%Z ∧ is_digit (digit n) = true.
Proof.
  intros H. assert (n = 0 ∨ n = 1 ∨ n = 2 ∨ n = 3 ∨ n = 4 ∨ n = 5 ∨ n = 6 ∨ n = 7 ∨ n = 8 ∨ n = 9)%Z
    as Hn by lia.
  repeat (destruct Hn as [-> | Hn]; [done|]). by subst.
Qed.

Lemma int_digits_digit a b n s :
  (0 <= n < 10)%Z → int_digits a b (String (digit n) s) = int_digits (a * 10 + n) true s.
Proof.
  intros Hn. destruct (digit_code n Hn) as [Hc Hd]. cbn [int_digits]. rewrite Hd, Hc.
  f_equal. lia.
Qed.

Lemma str_of_pos_aux_S fuel n acc :
  str_of_pos_aux (S fuel) n acc =
  if (n <? 10)%Z then String (digit (n mod 10)) acc
  else str_of_pos_aux fuel (n / 10) (String (digit (n mod 10)) acc).
Proof. done. Qed.

Lemma int_digits_mod_div n b s :
  (0 <= n)%Z → int_digits (n / 10) b (String (digit (n mod 10)) s) = int_digits n true s.
Proof.
  intros Hn. rewrite int_digits_digit by (apply Z.mod_pos_bound; lia). f_equal.
  pose proof (Z.div_mod n 10 ltac:(lia)). lia.
Qed.

(** Enough fuel: each step divides by more than two, and one digit is left for the last. *)
Lemma int_digits_str_of_pos fuel n acc b :
  (0 <= n < 5 * 2 ^ Z.of_nat fuel)%Z →
  int_digits 0 b (str_of_pos_aux (S fuel) n acc) = int_digits n true acc.
Proof.
  revert n acc. induction fuel as [|fuel IH]; intros n acc Hn;
    rewrite str_of_pos_aux_S; destruct (Z.ltb_spec n 10).
  2: { simpl Z.of_nat in Hn. change (2 ^ 0)%Z with 1%Z in Hn. lia. }
  1, 2: rewrite <- (int_digits_mod_div n b acc) by lia; rewrite (Z.div_small n 10) by lia; done.
  rewrite IH.
  - apply int_digits_mod_div. lia.
  - rewrite Nat2Z.inj_succ, Z.pow_succ_r in Hn by lia.
    split; [apply Z.div_pos; lia|]. apply Z.div_lt_upper_bound; lia.
Qed.

Lemma str_of_pos_aux_chars p fuel n acc :
  (∀ d, (0 <= d < 10)%Z → p (digit d) = true) → all_chars p acc = true →
  all_chars p (str_of_pos_aux fuel n acc) = true.
Proof.
  intros Hp. revert n acc. induction fuel as [|fuel IH]; intros n acc Ha; simpl; [done|].
  assert (all_chars p (String (digit (n mod 10)) acc) = true).
  { simpl. rewrite Hp by (apply Z.mod_pos_bound; lia). done. }
  destruct (n <? 10)%Z; auto.
Qed.

Lemma lstrip_by_id p s : all_chars (λ c, negb (p c)) s = true → lstrip_by p s = s.
Proof. destruct s as [|c s]; simpl; [done|]. by destruct (p c). Qed.

Lemma rstrip_by_id p s : all_chars (λ c, negb (p c)) s = true → rstrip_by p s = s.
Proof.
  induction s as [|c s IH]; simpl; [done|]. intros [Hc Hs]%andb_prop.
  rewrite IH by done. apply negb_true_iff in Hc. rewrite Hc. by destruct s.
Qed.

Lemma strip_id s : all_chars (λ c, negb (is_space c)) s = true → strip s = s.
Proof. intros H. unfold strip. by rewrite lstrip_by_id, rstrip_by_id. Qed.

Lemma digit_cases p :
  all_chars p "0123456789" = true → ∀ n, (0 <= n < 10)%Z → p (digit n) = true.
Proof.
  intros H n Hn. cbn in H. repeat rewrite andb_true_iff in H. destruct_and!.
  assert (n = 0 ∨ n = 1 ∨ n = 2 ∨ n = 3 ∨ n = 4 ∨ n = 5 ∨ n = 6 ∨ n = 7 ∨ n = 8 ∨ n = 9)%Z
    as H' by lia.
  repeat (destruct H' as [-> | H']; [done|]). by subst.
Qed.

Lemma str_of_nat_chars p n :
  (0 <= n)%Z → all_chars p "0123456789" = true → all_chars p (str_of_Z n) = true.
Proof.
  intros Hn Hp. unfold str_of_Z. destruct (Z.ltb_spec n 0); [lia|].
  apply str_of_pos_aux_chars; [by apply digit_cases|done].
Qed.

Lemma int_digits_str_of_Z n b : (0 <= n)%Z → int_digits 0 b (str_of_Z n) = Some n.
Proof.
  intros Hn. unfold str_of_Z. destruct (Z.ltb_spec n 0); [lia|]. rewrite Z.abs_eq by lia.
  apply int_digits_str_of_pos. rewrite Z2Nat.id by apply Z.log2_nonneg.
  destruct (Z.eq_dec n 0%Z) as [->|Hz]; [done|].
  pose proof (Z.log2_spec n ltac:(lia)) as [_ H2].
  rewrite Z.pow_succ_r in H2 by apply Z.log2_nonneg. lia.
Qed.

(** [int(str(n)) == n] *)
Lemma py_int_str_of_Z n : (0 <= n)%Z → py_int (str_of_Z n) = Ok n.
Proof.
  intros Hn. unfold py_int. rewrite strip_id by by apply str_of_nat_chars.
  pose proof (int_digits_str_of_Z n false Hn) as Hi.
  assert (all_chars is_digit (str_of_Z n) = true) as Hc by by apply str_of_nat_chars.
  destruct (str_of_Z n) as [|c s]; [done|]. apply andb_prop in Hc as [Hc _].
  destruct c as [[] [] [] [] [] [] [] []]; try done; by rewrite Hi.
Qed.

(** *** Lines *)

Lemma append_cons c s t : String c s +:+ t = String c (s +:+ t).
Proof. done. Qed.

Lemma all_chars_app p s t : all_chars p (s +:+ t) = all_chars p s && all_chars p t.
Proof. induction s as [|c s IH]; [done|]. simpl. by rewrite IH, andb_assoc. Qed.

Lemma splitlines_line l s :
  all_chars (λ c, negb (is_linebreak c)) l = true →
  splitlines (l +:+ newline +:+ s) = l :: splitlines s.
Proof.
  induction l as [|c l IH]; [done|]. cbn [all_chars]. intros [Hc Hl]%andb_prop.
  rewrite append_cons. cbn [splitlines]. apply negb_true_iff in Hc. by rewrite Hc, IH.
Qed.

Lemma startswith_app p s : startswith p (p +:+ s) = true.
Proof.
  unfold startswith. induction p as [|c p IH]; [by destruct s|].
  rewrite append_cons. simpl. by destruct (ascii_dec c c).
Qed.

Lemma partition_at_app c k v :
  all_chars (λ d, negb (Ascii.eqb c d)) k = true →
  partition_at c (k +:+ String c v) = (k, true, v).
Proof.
  induction k as [|d k IH]; simpl.
  - intros _. by rewrite Ascii.eqb_refl.
  - intros [Hd Hk]%andb_prop. apply negb_true_iff in Hd. by rewrite Hd, (IH Hk).
Qed.

Lemma startswith_inv p s : startswith p s = true → ∃ t, s = p +:+ t.
Proof.
  revert s. induction p as [|c p IH]; intros s; [by exists s|].
  destruct s as [|d s]; [done|]. simpl. destruct (ascii_dec c d) as [<-|]; [|done].
  intros H. apply IH in H as [t ->]. by exists t.
Qed.

(** Splitting at a separator that a word does not hold. *)
Lemma split_on_app c w s :
  all_chars (λ d, negb (Ascii.eqb c d)) w = true →
  split_on c (w +:+ String c s) = w :: split_on c s.
Proof.
  induction w as [|d w IH]; cbn [all_chars].
  - intros _. simpl. by rewrite Ascii.eqb_refl.
  - intros [Hd Hw]%andb_prop. rewrite append_cons. simpl. apply negb_true_iff in Hd.
    by rewrite Hd, (IH Hw).
Qed.

Lemma split_on_plain c w :
  all_chars (λ d, negb (Ascii.eqb c d)) w = true → split_on c w = [w].
Proof.
  induction w as [|d w IH]; [done|]. cbn [all_chars]. intros [Hd Hw]%andb_prop.
  simpl. apply negb_true_iff in Hd. by rewrite Hd, (IH Hw).
Qed.

(** Joining separator-free words and splitting again. *)
Lemma split_on_concat_words c ws :
  ws ≠ [] → Forall (λ w, all_chars (λ d, negb (Ascii.eqb c d)) w = true) ws →
  split_on c (String.concat (String c "") ws) = ws.
Proof.
  intros Hne. induction 1 as [|w ws Hw Hws IH]; [done|].
  destruct ws as [|w' ws]; [simpl; by apply split_on_plain|].
  change (String.concat (String c "") (w :: w' :: ws))
    with (w +:+ String c (String.concat (String c "") (w' :: ws))).
  rewrite split_on_app by done. by rewrite IH.
Qed.

(** ** Sorting *)

Lemma isort_sorted {A} (leb : A → A → bool) :
  (∀ x y, leb x y = true ∨ leb y x = true) →
  (∀ x y z, leb x y = true → leb y z = true → leb x z = true) →
  ∀ l, StronglySorted (λ x y, leb x y = true) (isort leb l).
Proof.
  intros Htot Htr. induction l as [|x l IH]; simpl; [constructor|].
  induction IH as [|y k Hk IHk Hy]; simpl; [repeat constructor|].
  destruct (leb x y) eqn:E.
  - constructor; [by constructor|]. constructor; [done|].
    eapply Forall_impl; [exact Hy|]. intros z. by apply Htr.
  - constructor; [done|]. rewrite insert_sorted_Permutation. constructor; [|done].
    destruct (Htot x y); congruence.
Qed.

Lemma str_leb_total a b : str_leb a b = true ∨ str_leb b a = true.
Proof.
  unfold str_leb, String.leb. rewrite (String.compare_antisym a b).
  destruct (String.compare b a); simpl; auto.
Qed.

Lemma str_leb_trans a b c : str_leb a b = true → str_leb b c = true → str_leb a c = true.
Proof.
  unfold str_leb, String.leb. revert b c.
  induction a as [|x a IH]; intros [|y b] [|z c]; simpl; try done.
  pose proof (IH b c) as H. revert H.
  unfold Ascii.compare. destruct (N.compare_spec (N_of_ascii x) (N_of_ascii y)),
    (N.compare_spec (N_of_ascii y) (N_of_ascii z)), (N.compare_spec (N_of_ascii x) (N_of_ascii z));
    try done; try (intros; lia); auto.
Qed.

Lemma str_leb_antisym a b : str_leb a b = true → str_leb b a = true → a = b.
Proof.
  unfold str_leb, String.leb. rewrite (String.compare_antisym b a).
  destruct (String.compare a b) eqn:E; simpl; try done. by apply String.compare_eq_iff in E.
Qed.

(** A sorted list depends on its elements only. *)
Lemma sorted_strs_Permutation l k : l ≡ₚ k → sorted_strs l = sorted_strs k.
Proof.
  intros H. unfold sorted_strs.
  apply (StronglySorted_unique_strong (λ x y, str_leb x y = true)).
  - intros x y _ _. apply str_leb_antisym.
  - apply isort_sorted; [apply str_leb_total|apply str_leb_trans].
  - apply isort_sorted; [apply str_leb_total|apply str_leb_trans].
  - by rewrite !isort_Permutation.
Qed.

(** ** Words *)

Definition no_space : string → bool := all_chars (λ c, negb (is_space c)).

Lemma words_aux_app w s cur :
  no_space w = true → words_aux (w +:+ s) cur = words_aux s (cur +:+ w).
Proof.
  revert cur. induction w as [|c w IH]; intros cur; cbn [no_space all_chars].
  - intros _. by rewrite append_nil_r.
  - intros [Hc Hw]%andb_prop. rewrite append_cons. cbn [words_aux].
    apply negb_true_iff in Hc. rewrite Hc, IH by done. by rewrite append_assoc.
Qed.

(** Words joined by spaces are read back. *)
Lemma words_concat ws :
  Forall (λ w, no_space w = true ∧ w ≠ "") ws → words (String.concat " " ws) = ws.
Proof.
  unfold words. induction 1 as [|w ws [Hw Hne] Hws IH]; [done|].
  apply String.eqb_neq in Hne. destruct ws as [|w' ws].
  - cbn [String.concat]. rewrite <- (append_nil_r w) at 1. rewrite words_aux_app by done.
    cbn [words_aux]. cbn [String.append]. by rewrite Hne.
  - change (String.concat " " (w :: w' :: ws)) with (w +:+ String " " (String.concat " " (w' :: ws))).
    rewrite words_aux_app by done. cbn [String.append words_aux].
    change (is_space " ") with true. cbn iota. rewrite Hne. by rewrite IH.
Qed.
