(* ===== verification/PyVal.v ===== *)
(** * Python values, as a YAML or JSON loader produces them

    [val] is the type of the documents the programs inspect, with Python's truth value,
    equality, subscripting, [dict.get] and iteration; each operation raises what Python
    raises. Mappings keep their insertion order and have string keys. *)
From S2P Require Import Prelude PyStr.
From Stdlib Require Import SpecFloat.

Inductive val :=
  | VNone
  | VBool (b : bool)
  | VInt (z : Z)
  | VFloat (f : spec_float)
  | VStr (s : string)
  | VList (l : list val)
  | VDict (d : list (string * val)).

(** The value is outside the fragment the model renders as text (a float or a container
    passed to [str]). It is kept apart from the exceptions the code can see. *)
Definition Unmodelled : exn := SystemExit 99.

(** ** Mappings as insertion-ordered association lists *)

Fixpoint assoc {B} (k : string) (d : list (string * B)) : option B :=
  match d with
  | [] => None
  | (k', v) :: d' => if String.eqb k k' then Some v else assoc k d'
  end.

(** [d[k] = v]: an existing key keeps its position. *)
Fixpoint dict_set {B} (k : string) (v : B) (d : list (string * B)) : list (string * B) :=
  match d with
  | [] => [(k, v)]
  | (k', w) :: d' => if String.eqb k k' then (k, v) :: d' else (k', w) :: dict_set k v d'
  end.

Lemma assoc_dict_set {B} k k' (v : B) d :
  assoc k (dict_set k' v d) = if String.eqb k k' then Some v else assoc k d.
Proof.
  induction d as [|[j w] d IH]; simpl; [done|].
  destruct (String.eqb_spec k' j) as [->|Hj]; simpl.
  - by destruct (String.eqb_spec k j).
  - rewrite IH. destruct (String.eqb_spec k j) as [->|]; [|done].
    by destruct (String.eqb_spec j k') as [->|].
Qed.

Lemma assoc_elem_of {B} k (v : B) d : assoc k d = Some v → (k, v) ∈ d.
Proof.
  induction d as [|[j w] d IH]; simpl; [done|].
  destruct (String.eqb_spec k j) as [->|]; [intros [= ->]; left|].
  intros ?; right; auto.
Qed.

Lemma assoc_None {B} k (d : list (string * B)) : assoc k d = None ↔ k ∉ d.*1.
Proof.
  induction d as [|[j w] d IH]; simpl; [set_solver|].
  destruct (String.eqb_spec k j) as [->|]; set_solver.
Qed.

Lemma dict_set_keys {B} k (v : B) d j : j ∈ (dict_set k v d).*1 ↔ j = k ∨ j ∈ d.*1.
Proof.
  induction d as [|[i w] d IH]; simpl; [set_solver|].
  destruct (String.eqb_spec k i) as [->|]; simpl; set_solver.
Qed.

Lemma dict_set_NoDup {B} k (v : B) d : NoDup d.*1 → NoDup (dict_set k v d).*1.
Proof.
  induction d as [|[i w] d IH]; simpl; [repeat constructor; set_solver|].
  rewrite NoDup_cons. intros [Hi Hd].
  destruct (String.eqb_spec k i) as [->|]; simpl; [by constructor|].
  constructor; [|auto]. rewrite dict_set_keys. set_solver.
Qed.

(** ** Truth value, equality, text *)

Definition truthy (v : val) : bool :=
  match v with
  | VNone => false
  | VBool b => b
  | VInt z => negb (z =? 0)%Z
  | VFloat f => match f with S754_zero _ => false | _ => true end
  | VStr s => negb (String.eqb s EmptyString)
  | VList l => match l with [] => false | _ => true end
  | VDict d => match d with [] => false | _ => true end
  end.

(** [a or b] *)
Definition or_ (a b : val) : val := if truthy a then a else b.

(** Exact comparison of a binary64 number with an integer. *)
Definition float_eq_int (f : spec_float) (z : Z) : bool :=
  match f with
  | S754_zero _ => (z =? 0)%Z
  | S754_finite s m e =>
      let v := if s then Z.neg m else Z.pos m in
      if (0 <=? e)%Z then (v * 2 ^ e =? z)%Z else (v =? z * 2 ^ (- e))%Z
  | _ => false
  end.

(** Python's [==] on these values; mappings compare without their order. *)
Fixpoint py_eq (a b : val) {struct a} : bool :=
  match a, b with
  | VNone, VNone => true
  | VBool x, VBool y => Bool.eqb x y
  | VBool x, VInt y => (Z.b2z x =? y)%Z
  | VInt x, VBool y => (x =? Z.b2z y)%Z
  | VInt x, VInt y => (x =? y)%Z
  | VFloat x, VFloat y => SFeqb x y
  | VFloat x, VInt y => float_eq_int x y
  | VInt x, VFloat y => float_eq_int y x
  | VFloat x, VBool y => float_eq_int x (Z.b2z y)
  | VBool x, VFloat y => float_eq_int y (Z.b2z x)
  | VStr x, VStr y => String.eqb x y
  | VList l, VList k =>
      (fix go (l k : list val) : bool :=
         match l, k with
         | [], [] => true
         | x :: l', y :: k' => py_eq x y && go l' k'
         | _, _ => false
         end) l k
  | VDict d, VDict e =>
      Nat.eqb (length d) (length e) &&
      (fix go (d : list (string * val)) : bool :=
         match d with
         | [] => true
         | (k, v) :: d' =>
             match assoc k e with Some w => py_eq v w | None => false end && go d'
         end) d
  | _, _ => false
  end.

(** [str(v)] on scalars. *)
Definition py_str (v : val) : res string :=
  match v with
  | VNone => Ok "None"%string
  | VBool true => Ok "True"%string
  | VBool false => Ok "False"%string
  | VInt z => Ok (str_of_Z z)
  | VStr s => Ok s
  | _ => Raise Unmodelled
  end.

Definition is_dict (v : val) : bool := match v with VDict _ => true | _ => false end.
Definition is_list (v : val) : bool := match v with VList _ => true | _ => false end.
Definition is_str (v : val) : bool := match v with VStr _ => true | _ => false end.

(** [v == "..."] *)
Definition eq_str (v : val) (s : string) : bool :=
  match v with VStr t => String.eqb t s | _ => false end.

Lemma eq_str_spec v s : eq_str v s = true ↔ v = VStr s.
Proof.
  destruct v; simpl; try (split; [done|congruence]).
  rewrite String.eqb_eq. split; [by intros ->|by intros [= ->]].
Qed.

(** ** Subscripting, [get], iteration *)

(** [v[k]] for a string key. *)
Definition getitem (v : val) (k : string) : res val :=
  match v with
  | VDict d => match assoc k d with Some w => Ok w | None => Raise (KeyError k) end
  | _ => Raise TypeError
  end.

(** [v[i]] for a non-negative index. *)
Definition getidx (v : val) (i : nat) : res val :=
  match v with
  | VList l => match l !! i with Some w => Ok w | None => Raise IndexError end
  | VStr s => match String.get i s with
              | Some c => Ok (VStr (String c EmptyString)) | None => Raise IndexError end
  | VDict _ => Raise (KeyError (str_of_Z (Z.of_nat i)))
  | _ => Raise TypeError
  end.

(** [v.get(k, dflt)] *)
Definition get_default (v : val) (k : string) (dflt : val) : res val :=
  match v with
  | VDict d => Ok (default dflt (assoc k d))
  | _ => Raise AttributeError
  end.

(** [v.get(k)] *)
Definition get (v : val) (k : string) : res val := get_default v k VNone.

(** [k in v] for a string [k]. *)
Definition key_in (k : string) (v : val) : res bool :=
  match v with
  | VDict d => Ok (match assoc k d with Some _ => true | None => false end)
  | VList l => Ok (existsb (λ w, eq_str w k) l)
  | VStr s => Ok (contains k s)
  | _ => Raise TypeError
  end.

Fixpoint chars (s : string) : list val :=
  match s with
  | EmptyString => []
  | String c s' => VStr (String c EmptyString) :: chars s'
  end.

(** The elements [for x in v] visits. *)
Definition py_iter (v : val) : res (list val) :=
  match v with
  | VList l => Ok l
  | VDict d => Ok (VStr <$> d.*1)
  | VStr s => Ok (chars s)
  | _ => Raise TypeError
  end.

(** [v.items()] *)
Definition items (v : val) : res (list (string * val)) :=
  match v with VDict d => Ok d | _ => Raise AttributeError end.

(** [for x in v.get(k) or []] *)
Definition get_iter (v : val) (k : string) : res (list val) :=
  let* w := get v k in py_iter (or_ w (VList [])).

(** [(v.get(k) or {})] *)
Definition get_dict (v : val) (k : string) : res val :=
  let* w := get v k in Ok (or_ w (VDict [])).

(** A string where the code uses one as a mapping key or calls a string method. *)
Definition as_str (v : val) : res string :=
  match v with VStr s => Ok s | _ => Raise TypeError end.

(** [all(labels.get(k) == v for k, v in selector.items())], the label-selector match. *)
Definition selector_matches (selector labels : list (string * val)) : bool :=
  forallb (λ '(k, v), py_eq (default VNone (assoc k labels)) v) selector.

Definition is_none (v : val) : bool := match v with VNone => true | _ => false end.

(** [len(v)] *)
Definition py_len (v : val) : res nat :=
  match v with
  | VList l => Ok (length l)
  | VDict d => Ok (length d)
  | VStr s => Ok (String.length s)
  | _ => Raise TypeError
  end.

(** [v in l] *)
Definition py_in (v : val) (l : list val) : bool := existsb (λ w, py_eq w v) l.

(** A mapping key or set member must be hashable. *)
Definition hashable (v : val) : res val :=
  match v with VList _ | VDict _ => Raise TypeError | _ => Ok v end.

(** [v[k1][k2]...] *)
Fixpoint getpath (v : val) (ks : list string) : res val :=
  match ks with [] => Ok v | k :: ks' => let* w := getitem v k in getpath w ks' end.

(** A mapping with keys of any type: an equal key keeps its place and takes the value. *)
Fixpoint vset (k v : val) (d : list (val * val)) : list (val * val) :=
  match d with
  | [] => [(k, v)]
  | (j, w) :: d' => if py_eq j k then (j, v) :: d' else (j, w) :: vset k v d'
  end.
Fixpoint vget (k : val) (d : list (val * val)) : option val :=
  match d with
  | [] => None
  | (j, w) :: d' => if py_eq j k then Some w else vget k d'
  end.

(** [int(v)] *)
Definition py_int_val (v : val) : res Z :=
  match v with
  | VStr s => py_int s
  | VInt z => Ok z
  | VBool b => Ok (Z.b2z b)
  | VFloat (S754_zero _) => Ok 0%Z
  | VFloat (S754_finite s m e) =>
      let n := if (0 <=? e)%Z then (Z.pos m * 2 ^ e)%Z else (Z.pos m / 2 ^ (- e))%Z in
      Ok (if s then (- n)%Z else n)
  | VFloat (S754_infinity _) => Raise OverflowError
  | VFloat S754_nan => Raise ValueError
  | _ => Raise TypeError
  end.

(** How a number compares with an integer; a NaN is not comparable, and no other type is. *)
Definition compare_int (v : val) (z : Z) : res (option comparison) :=
  match v with
  | VInt n => Ok (Some (n ?= z)%Z)
  | VBool b => Ok (Some (Z.b2z b ?= z)%Z)
  | VFloat (S754_zero _) => Ok (Some (0 ?= z)%Z)
  | VFloat (S754_finite s m e) =>
      let n := if s then Z.neg m else Z.pos m in
      Ok (Some (if (0 <=? e)%Z then (n * 2 ^ e ?= z)%Z else (n ?= z * 2 ^ (- e))%Z))
  | VFloat (S754_infinity s) => Ok (Some (if s then Lt else Gt))
  | VFloat S754_nan => Ok None
  | _ => Raise TypeError
  end.

(** [v > z] and [v <= z] *)
Definition gt_int (v : val) (z : Z) : res bool :=
  let* c := compare_int v z in Ok (match c with Some Gt => true | _ => false end).
Definition le_int (v : val) (z : Z) : res bool :=
  let* c := compare_int v z in Ok (match c with Some Lt | Some Eq => true | _ => false end).

(** ** Facts *)

(** A command whose first words are text: they are the first words of what is run. *)
Lemma mapM_as_str_cons (x : string) args xs :
    mapM as_str (VStr x :: args) = Ok xs → ∃ ys, mapM as_str args = Ok ys ∧ xs = x :: ys.
Proof.
  intros (y & [= <-] & H)%bind_Ok. apply bind_Ok in H as (ys & Hys & [= <-]). eauto.
Qed.

Lemma mapM_as_str_strs (ss : list string) : mapM as_str (VStr <$> ss) = Ok ss.
Proof. induction ss as [|s ss IH]; [done|]. rewrite fmap_cons. simpl. by rewrite IH. Qed.

Lemma mapM_as_str_head (ss : list string) args xs :
  mapM as_str ((VStr <$> ss) ++ args) = Ok xs →
  ∃ ys, mapM as_str args = Ok ys ∧ xs = ss ++ ys.
Proof.
  revert xs. induction ss as [|s ss IH]; intros xs H; [by exists xs|].
  apply mapM_as_str_cons in H as (ys & H & ->). apply IH in H as (zs & H & ->). by exists zs.
Qed.

Section ValInd.
  Context (P : val → Prop).
  Hypothesis HNone : P VNone.
  Hypothesis HBool : ∀ b, P (VBool b).
  Hypothesis HInt : ∀ z, P (VInt z).
  Hypothesis HFloat : ∀ f, P (VFloat f).
  Hypothesis HStr : ∀ s, P (VStr s).
  Hypothesis HList : ∀ l, Forall P l → P (VList l).
  Hypothesis HDict : ∀ d, Forall (λ kv, P kv.2) d → P (VDict d).

  (** Induction through the containers. *)
Fixpoint val_nested_ind (v : val) : P v :=
    match v with
    | VNone => HNone
    | VBool b => HBool b
    | VInt z => HInt z
    | VFloat f => HFloat f
    | VStr s => HStr s
    | VList l =>
        HList l ((fix go l := match l return Forall P l with
                              | [] => Forall_nil_2 P
                              | x :: l' => Forall_cons_2 P x l' (val_nested_ind x) (go l')
                              end) l)
    | VDict d =>
        HDict d ((fix go d := match d return Forall (λ kv, P kv.2) d with
                              | [] => Forall_nil_2 _
                              | kv :: d' =>
                                  Forall_cons_2 (λ kv, P kv.2) kv d'
                                    (val_nested_ind kv.2) (go d')
                              end) d)
    end.
End ValInd.

Lemma get_default_dict d k dflt : get_default (VDict d) k dflt = Ok (default dflt (assoc k d)).
Proof. done. Qed.

Lemma hashable_Ok v w : hashable v = Ok w → w = v.
Proof. destruct v; simpl; congruence. Qed.

Lemma mapM_hashable l k : mapM hashable l = Ok k → k = l.
Proof.
  rewrite mapM_Ok_Forall2. induction 1 as [|x y l k Hxy _ IH]; [done|].
  apply hashable_Ok in Hxy. by subst.
Qed.

#[export] Hint Rewrite get_default_dict @assoc_dict_set : pysimpl.

Lemma vset_elem k v d j w :
  (j, w) ∈ vset k v d → (j, w) ∈ d ∨ (w = v ∧ (j = k ∨ py_eq j k = true)).
Proof.
  induction d as [|[i u] d IH]; cbn [vset].
  - intros [= -> ->]%list_elem_of_singleton. auto.
  - destruct (py_eq i k) eqn:E; intros [[= -> ->]|H]%elem_of_cons.
    + auto.
    + left. by right.
    + left. by left.
    + destruct (IH H) as [?|?]; [left; by right|by right].
Qed.

Lemma vget_elem k d v : vget k d = Some v → ∃ j, (j, v) ∈ d ∧ py_eq j k = true.
Proof.
  induction d as [|[i u] d IH]; cbn [vget]; [done|]. destruct (py_eq i k) eqn:E.
  - intros [= ->]. exists i. split; [left|done].
  - intros H. destruct (IH H) as (j & ? & ?). exists j. split; [by right|done].
Qed.

(** Strings under Python's equality. *)
Lemma py_eq_str w s : py_eq w (VStr s) = true ↔ w = VStr s.
Proof.
  destruct w; cbn [py_eq]; try (split; [done|]; by intros [=]).
  rewrite String.eqb_eq. split; [by intros ->|by intros [= ->]].
Qed.

Lemma py_eq_str_l w s : py_eq (VStr s) w = true ↔ w = VStr s.
Proof.
  destruct w; cbn [py_eq]; try (split; [done|]; by intros [=]).
  rewrite String.eqb_eq. split; [by intros ->|by intros [= ->]].
Qed.

Lemma py_in_str s l : py_in (VStr s) l = true ↔ VStr s ∈ l.
Proof.
  unfold py_in. rewrite existsb_exists. setoid_rewrite py_eq_str.
  setoid_rewrite <- list_elem_of_In. split; [by intros (w & Hw & ->)|by eexists].
Qed.

Lemma py_in_strs v l : py_in v (map VStr l) = true ↔ v ∈ map VStr l.
Proof.
  unfold py_in. rewrite existsb_exists. setoid_rewrite <- list_elem_of_In. split.
  - intros (w & Hw & He). apply list_elem_of_fmap in Hw as Hs. destruct Hs as (s & -> & _).
    apply py_eq_str_l in He as ->. done.
  - intros Hv. apply list_elem_of_fmap in Hv as Hs. destruct Hs as (s & -> & _).
    exists (VStr s). split; [done|]. by apply py_eq_str.
Qed.
