(* ===== verification/PyEq.v ===== *)
(** * Python's equality on documents

    On documents without floating-point numbers and with distinct mapping keys, [py_eq] is an
    equivalence, and equal mappings have equal entries. *)
From S2P Require Import Prelude PyStr PyVal.
#[local] Open Scope list_scope.

(** Neither a float, nor a key twice, anywhere. *)
Fixpoint plain (v : val) : Prop :=
  match v with
  | VFloat _ => False
  | VList l => (fix go l := match l with [] => True | x :: l' => plain x ∧ go l' end) l
  | VDict d =>
      NoDup d.*1 ∧
      (fix go (d : list (string * val)) :=
         match d with [] => True | kv :: d' => plain kv.2 ∧ go d' end) d
  | _ => True
  end.

Lemma plain_list l : plain (VList l) ↔ Forall plain l.
Proof.
  simpl. induction l as [|x l IH]; [done|]. rewrite Forall_cons. by rewrite IH.
Qed.

Lemma plain_dict d : plain (VDict d) ↔ NoDup d.*1 ∧ Forall (λ kv, plain kv.2) d.
Proof.
  simpl. f_equiv. induction d as [|x d IH]; [done|]. rewrite Forall_cons. by rewrite IH.
Qed.

Lemma plain_assoc d k v : plain (VDict d) → assoc k d = Some v → plain v.
Proof.
  rewrite plain_dict. intros [_ H] Hk%assoc_elem_of. rewrite Forall_forall in H. by apply (H (k, v)).
Qed.

(** The comparisons inside containers. *)
Fixpoint list_eq (l k : list val) : bool :=
  match l, k with
  | [], [] => true
  | x :: l', y :: k' => py_eq x y && list_eq l' k'
  | _, _ => false
  end.

Definition entries_eq (d e : list (string * val)) : bool :=
  forallb (λ '(k, v), match assoc k e with Some w => py_eq v w | None => false end) d.

Lemma py_eq_list l k : py_eq (VList l) (VList k) = list_eq l k.
Proof. simpl. revert k. induction l as [|x l IH]; intros [|y k]; simpl; [done..|]. by rewrite IH. Qed.

Lemma py_eq_dict d e :
  py_eq (VDict d) (VDict e) = Nat.eqb (length d) (length e) && entries_eq d e.
Proof.
  simpl. f_equal. induction d as [|[k v] d IH]; simpl; [done|]. by rewrite IH.
Qed.

Lemma assoc_Some_NoDup {B} k (v : B) d : NoDup d.*1 → (k, v) ∈ d → assoc k d = Some v.
Proof.
  induction d as [|[j w] d IH]; simpl; [set_solver|]. rewrite NoDup_cons, elem_of_cons.
  intros [Hj Hd] [[= <- <-]|H]; [by rewrite String.eqb_refl|].
  destruct (String.eqb_spec k j) as [->|]; [|auto].
  exfalso. apply Hj. apply list_elem_of_fmap. by exists (j, v).
Qed.

Lemma entries_eq_spec d e :
  NoDup d.*1 →
  entries_eq d e = true ↔
  ∀ k v, assoc k d = Some v → ∃ w, assoc k e = Some w ∧ py_eq v w = true.
Proof.
  intros Hd. unfold entries_eq. rewrite forallb_forall. split.
  - intros H k v Hk%assoc_elem_of. apply list_elem_of_In, H in Hk. simpl in Hk.
    destruct (assoc k e) as [w|]; [eauto|done].
  - intros H [k v] Hk. apply list_elem_of_In in Hk.
    destruct (H k v) as (w & -> & Hw); [by apply assoc_Some_NoDup|done].
Qed.

(** Mappings of one size, each key of the one in the other: the same keys. *)
Lemma same_keys {B} (d e : list (string * B)) :
  NoDup d.*1 → NoDup e.*1 → length d = length e →
  (∀ k, k ∈ d.*1 → k ∈ e.*1) → ∀ k, k ∈ e.*1 → k ∈ d.*1.
Proof.
  intros Hd He Hlen Hsub k Hk.
  assert (d.*1 ≡ₚ e.*1) as Hp.
  { apply submseteq_length_Permutation; [by apply NoDup_submseteq|]. by rewrite !length_fmap, Hlen. }
  by rewrite Hp.
Qed.

Lemma assoc_is_Some {B} k (d : list (string * B)) : k ∈ d.*1 ↔ is_Some (assoc k d).
Proof.
  destruct (assoc k d) as [v|] eqn:E.
  - split; [eauto|]. intros _. apply assoc_elem_of in E. apply list_elem_of_fmap. by exists (k, v).
  - apply assoc_None in E. split; [done|]. by intros [? ?].
Qed.

(** What equality of mappings means. *)
Lemma py_eq_dict_spec d e :
  NoDup d.*1 → NoDup e.*1 →
  py_eq (VDict d) (VDict e) = true ↔
  length d = length e ∧
  ∀ k, match assoc k d, assoc k e with
       | Some v, Some w => py_eq v w = true | None, None => True | _, _ => False end.
Proof.
  intros Hd He. rewrite py_eq_dict, andb_true_iff, Nat.eqb_eq, entries_eq_spec by done.
  split; intros [Hlen H]; (split; [done|]).
  - intros k. destruct (assoc k d) as [v|] eqn:Ed.
    + by destruct (H k v Ed) as (w & -> & Hw).
    + destruct (assoc k e) as [w|] eqn:Ee; [|done].
      apply assoc_None in Ed. apply Ed. apply (same_keys d e); [done|done|done| |].
      * intros j. rewrite !assoc_is_Some. intros [v Hv]. by destruct (H j v Hv) as (u & -> & _).
      * rewrite assoc_is_Some. eauto.
  - intros k v Hk. specialize (H k). rewrite Hk in H. destruct (assoc k e); [eauto|done].
Qed.

Lemma list_eq_refl l : Forall (λ v, plain v → py_eq v v = true) l → Forall plain l → list_eq l l = true.
Proof.
  induction 1 as [|x l Hx _ IH]; [done|]. rewrite Forall_cons. intros [? ?]. simpl.
  by rewrite Hx, IH.
Qed.

Lemma py_eq_refl v : plain v → py_eq v v = true.
Proof.
  induction v as [|b|z|f|s|l IH|d IH] using val_nested_ind; intros Hp; simpl.
  - done.
  - by destruct b.
  - apply Z.eqb_refl.
  - done.
  - apply String.eqb_refl.
  - apply plain_list in Hp. change (py_eq (VList l) (VList l) = true). rewrite py_eq_list.
    by apply list_eq_refl.
  - apply plain_dict in Hp as [Hn Hp]. apply (py_eq_dict_spec d d Hn Hn). split; [done|].
    intros k. destruct (assoc k d) as [v|] eqn:E; [|done]. apply assoc_elem_of in E.
    rewrite Forall_forall in IH, Hp. by apply (IH (k, v)), (Hp (k, v)).
Qed.

Lemma list_eq_sym l k :
  Forall (λ v, ∀ w, plain v → plain w → py_eq v w = true → py_eq w v = true) l →
  Forall plain l → Forall plain k → list_eq l k = true → list_eq k l = true.
Proof.
  intros IH. revert k. induction IH as [|x l Hx _ IH]; intros [|y k]; simpl; try done.
  rewrite !Forall_cons, !andb_true_iff. intros [? ?] [? ?] [? ?]. auto.
Qed.

Lemma py_eq_sym v : ∀ w, plain v → plain w → py_eq v w = true → py_eq w v = true.
Proof.
  induction v as [|b|z|f|s|l IH|d IH] using val_nested_ind; intros w Hv Hw H.
  - by destruct w.
  - destruct w as [|c|z| | | |]; simpl in *; try done.
    + by destruct b, c.
    + by rewrite Z.eqb_sym.
  - destruct w as [|c|y| | | |]; simpl in *; try done; by rewrite Z.eqb_sym.
  - done.
  - destruct w; simpl in *; try done. by rewrite String.eqb_sym.
  - destruct w as [| | | | |k|]; try done. rewrite py_eq_list in *.
    apply plain_list in Hv, Hw. by apply list_eq_sym.
  - destruct w as [| | | | | |e]; try done. pose proof Hv as Pv. pose proof Hw as Pw.
    apply plain_dict in Hv as [Hd Hv], Hw as [He Hw]. rewrite py_eq_dict_spec in H |- * by done.
    destruct H as [Hlen H]. split; [done|]. intros k. specialize (H k).
    destruct (assoc k d) as [v|] eqn:Ed, (assoc k e) as [w|] eqn:Ee; try done.
    apply assoc_elem_of in Ed as Ed'. rewrite Forall_forall in IH.
    apply (IH (k, v) Ed'); [by apply (plain_assoc d k)|by apply (plain_assoc e k)|done].
Qed.

Lemma list_eq_trans l : ∀ k j,
  Forall (λ v, ∀ w u, plain v → plain w → plain u → py_eq v w = true → py_eq w u = true →
               py_eq v u = true) l →
  Forall plain l → Forall plain k → Forall plain j →
  list_eq l k = true → list_eq k j = true → list_eq l j = true.
Proof.
  induction l as [|x l IHl]; intros [|y k] [|z j]; simpl; try done.
  rewrite !Forall_cons, !andb_true_iff. intros [Hx Hl] [? ?] [? ?] [? ?] [? ?] [? ?].
  split; [by apply (Hx y)|by apply (IHl k)].
Qed.

Lemma py_eq_trans v : ∀ w u, plain v → plain w → plain u →
  py_eq v w = true → py_eq w u = true → py_eq v u = true.
Proof.
  induction v as [|b|z|f|s|l IH|d IH] using val_nested_ind; intros w u Hv Hw Hu H1 H2.
  - by destruct w.
  - destruct w as [|c|y| | | |], u as [|a|x| | | |]; simpl in *; try done;
      rewrite ?eqb_true_iff, ?Z.eqb_eq in *; subst; try done.
    destruct b, a; done.
  - destruct w as [|c|y| | | |], u as [|a|x| | | |]; simpl in *; try done;
      rewrite ?eqb_true_iff, ?Z.eqb_eq in *; congruence.
  - done.
  - destruct w, u; simpl in *; try done. rewrite String.eqb_eq in *. congruence.
  - destruct w as [| | | | |k|]; try done. destruct u as [| | | | |j|]; try done.
    rewrite py_eq_list in *. apply plain_list in Hv, Hw, Hu. by apply (list_eq_trans l k).
  - destruct w as [| | | | | |e]; try done. destruct u as [| | | | | |g]; try done.
    pose proof Hv as Pv. pose proof Hw as Pw. pose proof Hu as Pu.
    apply plain_dict in Hv as [Hd Hv], Hw as [He Hw], Hu as [Hg Hu].
    rewrite py_eq_dict_spec in H1, H2 |- * by done. destruct H1 as [Hl1 H1], H2 as [Hl2 H2].
    split; [congruence|]. intros k. specialize (H1 k). specialize (H2 k).
    destruct (assoc k d) as [v|] eqn:Ed, (assoc k e) as [w|] eqn:Ee, (assoc k g) as [u|] eqn:Eg; try done.
    apply assoc_elem_of in Ed as Ed'. rewrite Forall_forall in IH.
    apply (IH (k, v) Ed' w); [by apply (plain_assoc d k)|by apply (plain_assoc e k)
      |by apply (plain_assoc g k)|done|done].
Qed.
