(* ===== verification/Revendor.v ===== *)
(** * hack/revendor.py: the three-way merge of a vendored chart's values

    [merge] takes upstream's old values, ours and upstream's new ones, leaf path by leaf path.
    The comments and quoting that ruamel keeps beside the values are not modelled; a value put
    into our document may be an object of upstream's, which nothing changes afterwards. *)
From S2P Require Import Prelude PyStr PyVal PyEq.
#[local] Open Scope string_scope.
#[local] Open Scope list_scope.

Module Revendor.

Definition path : Type := list string.

(** The leaves of a document; an empty mapping has none. *)
Fixpoint walk (node : val) (prefix : path) : list (path * val) :=
  match node with
  | VDict d =>
      (fix go (d : list (string * val)) : list (path * val) :=
         match d with
         | [] => []
         | (k, v) :: d' => walk v (prefix ++ [k]) ++ go d'
         end) d
  | _ => [(prefix, node)]
  end.

(** [None] is the class [KeyError], which the code returns for a path that is not there. *)
Fixpoint get (node : val) (p : path) : option val :=
  match p with
  | [] => Some node
  | k :: p' =>
      match node with
      | VDict d => match assoc k d with Some v => get v p' | None => None end
      | _ => None
      end
  end.

(** The child [put] goes on in: a fresh mapping where there is none. *)
Definition child (k : string) (d : list (string * val)) : val :=
  match assoc k d with Some (VDict e) => VDict e | _ => VDict [] end.

Fixpoint put (node : val) (p : path) (v : val) : res val :=
  match p with
  | [] => Raise IndexError
  | [k] => match node with VDict d => Ok (VDict (dict_set k v d)) | _ => Raise TypeError end
  | k :: p' =>
      match node with
      | VDict d => let* c := put (child k d) p' v in Ok (VDict (dict_set k c d))
      | _ => Raise TypeError
      end
  end.

(** [==] where either side may be [KeyError]. *)
Definition same (a b : option val) : bool :=
  match a, b with
  | Some v, Some w => py_eq v w
  | None, None => true
  | _, _ => false
  end.

(** The order of the paths, as tuples. *)
Fixpoint path_leb (p q : path) : bool :=
  match p, q with
  | [], _ => true
  | _ :: _, [] => false
  | a :: p', b :: q' => if String.eqb a b then path_leb p' q' else str_leb a b
  end.

Record merged := {
  m_ours : val; m_taken : list path; m_kept : list path;
  m_conflicts : list (path * option val * option val * option val) }.

Definition merge_path (base theirs : val) (m : merged) (p : path) : res merged :=
  let b := get base p in
  let o := get (m_ours m) p in
  let t := get theirs p in
  if same o t then Ok m else
  match same o b, t with
  | true, Some v =>
      let* ours := put (m_ours m) p v in
      Ok {| m_ours := ours; m_taken := m_taken m ++ [p]; m_kept := m_kept m;
            m_conflicts := m_conflicts m |}
  | _, _ =>
      if same t b
      then Ok {| m_ours := m_ours m; m_taken := m_taken m; m_kept := m_kept m ++ [p];
                 m_conflicts := m_conflicts m |}
      else Ok {| m_ours := m_ours m; m_taken := m_taken m; m_kept := m_kept m;
                 m_conflicts := m_conflicts m ++ [(p, b, o, t)] |}
  end.

Definition paths (base ours theirs : val) : list path :=
  isort path_leb (remove_dups ((walk base []).*1 ++ (walk ours []).*1 ++ (walk theirs []).*1)).

Definition merge (base ours theirs : val) : res merged :=
  foldM (merge_path base theirs)
    {| m_ours := ours; m_taken := []; m_kept := []; m_conflicts := [] |}
    (paths base ours theirs).

(** The three cases the script asserts on itself. *)
Definition selftest : res bool :=
  let leaf ks s := foldr (λ k v, VDict [(k, v)]) (VStr s) ks in
  let secret := ["conf"; "horizon"; "horizon_secret_key"] in
  let image := ["images"; "tags"; "glance"] in
  let* m1 := merge (leaf secret "9aee62c0-uuid") (leaf secret "changeme-set-me")
               (leaf secret "9aee62c0-uuid") in
  let* m2 := merge (leaf image "old") (leaf image "old") (leaf image "new") in
  let* m3 := merge (VDict [("a", VInt 1)]) (VDict [("a", VInt 2)]) (VDict [("a", VInt 3)]) in
  Ok (same (get (m_ours m1) secret) (Some (VStr "changeme-set-me"))
      && bool_decide (secret ∈ m_kept m1) && Nat.eqb (length (m_conflicts m1)) 0
      && same (get (m_ours m2) image) (Some (VStr "new")) && bool_decide (image ∈ m_taken m2)
      && Nat.eqb (length (m_conflicts m3)) 1).

Example selftest_passes : selftest = Ok true.
Proof. vm_compute. reflexivity. Qed.

(** ** The command *)

(** How a run ends: the exit status, and what was written. *)
Inductive ended :=
  | UsageError
  | NoVendoredChart
  | PullFailed
  | Raised (e : exn)
  | Refused (m : merged)
  | Wrote (m : merged)
  | Reported (m : merged).

Definition exit_status (e : ended) : Z :=
  match e with
  | UsageError => 2
  | NoVendoredChart | PullFailed | Raised _ | Refused _ => 1
  | Wrote _ => 0
  | Reported m => match m_conflicts m with [] => 0 | _ => 1 end
  end.

Section Main.
  (** [helm pull] of a component's chart, with the values it holds; the vendored values. *)
  Context (pull : string → string → option val) (vendored : string → option val).

Definition main (component base theirs : option string) (apply : bool) : ended :=
    match component, base, theirs with
    | Some c, Some b, Some t =>
        if String.eqb c "" || String.eqb b "" || String.eqb t "" then UsageError else
        match vendored c with
        | None => NoVendoredChart
        | Some ours =>
            match pull c b, pull c t with
            | Some base, Some theirs =>
                match merge base ours theirs with
                | Raise e => Raised e
                | Ok m =>
                    if apply
                    then match m_conflicts m with [] => Wrote m | _ => Refused m end
                    else Reported m
                end
            | _, _ => PullFailed
            end
        end
    | _, _, _ => UsageError
    end.
End Main.
End Revendor.
