(* ===== verification/RevendorFacts.v ===== *)
(** * The three-way merge obeys its rule at every path

    [merge_three_way]: a merge without conflicts has, at every leaf path of the three documents,
    our value where upstream did not move and upstream's where we had not overridden. *)
From S2P Require Import Prelude PyStr PyVal PyEq Revendor.
#[local] Open Scope string_scope.
#[local] Open Scope list_scope.

Module RevendorFacts.
Import Revendor.

(** ** Sorting by a total order *)

Lemma path_leb_trans p : ∀ q r, path_leb p q = true → path_leb q r = true → path_leb p r = true.
Proof.
  induction p as [|a p IH]; intros [|b q] [|c r]; simpl; try done.
  destruct (String.eqb_spec a b) as [Hab|Hab].
  { subst b. destruct (String.eqb a c); [apply IH|done]. }
  destruct (String.eqb_spec b c) as [Hbc|Hbc].
  { subst c. by destruct (String.eqb_spec a b). }
  intros H1 H2. destruct (String.eqb_spec a c) as [Hac|_]; [|by apply (str_leb_trans a b)].
  subst c. by destruct Hab; apply str_leb_antisym.
Qed.

Lemma path_leb_total p : ∀ q, path_leb p q = true ∨ path_leb q p = true.
Proof.
  induction p as [|a p IH]; intros [|b q]; simpl; auto. rewrite (String.eqb_sym b a).
  destruct (String.eqb a b); [apply IH|apply str_leb_total].
Qed.

(** A path that sorts before another does not extend it. *)
Lemma path_leb_prefix p s : path_leb (p ++ s) p = true → s = [].
Proof.
  induction p as [|a p IH]; simpl; [by destruct s|]. by rewrite String.eqb_refl.
Qed.

(** ** Lookup and update along a path *)

Lemma get_app v p s : get v (p ++ s) = match get v p with Some w => get w s | None => None end.
Proof.
  revert v. induction p as [|k p IH]; intros v; simpl; [done|].
  destruct v; try done. by destruct (assoc k d).
Qed.

Lemma get_put p : ∀ v w v', put v p w = Ok v' → get v' p = Some w.
Proof.
  induction p as [|k p IH]; intros v w v'; [done|]. destruct p as [|k' p].
  - simpl. destruct v; try done. intros [= <-]. simpl. by rewrite assoc_dict_set, String.eqb_refl.
  - cbn [put]. destruct v; try done. intros H. apply bind_Ok in H as (c & Hc & [= <-]).
    cbn [get]. rewrite assoc_dict_set, String.eqb_refl. by apply (IH _ _ _ Hc).
Qed.

(** Neither path is an extension of the other. *)
Definition apart (p q : path) : Prop := (∀ s, p ≠ q ++ s) ∧ ∀ s, q ≠ p ++ s.

Lemma apart_cons k p q : apart (k :: p) (k :: q) → apart p q.
Proof. intros [H1 H2]. split; intros s ->; [by apply (H1 s)|by apply (H2 s)]. Qed.

Lemma get_child k d q : q ≠ [] → get (child k d) q = match assoc k d with Some v => get v q | None => None end.
Proof.
  intros Hq. destruct q as [|j q]; [done|]. unfold child. destruct (assoc k d) as [v|]; [|done].
  by destruct v.
Qed.

Lemma get_put_apart p : ∀ v w v' q, put v p w = Ok v' → apart q p → get v' q = get v q.
Proof.
  induction p as [|k p IH]; intros v w v' q; [done|]. intros Hput Hap.
  destruct q as [|j q]; [by destruct (proj2 Hap (k :: p))|].
  assert (∃ d u, v = VDict d ∧ v' = VDict (dict_set k u d) ∧
    (j = k → get u q = match assoc k d with Some v => get v q | None => None end)) as (d & u & -> & -> & Hu).
  { destruct p as [|k' p]; cbn [put] in Hput; destruct v as [| | | | | |d]; try done.
    - injection Hput as <-. exists d, w. split; [done|]. split; [done|]. intros ->.
      by destruct (proj1 Hap q).
    - apply bind_Ok in Hput as (c & Hc & [= <-]). exists d, c. split; [done|]. split; [done|].
      intros ->. apply apart_cons in Hap. rewrite (IH _ _ _ _ Hc Hap). apply get_child.
      intros ->. by destruct (proj2 Hap (k' :: p)). }
  cbn [get]. rewrite assoc_dict_set. destruct (String.eqb_spec j k) as [->|]; [|done]. by apply Hu.
Qed.

Lemma put_dict p v w : p ≠ [] → (∃ d, v = VDict d) → ∃ d, put v p w = Ok (VDict d).
Proof.
  revert v. induction p as [|k p IH]; intros v Hp [d ->]; [done|]. destruct p as [|k' p].
  - simpl. eauto.
  - destruct (IH (child k d)) as [e He]; [done| |].
    + unfold child. destruct (assoc k d) as [[]|]; eauto.
    + exists (dict_set k (VDict e) d). change (put (VDict d) (k :: k' :: p) w)
        with (put (child k d) (k' :: p) w ≫= λ c, Ok (VDict (dict_set k c d))). by rewrite He.
Qed.

Lemma plain_get p : ∀ v w, plain v → get v p = Some w → plain w.
Proof.
  induction p as [|k p IH]; intros v w Hv; simpl; [by intros [= <-]|].
  destruct v; try done. destruct (assoc k d) as [u|] eqn:E; [|done]. intros H.
  apply (IH u); [by apply (plain_assoc d k)|done].
Qed.

(** ** Sides that may be missing *)

Definition oplain (a : option val) : Prop := match a with Some v => plain v | None => True end.

Lemma oplain_get v p : plain v → oplain (get v p).
Proof. intros H. destruct (get v p) as [w|] eqn:E; [|done]. by apply (plain_get p v). Qed.

Lemma same_refl a : oplain a → same a a = true.
Proof. destruct a; [apply py_eq_refl|done]. Qed.
Lemma same_sym a b : oplain a → oplain b → same a b = true → same b a = true.
Proof. destruct a, b; simpl; try done. apply py_eq_sym. Qed.
Lemma same_trans a b c : oplain a → oplain b → oplain c →
  same a b = true → same b c = true → same a c = true.
Proof. destruct a, b, c; simpl; try done. apply py_eq_trans. Qed.

(** Equal documents are equal at every path. *)
Lemma py_eq_get p : ∀ v w, plain v → plain w → py_eq v w = true → same (get v p) (get w p) = true.
Proof.
  induction p as [|k p IH]; intros v w Hv Hw H; [done|].
  destruct v as [| | | | | |d], w as [| | | | | |e]; try done.
  pose proof (proj1 (proj1 (plain_dict d) Hv)) as Hd. pose proof (proj1 (proj1 (plain_dict e) Hw)) as He.
  apply (py_eq_dict_spec d e Hd He) in H as [_ H]. specialize (H k). simpl.
  destruct (assoc k d) as [v|] eqn:Ed, (assoc k e) as [w|] eqn:Ee; try done.
  apply IH; [by apply (plain_assoc d k)|by apply (plain_assoc e k)|done].
Qed.

Lemma same_get v w p s : plain v → plain w →
  same (get v p) (get w p) = true → same (get v (p ++ s)) (get w (p ++ s)) = true.
Proof.
  intros Hv Hw. rewrite !get_app. pose proof (oplain_get v p Hv). pose proof (oplain_get w p Hw).
  destruct (get v p), (get w p); simpl; try done. by apply py_eq_get.
Qed.

(** ** The merge, path by path *)

Section Merge.
  Context (base ours theirs : val).
  Hypothesis Hb : plain base.
  Hypothesis Ho : plain ours.
  Hypothesis Ht : plain theirs.

  (** The rule at a path, for the value [c] the merged document has there. *)
Definition rule (p : path) (c : option val) : Prop :=
    (same (get theirs p) (get base p) = true → same c (get ours p) = true) ∧
    (same (get ours p) (get base p) = true → same c (get theirs p) = true) ∧
    (same (get ours p) (get theirs p) = true → same c (get ours p) = true).

  (** Ours still, or upstream's because an untouched ancestor was taken. *)
Definition pristine (c : option val) (p : path) : Prop :=
    c = get ours p ∨
    c = get theirs p ∧ same (get ours p) (get base p) = true.

Definition settled (c : val) (p : path) : Prop :=
    oplain (get c p) ∧
    (same (get c p) (get theirs p) = true ∨ same (get theirs p) (get base p) = true) ∧
    rule p (get c p).

Lemma oplain_pristine c p : pristine c p → oplain c.
Proof. intros [->|[-> _]]; by apply oplain_get. Qed.

Local Ltac opl := first [by apply oplain_get|eapply oplain_pristine; eassumption].
Local Ltac chain x := apply (same_trans _ x); [opl|opl|opl| |].
Local Ltac flip := apply same_sym; [opl|opl|].

Lemma same_below c q s :
    plain theirs → oplain (get c q) → same (get c q) (get theirs q) = true →
    same (get c (q ++ s)) (get theirs (q ++ s)) = true.
Proof.
  intros _ Hpl Hs. rewrite !get_app. pose proof (oplain_get theirs q Ht).
  destruct (get c q), (get theirs q); simpl in *; try done. by apply py_eq_get.
Qed.

Lemma rule_equal p c : pristine c p → same c (get theirs p) = true → rule p c.
Proof.
  intros Hc Hs. split; [|split]; intros H.
  - destruct Hc as [->|[-> Hob]]; [apply same_refl; opl|]. chain (get base p); [done|]. by flip.
  - done.
  - chain (get theirs p); [done|]. by flip.
Qed.

Lemma rule_kept p c :
    pristine c p → same c (get theirs p) = false → same (get theirs p) (get base p) = true → rule p c.
Proof.
  intros [->|[-> _]] Hs Htb.
  - split; [|split]; intros H; [apply same_refl; opl|chain (get base p); [done|by flip]|congruence].
  - rewrite same_refl in Hs by opl. done.
Qed.

Lemma rule_taken p c v :
    pristine c p → same c (get theirs p) = false → same c (get base p) = true →
    get theirs p = Some v → same (get ours p) (get base p) = true ∧ rule p (Some v).
Proof.
  intros [->|[-> _]] Hs Hcb Hv.
  - split; [done|]. rewrite <- Hv. split; [|split]; intros H.
    + chain (get base p); [done|]. by flip.
    + apply same_refl. opl.
    + congruence.
  - rewrite same_refl in Hs by opl. done.
Qed.

  (** Between two steps: the paths done are settled, the others pristine. *)
Definition invariant (done todo : list path) (m : merged) : Prop :=
    (∃ d, m_ours m = VDict d) ∧
    (m_conflicts m = [] →
     (∀ p, p ∈ done → settled (m_ours m) p) ∧
     (∀ p, p ∈ todo → pristine (get (m_ours m) p) p)).

(** Upstream's value lands at a path we had not overridden. *)
Lemma taken_invariant d p l m v c' :
    p ∉ d → p ∉ l →
    (∀ q, q ∈ d → path_leb q p = true) → (∀ q, q ∈ l → path_leb p q = true) →
    (∀ q, q ∈ d → settled (m_ours m) q) → (∀ q, q ∈ p :: l → pristine (get (m_ours m) q) q) →
    get theirs p = Some v → same (get (m_ours m) p) (get theirs p) = false →
    same (get (m_ours m) p) (get base p) = true → put (m_ours m) p v = Ok c' →
    (∀ q, q ∈ d ++ [p] → settled c' q) ∧ (∀ q, q ∈ l → pristine (get c' q) q).
Proof.
  intros Hnd Hnl Hbefore Hafter Hset Hpr Et Eot Eob Hput. pose proof (get_put _ _ _ _ Hput) as Hget.
  assert (pristine (get (m_ours m) p) p) as Hp by (apply Hpr; by left).
  destruct (rule_taken p (get (m_ours m) p) v Hp Eot Eob Et) as [Hob Hrule]. split.
  - intros q. rewrite elem_of_app, list_elem_of_singleton. intros [Hq| ->].
    + assert (apart q p) as Hap.
      { apply not_true_iff_false in Eot. split; intros s ->.
        - assert (s = []) as -> by (apply (path_leb_prefix p); by apply Hbefore).
          rewrite app_nil_r in Hq. done.
        - apply Eot. destruct (Hset q Hq) as (Hpl & [Hs|Hs] & _); [by apply same_below|].
          chain (get base (q ++ s)); [done|]. flip. by apply same_get. }
      unfold settled. rewrite (get_put_apart _ _ _ _ _ Hput Hap). by apply Hset.
    + unfold settled. rewrite Hget, <- Et. split; [opl|]. split; [left; apply same_refl; opl|].
      by rewrite Et.
  - intros q Hq. destruct (decide (p `prefix_of` q)) as [[s ->]|Hext].
    + right. split; [|by apply same_get]. by rewrite !get_app, Hget, Et.
    + rewrite (get_put_apart _ _ _ _ _ Hput); [apply Hpr; by right|].
      split; intros s Hs; [by apply Hext; exists s|]. subst p.
      assert (s = []) as -> by (apply (path_leb_prefix q); by apply Hafter).
      apply Hnl. by rewrite app_nil_r.
Qed.

(** Nothing is written at a path that is equal, kept or in conflict. *)
Lemma untouched_invariant d p l m m' :
    invariant d (p :: l) m → m_ours m' = m_ours m →
    (m_conflicts m' = [] → m_conflicts m = [] ∧
       (pristine (get (m_ours m) p) p → settled (m_ours m) p)) →
    invariant (d ++ [p]) l m'.
Proof.
  intros [Hdict Hinv] Hm Hc. split; [by rewrite Hm|]. intros Hn. destruct (Hc Hn) as [Hn' Hset].
  destruct (Hinv Hn') as [H1 H2]. rewrite Hm. split.
  - intros q. rewrite elem_of_app, list_elem_of_singleton. intros [Hq| ->]; [by apply H1|].
    apply Hset, H2. by left.
  - intros q Hq. apply H2. by right.
Qed.

Lemma step_invariant d p l m :
    p ≠ [] → p ∉ d → p ∉ l →
    (∀ q, q ∈ d → path_leb q p = true) → (∀ q, q ∈ l → path_leb p q = true) →
    invariant d (p :: l) m →
    ∃ m', merge_path base theirs m p = Ok m' ∧ invariant (d ++ [p]) l m'.
Proof.
  intros Hne Hnd Hnl Hbefore Hafter Hinv. pose proof Hinv as [Hdict Hinv']. unfold merge_path.
  destruct (same (get (m_ours m) p) (get theirs p)) eqn:Eot.
  { eexists. split; [reflexivity|]. eapply untouched_invariant; [done|done|]. intros Hn.
    split; [done|]. intros Hp. split; [opl|]. split; [by left|by apply rule_equal]. }
  assert (∀ t, t = get theirs p → ∃ m',
    (if same t (get base p)
     then Ok {| m_ours := m_ours m; m_taken := m_taken m; m_kept := m_kept m ++ [p];
                m_conflicts := m_conflicts m |}
     else Ok {| m_ours := m_ours m; m_taken := m_taken m; m_kept := m_kept m;
                m_conflicts := m_conflicts m ++ [(p, get base p, get (m_ours m) p, t)] |}) = Ok m' ∧
    invariant (d ++ [p]) l m') as Hstay.
  { intros t ->. destruct (same (get theirs p) (get base p)) eqn:Etb; (eexists; split; [reflexivity|]);
      (eapply untouched_invariant; [done|done|]); simpl; [|by intros []%app_nil].
    intros Hn. split; [done|]. intros Hp. split; [opl|]. split; [by right|]. by apply rule_kept. }
  destruct (same (get (m_ours m) p) (get base p)) eqn:Eob, (get theirs p) as [v|] eqn:Et;
    [|by apply Hstay..].
  destruct (put_dict p (m_ours m) v Hne Hdict) as [e He]. rewrite He. simpl.
  eexists. split; [reflexivity|]. split; simpl; [eauto|]. intros Hn. destruct (Hinv' Hn) as [H1 H2].
  apply (taken_invariant d p l m v); [done..|by rewrite Et|done|done].
Qed.

Lemma merge_invariant l : ∀ d m,
    StronglySorted (λ p q, path_leb p q = true) (d ++ l) → NoDup (d ++ l) → [] ∉ l →
    invariant d l m → ∃ m', foldM (merge_path base theirs) m l = Ok m' ∧ invariant (d ++ l) [] m'.
Proof.
  induction l as [|p l IH]; intros d m Hsort Hnd Hne Hinv.
  { exists m. rewrite app_nil_r. done. }
  assert (∀ q, q ∈ d → path_leb q p = true) as Hbefore.
  { intros q Hq. apply StronglySorted_app in Hsort as (H & _). apply H; [done|by left]. }
  assert (∀ q, q ∈ l → path_leb p q = true) as Hafter.
  { apply StronglySorted_app in Hsort as (_ & _ & Hl). apply StronglySorted_inv in Hl as [_ Hl].
    by rewrite Forall_forall in Hl. }
  apply NoDup_app in Hnd as Hnd'. destruct Hnd' as (_ & Hdl & Hl). apply NoDup_cons in Hl as [Hpl Hl].
  destruct (step_invariant d p l m) as (m1 & Hm1 & Hinv1); [set_solver| |done..|].
  { intros Hd. apply (Hdl p Hd). by left. }
  simpl. rewrite Hm1. simpl. destruct (IH (d ++ [p]) m1) as (m' & Hm' & Hinv');
    [by rewrite <- app_assoc|by rewrite <- app_assoc|set_solver|done|].
  exists m'. split; [done|]. by rewrite <- app_assoc in Hinv'.
Qed.
End Merge.

(** ** The merge *)

Lemma walk_root v prefix q : q ∈ (walk v prefix).*1 → q = prefix → is_dict v = false.
Proof.
  destruct v; try done. intros H ->. exfalso. revert H.
  assert (∀ v prefix q, q ∈ (walk v prefix).*1 → prefix `prefix_of` q) as Hw.
  { clear. intros v. induction v as [|b|z|f|s|l IH|d IH] using val_nested_ind; intros prefix q;
      simpl; rewrite ?elem_of_cons, ?elem_of_nil; try (by intros [->|[]]).
    induction IH as [|[k v] d Hv _ IHd]; simpl; [by rewrite elem_of_nil|].
    rewrite fmap_app, elem_of_app. intros [H|H]; [|auto]. apply Hv in H as [s ->].
    exists (k :: s). by rewrite <- app_assoc. }
  simpl. induction d as [|[k v] d IHd]; simpl; [by rewrite elem_of_nil|].
  rewrite fmap_app, elem_of_app. intros [H|H]; [|auto]. apply Hw in H as [s H].
  rewrite <- app_assoc in H. apply (f_equal length) in H. rewrite !length_app in H. simpl in H. lia.
Qed.

Lemma merge_settles base ours theirs :
  plain base → plain ours → plain theirs →
  is_dict base = true → is_dict ours = true → is_dict theirs = true →
  ∃ m, merge base ours theirs = Ok m ∧
    (m_conflicts m = [] → ∀ p, p ∈ paths base ours theirs → rule base ours theirs p (get (m_ours m) p)).
Proof.
  intros Hb Ho Ht Db Do Dt.
  destruct (merge_invariant base ours theirs Hb Ho Ht (paths base ours theirs) []
    {| m_ours := ours; m_taken := []; m_kept := []; m_conflicts := [] |}) as (m & Hm & [_ Hinv]).
  - apply isort_sorted; [apply path_leb_total|apply path_leb_trans].
  - apply NoDup_isort, NoDup_remove_dups.
  - unfold paths. rewrite elem_of_isort, elem_of_remove_dups, !elem_of_app.
    intros [H|[H|H]]; apply walk_root in H; congruence.
  - split; [simpl; destruct ours; try done; eauto|]. intros _. split; [by intros p Hp%elem_of_nil|].
    intros p _. by left.
  - exists m. split; [done|]. intros Hn p Hp. destruct (Hinv Hn) as [H _]. apply H, Hp.
Qed.

(** C11: the three-way rule. On mappings without floats or repeated keys the merge returns, and
    when it reports no conflict, then at every leaf path of the three documents: where upstream did
    not move the result is ours, where we had not overridden it is upstream's, and where we and
    upstream agree it is ours. *)
Theorem merge_three_way base ours theirs :
  plain base → plain ours → plain theirs →
  is_dict base = true → is_dict ours = true → is_dict theirs = true →
  ∃ m, merge base ours theirs = Ok m ∧
    (m_conflicts m = [] → ∀ p, p ∈ paths base ours theirs →
      (same (get theirs p) (get base p) = true → same (get (m_ours m) p) (get ours p) = true) ∧
      (same (get ours p) (get base p) = true → same (get (m_ours m) p) (get theirs p) = true) ∧
      (same (get ours p) (get theirs p) = true → same (get (m_ours m) p) (get ours p) = true)).
Proof. apply merge_settles. Qed.

Definition old_values : val :=
  VDict [("secret", VStr "published"); ("image", VDict [("tag", VStr "1"); ("pull", VStr "Always")])].
Definition our_values : val :=
  VDict [("secret", VStr "changeme"); ("image", VDict [("tag", VStr "1"); ("pull", VStr "Always")])].
Definition new_values : val :=
  VDict [("secret", VStr "published"); ("image", VStr "glance:2"); ("extra", VDict [("on", VBool true)])].

Lemma merge_three_way_witness :
  option_map (λ m, (m_taken m, m_kept m, length (m_conflicts m)))
    (match merge old_values our_values our_values with Ok m => Some m | _ => None end)
    = Some ([], [], 0%nat) ∧
  ∃ m, merge old_values our_values new_values = Ok m ∧
    (m_conflicts m = [] → ∀ p, p ∈ paths old_values our_values new_values →
      (same (get new_values p) (get old_values p) = true →
       same (get (m_ours m) p) (get our_values p) = true) ∧
      (same (get our_values p) (get old_values p) = true →
       same (get (m_ours m) p) (get new_values p) = true) ∧
      (same (get our_values p) (get new_values p) = true →
       same (get (m_ours m) p) (get our_values p) = true)).
Proof.
  split; [vm_compute; reflexivity|].
  apply (merge_three_way old_values our_values new_values); [| | |reflexivity..];
    cbn; repeat split; repeat constructor; rewrite ?elem_of_cons, ?elem_of_nil; intuition congruence.
Defined.

(** This merge takes upstream's image, in place of a mapping, and keeps our secret. *)
Example sample_merge :
  (match merge old_values our_values new_values with
   | Ok m => (m_ours m, m_taken m, m_kept m, length (m_conflicts m))
   | Raise _ => (VNone, [], [], 1%nat)
   end)
  = (VDict [("secret", VStr "changeme"); ("image", VStr "glance:2"); ("extra", VDict [("on", VBool true)])],
     [["extra"; "on"]; ["image"]], [["secret"]], 0%nat).
Proof. vm_compute. reflexivity. Qed.

(** A leaf that upstream removed and we never touched is a conflict, although ours is the base. *)
Lemma removed_upstream base theirs m p v :
  get base p = Some v → get (m_ours m) p = Some v → plain v → get theirs p = None →
  ∃ c, merge_path base theirs m p = Ok c ∧ m_ours c = m_ours m ∧
       m_conflicts c = m_conflicts m ++ [(p, Some v, Some v, None)].
Proof.
  intros Hb Ho Hv Ht. unfold merge_path. rewrite Hb, Ho, Ht. simpl. rewrite py_eq_refl by done.
  eexists. split; [reflexivity|]. done.
Qed.
End RevendorFacts.
