(* ===== verification/Graphs.v ===== *)
(** * Finite wait graphs

    Reachability and acyclicity of a wait relation, and what they mean for a system that
    waits: a node becomes ready once everything it waits for is ready. *)
From S2P Require Import Prelude.
From stdpp Require Export relations.

Definition acyclic {A} (R : relation A) : Prop := ∀ x, ¬ tc R x x.

(** The least fixed point of "ready once all I wait for is ready". *)
Inductive becomes_ready {A} (R : relation A) : A → Prop :=
  | ready_when x : (∀ y, R x y → becomes_ready R y) → becomes_ready R x.

Section Waits.
  Context {A : Type} (R : relation A).

Lemma becomes_ready_sn x : becomes_ready R x ↔ sn R x.
  Proof.
    split; induction 1 as [x _ IH]; constructor; [intros y Hy; by apply IH|].
    intros y Hy. by apply IH.
  Qed.

  (** Readiness is inherited by everything one waits for. *)
Lemma becomes_ready_rtc x y : becomes_ready R x → rtc R x y → becomes_ready R y.
  Proof. intros Hx Hxy. induction Hxy as [|x z y Hxz _ IH]; [done|]. inversion Hx; auto. Qed.

  (** Nothing on a cycle is ever ready. *)
Lemma ready_not_cyclic x : becomes_ready R x → ¬ tc R x x.
  Proof.
    induction 1 as [x _ IH]. intros Hc.
    assert (∃ y, R x y ∧ tc R y y) as (y & Hxy & Hy); [|by eapply IH].
    inversion Hc as [? ? Hxx|? y ? Hxy Hyx]; subst; [by exists x|].
    exists y. split; [done|]. eapply tc_r; [exact Hyx|done].
  Qed.

  (** Nothing that waits, however indirectly, for a cycle is ever ready. *)
Lemma ready_not_reaching_cycle x y :
    becomes_ready R x → rtc R x y → ¬ tc R y y.
  Proof. intros ??. eapply ready_not_cyclic, becomes_ready_rtc; eauto. Qed.

  (** In a finite graph, acyclicity is exactly what lets every node become ready. *)
Lemma acyclic_all_ready (l : list A) :
    (∀ x y, R x y → y ∈ l) → acyclic R ↔ ∀ x, becomes_ready R x.
  Proof.
    intros Hfin. split; [|intros H x; by apply ready_not_cyclic].
    intros Hac x. apply becomes_ready_sn, tc_finite_sn; [exact Hac|].
    exists l. intros y Hy.
    assert (∃ z, R z y) as [z Hz]; [|by eapply Hfin].
    clear -Hy. induction Hy; eauto.
  Qed.

  (** A rank that drops along every edge rules cycles out. *)
Lemma ranked_acyclic (rank : A → nat) :
    (∀ x y, R x y → rank y < rank x) → acyclic R.
  Proof.
    intros Hr x Hx. enough (∀ y z, tc R y z → rank z < rank y) by (specialize (H x x Hx); lia).
    induction 1 as [y z H|y z w H _ IH]; [by apply Hr|]. specialize (Hr _ _ H). lia.
  Qed.
End Waits.

(** Fewer waits cannot create a cycle. *)
Lemma acyclic_mono {A} (R S : relation A) :
  (∀ x y, R x y → S x y) → acyclic S → acyclic R.
Proof.
  intros HRS HS x Hx. apply (HS x). revert Hx. generalize x at 1 3.
  induction 1; [by apply tc_once, HRS|]. eapply tc_l; eauto.
Qed.

#[export] Instance acyclic_proper {A} :
  Proper (pointwise_relation A (pointwise_relation A iff) ==> iff) acyclic.
Proof.
  intros R S HRS. split; apply acyclic_mono; intros x y; apply HRS.
Qed.

(** ** Walks as lists of nodes *)

(** Consecutive nodes of the list are related. *)
Fixpoint walk {A} (R : relation A) (l : list A) : Prop :=
  match l with
  | [] => True
  | x :: l' => match l' with [] => True | y :: _ => R x y ∧ walk R l' end
  end.

Lemma walk_snoc {A} (R : relation A) l x y :
  walk R (l ++ [x]) → R x y → walk R (l ++ [x; y]).
Proof.
  induction l as [|z l IH]; simpl; [by auto|].
  intros Hw Hxy. destruct l as [|w l]; simpl in *; [tauto|].
  destruct Hw as [? Hw]. split; [done|]. by apply IH.
Qed.

Lemma walk_app_r {A} (R : relation A) l1 l2 : walk R (l1 ++ l2) → walk R l2.
Proof.
  induction l1 as [|x l1 IH]; simpl; [done|].
  destruct (l1 ++ l2) as [|y l] eqn:E; [|by intros [_ H]; apply IH].
  intros _. by apply app_eq_nil in E as [_ ->].
Qed.

Lemma walk_rtc {A} (R : relation A) l x y : walk R (x :: l ++ [y]) → tc R x y.
Proof.
  revert x. induction l as [|z l IH]; intros x; simpl.
  - intros [H _]. by apply tc_once.
  - intros [H Hw]. eapply tc_l; [exact H|]. by apply IH.
Qed.
