(* ===== verification/Json.v ===== *)
(** * json.loads

    The decoder of Python's [json] module, for the documents the programs read from
    environment variables and HTTP bodies: the value grammar with its whitespace, string
    escapes (as UTF-8 bytes), integers, binary64 numbers and the three extra constants.
    A malformed document raises [ValueError], the base class of [JSONDecodeError]. *)
From S2P Require Import Prelude PyStr PyVal.
From Stdlib Require Import SpecFloat.
#[local] Open Scope string_scope.
#[local] Open Scope list_scope.
#[local] Open Scope Z_scope.

(** Only these four characters separate JSON tokens. *)
Definition json_space (c : ascii) : bool :=
  (code c =? 32) || (code c =? 9) || (code c =? 10) || (code c =? 13).
Definition skip_ws (s : string) : string := lstrip_by json_space s.

(** The UTF-8 bytes of a code point. *)
Definition utf8 (n : Z) : string :=
  let c k := String (char k) in
  if n <? 128 then c n ""
  else if n <? 2048 then c (192 + n / 64) (c (128 + n mod 64) "")
  else if n <? 65536 then
    c (224 + n / 4096) (c (128 + n / 64 mod 64) (c (128 + n mod 64) ""))
  else
    c (240 + n / 262144) (c (128 + n / 4096 mod 64)
      (c (128 + n / 64 mod 64) (c (128 + n mod 64) ""))).

Definition hex_digit (c : ascii) : option Z :=
  let n := code c in
  if (48 <=? n) && (n <=? 57) then Some (n - 48)
  else if (65 <=? n) && (n <=? 70) then Some (n - 55)
  else if (97 <=? n) && (n <=? 102) then Some (n - 87)
  else None.

Definition hex4 (s : string) : option (Z * string) :=
  match s with
  | String a (String b (String c (String d rest))) =>
      a' ← hex_digit a; b' ← hex_digit b; c' ← hex_digit c; d' ← hex_digit d;
      Some (((a' * 16 + b') * 16 + c') * 16 + d', rest)
  | _ => None
  end.

(** One-character escapes. *)
Definition simple_escape (c : ascii) : option ascii :=
  match code c with
  | 34 => Some (char 34) | 92 => Some (char 92) | 47 => Some (char 47)
  | 98 => Some (char 8) | 102 => Some (char 12) | 110 => Some (char 10)
  | 114 => Some (char 13) | 116 => Some (char 9)
  | _ => None
  end.

(** The body of a string after its opening quote. *)
Fixpoint parse_string (fuel : nat) (s : string) : option (string * string) :=
  match fuel with
  | O => None
  | S fuel =>
      match s with
      | EmptyString => None
      | String c s' =>
          if code c =? 34 then Some ("", s')
          else if code c =? 92 then
            match s' with
            | EmptyString => None
            | String e s'' =>
                if code e =? 117 then
                  '(u, r) ← hex4 s'';
                  let high := (55296 <=? u) && (u <=? 56319) in
                  match high, r with
                  | true, String b1 (String b2 r') =>
                      match (if (code b1 =? 92) && (code b2 =? 117) then hex4 r' else None) with
                      | Some (l, r'') =>
                          if (56320 <=? l) && (l <=? 57343) then
                            '(t, rest) ← parse_string fuel r'';
                            Some (utf8 (65536 + (u - 55296) * 1024 + (l - 56320)) +:+ t, rest)
                          else '(t, rest) ← parse_string fuel r; Some (utf8 u +:+ t, rest)
                      | None => '(t, rest) ← parse_string fuel r; Some (utf8 u +:+ t, rest)
                      end
                  | _, _ => '(t, rest) ← parse_string fuel r; Some (utf8 u +:+ t, rest)
                  end
                else
                  x ← simple_escape e;
                  '(t, rest) ← parse_string fuel s'';
                  Some (String x t, rest)
            end
          else if code c <? 32 then None
          else '(t, rest) ← parse_string fuel s'; Some (String c t, rest)
      end
  end.

(** A maximal run of digits, with its value and length. *)
Fixpoint digits (acc : Z) (n : nat) (s : string) : Z * nat * string :=
  match s with
  | String c s' => if is_digit c then digits (acc * 10 + (code c - 48)) (S n) s' else (acc, n, s)
  | EmptyString => (acc, n, s)
  end.

(** [m * 10 ^ e] correctly rounded to binary64. *)
Definition float_of_decimal (neg : bool) (m e : Z) : spec_float :=
  let f :=
    match m with
    | Z.pos p =>
        if 0 <=? e then binary_normalize 53 1024 (m * 10 ^ e) 0 false
        else SFdiv 53 1024 (S754_finite false p 0)
               (S754_finite false (Z.to_pos (10 ^ (- e))) 0)
    | _ => S754_zero false
    end in
  if neg then SFopp f else f.

Definition parse_number (s : string) : option (val * string) :=
  let '(neg, s) := match s with
                   | String c s' => if code c =? 45 then (true, s') else (false, s)
                   | _ => (false, s) end in
  match s with
  | String c s0 =>
      if negb (is_digit c) then None
      else
        let '(m, _, s1) := if code c =? 48 then (0, 1%nat, s0) else digits 0 0 s in
        let '(fm, fk, s2, isf) :=
          match s1 with
          | String p s' =>
              if code p =? 46 then
                let '(fm, k, r) := digits m 0 s' in
                if Nat.eqb k 0 then (m, 0%nat, s1, false) else (fm, k, r, true)
              else (m, 0%nat, s1, false)
          | _ => (m, 0%nat, s1, false)
          end in
        let '(ex, s3, isf) :=
          match s2 with
          | String c s' =>
              if (code c =? 101) || (code c =? 69) then
                let '(eneg, s'') :=
                  match s' with
                  | String g r => if code g =? 45 then (true, r)
                                  else if code g =? 43 then (false, r) else (false, s')
                  | _ => (false, s') end in
                let '(e, k, r) := digits 0 0 s'' in
                if Nat.eqb k 0 then (0, s2, isf) else (if eneg : bool then - e else e, r, true)
              else (0, s2, isf)
          | _ => (0, s2, isf)
          end in
        if isf : bool then Some (VFloat (float_of_decimal neg fm (ex - Z.of_nat fk)), s3)
        else Some (VInt (if neg : bool then - m else m), s3)
  | EmptyString => None
  end.

(** [Some rest] when [s] starts with [p]. *)
Fixpoint drop_prefix (p s : string) : option string :=
  match p, s with
  | EmptyString, _ => Some s
  | String c p', String d s' => if Ascii.eqb c d then drop_prefix p' s' else None
  | _, _ => None
  end.

Definition constants : list (string * val) :=
  [("null", VNone); ("true", VBool true); ("false", VBool false); ("NaN", VFloat S754_nan);
   ("Infinity", VFloat (S754_infinity false)); ("-Infinity", VFloat (S754_infinity true))].

Fixpoint parse_constant (cs : list (string * val)) (s : string) : option (val * string) :=
  match cs with
  | [] => parse_number s
  | (k, v) :: cs' =>
      match drop_prefix k s with Some r => Some (v, r) | None => parse_constant cs' s end
  end.

(** A value at the head of [s]. Every nested call consumes a character, so the length of
    the document bounds the fuel. *)
Fixpoint parse_value (fuel : nat) (s : string) : option (val * string) :=
  match fuel with
  | O => None
  | S fuel =>
      match s with
      | EmptyString => None
      | String c s' =>
          if code c =? 34 then '(t, r) ← parse_string (S (String.length s')) s'; Some (VStr t, r)
          else if code c =? 91 then
            match skip_ws s' with
            | String d r => if code d =? 93 then Some (VList [], r)
                            else '(l, r') ← parse_elems fuel (String d r); Some (VList l, r')
            | EmptyString => None
            end
          else if code c =? 123 then
            match skip_ws s' with
            | String d r => if code d =? 125 then Some (VDict [], r)
                            else '(l, r') ← parse_members fuel [] (String d r); Some (VDict l, r')
            | EmptyString => None
            end
          else parse_constant constants s
      end
  end
with parse_elems (fuel : nat) (s : string) : option (list val * string) :=
  match fuel with
  | O => None
  | S fuel =>
      '(v, r) ← parse_value fuel (skip_ws s);
      match skip_ws r with
      | String d r' =>
          if code d =? 93 then Some ([v], r')
          else if code d =? 44 then '(l, r'') ← parse_elems fuel r'; Some (v :: l, r'')
          else None
      | EmptyString => None
      end
  end
with parse_members (fuel : nat) (acc : list (string * val)) (s : string)
    : option (list (string * val) * string) :=
  match fuel with
  | O => None
  | S fuel =>
      match skip_ws s with
      | String q s' =>
          if code q =? 34 then
            '(k, r) ← parse_string (S (String.length s')) s';
            match skip_ws r with
            | String d r' =>
                if code d =? 58 then
                  '(v, r'') ← parse_value fuel (skip_ws r');
                  let acc := dict_set k v acc in
                  match skip_ws r'' with
                  | String d r3 =>
                      if code d =? 125 then Some (acc, r3)
                      else if code d =? 44 then parse_members fuel acc r3
                      else None
                  | EmptyString => None
                  end
                else None
            | EmptyString => None
            end
          else None
      | EmptyString => None
      end
  end.

Definition json_loads (s : string) : res val :=
  match parse_value (2 * S (String.length s)) (skip_ws s) with
  | Some (v, r) => if String.eqb (skip_ws r) "" then Ok v else Raise ValueError
  | None => Raise ValueError
  end.

(** ** json.dumps

    The encoder with Python's defaults: [", "] and [": "] as separators, everything outside
    printable ASCII escaped, floats as [repr] prints them. *)

Definition hex_char (n : Z) : ascii := char (if n <? 10 then 48 + n else 87 + n).

Definition u_escape (n : Z) : string :=
  String (char 92) (String "u" (String (hex_char (n / 4096 mod 16)) (String (hex_char (n / 256 mod 16))
    (String (hex_char (n / 16 mod 16)) (String (hex_char (n mod 16)) ""))))).

(** One code point; above the basic plane, a surrogate pair. *)
Definition escape_code (n : Z) : string :=
  let two c := String (char 92) (String c "") in
  match n with
  | 34 => two (char 34) | 92 => two (char 92) | 8 => two "b"%char | 12 => two "f"%char
  | 10 => two "n"%char | 13 => two "r"%char | 9 => two "t"%char
  | _ =>
      if (32 <=? n) && (n <=? 126) then String (char n) ""
      else if n <? 65536 then u_escape n
      else let v := n - 65536 in u_escape (55296 + v / 1024) +:+ u_escape (56320 + v mod 1024)
  end.

(** The code points of UTF-8 text; a stray byte stands for itself. *)
Fixpoint code_points (fuel : nat) (s : string) : list Z :=
  match fuel with
  | O => []
  | S fuel =>
      match s with
      | EmptyString => []
      | String a r =>
          let n := code a in
          let cont c := (128 <=? code c) && (code c <? 192) in
          let low c := code c - 128 in
          match r with
          | String b (String c (String d r')) =>
              if (240 <=? n) && (n <? 248) && cont b && cont c && cont d then
                (((n - 240) * 64 + low b) * 64 + low c) * 64 + low d :: code_points fuel r'
              else if (224 <=? n) && (n <? 240) && cont b && cont c then
                ((n - 224) * 64 + low b) * 64 + low c :: code_points fuel (String d r')
              else if (192 <=? n) && (n <? 224) && cont b then
                (n - 192) * 64 + low b :: code_points fuel (String c (String d r'))
              else n :: code_points fuel r
          | String b (String c "") =>
              if (224 <=? n) && (n <? 240) && cont b && cont c then
                [((n - 224) * 64 + low b) * 64 + low c]
              else if (192 <=? n) && (n <? 224) && cont b then
                (n - 192) * 64 + low b :: code_points fuel (String c "")
              else n :: code_points fuel r
          | String b "" =>
              if (192 <=? n) && (n <? 224) && cont b then [(n - 192) * 64 + low b]
              else n :: code_points fuel r
          | "" => [n]
          end
      end
  end.

Definition dumps_string (s : string) : string :=
  dquote +:+ String.concat "" (map escape_code (code_points (String.length s) s)) +:+ dquote.

(** *** repr of a float: the shortest decimal that reads back as the same number *)

(** [10 ^ k <= n / d] *)
Definition pow10_le (k n d : Z) : bool :=
  if 0 <=? k then 10 ^ k * d <=? n else d <=? n * 10 ^ (- k).

(** The decimal exponent of [n / d]: [10 ^ k <= n / d < 10 ^ (k + 1)]. *)
Definition exponent10 (n d : Z) : Z :=
  let e := (Z.log2 n - Z.log2 d) * 30103 / 100000 in
  if pow10_le (e + 2) n d then e + 2 else if pow10_le (e + 1) n d then e + 1
  else if pow10_le e n d then e else if pow10_le (e - 1) n d then e - 1 else e - 2.

(** [c * 10 ^ x] for the shortest coefficient with [k + 1] digits or more. *)
Fixpoint shortest (tries : nat) (f : spec_float) (n d k x : Z) : Z * Z :=
  let num := if 0 <=? x then n else n * 10 ^ (- x) in
  let den := if 0 <=? x then d * 10 ^ x else d in
  let q := num / den in
  let good c := SFeqb (float_of_decimal false c x) f in
  let nearer_up := den <? 2 * (num - q * den) in
  match tries with
  | O => (q, x)
  | S tries =>
      if good q && negb (nearer_up && good (q + 1)) then (q, x)
      else if good (q + 1) then (q + 1, x)
      else shortest tries f n d k (x - 1)
  end.

Fixpoint zeros (n : nat) : string := match n with O => "" | S n => String "0" (zeros n) end.

Definition repr_finite (m : positive) (e : Z) : string :=
  let n := if 0 <=? e then Z.pos m * 2 ^ e else Z.pos m in
  let d := if 0 <=? e then 1 else 2 ^ (- e) in
  let k := exponent10 n d in
  let '(c0, x0) := shortest 17 (S754_finite false m e) n d k k in
  (* a coefficient rounded up to a power of ten *)
  let digs := str_of_Z c0 in
  let len := Z.of_nat (String.length digs) in
  let point := len + x0 in
  let trimmed := rstrip_char "0" digs in
  let digs := if String.eqb trimmed "" then "0" else trimmed in
  let len := Z.of_nat (String.length digs) in
  if (-4 <? point) && (point <=? 16) then
    if point <=? 0 then "0." +:+ zeros (Z.to_nat (- point)) +:+ digs
    else if len <=? point then digs +:+ zeros (Z.to_nat (point - len)) +:+ ".0"
    else substring 0 (Z.to_nat point) digs +:+ "." +:+
         substring (Z.to_nat point) (String.length digs) digs
  else
    let ex := point - 1 in
    let mant := match digs with
                | String c "" => String c ""
                | String c r => String c (String "." r)
                | "" => ""
                end in
    mant +:+ "e" +:+ (if ex <? 0 then "-" else "+") +:+
    (if Z.abs ex <? 10 then "0" else "") +:+ str_of_Z (Z.abs ex).

Definition float_repr (f : spec_float) : string :=
  match f with
  | S754_nan => "NaN"
  | S754_infinity s => if s : bool then "-Infinity" else "Infinity"
  | S754_zero s => if s : bool then "-0.0" else "0.0"
  | S754_finite s m e => (if s : bool then "-" else "") +:+ repr_finite m e
  end.

Fixpoint json_dumps (v : val) : string :=
  match v with
  | VNone => "null"
  | VBool b => if b : bool then "true" else "false"
  | VInt z => str_of_Z z
  | VFloat f => float_repr f
  | VStr s => dumps_string s
  | VList l => "[" +:+ String.concat ", " (map json_dumps l) +:+ "]"
  | VDict d =>
      "{" +:+ String.concat ", "
        (map (λ kv, dumps_string kv.1 +:+ ": " +:+ json_dumps kv.2) d) +:+ "}"
  end.
