(* ===== verification/Sha256.v ===== *)
(** * SHA-256

    [hashlib.sha256] on bytes: 32-bit words are integers modulo 2^32. *)
From S2P Require Import Prelude PyStr Json.
#[local] Open Scope string_scope.
#[local] Open Scope list_scope.
#[local] Open Scope Z_scope.

Definition wrap32 (x : Z) : Z := Z.land x 4294967295.
Definition rotr (n x : Z) : Z := wrap32 (Z.lor (Z.shiftr x n) (Z.shiftl x (32 - n))).

(** The constants are the first 32 bits of the fractional parts of roots of primes: cube roots
    for the rounds, square roots for the initial state. *)
Definition is_prime (n : Z) : bool :=
  forallb (λ d, negb (n mod d =? 0)) (seqZ 2 (n - 2)).
Definition primes : list Z := firstn 64 (List.filter is_prime (seqZ 2 310)).

(** The integer cube root of [n], below [2 ^ bits]. *)
Fixpoint cube_root (bits : nat) (acc n : Z) : Z :=
  match bits with
  | O => acc
  | S b => let c := acc + 2 ^ Z.of_nat b in cube_root b (if c * c * c <=? n then c else acc) n
  end.

Definition round_constants : list Z :=
  Eval vm_compute in map (λ p, wrap32 (cube_root 36 0 (p * 2 ^ 96))) primes.
Definition initial_hash : list Z :=
  Eval vm_compute in map (λ p, wrap32 (Z.sqrt (p * 2 ^ 64))) (firstn 8 primes).

Fixpoint bytes_of (s : string) : list Z :=
  match s with EmptyString => [] | String c s' => code c :: bytes_of s' end.

(** [n] bytes of [x], most significant first. *)
Fixpoint big_endian (n : nat) (x : Z) : list Z :=
  match n with
  | O => []
  | S n => Z.shiftr x (8 * Z.of_nat n) mod 256 :: big_endian n x
  end.

(** The message, a one bit, zeros, and the length in bits, in whole blocks of 64 bytes. *)
Definition pad (m : list Z) : list Z :=
  let len := Z.of_nat (length m) in
  m ++ [128] ++ repeat 0 (Z.to_nat ((55 - len) mod 64)) ++ big_endian 8 (8 * len).

Fixpoint words_of (l : list Z) : list Z :=
  match l with
  | a :: b :: c :: d :: l' => (((a * 256 + b) * 256 + c) * 256 + d) :: words_of l'
  | _ => []
  end.

(** The message schedule, newest word first: [w_t] from [w_(t-2)], [w_(t-7)], [w_(t-15)] and
    [w_(t-16)]. *)
Fixpoint schedule (n : nat) (ws : list Z) : list Z :=
  match n with
  | O => ws
  | S n =>
      let g i := nth i ws 0 in
      let s1 := let x := g 1%nat in
                Z.lxor (Z.lxor (rotr 17 x) (rotr 19 x)) (Z.shiftr x 10) in
      let s0 := let x := g 14%nat in
                Z.lxor (Z.lxor (rotr 7 x) (rotr 18 x)) (Z.shiftr x 3) in
      schedule n (wrap32 (s1 + g 6%nat + s0 + g 15%nat) :: ws)
  end.

Definition round (st : list Z) (kw : Z * Z) : list Z :=
  match st with
  | [a; b; c; d; e; f; g; h] =>
      let S1 := Z.lxor (Z.lxor (rotr 6 e) (rotr 11 e)) (rotr 25 e) in
      let ch := Z.lxor (Z.land e f) (Z.land (Z.lxor e 4294967295) g) in
      let t1 := h + S1 + ch + kw.1 + kw.2 in
      let S0 := Z.lxor (Z.lxor (rotr 2 a) (rotr 13 a)) (rotr 22 a) in
      let maj := Z.lxor (Z.lxor (Z.land a b) (Z.land a c)) (Z.land b c) in
      [wrap32 (t1 + S0 + maj); a; b; c; wrap32 (d + t1); e; f; g]
  | _ => st
  end.

Definition compress (h : list Z) (block : list Z) : list Z :=
  let ws := rev (schedule 48 (rev (words_of block))) in
  let st := foldl round h (zip round_constants ws) in
  zip_with (λ x y, wrap32 (x + y)) h st.

(** The blocks of 64 bytes of a padded message. *)
Fixpoint compress_all (n : nat) (h : list Z) (l : list Z) : list Z :=
  match n with
  | O => h
  | S n => compress_all n (compress h (firstn 64 l)) (skipn 64 l)
  end.

Definition sha256 (s : string) : list Z :=
  let p := pad (bytes_of s) in
  compress_all (length p / 64) initial_hash p.

(** Eight hexadecimal digits of a word. *)
Fixpoint hex_digits (n : nat) (x : Z) : string :=
  match n with
  | O => ""
  | S n => String (hex_char (Z.shiftr x (4 * Z.of_nat n) mod 16)) (hex_digits n x)
  end.

Definition hexdigest (s : string) : string :=
  String.concat "" (map (hex_digits 8) (sha256 s)).

(** The test vectors of FIPS 180-4. *)
Example sha256_empty :
  hexdigest "" = "e3b0c44298fc1c149afbf4c8996fb92427ae41e4649b934ca495991b7852b855".
Proof. vm_compute. reflexivity. Qed.
Example sha256_abc :
  hexdigest "abc" = "ba7816bf8f01cfea414140de5dae2223b00361a396177a9cb410ff61f20015ad".
Proof. vm_compute. reflexivity. Qed.
Example sha256_two_blocks :
  hexdigest "abcdbcdecdefdefgefghfghighijhijkijkljklmklmnlmnomnopnopq"
  = "248d6a61d20638b8e5c026930c3e6039a33ce45964ff2167f6ecedd419db06c1".
Proof. vm_compute. reflexivity. Qed.

(** ** The shape of a digest *)

Definition is_hex (c : ascii) : bool :=
  is_digit c || ((97 <=? code c) && (code c <=? 102)).

Lemma hex_char_is_hex n : 0 <= n < 16 → is_hex (hex_char n) = true.
Proof.
  intros H. assert (forallb (λ m, is_hex (hex_char m)) (seqZ 0 16) = true) as Hf
    by (vm_compute; reflexivity).
  rewrite forallb_forall in Hf. apply Hf, list_elem_of_In, elem_of_seqZ. lia.
Qed.

Lemma hex_digits_shape n x :
  String.length (hex_digits n x) = n ∧ all_chars is_hex (hex_digits n x) = true.
Proof.
  induction n as [|n [IH1 IH2]]; [done|]. cbn [hex_digits String.length all_chars].
  rewrite IH1, IH2, hex_char_is_hex; [done|]. apply Z.mod_pos_bound. lia.
Qed.

Lemma round_length st kw : length st = 8%nat → length (round st kw) = 8%nat.
Proof. do 9 (destruct st as [|? st]; try done). Qed.

Lemma compress_length h b : length h = 8%nat → length (compress h b) = 8%nat.
Proof.
  intros Hh. unfold compress. rewrite length_zip_with.
  assert (∀ l st, length st = 8%nat → length (foldl round st l) = 8%nat) as Hf.
  { induction l as [|x l IH]; intros st Hst; simpl; [done|]. by apply IH, round_length. }
  rewrite Hf by done. lia.
Qed.

Lemma sha256_length s : length (sha256 s) = 8%nat.
Proof.
  unfold sha256. generalize (length (pad (bytes_of s)) / 64)%nat as n.
  generalize (pad (bytes_of s)) as l. generalize initial_hash (eq_refl : length initial_hash = 8%nat).
  intros h Hh l n. revert h l Hh. induction n as [|n IH]; intros h l Hh; simpl; [done|].
  by apply IH, compress_length.
Qed.

Lemma concat_shape (l : list string) p k :
  Forall (λ s, String.length s = k ∧ all_chars p s = true) l →
  String.length (String.concat "" l) = (length l * k)%nat ∧
  all_chars p (String.concat "" l) = true.
Proof.
  assert (∀ s t, String.length (s +:+ t) = (String.length s + String.length t)%nat) as Hl.
  { induction s as [|c s IH]; intros t; simpl; [done|]. by rewrite IH. }
  induction 1 as [|s l [Hs Hp] Hl' [IH1 IH2]]; [done|].
  destruct l as [|t l]; [cbn in *; split; [lia|done]|].
  change (String.concat "" (s :: t :: l)) with (s +:+ "" +:+ String.concat "" (t :: l)).
  cbn [String.append]. rewrite Hl, all_chars_app, IH1, Hs, Hp, IH2. simpl. split; [lia|done].
Qed.

Lemma hexdigest_shape s :
  String.length (hexdigest s) = 64%nat ∧ all_chars is_hex (hexdigest s) = true.
Proof.
  unfold hexdigest. destruct (concat_shape (map (hex_digits 8) (sha256 s)) is_hex 8) as [H1 H2].
  - apply Forall_map, Forall_true. intros x. apply hex_digits_shape.
  - split; [|done]. by rewrite H1, length_map, sha256_length.
Qed.
