(* ===== verification/Calendar.v ===== *)
(** * time.gmtime and time.strftime

    The Gregorian calendar in UTC, for the two formats the emitter uses. Years below 1000 are
    padded to four digits. *)
From S2P Require Import Prelude PyStr.
#[local] Open Scope string_scope.
#[local] Open Scope list_scope.
#[local] Open Scope Z_scope.

(** The day of the 400-year era starting on 1 March, as (year of the era, month counted from
    March, day of the month). *)
Definition era_day (doe : Z) : Z * Z * Z :=
  let yoe := (doe - doe / 1460 + doe / 36524 - doe / 146096) / 365 in
  let doy := doe - (365 * yoe + yoe / 4 - yoe / 100) in
  let mp := (5 * doy + 2) / 153 in
  (yoe, mp, doy - (153 * mp + 2) / 5 + 1).

(** Year, month and day of a number of days since 1 January 1970. *)
Definition civil (days : Z) : Z * Z * Z :=
  let z := days + 719468 in
  let '(yoe, mp, d) := era_day (z mod 146097) in
  let m := if mp <? 10 then mp + 3 else mp - 9 in
  (yoe + z / 146097 * 400 + (if m <=? 2 then 1 else 0), m, d).

Record tm := { year : Z; month : Z; day : Z; hour : Z; minute : Z; second : Z }.

Definition gmtime (ts : Z) : tm :=
  let '(y, m, d) := civil (ts / 86400) in
  let s := ts mod 86400 in
  {| year := y; month := m; day := d; hour := s / 3600; minute := s mod 3600 / 60;
     second := s mod 60 |}.

Definition pad2 (n : Z) : string := if n <? 10 then String "0" (str_of_Z n) else str_of_Z n.
Definition pad4 (n : Z) : string :=
  if n <? 10 then "000" +:+ str_of_Z n else if n <? 100 then "00" +:+ str_of_Z n
  else if n <? 1000 then "0" +:+ str_of_Z n else str_of_Z n.

(** ["%Y-%m-%d<sep>%H:%M:%S<tail>"] *)
Definition strftime (sep tail : string) (t : tm) : string :=
  pad4 (year t) +:+ "-" +:+ pad2 (month t) +:+ "-" +:+ pad2 (day t) +:+ sep +:+
  pad2 (hour t) +:+ ":" +:+ pad2 (minute t) +:+ ":" +:+ pad2 (second t) +:+ tail.

(** ** The calendar *)

Definition leap (y : Z) : bool :=
  (y mod 4 =? 0) && (negb (y mod 100 =? 0) || (y mod 400 =? 0)).

Definition month_days (y m : Z) : Z :=
  if m =? 2 then if leap y then 29 else 28
  else if (m =? 4) || (m =? 6) || (m =? 9) || (m =? 11) then 30 else 31.

Definition next_day (c : Z * Z * Z) : Z * Z * Z :=
  let '(y, m, d) := c in
  if d <? month_days y m then (y, m, d + 1)
  else if m <? 12 then (y, m + 1, 1) else (y + 1, 1, 1).

(** The inverse of [civil]. *)
Definition days_of (c : Z * Z * Z) : Z :=
  let '(y, m, d) := c in
  let y := if m <=? 2 then y - 1 else y in
  let yoe := y mod 400 in
  let mp := if 2 <? m then m - 3 else m + 9 in
  let doy := (153 * mp + 2) / 5 + d - 1 in
  y / 400 * 146097 + (yoe * 365 + yoe / 4 - yoe / 100 + doy) - 719468.

(** [p] holds from [z] on, [n] times. *)
Fixpoint all_from (p : Z → bool) (n : nat) (z : Z) : bool :=
  match n with O => true | S n => p z && all_from p n (z + 1) end.

Lemma all_from_spec p n z x : all_from p n z = true → z <= x < z + Z.of_nat n → p x = true.
Proof.
  revert z. induction n as [|n IH]; intros z; [lia|]. cbn [all_from].
  intros [Hp Ha]%andb_prop Hx. destruct (Z.eq_dec x z) as [->|]; [done|].
  apply (IH (z + 1)); [done|]. lia.
Qed.

(** The first day of a year of the era, and the day count its year is read from. *)
Definition year_start (y : Z) : Z := 365 * y + y / 4 - y / 100.
Definition year_count (doe : Z) : Z := doe - doe / 1460 + doe / 36524 - doe / 146096.

Lemma year_count_mono a b : a <= b → year_count a <= year_count b.
Proof.
  intros H. unfold year_count.
  replace 146096 with (36524 * 4) by lia. rewrite <- !Z.div_div by lia.
  pose proof (Z.div_le_mono a b 36524 ltac:(lia) H) as H1. revert H1.
  generalize (a / 36524) (b / 36524). intros x y Hxy.
  Z.to_euclidean_division_equations. lia.
Qed.

(** Checked for each of the 400 years and each day of a year. *)
Definition year_ok (y : Z) : bool :=
  (365 * y <=? year_count (year_start y)) &&
  (year_count (year_start (y + 1) - 1) <? 365 * (y + 1)).
Definition day_ok (doy : Z) : bool :=
  let mp := (5 * doy + 2) / 153 in
  let d := doy - (153 * mp + 2) / 5 + 1 in
  (0 <=? mp) && (mp <? 12) && (1 <=? d) && (d <=? 31).

Lemma years_computed : all_from year_ok 399 0 = true.
Proof. vm_compute. reflexivity. Qed.
Lemma days_computed : all_from day_ok 366 0 = true.
Proof. vm_compute. reflexivity. Qed.

(** A day lies in the year its count names; the last year of the era has the extra leap day. *)
Lemma year_bounds doe :
  0 <= doe < 146097 →
  0 <= year_count doe / 365 < 400 ∧
  0 <= doe - year_start (year_count doe / 365) < 366.
Proof.
  intros Hd. set (y := year_count doe / 365).
  assert (0 <= y < 400) as Hy.
  { unfold y. pose proof (year_count_mono 0 doe ltac:(lia)) as H1.
    pose proof (year_count_mono doe 146096 ltac:(lia)) as H2.
    change (year_count 0) with 0 in H1. change (year_count 146096) with 145999 in H2.
    split; [apply Z.div_pos; lia|apply Z.div_lt_upper_bound; lia]. }
  split; [done|].
  assert (365 * y <= year_count doe < 365 * (y + 1)) as [Hl Hu].
  { unfold y. pose proof (Z.div_mod (year_count doe) 365 ltac:(lia)).
    pose proof (Z.mod_pos_bound (year_count doe) 365 ltac:(lia)). lia. }
  clearbody y.
  assert (∀ k, 0 <= k < 399 → year_ok k = true) as Hok.
  { intros k Hk. apply (all_from_spec _ _ _ _ years_computed). lia. }
  assert (year_start y <= doe) as H1.
  { destruct (Z.le_gt_cases (year_start y) doe) as [|Hlt]; [done|].
    destruct (Z.eq_dec y 0) as [E|Hy0]; [subst y; change (year_start 0) with 0 in Hlt; lia|].
    specialize (Hok (y - 1) ltac:(lia)). unfold year_ok in Hok.
    replace (y - 1 + 1) with y in Hok by lia.
    apply andb_prop in Hok as [_ Hk%Z.ltb_lt].
    pose proof (year_count_mono doe (year_start y - 1) ltac:(lia)). lia. }
  assert (doe < year_start y + 366) as H2; [|lia].
  destruct (Z.eq_dec y 399) as [E|Hy9].
  { rewrite E. change (year_start 399) with 145731. lia. }
  destruct (Z.eq_dec y 398) as [E|Hy8].
  { rewrite E in *. change (year_start 398) with 145366.
    destruct (Z.le_gt_cases (145366 + 366) doe) as [Hge|]; [|done].
    pose proof (year_count_mono (145366 + 366) doe Hge) as Hm.
    change (year_count (145366 + 366)) with 145636 in Hm. lia. }
  pose proof (Hok (y + 1) ltac:(lia)) as Hk. unfold year_ok in Hk.
  apply andb_prop in Hk as [Hk%Z.leb_le _].
  destruct (Z.le_gt_cases (year_start (y + 1)) doe) as [Hge|Hlt].
  { pose proof (year_count_mono _ _ Hge). lia. }
  revert Hlt. unfold year_start. Z.to_euclidean_division_equations. lia.
Qed.

Lemma era_spec doe yoe mp d :
  0 <= doe < 146097 → era_day doe = (yoe, mp, d) →
  0 <= yoe < 400 ∧ 0 <= mp < 12 ∧ 1 <= d <= 31 ∧
  yoe * 365 + yoe / 4 - yoe / 100 + ((153 * mp + 2) / 5 + d - 1) = doe.
Proof.
  intros Hd He. destruct (year_bounds doe Hd) as [Hy Hs]. unfold era_day in He.
  change (doe - doe / 1460 + doe / 36524 - doe / 146096) with (year_count doe) in He.
  set (y := year_count doe / 365) in *. unfold year_start in Hs.
  assert (day_ok (doe - (365 * y + y / 4 - y / 100)) = true) as H.
  { apply (all_from_spec _ _ _ _ days_computed). lia. }
  unfold day_ok in H. set (doy := doe - (365 * y + y / 4 - y / 100)) in *.
  rewrite !andb_true_iff in H. destruct_and!. injection He as <- <- <-.
  repeat match goal with
  | H : (_ <=? _) = true |- _ => apply Z.leb_le in H
  | H : (_ <? _) = true |- _ => apply Z.ltb_lt in H
  end. unfold doy in *. lia.
Qed.

Lemma days_of_civil n : days_of (civil n) = n.
Proof.
  unfold civil. set (z := n + 719468).
  assert (0 <= z mod 146097 < 146097) as Hz by (apply Z.mod_pos_bound; lia).
  destruct (era_day (z mod 146097)) as [[yoe mp] d] eqn:He.
  destruct (era_spec _ _ _ _ Hz He) as (Hy & Hm & Hd & Hs).
  pose proof (Z.div_mod z 146097 ltac:(lia)) as Hdm.
  unfold days_of.
  set (q := z / 146097) in *. clearbody q.
  assert (∀ m, (if m <=? 2 then yoe + q * 400 + (if m <=? 2 then 1 else 0) - 1
          else yoe + q * 400 + (if m <=? 2 then 1 else 0)) = yoe + q * 400) as ->.
  { intros m. destruct (m <=? 2); lia. }
  rewrite Z.mod_add, Z.div_add, Z.mod_small, (Z.div_small yoe) by lia.
  assert ((if 2 <? (if mp <? 10 then mp + 3 else mp - 9)
           then (if mp <? 10 then mp + 3 else mp - 9) - 3
           else (if mp <? 10 then mp + 3 else mp - 9) + 9) = mp) as ->.
  { destruct (Z.ltb_spec mp 10); [destruct (Z.ltb_spec 2 (mp + 3))|destruct (Z.ltb_spec 2 (mp - 9))];
      lia. }
  unfold z in *. lia.
Qed.

Lemma civil_bounds n y m d : civil n = (y, m, d) → 1 <= m <= 12 ∧ 1 <= d <= 31.
Proof.
  unfold civil. set (z := n + 719468).
  assert (0 <= z mod 146097 < 146097) as Hz by (apply Z.mod_pos_bound; lia).
  destruct (era_day (z mod 146097)) as [[yoe mp] e] eqn:He.
  destruct (era_spec _ _ _ _ Hz He) as (Hy & Hm & Hd & Hs). intros [= <- <- <-].
  split; [|done]. destruct (Z.ltb_spec mp 10); lia.
Qed.

(** The seconds since the epoch of a broken-down time. *)
Definition timegm (t : tm) : Z :=
  days_of (year t, month t, day t) * 86400 + hour t * 3600 + minute t * 60 + second t.

Lemma timegm_gmtime ts : timegm (gmtime ts) = ts.
Proof.
  unfold timegm, gmtime. destruct (civil (ts / 86400)) as [[y m] d] eqn:Hc. cbn.
  pose proof (days_of_civil (ts / 86400)) as Hd. rewrite Hc in Hd. unfold days_of in Hd.
  cbv beta iota zeta in *. rewrite Hd.
  pose proof (Z.div_mod ts 86400 ltac:(lia)) as H1.
  pose proof (Z.div_mod (ts mod 86400) 3600 ltac:(lia)) as H2.
  pose proof (Z.div_mod ((ts mod 86400) mod 3600) 60 ltac:(lia)) as H3.
  assert (((ts mod 86400) mod 3600) mod 60 = (ts mod 86400) mod 60) as H4.
  { apply Z.mod_mod_divide. by exists 60. }
  lia.
Qed.

Lemma gmtime_bounds ts :
  1 <= month (gmtime ts) <= 12 ∧ 1 <= day (gmtime ts) <= 31 ∧ 0 <= hour (gmtime ts) < 24 ∧
  0 <= minute (gmtime ts) < 60 ∧ 0 <= second (gmtime ts) < 60.
Proof.
  unfold gmtime. destruct (civil (ts / 86400)) as [[y m] d] eqn:Hc.
  destruct (civil_bounds _ _ _ _ Hc). cbn.
  assert (0 <= ts mod 86400 < 86400) by (apply Z.mod_pos_bound; lia).
  assert (0 <= (ts mod 86400) mod 3600 < 3600) by (apply Z.mod_pos_bound; lia).
  assert (0 <= (ts mod 86400) mod 60 < 60) by (apply Z.mod_pos_bound; lia).
  split_and!; try lia; try (apply Z.div_pos; lia); apply Z.div_lt_upper_bound; lia.
Qed.

(** ** The formats tell times apart *)

(** The first second of the year 10000. *)
Definition year_10000 : Z := 253402300800.

Lemma civil_year n : 0 <= n < 2932897 → 1970 <= (civil n).1.1 + 1 ∧ (civil n).1.1 < 10000.
Proof.
  intros Hn. unfold civil. set (z := n + 719468).
  assert (0 <= z mod 146097 < 146097) as Hz by (apply Z.mod_pos_bound; lia).
  pose proof (Z.div_mod z 146097 ltac:(lia)) as Hdm.
  destruct (era_day (z mod 146097)) as [[yoe mp] d] eqn:He.
  destruct (era_spec _ _ _ _ Hz He) as (Hy & Hm & Hd & Hs). cbn [fst].
  assert (z / 146097 <= 24) by (apply Z.lt_succ_r, Z.div_lt_upper_bound; lia).
  assert (4 <= z / 146097) by (apply Z.div_le_lower_bound; lia).
  assert (z / 146097 = 4 → 369 <= yoe) as Hlow.
  { intros E. destruct (Z.le_gt_cases 369 yoe) as [|Hlt]; [done|].
    assert (z mod 146097 >= 719468 - 4 * 146097) by lia.
    assert (yoe * 365 + yoe / 4 - yoe / 100 <= 368 * 365 + 92 - 3).
    { clear -Hy Hlt. Z.to_euclidean_division_equations. lia. }
    assert ((153 * mp + 2) / 5 + d - 1 <= 337 + 31 - 1).
    { clear -Hm Hd. Z.to_euclidean_division_equations. lia. }
    lia. }
  assert (z / 146097 = 24 → yoe = 399 → mp < 10) as Hhigh.
  { intros E ->. change (399 / 4) with 99 in *. change (399 / 100) with 3 in *.
    destruct (Z.lt_ge_cases mp 10) as [|Hge]; [done|].
    assert (306 <= (153 * mp + 2) / 5) by (apply Z.div_le_lower_bound; lia). lia. }
  destruct (Z.ltb_spec mp 10).
  - destruct (Z.leb_spec (mp + 3) 2); lia.
  - destruct (Z.leb_spec (mp - 9) 2); lia.
Qed.

Lemma append_inj_length a b s t :
  String.length a = String.length b → a +:+ s = b +:+ t → a = b ∧ s = t.
Proof.
  revert b. induction a as [|c a IH]; intros [|d b]; simpl; try done.
  intros [= Hl] [= -> H]. destruct (IH _ Hl H) as [-> ->]. done.
Qed.

(** The paddings, checked for each number they are used on. *)
Definition pad2_ok (n : Z) : bool :=
  Nat.eqb (String.length (pad2 n)) 2 &&
  match py_int (pad2 n) with Ok m => m =? n | _ => false end.
Definition pad4_ok (n : Z) : bool :=
  Nat.eqb (String.length (pad4 n)) 4 &&
  match py_int (pad4 n) with Ok m => m =? n | _ => false end.

Lemma pad2_computed : all_from pad2_ok 100 0 = true.
Proof. vm_compute. reflexivity. Qed.
Lemma pad4_computed : all_from pad4_ok (Z.to_nat 10000) 0 = true.
Proof. vm_compute. reflexivity. Qed.

Lemma pad2_spec n : 0 <= n < 100 → String.length (pad2 n) = 2%nat ∧ py_int (pad2 n) = Ok n.
Proof.
  intros Hn. assert (pad2_ok n = true) as H.
  { apply (all_from_spec _ _ _ _ pad2_computed). lia. }
  unfold pad2_ok in H. apply andb_prop in H as [H1%Nat.eqb_eq H2]. split; [done|].
  destruct (py_int (pad2 n)); [|done]. by apply Z.eqb_eq in H2 as ->.
Qed.

Lemma pad4_spec n : 0 <= n < 10000 → String.length (pad4 n) = 4%nat ∧ py_int (pad4 n) = Ok n.
Proof.
  intros Hn. assert (pad4_ok n = true) as H.
  { apply (all_from_spec _ _ _ _ pad4_computed). lia. }
  unfold pad4_ok in H. apply andb_prop in H as [H1%Nat.eqb_eq H2]. split; [done|].
  destruct (py_int (pad4 n)); [|done]. by apply Z.eqb_eq in H2 as ->.
Qed.

Lemma pad2_step a b s t :
  0 <= a < 100 → 0 <= b < 100 → pad2 a +:+ s = pad2 b +:+ t → a = b ∧ s = t.
Proof.
  intros Ha Hb H. destruct (pad2_spec a Ha) as [La Ea], (pad2_spec b Hb) as [Lb Eb].
  apply append_inj_length in H as [E ->]; [|by rewrite La, Lb]. split; [|done]. congruence.
Qed.

Lemma gmtime_year ts : 0 <= ts < year_10000 → 0 <= year (gmtime ts) < 10000.
Proof.
  unfold year_10000. intros Hts.
  assert (0 <= ts / 86400 < 2932897) as Hd.
  { split; [apply Z.div_pos; lia|apply Z.div_lt_upper_bound; lia]. }
  pose proof (civil_year _ Hd) as Hy. unfold gmtime.
  destruct (civil (ts / 86400)) as [[y m] d]. cbn in *. lia.
Qed.

(** Two times of the years 1970 to 9999 that print alike are the same second. *)
Lemma strftime_inj sep tail a b :
  0 <= a < year_10000 → 0 <= b < year_10000 →
  strftime sep tail (gmtime a) = strftime sep tail (gmtime b) → a = b.
Proof.
  intros Ha Hb H. rewrite <- (timegm_gmtime a), <- (timegm_gmtime b).
  pose proof (gmtime_year a Ha) as Hya. pose proof (gmtime_year b Hb) as Hyb.
  pose proof (gmtime_bounds a) as (?&?&?&?&?). pose proof (gmtime_bounds b) as (?&?&?&?&?).
  destruct (gmtime a) as [y m d h mi s], (gmtime b) as [y' m' d' h' mi' s'].
  cbn [year month day hour minute second] in *. unfold strftime in H.
  cbn [year month day hour minute second] in *.
  destruct (pad4_spec y Hya) as [La Ea], (pad4_spec y' Hyb) as [Lb Eb].
  apply append_inj_length in H as [E H]; [|by rewrite La, Lb].
  assert (y = y') as -> by congruence.
  apply append_inj_l in H. apply pad2_step in H as [-> H]; [|lia..].
  apply append_inj_l in H. apply pad2_step in H as [-> H]; [|lia..].
  apply append_inj_l in H. apply pad2_step in H as [-> H]; [|lia..].
  apply append_inj_l in H. apply pad2_step in H as [-> H]; [|lia..].
  apply append_inj_l in H. apply pad2_step in H as [-> H]; [|lia..]. done.
Qed.
