(* ===== verification/ComponentDag.v ===== *)
(** * hack/validate-component-dag.py: the component DAG is closed, acyclic and renders

    The umbrella chart declares components with dependencies; the orchestrator emits a
    component's Composition once every dependency reports Ready.  The gate refuses a
    dependency nobody declares, a dependency cycle, a [kind] core-provider will not serve,
    and a chart that does not render. *)
From S2P Require Import Prelude PyStr PyVal Graphs.
#[local] Open Scope string_scope.
#[local] Open Scope list_scope.

Module ComponentDag.

(** What the gate reads of one entry of the umbrella's [components]. *)
Record component := Component {
  c_kind : val;
  c_deps : list string;
  c_tier : string;
}.

Inductive problem :=
  | MissingDep (n d : string)
  | Cycle (path : list string)
  | WrongKind (n : string) (got : val) (want : string)
  | NoChart (n : string)
  | RenderFailed (n : string) (stderr : string)
  | RenderedNothing (n : string).

(** An entry of the [components] list: its name and the fields used below. *)
Definition read_component (c : val) : res (string * component) :=
  let* nm := getitem c "name" in
  let* nm := as_str nm in
  let* k := get c "kind" in
  let* ds := get_iter c "deps" in
  let* ds := mapM as_str ds in
  let* t := get_default c "tier" (VStr "?") in
  let* t := as_str t in
  Ok (nm, Component k ds t).

(** [{c["name"]: c for c in umbrella.get("components") or []}]: a repeated name keeps the
    last entry. *)
Definition read_components (umbrella : val) : res (gmap string component) :=
  let* l := get_iter umbrella "components" in
  foldM (λ m c, let* (nm, r) := read_component c in Ok (<[nm := r]> m)) ∅ l.

(** [sorted(names)] *)
Definition sorted_names (comps : gmap string component) : list string :=
  sorted_strs (elements (dom comps)).

(** 1. closure *)
Definition missing_deps (comps : gmap string component) : list problem :=
  flat_map (λ n,
    match comps !! n with
    | Some c => flat_map (λ d, if decide (d ∈ dom comps) then [] else [MissingDep n d]) (c_deps c)
    | None => []
    end) (sorted_names comps).

(** 2. acyclicity: depth-first search with three colours *)
Inductive colour := White | Grey | Black.
#[export] Instance colour_eq_dec : EqDecision colour.
Proof. solve_decision. Defined.

Record dfs := Dfs { state : gmap string colour; cycles : list problem }.

(** [visit(n, stack)]. The fuel is the recursion depth left before Python raises
    [RecursionError]. *)
Fixpoint visit (fuel : nat) (comps : gmap string component)
    (n : string) (stack : list string) (st : dfs) : res dfs :=
  match fuel with
  | O => Raise RecursionError
  | S fuel =>
      match state st !! n with
      | None => Raise (KeyError n)
      | Some Grey => Ok (Dfs (state st) (cycles st ++ [Cycle (stack ++ [n])]))
      | Some Black => Ok st
      | Some White =>
          let* st' := foldM (λ st d,
              if decide (d ∈ dom comps) then visit fuel comps d (stack ++ [n]) st else Ok st)
            (Dfs (<[n := Grey]> (state st)) (cycles st))
            (from_option c_deps [] (comps !! n)) in
          Ok (Dfs (<[n := Black]> (state st')) (cycles st'))
      end
  end.

Definition find_cycles (fuel : nat) (comps : gmap string component) : res (list problem) :=
  let* st := foldM (λ st n, visit fuel comps n [] st)
               (Dfs ((λ _, White) <$> comps) []) (sorted_names comps) in
  Ok (cycles st).

(** 3. [kind] is the capitalised name, the kind core-provider serves *)
Definition wrong_kinds (comps : gmap string component) : list problem :=
  flat_map (λ n,
    match comps !! n with
    | Some c => if eq_str (c_kind c) (capitalize n) then []
                else [WrongKind n (c_kind c) (capitalize n)]
    | None => []
    end) (sorted_names comps).

Section Charts.
  (** [Chart.yaml] of a component exists; and the result (status, stdout, stderr) of
      [helm template] on its copied chart. *)
  Context (chart_exists : string → bool) (helm_template : string → Z * string * string).

Definition SKIP_RENDER : list string := ["openstack"].

  (** 4. a chart exists, and renders *)
Definition check_render (n : string) : list problem * nat :=
    if negb (chart_exists n) then ([NoChart n], 0)
    else if decide (n ∈ SKIP_RENDER) then ([], 0)
    else
      let '(rc, out, err) := helm_template n in
      if negb (rc =? 0)%Z then ([RenderFailed n err], 0)
      else if String.eqb (strip out) "" then ([RenderedNothing n], 0)
      else ([], 1).

Definition check_renders (comps : gmap string component) : list problem * nat :=
    foldl (λ acc n, let '(p, r) := check_render n in (acc.1 ++ p, acc.2 + r)%nat)
      ([], 0) (sorted_names comps).

  (** Exit status 2 when nothing could be measured, 1 with the problems, 0 with the number
      of components and of rendered charts. *)
Inductive outcome :=
    | NotMeasured
    | Failed (ps : list problem)
    | Passed (components rendered : nat).

Definition exit_status (o : outcome) : Z :=
    match o with NotMeasured => 2 | Failed _ => 1 | Passed _ _ => 0 end.

Definition gate (fuel : nat) (umbrella : option val) : res outcome :=
    match umbrella with
    | None => Ok NotMeasured
    | Some u =>
        let* comps := read_components u in
        if (size comps =? 0)%nat then Ok NotMeasured
        else
          let* cyc := find_cycles fuel comps in
          let '(rp, rendered) := check_renders comps in
          match missing_deps comps ++ cyc ++ wrong_kinds comps ++ rp with
          | [] => Ok (Passed (size comps) rendered)
          | ps => Ok (Failed ps)
          end
    end.
End Charts.

(** ** Specification *)

(** [x] declares the declared component [y] as a dependency. *)
Definition edge (comps : gmap string component) (x y : string) : Prop :=
  ∃ c, comps !! x = Some c ∧ y ∈ c_deps c ∧ y ∈ dom comps.

(** What the orchestrator does: a component is emitted, and becomes Ready, once it is
    declared and every name in its [deps] is. *)
Inductive emitted (comps : gmap string component) : string → Prop :=
  | emit n c : comps !! n = Some c → (∀ d, d ∈ c_deps c → emitted comps d) → emitted comps n.

(** A reported path is a walk of declared dependencies that returns to a node on it. *)
Definition genuine (comps : gmap string component) (p : problem) : Prop :=
  ∃ pre n, p = Cycle (pre ++ [n]) ∧ n ∈ pre ∧ walk (edge comps) (pre ++ [n]).

(** A chart that exists and, unless it is the umbrella itself, renders something. *)
Definition renders (chart_exists : string → bool)
    (helm_template : string → Z * string * string) (n : string) : Prop :=
  chart_exists n = true ∧
  (n = "openstack" ∨ ∃ out err, helm_template n = (0%Z, out, err) ∧ strip out ≠ "").

(** ** The depth-first search *)

Section Dfs.
  Context (comps : gmap string component).

Definition whites (col : gmap string colour) : gset string :=
    filter (λ n, col !! n = Some White) (dom comps).

  (** What holds on entry to [visit]: the stack is the grey path. *)
Record entry_ok (col : gmap string colour) (stack : list string) : Prop := {
    eo_dom : dom col = dom comps;
    eo_grey : ∀ x, col !! x = Some Grey ↔ x ∈ stack;
  }.

Definition black_ready (col : gmap string colour) : Prop :=
    ∀ x, col !! x = Some Black → becomes_ready (edge comps) x.

  (** What a completed visit (or a run of visits of [ns]) guarantees. *)
Record visited (ns stack : list string) (st st' : dfs) : Prop := {
    v_entry : entry_ok (state st') stack;
    v_whites : whites (state st') ⊆ whites (state st);
    v_black : ∀ x, state st !! x = Some Black → state st' !! x = Some Black;
    v_done : ∀ n, n ∈ ns → n ∈ dom comps → state st' !! n ≠ Some White;
    v_new : ∃ new, cycles st' = cycles st ++ new ∧ Forall (genuine comps) new ∧
      (new = [] → black_ready (state st) →
        black_ready (state st') ∧
        ∀ n, n ∈ ns → n ∈ dom comps → state st' !! n = Some Black);
  }.

Lemma visited_nil stack st : entry_ok (state st) stack → visited [] stack st st.
  Proof.
    intros He. split; try set_solver. exists []. rewrite app_nil_r. split_and!; [done..|].
    intros _ Hb. split; [done|]. set_solver.
  Qed.

Lemma visited_cons n ns stack st1 st2 st3 :
    visited [n] stack st1 st2 → visited ns stack st2 st3 → visited (n :: ns) stack st1 st3.
  Proof.
    intros [He1 Hw1 Hb1 Hd1 (new1 & Hc1 & Hg1 & Hr1)] [He2 Hw2 Hb2 Hd2 (new2 & Hc2 & Hg2 & Hr2)].
    assert (∀ x, x ∈ dom comps → state st2 !! x ≠ Some White → state st3 !! x ≠ Some White)
      as Hnw.
    { intros x Hx Hw Hw'. assert (x ∈ whites (state st3)) as H3 by (by apply elem_of_filter).
      apply Hw2, elem_of_filter in H3 as [??]. done. }
    split; [done|set_solver|auto| |].
    - intros x [->|Hx]%elem_of_cons Hdom; [|auto]. apply Hnw; [done|]. apply Hd1; set_solver.
    - exists (new1 ++ new2). rewrite Hc2, Hc1, <- app_assoc. split_and!; [done|by apply Forall_app_2|].
      intros [-> ->]%app_eq_nil Hb. destruct (Hr1 eq_refl Hb) as [Hb' Hn].
      destruct (Hr2 eq_refl Hb') as [Hb'' Hns]. split; [done|].
      intros x [->|Hx]%elem_of_cons Hdom; [|auto]. apply Hb2, Hn; set_solver.
  Qed.

  (** The search below one node, given its specification one level down. *)
Definition visit_spec (fuel : nat) : Prop := ∀ n stack st,
    entry_ok (state st) stack → n ∈ dom comps →
    walk (edge comps) (stack ++ [n]) → NoDup stack →
    size (whites (state st)) < fuel →
    ∃ st', visit fuel comps n stack st = Ok st' ∧ visited [n] stack st st'.

Lemma visit_deps fuel stack : visit_spec fuel → NoDup stack → ∀ ds st,
    entry_ok (state st) stack →
    (∀ d, d ∈ ds → d ∈ dom comps → walk (edge comps) (stack ++ [d])) →
    size (whites (state st)) < fuel →
    ∃ st', foldM (λ st d,
        if decide (d ∈ dom comps) then visit fuel comps d stack st else Ok st) st ds = Ok st'
      ∧ visited ds stack st st'.
  Proof.
    intros IH Hnd. induction ds as [|d ds IHds]; intros st He Hw Hf; simpl.
    { exists st. split; [done|]. by apply visited_nil. }
    assert (∃ st1, (if decide (d ∈ dom comps) then visit fuel comps d stack st else Ok st) = Ok st1
      ∧ visited [d] stack st st1) as (st1 & -> & H1).
    { case_decide as Hd; [apply IH; [done|done| |done|done]; apply Hw; set_solver|].
      exists st. split; [done|]. split; [done|done|done|set_solver|].
      exists []. rewrite app_nil_r. split_and!; [done|done|]. intros _ ?. set_solver. }
    assert (size (whites (state st1)) < fuel).
    { pose proof (subseteq_size _ _ (v_whites _ _ _ _ H1)). lia. }
    destruct (IHds st1) as (st2 & Hs2 & H2); [apply H1|set_solver|done|].
    exists st2. split; [exact Hs2|]. eapply visited_cons; eauto.
  Qed.

Lemma whites_grey n col :
    n ∈ dom comps → col !! n = Some White → whites (<[n := Grey]> col) = whites col ∖ {[n]}.
  Proof.
    intros Hn Hc. apply set_eq. intros x. unfold whites.
    rewrite elem_of_difference, !elem_of_filter, elem_of_singleton, lookup_insert.
    case_decide; naive_solver.
  Qed.

Lemma entry_push n col stack :
    entry_ok col stack → n ∈ dom comps → entry_ok (<[n := Grey]> col) (stack ++ [n]).
  Proof.
    intros [Hd Hg] Hn. split; [rewrite dom_insert_L, Hd; set_solver|].
    intros x. rewrite elem_of_app, list_elem_of_singleton, lookup_insert, <- Hg.
    case_decide; naive_solver.
  Qed.

Lemma entry_pop n col stack :
    entry_ok col (stack ++ [n]) → n ∉ stack → entry_ok (<[n := Black]> col) stack.
  Proof.
    intros [Hd Hg] Hn.
    assert (n ∈ dom col) as Hnd by (apply elem_of_dom; rewrite (proj2 (Hg n)); set_solver).
    split; [rewrite dom_insert_L; set_solver|]. intros x. rewrite lookup_insert.
    case_decide; subst; [naive_solver|]. rewrite Hg, elem_of_app, list_elem_of_singleton.
    naive_solver.
  Qed.

  (** Blackening [n] after all its dependencies were visited. *)
Lemma visited_blacken n c stack st st1 :
    comps !! n = Some c → state st !! n = Some White → n ∉ stack →
    visited (c_deps c) (stack ++ [n]) (Dfs (<[n := Grey]> (state st)) (cycles st)) st1 →
    visited [n] stack st (Dfs (<[n := Black]> (state st1)) (cycles st1)).
  Proof.
    intros Hcn Hw Hn [He Hwh Hb Hd (new & Hc & Hg & Hr)]. simpl in *.
    assert (n ∈ dom comps) as Hdn by (by apply elem_of_dom_2 in Hcn).
    assert (state st1 !! n = Some Grey) as Hng by (apply (eo_grey _ _ He); set_solver).
    rewrite whites_grey in Hwh by done.
    split; simpl.
    - by apply entry_pop.
    - intros x. unfold whites at 1. rewrite elem_of_filter, lookup_insert.
      case_decide; [naive_solver|]. intros Hx.
      assert (x ∈ whites (state st1)) as Hx' by (by apply elem_of_filter). set_solver.
    - intros x Hx. rewrite lookup_insert. case_decide; [done|]. apply Hb.
      by rewrite lookup_insert_ne.
    - intros x ->%list_elem_of_singleton _. by rewrite lookup_insert_eq.
    - exists new. split_and!; [done..|]. intros Hnil Hbr.
      destruct (Hr Hnil) as [Hbr1 Hds].
      { intros x. rewrite lookup_insert. case_decide; [done|]. apply Hbr. }
      split.
      + intros x. rewrite lookup_insert. case_decide; subst; [|by intros; apply Hbr1].
        intros _. constructor. intros y (c' & Hc' & Hy & Hyd). simplify_eq. by apply Hbr1, Hds.
      + intros x ->%list_elem_of_singleton _. by rewrite lookup_insert_eq.
  Qed.

Lemma visit_correct fuel : visit_spec fuel.
  Proof.
    induction fuel as [|fuel IH]; intros n stack st He Hn Hwalk Hnd Hf; [lia|]. simpl.
    assert (is_Some (state st !! n)) as [col Hcol].
    { apply elem_of_dom. by rewrite (eo_dom _ _ He). }
    rewrite Hcol. destruct col.
    - apply elem_of_dom in Hn as Hn'. destruct Hn' as [c Hc]. rewrite Hc. simpl.
      assert (n ∉ stack) as Hns by (intros ?%(eo_grey _ _ He); congruence).
      destruct (visit_deps fuel (stack ++ [n]) IH) with (ds := c_deps c)
        (st := Dfs (<[n := Grey]> (state st)) (cycles st)) as (st1 & -> & H1).
      + apply NoDup_app. split_and!; [done|set_solver|apply NoDup_singleton].
      + by apply entry_push.
      + intros d Hd Hdd. rewrite <- app_assoc. apply walk_snoc; [done|]. by exists c.
      + simpl. rewrite whites_grey by done.
        assert (n ∈ whites (state st)) as Hnw by (by apply elem_of_filter).
        rewrite size_difference by set_solver. rewrite size_singleton.
        assert (size (whites (state st)) ≠ 0%nat) by (apply size_non_empty_iff; set_solver).
        unfold lt in *. lia.
      + eexists. split; [done|]. by eapply visited_blacken.
    - eexists. split; [done|]. split; simpl; [done|done|done|set_solver|].
      exists [Cycle (stack ++ [n])]. split_and!; [done| |done].
      constructor; [|done]. exists stack, n. split_and!; [done|by apply (eo_grey _ _ He)|done].
    - eexists. split; [done|]. split; [done|done|done|set_solver|].
      exists []. rewrite app_nil_r. split_and!; [done..|]. intros _ Hb. split; [done|].
      by intros x ->%list_elem_of_singleton.
  Qed.

  (** The whole search: it always terminates within [size comps + 1] levels of recursion,
      reports only genuine cycles, and when silent leaves every component ready. *)
Lemma find_cycles_correct fuel :
    size comps < fuel →
    ∃ ps, find_cycles fuel comps = Ok ps ∧ Forall (genuine comps) ps ∧
      (ps = [] → ∀ n, n ∈ dom comps → becomes_ready (edge comps) n).
  Proof.
    intros Hf. unfold find_cycles.
    set (st0 := Dfs ((λ _, White) <$> comps) []).
    assert (entry_ok (state st0) []) as He0.
    { split; [apply dom_fmap_L|]. intros x. simpl. rewrite lookup_fmap.
      destruct (comps !! x); simpl; set_solver. }
    assert (∀ ns st, entry_ok (state st) [] → (∀ n, n ∈ ns → n ∈ dom comps) →
      size (whites (state st)) < fuel →
      ∃ st', foldM (λ st n, visit fuel comps n [] st) st ns = Ok st' ∧ visited ns [] st st')
      as Hall.
    { induction ns as [|n ns IHns]; intros st He Hns Hw; simpl.
      { exists st. split; [done|]. by apply visited_nil. }
      destruct (visit_correct fuel n [] st) as (st1 & -> & H1);
        [done|set_solver|done|constructor|done|].
      destruct (IHns st1) as (st2 & Hs2 & H2); [apply H1|set_solver| |].
      { pose proof (subseteq_size _ _ (v_whites _ _ _ _ H1)). lia. }
      exists st2. split; [exact Hs2|]. by eapply visited_cons. }
    destruct (Hall (sorted_names comps) st0) as (st' & -> & [_ _ _ _ (new & Hc & Hg & Hr)]);
      [done| | |].
    { unfold sorted_names. intros n. by rewrite elem_of_sorted_strs, elem_of_elements. }
    { assert (size (whites (state st0)) ≤ size (dom comps))%nat; [apply subseteq_size; unfold whites; set_solver|].
      rewrite size_dom in *. lia. }
    exists new. simpl. rewrite Hc. split_and!; [done..|]. intros Hnil n Hn.
    destruct (Hr Hnil) as [Hb Hd].
    { intros x. simpl. rewrite lookup_fmap. by destruct (comps !! x). }
    apply Hb, Hd; [|done]. unfold sorted_names. by rewrite elem_of_sorted_strs, elem_of_elements.
  Qed.
End Dfs.

(** ** Emission *)

Lemma emitted_declared comps n : emitted comps n → n ∈ dom comps.
Proof. destruct 1 as [n c Hc _]. by apply elem_of_dom_2 in Hc. Qed.

Lemma emitted_ready comps n : emitted comps n → becomes_ready (edge comps) n.
Proof.
  induction 1 as [n c Hc _ IH]. constructor. intros y (c' & Hc' & Hy & _). simplify_eq. auto.
Qed.

Lemma ready_emitted comps n :
  (∀ m c d, comps !! m = Some c → d ∈ c_deps c → d ∈ dom comps) →
  becomes_ready (edge comps) n → n ∈ dom comps → emitted comps n.
Proof.
  intros Hclosed. induction 1 as [n _ IH]. intros [c Hc]%elem_of_dom.
  econstructor; [exact Hc|]. intros d Hd. assert (d ∈ dom comps) by eauto.
  apply IH; [exists c; auto|done].
Qed.

Lemma elem_of_sorted_names comps n : n ∈ sorted_names comps ↔ n ∈ dom comps.
Proof. unfold sorted_names. by rewrite elem_of_sorted_strs, elem_of_elements. Qed.

(** A check run on every component reports nothing iff it does on each. *)
Lemma flat_map_names_nil comps (f : string → component → list problem) :
  flat_map (λ n, match comps !! n with Some c => f n c | None => [] end) (sorted_names comps) = []
  ↔ ∀ n c, comps !! n = Some c → f n c = [].
Proof.
  rewrite flat_map_nil_iff. setoid_rewrite elem_of_sorted_names. split.
  - intros H n c Hc. specialize (H n). rewrite Hc in H. apply H. by apply elem_of_dom_2 in Hc.
  - intros H n [c Hc]%elem_of_dom. rewrite Hc. by apply H.
Qed.

Lemma missing_deps_nil comps :
  missing_deps comps = [] ↔ ∀ n c d, comps !! n = Some c → d ∈ c_deps c → d ∈ dom comps.
Proof.
  unfold missing_deps. rewrite flat_map_names_nil. setoid_rewrite flat_map_nil_iff. split.
  - intros H n c d Hc Hd. specialize (H n c Hc d Hd). by case_decide.
  - intros H n c Hc d Hd. by rewrite decide_True by eauto.
Qed.

Lemma wrong_kinds_nil comps :
  wrong_kinds comps = [] ↔ ∀ n c, comps !! n = Some c → c_kind c = VStr (capitalize n).
Proof.
  unfold wrong_kinds. rewrite flat_map_names_nil. setoid_rewrite <- eq_str_spec.
  split; intros H n c Hc; specialize (H n c Hc); by destruct (eq_str _ _).
Qed.

Lemma check_renders_nil ce ht comps :
  (check_renders ce ht comps).1 = [] ↔ ∀ n, n ∈ dom comps → renders ce ht n.
Proof.
  assert (∀ n, (check_render ce ht n).1 = [] ↔ renders ce ht n) as H1.
  { intros n. unfold check_render, renders, SKIP_RENDER.
    destruct (ce n); simpl; [|naive_solver].
    case_decide as Hs; simpl; [set_solver|].
    destruct (ht n) as [[rc out] err] eqn:E.
    destruct (Z.eqb_spec rc 0) as [->|]; simpl; [|naive_solver set_solver].
    destruct (String.eqb_spec (strip out) ""); naive_solver set_solver. }
  assert (∀ ns acc, (foldl (λ acc n, let '(p, r) := check_render ce ht n in
      (acc.1 ++ p, acc.2 + r)%nat) acc ns).1 = [] ↔
      acc.1 = [] ∧ ∀ n, n ∈ ns → renders ce ht n) as H2.
  { induction ns as [|n ns IH]; intros acc; simpl; [set_solver|].
    rewrite IH. specialize (H1 n). destruct (check_render ce ht n) as [p r]. simpl in *.
    setoid_rewrite elem_of_cons. rewrite app_nil. naive_solver. }
  unfold check_renders. rewrite H2. setoid_rewrite elem_of_sorted_names. naive_solver.
Qed.

Lemma silent_iff_all_emitted_aux comps fuel :
  size comps < fuel →
  (missing_deps comps = [] ∧ find_cycles fuel comps = Ok []) ↔
  ∀ n, n ∈ dom comps → emitted comps n.
Proof.
  intros Hf. destruct (find_cycles_correct comps fuel Hf) as (ps & Hps & Hg & Hr).
  rewrite missing_deps_nil. split.
  - intros [Hclosed Hc] n Hn. rewrite Hps in Hc. injection Hc as ->.
    apply ready_emitted; auto.
  - intros He. split.
    + intros n c d Hc Hd. assert (n ∈ dom comps) as Hn by (by apply elem_of_dom_2 in Hc).
      destruct (He n Hn) as [n c' Hc' Hds]. simplify_eq. by eapply emitted_declared, Hds.
    + rewrite Hps. f_equal. destruct Hg as [|p ps' (pre & n & -> & Hn & Hw) _]; [done|].
      apply list_elem_of_split in Hn as (l1 & l2 & ->). exfalso.
      rewrite <- app_assoc in Hw. apply walk_app_r, walk_rtc in Hw.
      eapply ready_not_cyclic; [|exact Hw]. apply emitted_ready, He.
      inversion Hw as [? ? (c & Hc & _)|? ? ? (c & Hc & _)]; by apply elem_of_dom_2 in Hc.
Qed.

(** C7: For every component catalogue, the three-colour search terminates within
    [size comps + 1] levels of recursion, every cycle it reports is a real walk of declared
    dependencies that returns to itself, and it reports nothing exactly when the declared
    graph is acyclic. *)
Theorem find_cycles_acyclic comps fuel :
  size comps < fuel →
  ∃ ps, find_cycles fuel comps = Ok ps ∧ Forall (genuine comps) ps ∧
    (ps = [] ↔ acyclic (edge comps)).
Proof.
  intros Hf. destruct (find_cycles_correct comps fuel Hf) as (ps & Hps & Hg & Hr).
  exists ps. split_and!; [done..|]. split.
  - intros Hnil x Hx. assert (x ∈ dom comps) as Hd.
    { inversion Hx as [? ? (c & Hc & _)|? ? ? (c & Hc & _)]; by apply elem_of_dom_2 in Hc. }
    by eapply ready_not_cyclic; [apply Hr|].
  - intros Hac. destruct Hg as [|p ps (pre & n & -> & Hn & Hw) _]; [done|].
    apply list_elem_of_split in Hn as (l1 & l2 & ->). exfalso. apply (Hac n).
    rewrite <- app_assoc in Hw. apply walk_app_r in Hw. by eapply walk_rtc.
Qed.

Definition two_cycle : gmap string component :=
  {[ "a" := Component (VStr "A") ["b"] "x"; "b" := Component (VStr "B") ["a"; "zz"] "x" ]}.

Lemma find_cycles_acyclic_witness :
  find_cycles 3 two_cycle = Ok [Cycle ["a"; "b"; "a"]] ∧
  ∃ ps, find_cycles 3 two_cycle = Ok ps ∧ Forall (genuine two_cycle) ps ∧
    (ps = [] ↔ acyclic (edge two_cycle)).
Proof.
  split; [vm_compute; reflexivity|]. apply (find_cycles_acyclic two_cycle 3). vm_compute. lia.
Defined.

(** C22: The gate's closure and cycle checks are silent exactly when the orchestrator, which
    emits a component once everything in its [deps] has been emitted, eventually emits every
    declared component: a silent gate means no component waits forever. *)
Theorem silent_iff_all_emitted comps fuel :
  size comps < fuel →
  (missing_deps comps = [] ∧ find_cycles fuel comps = Ok []) ↔
  ∀ n, n ∈ dom comps → emitted comps n.
Proof. apply silent_iff_all_emitted_aux. Qed.

Definition chain : gmap string component :=
  {[ "nova" := Component (VStr "Nova") ["keystone"] "compute";
     "keystone" := Component (VStr "Keystone") ["mariadb"] "identity";
     "mariadb" := Component (VStr "Mariadb") [] "identity" ]}.

Lemma silent_iff_all_emitted_witness :
  size chain < 4 ∧ ∀ n, n ∈ dom chain → emitted chain n.
Proof.
  split; [vm_compute; lia|]. apply (silent_iff_all_emitted chain 4); [vm_compute; lia|].
  split; vm_compute; reflexivity.
Defined.

(** C8: On a readable, non-empty catalogue the gate exits 0 exactly when every component is
    eventually emitted, every [kind] is the capitalised name core-provider serves, and every
    chart exists and (the umbrella apart) renders to something. *)
Theorem gate_passes_iff ce ht fuel umbrella comps :
  read_components umbrella = Ok comps → comps ≠ ∅ → size comps < fuel →
  (∃ o, gate ce ht fuel (Some umbrella) = Ok o ∧ exit_status o = 0%Z) ↔
  (∀ n, n ∈ dom comps → emitted comps n) ∧
  (∀ n c, comps !! n = Some c → c_kind c = VStr (capitalize n)) ∧
  (∀ n, n ∈ dom comps → renders ce ht n).
Proof.
  intros Hread Hne Hf.
  rewrite <- (silent_iff_all_emitted_aux comps fuel Hf), <- wrong_kinds_nil, <- check_renders_nil.
  destruct (find_cycles_correct comps fuel Hf) as (ps & Hps & _ & _).
  unfold gate. rewrite Hread. simpl.
  destruct (Nat.eqb_spec (size comps) 0) as [?%map_size_empty_inv|_]; [done|].
  rewrite Hps. simpl.
  destruct (check_renders ce ht comps) as [rp r]. simpl.
  assert (∀ l k, (∃ o, match l with [] => Ok (Passed (size comps) k) | p :: l' => Ok (Failed (p :: l')) end
      = Ok o ∧ exit_status o = 0%Z) ↔ l = []) as Ho.
  { intros [|p l] k; split; try done; [by eexists|]. by intros (o & [= <-] & ?). }
  rewrite Ho, !app_nil. naive_solver.
Qed.

Definition umbrella_ok : val := VDict [("components", VList [
  VDict [("name", VStr "keystone"); ("kind", VStr "Keystone"); ("deps", VList [VStr "mariadb"])];
  VDict [("name", VStr "mariadb"); ("kind", VStr "Mariadb"); ("tier", VStr "identity")]])].

Definition helm_ok (n : string) : Z * string * string := (0%Z, "kind: Service", "").
Definition catalogue_ok : gmap string component :=
  {[ "mariadb" := Component (VStr "Mariadb") [] "identity";
     "keystone" := Component (VStr "Keystone") ["mariadb"] "?" ]}.

Lemma gate_passes_iff_witness :
  gate (λ _, true) helm_ok 10 (Some umbrella_ok) = Ok (Passed 2 2) ∧
  (∀ n, n ∈ dom catalogue_ok → emitted catalogue_ok n) ∧
  (∀ n c, catalogue_ok !! n = Some c → c_kind c = VStr (capitalize n)) ∧
  (∀ n, n ∈ dom catalogue_ok → renders (λ _, true) helm_ok n).
Proof.
  split; [vm_compute; reflexivity|].
  apply (gate_passes_iff (λ _, true) helm_ok 10 umbrella_ok catalogue_ok).
  - vm_compute; reflexivity.
  - apply (insert_non_empty (<["keystone" := _]> ∅)).
  - vm_compute. lia.
  - exists (Passed 2 2). split; vm_compute; reflexivity.
Defined.

End ComponentDag.
