(* ===== verification/Tarjan.v ===== *)
(** * The strongly connected components of validate-readiness-deadlock.py

    [sccs_of] is Tarjan's algorithm with an explicit work list; [cycles_of] keeps the
    components that are cycles; [witness] is the breadth-first search that prints one of
    them as a path.  The graph is a mapping from a node to the set of nodes it waits for,
    over any countable type of nodes with the order Python sorts them by. *)
From S2P Require Import Prelude Graphs.
#[local] Open Scope nat_scope.

Section Tarjan.
Context {A : Type} `{Countable A} (leb : A → A → bool).
Implicit Types (g : gmap A (gset A)) (x y u v w c node : A).

(** [sorted(graph.get(node, ()))] *)
Definition children g x : list A := isort leb (elements (default ∅ (g !! x))).

(** Everything the graph mentions: its keys and the members of its values. *)
Definition targets g : gset A := ⋃ (map_to_list g).*2.
Definition nodes g : gset A := dom g ∪ targets g.

(** The local state of [sccs_of]; the head of [stack] is Python's [stack[-1]]. *)
Record tarjan := Tarjan {
  index : gmap A nat;
  low : gmap A nat;
  on_stack : gset A;
  stack : list A;
  out : list (list A);
}.

(** [index[x] = low[x] = len(index); stack.append(x); on_stack.add(x)] *)
Definition push x (st : tarjan) : tarjan :=
  let i := size (index st) in
  Tarjan (<[x := i]> (index st)) (<[x := i]> (low st)) ({[x]} ∪ on_stack st)
    (x :: stack st) (out st).

(** [low[x] = min(low[x], i)] *)
Definition lower x (i : nat) (st : tarjan) : tarjan :=
  Tarjan (index st) (alter (λ l, Nat.min l i) x (low st)) (on_stack st) (stack st) (out st).

(** The [for child in children] loop: what is left of the iterator when an unvisited child
    was pushed ([break]), or nothing when it is exhausted. *)
Fixpoint scan node (cs : list A) (st : tarjan) : option (A * list A) * tarjan :=
  match cs with
  | [] => (None, st)
  | c :: cs' =>
      match index st !! c with
      | None => (Some (c, cs'), push c st)
      | Some i =>
          if decide (c ∈ on_stack st) then scan node cs' (lower node i st)
          else scan node cs' st
      end
  end.

(** The [while True: m = stack.pop()] loop: the popped nodes and the rest of the stack. *)
Fixpoint pop_until node (stk : list A) : list A * list A :=
  match stk with
  | [] => ([], [])
  | m :: stk' =>
      if decide (m = node) then ([m], stk')
      else let '(scc, rest) := pop_until node stk' in (m :: scc, rest)
  end.

(** The end of an exhausted node: its parent inherits [low], and a root pops its component. *)
Definition finish node (rest : list (A * list A)) (st : tarjan) : tarjan :=
  let st := match rest with
            | (p, _) :: _ => lower p (low st !!! node) st
            | [] => st
            end in
  if decide (low st !!! node = index st !!! node) then
    let '(scc, stk) := pop_until node (stack st) in
    Tarjan (index st) (low st) (on_stack st ∖ list_to_set scc) stk (out st ++ [scc])
  else st.

(** One iteration of [while work]. *)
Definition step g (work : list (A * list A)) (st : tarjan) : list (A * list A) * tarjan :=
  match work with
  | [] => ([], st)
  | (node, cs) :: rest =>
      match scan node cs st with
      | (Some (c, cs'), st') => ((c, children g c) :: (node, cs') :: rest, st')
      | (None, st') => (rest, finish node rest st')
      end
  end.

Fixpoint run (fuel : nat) g (work : list (A * list A)) (st : tarjan) : option tarjan :=
  match work with
  | [] => Some st
  | _ =>
      match fuel with
      | O => None
      | S fuel => let '(work', st') := step g work st in run fuel g work' st'
      end
  end.

Definition strongconnect (fuel : nat) g x (st : tarjan) : option tarjan :=
  run fuel g [(x, children g x)] (push x st).

(** The order in which [sccs_of] tries the roots. *)
Definition roots g : list A := isort leb (elements (dom g)) ++ isort leb (elements (targets g)).

Fixpoint connect_all (fuel : nat) g (rs : list A) (st : tarjan) : option tarjan :=
  match rs with
  | [] => Some st
  | r :: rs' =>
      match index st !! r with
      | Some _ => connect_all fuel g rs' st
      | None => st' ← strongconnect fuel g r st; connect_all fuel g rs' st'
      end
  end.

(** The bound on the iterations of one [while work] loop. *)
Definition enough_fuel g : nat := 2 * size (nodes g).

Definition sccs_of g : option (list (list A)) :=
  out <$> connect_all (enough_fuel g) g (roots g) (Tarjan ∅ ∅ ∅ [] []).

Definition is_cycle g (scc : list A) : bool :=
  (1 <? length scc) ||
  match scc with x :: _ => bool_decide (x ∈ children g x) | [] => false end.

Definition cycles_of g : option (list (list A)) := filter (λ s, is_cycle g s = true) <$> sccs_of g.

(** The wait relation of the graph. *)
Definition gedge g x y : Prop := y ∈ default ∅ (g !! x).

Lemma elem_of_children g x y : y ∈ children g x ↔ gedge g x y.
Proof. unfold children, gedge. by rewrite elem_of_isort, elem_of_elements. Qed.

Lemma elem_of_targets g y : y ∈ targets g ↔ ∃ x, gedge g x y.
Proof.
  unfold targets, gedge. rewrite elem_of_union_list. split.
  - intros (X & HX & Hy). apply list_elem_of_fmap in HX as ([x X'] & -> & HX).
    apply elem_of_map_to_list in HX. exists x. by rewrite HX.
  - intros [x Hx]. destruct (g !! x) as [X|] eqn:E; [|set_solver].
    exists X. split; [|done]. apply list_elem_of_fmap. exists (x, X).
    split; [done|]. by apply elem_of_map_to_list.
Qed.

Lemma gedge_nodes g x y : gedge g x y → x ∈ nodes g ∧ y ∈ nodes g.
Proof.
  intros Hxy. unfold nodes. rewrite !elem_of_union, !elem_of_targets, elem_of_dom.
  split; [left|right; eauto]. unfold gedge in Hxy. destruct (g !! x); [eauto|set_solver].
Qed.

Lemma elem_of_roots g x : x ∈ roots g ↔ x ∈ nodes g.
Proof.
  unfold roots, nodes. rewrite elem_of_app, !elem_of_isort, !elem_of_elements. set_solver.
Qed.

(** ** The emitted components *)

Section Correct.
Context (g : gmap A (gset A)).
Notation E := (gedge g).

(** Components are disjoint, strongly connected, and each prefix of the output is closed
    under the edges of the graph. *)
Inductive good_out : list (list A) → Prop :=
  | good_nil : good_out []
  | good_snoc o scc :
      good_out o → scc ≠ [] → NoDup scc →
      (∀ x, x ∈ scc → x ∉ concat o) →
      (∀ x y, x ∈ scc → y ∈ scc → rtc E x y) →
      (∀ x y, x ∈ concat (o ++ [scc]) → E x y → y ∈ concat (o ++ [scc])) →
      good_out (o ++ [scc]).

Lemma elem_of_concat_snoc x (o : list (list A)) scc :
  x ∈ concat (o ++ [scc]) ↔ x ∈ concat o ∨ x ∈ scc.
Proof. rewrite concat_app, elem_of_app. simpl. by rewrite app_nil_r. Qed.

Lemma closed_rtc (P : A → Prop) x y :
  (∀ x y, P x → E x y → P y) → P x → rtc E x y → P y.
Proof. intros HP Hx Hxy. induction Hxy; eauto. Qed.

Lemma good_out_closed o x y : good_out o → x ∈ concat o → rtc E x y → y ∈ concat o.
Proof.
  intros Ho Hx. apply (closed_rtc (λ z, z ∈ concat o)); [|done].
  destruct Ho as [|o scc _ _ _ _ _ Hc]; [set_solver|exact Hc].
Qed.

Lemma good_out_NoDup o : good_out o → NoDup (concat o).
Proof.
  induction 1 as [|o scc _ IH _ Hnd Hd _ _]; [constructor|].
  rewrite concat_app. simpl. rewrite app_nil_r. apply NoDup_app. split_and!; [done| |done].
  intros x Ho Hs. by apply (Hd x).
Qed.

Lemma good_out_component o scc : good_out o → scc ∈ o → scc ≠ [] ∧ NoDup scc.
Proof.
  induction 1 as [|o s _ IH Hne Hnd _ _ _]; [set_solver|].
  rewrite elem_of_app, list_elem_of_singleton. intros [?| ->]; auto.
Qed.

(** A component is the whole mutual-reachability class of its members. *)
Lemma good_out_class o scc x y :
  good_out o → scc ∈ o → x ∈ scc → y ∈ scc ↔ rtc E x y ∧ rtc E y x.
Proof.
  induction 1 as [|o s Ho IH _ _ Hd Hsc Hcl]; [set_solver|].
  rewrite elem_of_app, list_elem_of_singleton. intros [Hin| ->] Hx; [by apply IH|].
  split; [by auto|]. intros [Hxy Hyx].
  assert (y ∈ concat (o ++ [s])) as Hy.
  { apply (closed_rtc (λ z, z ∈ concat (o ++ [s])) x y); [exact Hcl| |done].
    apply elem_of_concat_snoc. by right. }
  apply elem_of_concat_snoc in Hy as [Hy|]; [|done].
  destruct (Hd x Hx). by eapply good_out_closed.
Qed.

(** ** The invariant of the [while work] loop *)

Notation ix st x := (index st !!! x).
Notation lw st x := (low st !!! x).

(** Nodes in decreasing order of index. *)
Definition later st x y : Prop := ix st y < ix st x.

Record inv (work : list (A * list A)) (st : tarjan) : Prop := {
  i_low : dom (low st) = dom (index st);
  i_dom : dom (index st) ⊆ nodes g;
  i_lt : ∀ x, x ∈ dom (index st) → ix st x < size (index st);
  i_inj : ∀ x y, x ∈ dom (index st) → y ∈ dom (index st) → ix st x = ix st y → x = y;
  i_sorted : StronglySorted (later st) (stack st);
  i_on : on_stack st = list_to_set (stack st);
  i_part : ∀ x, x ∈ dom (index st) ↔ x ∈ stack st ∨ x ∈ concat (out st);
  i_disj : ∀ x, x ∈ stack st → x ∉ concat (out st);
  i_out : good_out (out st);
  i_low_le : ∀ x, x ∈ stack st → lw st x ≤ ix st x;
  i_low_reach : ∀ x, x ∈ stack st → ∃ u, u ∈ stack st ∧ ix st u = lw st x ∧ rtc E x u;
  i_work : StronglySorted (later st) work.*1;
  i_work_stack : ∀ w, w ∈ work.*1 → w ∈ stack st;
  i_work_reach : ∀ w x, w ∈ work.*1 → x ∈ stack st → ix st w ≤ ix st x → rtc E w x;
  i_base : ∀ x, x ∈ stack st → ∃ w, w ∈ work.*1 ∧ ix st w ≤ ix st x;
  i_sub : ∀ x cs y, (x, cs) ∈ work → y ∈ cs → E x y;
  i_rem : ∀ x y, x ∈ stack st → E x y →
    (∃ cs, (x, cs) ∈ work ∧ y ∈ cs) ∨
    (y ∈ dom (index st) ∧ (y ∈ stack st → lw st x ≤ ix st y));
  i_fin : ∀ x, x ∈ stack st → x ∉ work.*1 →
    lw st x < ix st x ∧
    ∃ w, w ∈ work.*1 ∧ ix st w < ix st x ∧ lw st w ≤ lw st x ∧
      ∀ w', w' ∈ work.*1 → ix st w' ≤ ix st x → ix st w' ≤ ix st w;
}.

Lemma i_stack_dom work st x : inv work st → x ∈ stack st → x ∈ dom (index st).
Proof. intros Hi Hx. apply (i_part _ _ Hi). by left. Qed.

(** An indexed child that was looked at leaves the iterator of [node]. *)
Lemma inv_consume pre node c cs post st :
  inv (pre ++ (node, c :: cs) :: post) st → c ∈ dom (index st) →
  (c ∈ stack st → lw st node ≤ ix st c) →
  inv (pre ++ (node, cs) :: post) st.
Proof.
  intros Hi Hc Hlow.
  assert ((pre ++ (node, c :: cs) :: post).*1 = (pre ++ (node, cs) :: post).*1) as Hfst
    by (by rewrite !fmap_app).
  destruct Hi. rewrite Hfst in *. split; try done.
  - intros x cs' y Hx Hy. rewrite elem_of_app, elem_of_cons in Hx.
    destruct Hx as [Hx|[[= -> ->]|Hx]]; [eapply i_sub0; [|exact Hy]; set_solver| |
      eapply i_sub0; [|exact Hy]; set_solver].
    apply (i_sub0 node (c :: cs)); set_solver.
  - intros x y Hx Hxy. destruct (i_rem0 x y Hx Hxy) as [(cs' & Hin & Hy)|]; [|by right].
    rewrite elem_of_app, elem_of_cons in Hin.
    destruct Hin as [Hin|[[= -> ->]|Hin]]; [left; exists cs'; set_solver| |left; exists cs'; set_solver].
    apply elem_of_cons in Hy as [->|Hy]; [right; auto|left; exists cs; set_solver].
Qed.

Lemma lw_lower st x y i :
  x ∈ dom (low st) →
  lw (lower x i st) y = if decide (y = x) then lw st x `min` i else lw st y.
Proof.
  intros [l Hl]%elem_of_dom. simpl. rewrite !lookup_total_alt, lookup_alter, Hl.
  repeat case_decide; subst; try done; by rewrite Hl.
Qed.

(** Lowering [low[node]] to the index of a stack node it reaches. *)
Lemma inv_lower work node u i st :
  inv work st → node ∈ work.*1 → u ∈ stack st → rtc E node u → ix st u = i →
  inv work (lower node i st).
Proof.
  intros Hi Hn Hu Hr <-.
  assert (node ∈ stack st) as Hns by (by apply (i_work_stack _ _ Hi)).
  assert (node ∈ dom (low st)) as Hd by (rewrite (i_low _ _ Hi); by eapply i_stack_dom).
  pose proof (λ y, lw_lower st node y (ix st u) Hd) as Hlw.
  destruct Hi. split; try done; simpl in *.
  - rewrite dom_alter_L. done.
  - intros x Hx. rewrite Hlw. specialize (i_low_le0 x Hx). case_decide; subst; lia.
  - intros x Hx. rewrite Hlw. case_decide; subst; [|by apply i_low_reach0].
    destruct (Nat.min_spec (lw st node) (ix st u)) as [[_ ->]|[_ ->]]; [by apply i_low_reach0|].
    exists u. auto.
  - intros x y Hx Hxy. destruct (i_rem0 x y Hx Hxy) as [|[Hy Hl]]; [by left|right].
    split; [done|]. intros Hys. rewrite Hlw. specialize (Hl Hys). case_decide; subst; lia.
  - intros x Hx Hxw. destruct (i_fin0 x Hx Hxw) as (Hlt & w & Hw & Hwx & Hlw' & Hmax).
    rewrite Hlw, decide_False by congruence. split; [done|]. exists w. split_and!; try done.
    rewrite Hlw. case_decide; subst; lia.
Qed.

(** Pushing an unvisited node that every active node reaches. *)
Lemma ix_push st c x :
  x ≠ c → ix (push c st) x = ix st x.
Proof. intros Hne. simpl. by rewrite lookup_total_insert_ne. Qed.
Lemma lw_push st c x :
  x ≠ c → lw (push c st) x = lw st x.
Proof. intros Hne. simpl. by rewrite lookup_total_insert_ne. Qed.
Lemma ix_push_eq st c : ix (push c st) c = size (index st).
Proof. simpl. by rewrite lookup_total_insert_eq. Qed.
Lemma lw_push_eq st c : lw (push c st) c = size (index st).
Proof. simpl. by rewrite lookup_total_insert_eq. Qed.

Lemma later_ext st st' l :
  (∀ x, x ∈ l → ix st' x = ix st x) →
  StronglySorted (later st) l → StronglySorted (later st') l.
Proof.
  intros Heq. induction 1 as [|x l _ IH Hl]; [constructor|].
  constructor; [apply IH; set_solver|]. rewrite Forall_forall in *. intros y Hy.
  unfold later. rewrite !Heq by set_solver. by apply Hl.
Qed.

Lemma inv_push work c st :
  inv work st → c ∉ dom (index st) → c ∈ nodes g →
  (∀ w, w ∈ work.*1 → rtc E w c) →
  inv ((c, children g c) :: work) (push c st).
Proof.
  intros Hi Hc Hcn Hreach.
  assert (∀ x, x ∈ stack st → x ≠ c) as Hsc.
  { intros x Hx ->. apply Hc. by eapply i_stack_dom. }
  assert (∀ x, x ∈ stack st → ix st x < size (index st)) as Hlt.
  { intros x Hx. apply (i_lt _ _ Hi). by eapply i_stack_dom. }
  assert (∀ x, x ∈ dom (index st) → x ≠ c) as Hdc by (intros x Hx ->; done).
  assert (∀ w, w ∈ work.*1 → w ∈ stack st) as Hws by apply (i_work_stack _ _ Hi).
  assert (c ∉ concat (out st)) as Hco.
  { intros Hco. apply Hc, (i_part _ _ Hi). by right. }
  assert (size (index (push c st)) = S (size (index st))) as Hsz.
  { simpl. by rewrite map_size_insert_None by (by apply not_elem_of_dom). }
  pose proof Hi as []. split; simpl stack; simpl out; simpl on_stack.
  - simpl. by rewrite !dom_insert_L, i_low0.
  - simpl. rewrite dom_insert_L. set_solver.
  - intros x Hx. rewrite Hsz. simpl index in Hx. rewrite dom_insert_L in Hx. destruct (decide (x = c)) as [->|Hne].
    + rewrite ix_push_eq. lia.
    + rewrite ix_push by done. specialize (i_lt0 x ltac:(set_solver)). lia.
  - intros x y Hx Hy. simpl index in Hx, Hy. rewrite dom_insert_L in Hx, Hy.
    destruct (decide (x = c)) as [->|Hx'], (decide (y = c)) as [->|Hy']; try done;
      rewrite ?ix_push_eq, ?ix_push by done.
    + intros Heq. specialize (i_lt0 y ltac:(set_solver)). lia.
    + intros Heq. specialize (i_lt0 x ltac:(set_solver)). lia.
    + apply i_inj0; set_solver.
  - constructor.
    + eapply later_ext; [|done]. intros x Hx. rewrite ix_push; auto.
    + apply Forall_forall. intros x Hx. unfold later. rewrite ix_push_eq, ix_push; auto.
  - rewrite i_on0. by rewrite list_to_set_cons.
  - intros x. simpl index. rewrite dom_insert_L, elem_of_union, elem_of_singleton, i_part0,
      elem_of_cons. naive_solver.
  - intros x [->|Hx]%elem_of_cons; [done|auto].
  - done.
  - intros x [->|Hx]%elem_of_cons; [by rewrite lw_push_eq, ix_push_eq|].
    rewrite lw_push, ix_push; auto.
  - intros x [->|Hx]%elem_of_cons.
    + exists c. rewrite lw_push_eq, ix_push_eq. split_and!; [set_solver|done|done].
    + destruct (i_low_reach0 x Hx) as (u & Hu & Hiu & Hru). exists u.
      rewrite lw_push, ix_push; auto. split_and!; [set_solver|done|done].
  - simpl. constructor.
    + eapply later_ext; [|done]. intros x Hx. rewrite ix_push; auto.
    + apply Forall_forall. intros x Hx. unfold later. rewrite ix_push_eq, ix_push; auto.
  - intros w. simpl. rewrite !elem_of_cons. naive_solver.
  - intros w x. simpl fmap. rewrite !elem_of_cons. intros [->|Hw] [->|Hx].
    + done.
    + rewrite ix_push_eq, ix_push by auto. specialize (Hlt x Hx). lia.
    + auto.
    + rewrite !ix_push by auto. auto.
  - intros x [->|Hx]%elem_of_cons.
    + exists c. split; [set_solver|done].
    + destruct (i_base0 x Hx) as (w & Hw & Hwx). exists w. rewrite !ix_push by auto.
      split; [set_solver|done].
  - intros x cs y [[= -> ->]|Hx]%elem_of_cons Hy; [by apply elem_of_children|eauto].
  - intros x y [->|Hx]%elem_of_cons Hxy.
    + left. exists (children g c). split; [set_solver|by apply elem_of_children].
    + destruct (i_rem0 x y Hx Hxy) as [(cs & Hin & Hy)|[Hy Hl]]; [left; exists cs; set_solver|].
      right. split; [simpl; set_solver|].
      intros [->|Hys]%elem_of_cons; [done|]. rewrite lw_push, ix_push; auto.
  - intros x [->|Hx]%elem_of_cons Hxw; [set_solver|].
    destruct (i_fin0 x Hx) as (Hlx & w & Hw & Hwx & Hlwx & Hmax); [set_solver|].
    rewrite lw_push, ix_push by auto. split; [done|]. exists w.
    rewrite lw_push, ix_push by auto. split_and!; [set_solver|done|done|].
    intros w' Hw'. simpl in Hw'. apply elem_of_cons in Hw' as [->|Hw'].
    + rewrite ix_push_eq. specialize (Hlt x Hx). lia.
    + rewrite ix_push by auto. auto.
Qed.

(** ** The iterations of the loop *)

(** The head of the work list has the largest index. *)
Lemma work_head_max node cs rest st w :
  inv ((node, cs) :: rest) st → w ∈ rest.*1 → ix st w < ix st node.
Proof.
  intros Hi Hw. pose proof (i_work _ _ Hi) as Hs. simpl in Hs.
  apply StronglySorted_inv in Hs as [_ Hs]. rewrite Forall_forall in Hs. by apply Hs.
Qed.

Lemma head_in_work node cs (rest : list (A * list A)) : node ∈ ((node, cs) :: rest).*1.
Proof. simpl. apply list_elem_of_here. Qed.

Lemma work_reaches_head node cs rest st w :
  inv ((node, cs) :: rest) st → w ∈ ((node, cs) :: rest).*1 → rtc E w node.
Proof.
  intros Hi Hw. apply (i_work_reach _ _ Hi); [done| |].
  - apply (i_work_stack _ _ Hi), head_in_work.
  - simpl in Hw. apply elem_of_cons in Hw as [->|Hw]; [done|].
    by apply Nat.lt_le_incl, (work_head_max _ _ _ _ _ Hi).
Qed.

Lemma inv_scan node cs rest st :
  inv ((node, cs) :: rest) st →
  match scan node cs st with
  | (Some (c, cs'), st') =>
      inv ((c, children g c) :: (node, cs') :: rest) st' ∧
      size (index st') = S (size (index st))
  | (None, st') => inv ((node, []) :: rest) st' ∧ index st' = index st
  end.
Proof.
  revert st. induction cs as [|c cs IH]; intros st Hi; simpl; [done|].
  assert (E node c) as Hnc by (eapply (i_sub _ _ Hi); constructor).
  assert (node ∈ stack st) as Hns by (apply (i_work_stack _ _ Hi), head_in_work).
  destruct (index st !! c) as [i|] eqn:Hc; [apply elem_of_dom_2 in Hc as Hcd; case_decide as Hon|].
  - rewrite (i_on _ _ Hi), elem_of_list_to_set in Hon.
    assert (ix st c = i) as Hix by (by apply lookup_total_correct).
    specialize (IH (lower node i st)). apply IH.
    apply (inv_consume [] node c cs rest); [|done|].
    + apply (inv_lower _ node c); [done|apply head_in_work|done|by apply rtc_once|done].
    + intros _. change (ix (lower node i st) c) with (ix st c).
      rewrite lw_lower, decide_True by
        (try done; rewrite (i_low _ _ Hi); by eapply i_stack_dom). lia.
  - apply IH. apply (inv_consume [] node c cs rest); [done..|].
    intros Hcs. destruct Hon. by rewrite (i_on _ _ Hi), elem_of_list_to_set.
  - apply not_elem_of_dom in Hc. split.
    + apply (inv_consume [(c, children g c)] node c cs rest).
      * apply inv_push; [done|done|by eapply gedge_nodes|]. intros w Hw.
        eapply rtc_r; [|exact Hnc]. by eapply work_reaches_head.
      * simpl. set_solver.
      * intros _. assert (node ≠ c) by (intros ->; apply Hc; by eapply i_stack_dom).
        rewrite lw_push, ix_push_eq by done.
        pose proof (i_low_le _ _ Hi node Hns).
        pose proof (i_lt _ _ Hi node (i_stack_dom _ _ _ Hi Hns)). lia.
    + simpl. by rewrite map_size_insert_None by (by apply not_elem_of_dom).
Qed.

(** A finished node that is not a root of its component stays on the stack. *)
Lemma inv_drop node p cs rest st :
  inv ((node, []) :: (p, cs) :: rest) st →
  lw st p ≤ lw st node → lw st node < ix st node →
  inv ((p, cs) :: rest) st.
Proof.
  intros Hi Hpn Hlt.
  assert (ix st p < ix st node) as Hp by (apply (work_head_max _ _ _ _ _ Hi), head_in_work).
  pose proof Hi as [].
  assert (inv_tail : StronglySorted (later st) ((p, cs) :: rest).*1)
    by (by apply StronglySorted_inv in i_work0 as [? _]).
  assert (∀ w', w' ∈ ((p, cs) :: rest).*1 → ix st w' ≤ ix st p) as Hpmax.
  { intros w'. simpl. apply StronglySorted_inv in inv_tail as [_ Hf].
    rewrite Forall_forall in Hf. intros [->|Hw]%elem_of_cons; [done|].
    by apply Nat.lt_le_incl, Hf. }
  split; try done.
  - intros w Hw. apply i_work_stack0. simpl. by right.
  - intros w x Hw. apply i_work_reach0. simpl. by right.
  - intros x Hx. destruct (i_base0 x Hx) as (w & [->|Hw]%elem_of_cons & Hwx); [|eauto].
    exists p. split; [apply head_in_work|]. simpl in Hwx. lia.
  - intros x cs' y Hx. apply i_sub0. by right.
  - intros x y Hx Hxy. destruct (i_rem0 x y Hx Hxy) as [(cs' & Hin & Hy)|]; [|by right].
    apply elem_of_cons in Hin as [[= -> ->]|Hin]; [set_solver|left; eauto].
  - intros x Hx Hxw. destruct (decide (x = node)) as [->|Hne].
    + split; [done|]. exists p. split_and!; [apply head_in_work|done|done|].
      intros w' Hw' _. by apply Hpmax.
    + destruct (i_fin0 x Hx) as (Hlx & w & Hw & Hwx & Hlwx & Hmax).
      { simpl. rewrite elem_of_cons. naive_solver. }
      split; [done|]. simpl in Hw. apply elem_of_cons in Hw as [->|Hw].
      * exists p. split_and!; [apply head_in_work|lia|lia|]. intros w' Hw' _. by apply Hpmax.
      * exists w. split_and!; try done. intros w' Hw'. apply Hmax. simpl. by right.
Qed.

(** The node at the bottom of the work list is the root of its component. *)
Lemma last_is_root node st : inv [(node, [])] st → lw st node = ix st node.
Proof.
  intros Hi. assert (node ∈ stack st) as Hn by (apply (i_work_stack _ _ Hi), head_in_work).
  destruct (i_low_reach _ _ Hi node Hn) as (u & Hu & Hiu & _).
  destruct (i_base _ _ Hi u Hu) as (w & Hw & Hwu).
  apply list_elem_of_singleton in Hw as ->. pose proof (i_low_le _ _ Hi node Hn).
  simpl in *. lia.
Qed.

Lemma pop_until_spec node st stk :
  StronglySorted (later st) stk → node ∈ stk →
  ∃ scc r, pop_until node stk = (scc, r) ∧ stk = scc ++ r ∧ node ∈ scc ∧
    (∀ x, x ∈ scc → ix st node ≤ ix st x) ∧ (∀ x, x ∈ r → ix st x < ix st node).
Proof.
  induction 1 as [|m l Hs IH Hm]; [set_solver|]. rewrite Forall_forall in Hm.
  intros Hn. simpl. case_decide as Heq.
  - subst. exists [node], l. split_and!; [done..|set_solver| |exact Hm].
    by intros x ->%list_elem_of_singleton.
  - destruct IH as (scc & r & -> & -> & Hin & Hge & Hlt); [set_solver|].
    exists (m :: scc), r. split_and!; [done..|set_solver| |done].
    intros x [->|Hx]%elem_of_cons; [|auto]. apply Nat.lt_le_incl, Hm. set_solver.
Qed.

(** Everything above a root on the stack is reached from it and reaches it. *)
Section Root.
Context (node : A) (rest : list (A * list A)) (st : tarjan).
Hypothesis Hi : inv ((node, []) :: rest) st.
Hypothesis Hroot : lw st node = ix st node.

Lemma root_max w : w ∈ ((node, []) :: rest).*1 → ix st w ≤ ix st node.
Proof.
  simpl. intros [->|Hw]%elem_of_cons; [done|].
  by apply Nat.lt_le_incl, (work_head_max _ _ _ _ _ Hi).
Qed.

Lemma above_not_active x : x ∈ stack st → ix st node ≤ ix st x → x ≠ node →
  x ∉ ((node, []) :: rest).*1.
Proof.
  intros Hx Hge Hne Hw. apply Hne, (i_inj _ _ Hi); try (eapply i_stack_dom; [exact Hi|]).
  - done.
  - apply (i_work_stack _ _ Hi), head_in_work.
  - pose proof (root_max x Hw). lia.
Qed.

Lemma above_low x : x ∈ stack st → ix st node ≤ ix st x → ix st node ≤ lw st x.
Proof.
  intros Hx Hge. destruct (decide (x = node)) as [->|Hne]; [by rewrite Hroot|].
  destruct (i_fin _ _ Hi x Hx (above_not_active x Hx Hge Hne)) as (_ & w & Hw & _ & Hlw & Hmax).
  assert (ix st node = ix st w) as Heq.
  { apply Nat.le_antisymm; [apply Hmax; [apply head_in_work|done]|by apply root_max]. }
  apply (i_inj _ _ Hi) in Heq as <-; [by rewrite <- Hroot| |];
    (eapply i_stack_dom; [exact Hi|apply (i_work_stack _ _ Hi)]);
    [apply head_in_work|done].
Qed.

Lemma above_reaches x : x ∈ stack st → ix st node ≤ ix st x → rtc E x node.
Proof.
  remember (ix st x) as n eqn:Hn. revert x Hn.
  induction (lt_wf n) as [n _ IH]. intros x -> Hx Hge.
  destruct (decide (x = node)) as [->|Hne]; [done|].
  destruct (i_fin _ _ Hi x Hx (above_not_active x Hx Hge Hne)) as (Hlt & _).
  destruct (i_low_reach _ _ Hi x Hx) as (u & Hu & Hiu & Hr).
  pose proof (above_low x Hx Hge). etrans; [exact Hr|].
  apply (IH (ix st u)); [lia|done|done|lia].
Qed.

(** What was explored above a root waits only for itself and for emitted components. *)
Lemma above_closed x y : x ∈ stack st → ix st node ≤ ix st x → E x y →
  (y ∈ stack st ∧ ix st node ≤ ix st y) ∨ y ∈ concat (out st).
Proof.
  intros Hx Hge Hxy. destruct (i_rem _ _ Hi x y Hx Hxy) as [(cs & Hin & Hy)|[Hy Hl]].
  - apply elem_of_cons in Hin as [[= -> ->]|Hin]; [set_solver|].
    assert (x ∈ rest.*1) as Hxr by (apply list_elem_of_fmap; by exists (x, cs)).
    pose proof (work_head_max _ _ _ _ _ Hi Hxr). lia.
  - apply (i_part _ _ Hi) in Hy as [Hy|Hy]; [left|by right]. split; [done|].
    specialize (Hl Hy). pose proof (above_low x Hx Hge). lia.
Qed.

Lemma root_on_stack : node ∈ stack st.
Proof. apply (i_work_stack _ _ Hi), head_in_work. Qed.

Lemma above_component scc r :
  stack st = scc ++ r → node ∈ scc →
  (∀ x, x ∈ scc → ix st node ≤ ix st x) → (∀ x, x ∈ r → ix st x < ix st node) →
  good_out (out st ++ [scc]).
Proof.
  intros Hstk Hn Hge Hlt.
  assert (∀ x, x ∈ scc → x ∈ stack st) as Hss by (rewrite Hstk; set_solver).
  constructor.
  - apply (i_out _ _ Hi).
  - intros ->. set_solver.
  - pose proof (i_sorted _ _ Hi) as Hs. rewrite Hstk in Hs. apply StronglySorted_app_1_l in Hs.
    clear -Hs. induction Hs as [|x l Hs IH Hx]; constructor; [|done].
    rewrite Forall_forall in Hx. intros Hin. specialize (Hx x Hin). unfold later in Hx. lia.
  - intros x Hx. apply (i_disj _ _ Hi). auto.
  - intros x y Hx Hy. etrans; [apply above_reaches; auto|].
    apply (i_work_reach _ _ Hi); auto. apply head_in_work.
  - intros x y. rewrite !elem_of_concat_snoc. intros [Hx|Hx] Hxy.
    + left. eapply good_out_closed; [apply (i_out _ _ Hi)|exact Hx|by apply rtc_once].
    + destruct (above_closed x y) as [[Hy Hyge]|]; auto. right.
      rewrite Hstk, elem_of_app in Hy. destruct Hy as [|Hy]; [done|]. specialize (Hlt y Hy). lia.
Qed.

Lemma inv_pop scc r :
  stack st = scc ++ r → node ∈ scc →
  (∀ x, x ∈ scc → ix st node ≤ ix st x) → (∀ x, x ∈ r → ix st x < ix st node) →
  inv rest (Tarjan (index st) (low st) (on_stack st ∖ list_to_set scc) r (out st ++ [scc])).
Proof.
  intros Hstk Hn Hge Hlt.
  assert (∀ x, x ∈ r → x ∈ stack st) as Hrs by (rewrite Hstk; set_solver).
  assert (∀ x, x ∈ stack st → ix st x < ix st node → x ∈ r) as Hsr.
  { intros x. rewrite Hstk, elem_of_app. intros [Hx|]; [|done]. specialize (Hge x Hx). lia. }
  assert (∀ w, w ∈ rest.*1 → w ∈ r) as Hwr.
  { intros w Hw. apply Hsr; [apply (i_work_stack _ _ Hi); simpl; by right|].
    by apply (work_head_max _ _ _ _ _ Hi). }
  assert (∀ w, w ∈ ((node, []) :: rest).*1 → ix st w < ix st node → w ∈ rest.*1) as Hwrest.
  { intros w. simpl. intros [->|]%elem_of_cons ?; [lia|done]. }
  pose proof (above_component scc r Hstk Hn Hge Hlt) as Hgood.
  pose proof Hi as []. split; try done; simpl.
  - rewrite Hstk in i_sorted0. by apply StronglySorted_app_1_r in i_sorted0.
  - rewrite i_on0, Hstk, list_to_set_app_L. apply set_eq. intros x.
    rewrite elem_of_difference, elem_of_union, !elem_of_list_to_set.
    split; [naive_solver|]. intros Hx. split; [by right|]. intros Hx'.
    specialize (Hge x Hx'). specialize (Hlt x Hx). lia.
  - intros x. rewrite elem_of_concat_snoc, i_part0, Hstk, elem_of_app. naive_solver.
  - intros x Hx. rewrite elem_of_concat_snoc. intros [Ho|Hs]; [by apply (i_disj0 x); auto|].
    specialize (Hge x Hs). specialize (Hlt x Hx). lia.
  - auto.
  - intros x Hx. destruct (i_low_reach0 x (Hrs x Hx)) as (u & Hu & Hiu & Hr). exists u.
    split_and!; [|done|done]. apply Hsr; [done|]. specialize (Hlt x Hx).
    specialize (i_low_le0 x (Hrs x Hx)). lia.
  - by apply StronglySorted_inv in i_work0 as [? _].
  - intros w x Hw Hx. apply i_work_reach0; [simpl; by right|auto].
  - intros x Hx. destruct (i_base0 x (Hrs x Hx)) as (w & Hw & Hwx). exists w.
    split; [|done]. apply Hwrest; [done|]. specialize (Hlt x Hx). lia.
  - intros x cs y Hx. apply i_sub0. by right.
  - intros x y Hx Hxy. destruct (i_rem0 x y (Hrs x Hx) Hxy) as [(cs & Hin & Hy)|[Hy Hl]].
    + apply elem_of_cons in Hin as [[= -> ->]|Hin]; [set_solver|left; eauto].
    + right. split; [done|]. auto.
  - intros x Hx Hxw. specialize (Hlt x Hx).
    destruct (i_fin0 x (Hrs x Hx)) as (Hlx & w & Hw & Hwx & Hlwx & Hmax).
    { simpl. rewrite elem_of_cons. intros [->|]; [lia|done]. }
    split; [done|]. exists w. split_and!; [apply Hwrest; [done|lia]|done|done|].
    intros w' Hw'. apply Hmax. simpl. by right.
Qed.
End Root.

Lemma inv_finish node rest st :
  inv ((node, []) :: rest) st →
  inv rest (finish node rest st) ∧ index (finish node rest st) = index st.
Proof.
  intros Hi. unfold finish.
  set (st1 := match rest with (p, _) :: _ => lower p (lw st node) st | [] => st end).
  assert (inv ((node, []) :: rest) st1 ∧ index st1 = index st ∧ lw st1 node = lw st node ∧
    match rest with (p, _) :: _ => lw st1 p ≤ lw st1 node | [] => True end)
    as (Hi1 & Hix & Hlw & Hp).
  { destruct rest as [|[p cs] rest]; [done|]. subst st1.
    assert (ix st p < ix st node) as Hlt by (apply (work_head_max _ _ _ _ _ Hi), head_in_work).
    assert (p ∈ ((node, []) :: (p, cs) :: rest).*1) as Hpw by (simpl; set_solver).
    assert (p ∈ dom (low st)) as Hpd.
    { rewrite (i_low _ _ Hi). eapply i_stack_dom; [exact Hi|]. by apply (i_work_stack _ _ Hi). }
    assert (lw (lower p (lw st node) st) node = lw st node) as Hln.
    { rewrite lw_lower, decide_False by (try done; intros ->; lia). done. }
    destruct (i_low_reach _ _ Hi node) as (u & Hu & Hiu & Hr).
    { apply (i_work_stack _ _ Hi), head_in_work. }
    split_and!; [|done|done|].
    - apply (inv_lower _ p u); [done..| |done]. etrans; [|exact Hr].
      by eapply work_reaches_head.
    - rewrite Hln, lw_lower, decide_True by done. lia. }
  case_decide as Hroot.
  - destruct (pop_until_spec node st1 (stack st1)) as (scc & r & -> & Hstk & Hn & Hge & Hlt).
    + apply (i_sorted _ _ Hi1).
    + apply (i_work_stack _ _ Hi1), head_in_work.
    + split; [|done]. by apply (inv_pop node rest st1).
  - split; [|done]. destruct rest as [|[p cs] rest].
    + destruct Hroot. by apply last_is_root.
    + apply (inv_drop node); [done|done|].
      pose proof (i_low_le _ _ Hi1 node (root_on_stack _ _ _ Hi1)). lia.
Qed.

(** ** Termination and the result *)

Lemma scan_dom node cs st : dom (index st) ⊆ dom (index (scan node cs st).2).
Proof.
  revert st. induction cs as [|c cs IH]; intros st; simpl; [done|].
  destruct (index st !! c); [|simpl; rewrite dom_insert_L; set_solver].
  case_decide; [apply (IH (lower node n st))|apply IH].
Qed.

(** Every iteration indexes a new node or retires an active one. *)
Definition remaining (work : list (A * list A)) (st : tarjan) : nat :=
  2 * (size (nodes g) - size (index st)) + length work.

Lemma index_bounded work st : inv work st → size (index st) ≤ size (nodes g).
Proof. intros Hi. rewrite <- size_dom. apply subseteq_size, (i_dom _ _ Hi). Qed.

Lemma inv_step node cs rest st :
  inv ((node, cs) :: rest) st →
  inv (step g ((node, cs) :: rest) st).1 (step g ((node, cs) :: rest) st).2 ∧
  remaining (step g ((node, cs) :: rest) st).1 (step g ((node, cs) :: rest) st).2
    < remaining ((node, cs) :: rest) st ∧
  dom (index st) ⊆ dom (index (step g ((node, cs) :: rest) st).2).
Proof.
  intros Hi. pose proof (inv_scan _ _ _ _ Hi) as Hs. pose proof (scan_dom node cs st) as Hd.
  unfold step. destruct (scan node cs st) as [[[c cs']|] st'].
  - destruct Hs as [Hi' Hsz]. split_and!; [done| |done].
    pose proof (index_bounded _ _ Hi'). unfold remaining. simpl. lia.
  - destruct Hs as [Hi' Hix]. destruct (inv_finish node rest st' Hi') as [Hf Hfx].
    simpl in *. rewrite Hfx. split_and!; [done| |done].
    unfold remaining. rewrite Hfx, Hix. simpl. lia.
Qed.

Lemma run_correct fuel work st :
  inv work st → remaining work st ≤ fuel →
  ∃ st', run fuel g work st = Some st' ∧ inv [] st' ∧ dom (index st) ⊆ dom (index st').
Proof.
  revert work st. induction fuel as [|fuel IH]; intros [|[node cs] rest] st Hi Hf.
  - by exists st.
  - unfold remaining in Hf. simpl in Hf. lia.
  - by exists st.
  - destruct (inv_step _ _ _ _ Hi) as (Hi' & Hr & Hd). simpl run.
    change (scan node cs st) with (scan node cs st).
    fold (step g ((node, cs) :: rest) st).
    destruct (step g ((node, cs) :: rest) st) as [work' st']. simpl in *.
    destruct (IH work' st' Hi') as (st'' & -> & Hi'' & Hd''); [lia|].
    exists st''. split_and!; [done..|set_solver].
Qed.

Lemma connect_all_correct rs st :
  inv [] st → (∀ r, r ∈ rs → r ∈ nodes g) →
  ∃ st', connect_all (enough_fuel g) g rs st = Some st' ∧ inv [] st' ∧
    dom (index st) ⊆ dom (index st') ∧ ∀ r, r ∈ rs → r ∈ dom (index st').
Proof.
  revert st. induction rs as [|r rs IH]; intros st Hi Hrs; simpl.
  { exists st. split_and!; [done..|set_solver]. }
  destruct (index st !! r) as [i|] eqn:Hr.
  - apply elem_of_dom_2 in Hr. destruct (IH st Hi) as (st' & -> & ? & ? & ?); [set_solver|].
    exists st'. split_and!; [done..|set_solver].
  - apply not_elem_of_dom in Hr.
    assert (inv [(r, children g r)] (push r st)) as Hp.
    { apply inv_push; [done|done|set_solver|simpl; set_solver]. }
    destruct (run_correct (enough_fuel g) _ _ Hp) as (st1 & Hrun & Hi1 & Hd1).
    { pose proof (index_bounded _ _ Hp). unfold remaining, enough_fuel in *. simpl in *.
      rewrite map_size_insert_None in * by (by apply not_elem_of_dom). lia. }
    unfold strongconnect. rewrite Hrun. simpl in *. rewrite dom_insert_L in Hd1.
    destruct (IH st1 Hi1) as (st' & -> & ? & ? & ?); [set_solver|].
    exists st'. split_and!; [done..|set_solver|set_solver].
Qed.

Lemma inv_initial : inv [] (Tarjan ∅ ∅ ∅ [] []).
Proof.
  split; simpl; try set_solver; try constructor.
Qed.

Lemma sccs_of_good :
  ∃ o, sccs_of g = Some o ∧ good_out o ∧ ∀ x, x ∈ concat o ↔ x ∈ nodes g.
Proof.
  destruct (connect_all_correct (roots g) _ inv_initial) as (st & Hst & Hi & _ & Hr).
  { intros r. by rewrite elem_of_roots. }
  exists (out st). unfold sccs_of. rewrite Hst. split_and!; [done|apply (i_out _ _ Hi)|].
  assert (stack st = []) as Hnil.
  { destruct (stack st) as [|x l] eqn:Hs; [done|].
    destruct (i_base _ _ Hi x) as (w & Hw & _); [rewrite Hs; set_solver|].
    simpl in Hw. set_solver. }
  intros x. rewrite <- elem_of_roots. split.
  - intros Hx. rewrite elem_of_roots. apply (i_dom _ _ Hi), (i_part _ _ Hi). by right.
  - intros Hx. apply Hr, (i_part _ _ Hi) in Hx as [Hx|Hx]; [|done]. rewrite Hnil in Hx. set_solver.
Qed.

Lemma in_cycle_tc o scc x :
  good_out o → scc ∈ o → x ∈ scc → is_cycle g scc = true ↔ tc E x x.
Proof.
  intros Ho Hs Hx. destruct (good_out_component o scc Ho Hs) as [_ Hnd].
  pose proof (λ y, good_out_class o scc x y Ho Hs Hx) as Hcl.
  unfold is_cycle. rewrite orb_true_iff, Nat.ltb_lt. split.
  - intros Hc. destruct scc as [|a [|b l]]; [set_solver| |].
    + apply list_elem_of_singleton in Hx as ->. destruct Hc as [Hc|Hc]; [simpl in Hc; lia|].
      apply bool_decide_eq_true, elem_of_children in Hc. by apply tc_once.
    + assert (∃ y, y ∈ a :: b :: l ∧ y ≠ x) as (y & Hy & Hne).
      { destruct (decide (a = x)) as [->|]; [|exists a; set_solver].
        exists b. apply NoDup_cons in Hnd as [Hnd _]. set_solver. }
      apply Hcl in Hy as [Hxy Hyx]. inversion Hxy; subst; [done|].
      eapply tc_rtc_r; [eapply tc_rtc_r; [by apply tc_once|done]|done].
  - intros Hc. assert (∃ z, E x z ∧ rtc E z x) as (z & Hxz & Hzx).
    { inversion Hc as [? ? Hxx|? z ? Hxz Hzx]; subst; [by exists x|].
      exists z. split; [done|by apply tc_rtc]. }
    assert (z ∈ scc) as Hz by (apply Hcl; split; [by apply rtc_once|done]).
    destruct scc as [|a [|b l]]; [set_solver| |left; simpl; lia]. right.
    apply list_elem_of_singleton in Hx as ->. apply list_elem_of_singleton in Hz as ->.
    by apply bool_decide_eq_true, elem_of_children.
Qed.

Lemma cycles_of_good :
  ∃ o cs, sccs_of g = Some o ∧ good_out o ∧ cycles_of g = Some cs ∧
    (∀ scc, scc ∈ cs ↔ scc ∈ o ∧ is_cycle g scc = true) ∧
    (∀ x, (∃ scc, scc ∈ cs ∧ x ∈ scc) ↔ tc E x x).
Proof.
  destruct sccs_of_good as (o & Ho & Hg & Hn). unfold cycles_of. rewrite Ho. simpl.
  eexists o, _. split_and!; [done..| |].
  { intros scc. rewrite list_elem_of_filter. naive_solver. }
  intros x. setoid_rewrite list_elem_of_filter. split.
  - intros (scc & [Hc Hs] & Hx). by eapply in_cycle_tc.
  - intros Hx. assert (x ∈ nodes g) as Hxn.
    { inversion Hx as [? ? Hxx|? z ? Hxz _]; subst;
        [exact (proj1 (gedge_nodes g _ _ Hxx))|exact (proj1 (gedge_nodes g _ _ Hxz))]. }
    apply Hn, list_elem_of_In, in_concat in Hxn as (scc & Hs & Hxs).
    apply list_elem_of_In in Hs, Hxs. exists scc. split_and!; [|done..].
    by eapply in_cycle_tc.
Qed.
End Correct.

(** C19: Tarjan's iteration terminates within its bound on every graph and returns the
    strongly connected components: they partition the nodes, and each is exactly the set of
    nodes mutually reachable with any one of its members. *)
Theorem sccs_of_partition g :
  ∃ o, sccs_of g = Some o ∧ NoDup (concat o) ∧ (∀ x, x ∈ concat o ↔ x ∈ nodes g) ∧
    ∀ scc, scc ∈ o → scc ≠ [] ∧
      ∀ x y, x ∈ scc → y ∈ scc ↔ rtc (gedge g) x y ∧ rtc (gedge g) y x.
Proof.
  destruct (sccs_of_good g) as (o & Ho & Hg & Hn). exists o.
  split_and!; [done|by eapply good_out_NoDup|done|]. intros scc Hs.
  split; [by eapply good_out_component|]. intros x y Hx. by eapply good_out_class.
Qed.

(** The interface the gate uses. *)
Lemma cycles_of_spec g :
  ∃ cs, cycles_of g = Some cs ∧
    (∀ x, (∃ scc, scc ∈ cs ∧ x ∈ scc) ↔ tc (gedge g) x x) ∧
    (cs = [] ↔ acyclic (gedge g)).
Proof.
  destruct (cycles_of_good g) as (o & cs & _ & Hg & Hc & Hin & Hx). exists cs.
  split_and!; [done..|]. split.
  - intros -> x Hxx. apply Hx in Hxx as (scc & Hs & _). set_solver.
  - intros Hac. destruct cs as [|scc cs]; [done|].
    destruct (good_out_component g o scc) as [Hne _]; [done|apply Hin; set_solver|].
    destruct scc as [|x scc]; [done|]. destruct (Hac x). apply Hx. exists (x :: scc). set_solver.
Qed.
(** [cycles_of] returns no component exactly when nothing waits for itself, and the
    nodes of the components it returns are exactly those that do. *)
Theorem cycles_of_exact g :
  ∃ cs, cycles_of g = Some cs ∧
    (∀ x, (∃ scc, scc ∈ cs ∧ x ∈ scc) ↔ tc (gedge g) x x) ∧
    (cs = [] ↔ acyclic (gedge g)).
Proof. apply cycles_of_spec. Qed.
End Tarjan.
