(* ===== verification/Bfs.v ===== *)
(** * The cycle printed for a component

    [witness] of validate-readiness-deadlock.py: a breadth-first search, inside one
    strongly connected component, for a shortest cycle through its least member. *)
From S2P Require Import Prelude Graphs Tarjan.
#[local] Open Scope nat_scope.

Section Bfs.
Context {A : Type} `{Countable A} (leb : A → A → bool) (g : gmap A (gset A)).
Notation E := (gedge g).

(** The [for child in sorted(graph.get(node, ()))] loop: whether a child closed the cycle,
    with the predecessors and the queue after the children discovered so far. *)
Fixpoint bfs_scan (members : gset A) (start node : A) (cs : list A)
    (prev : gmap A A) (queue : list A) : bool * gmap A A * list A :=
  match cs with
  | [] => (false, prev, queue)
  | c :: cs' =>
      if decide (c ∈ members) then
        if decide (c = start) then (true, prev, queue)
        else match prev !! c with
             | Some _ => bfs_scan members start node cs' prev queue
             | None => bfs_scan members start node cs' (<[c := node]> prev) (queue ++ [c])
             end
      else bfs_scan members start node cs' prev queue
  end.

(** [path = [node]; while path[-1] != start: path.append(prev[path[-1]])] *)
Fixpoint trace (fuel : nat) (prev : gmap A A) (start x : A) : option (list A) :=
  if decide (x = start) then Some [x]
  else match fuel with
       | O => None
       | S fuel => y ← prev !! x; l ← trace fuel prev start y; Some (x :: l)
       end.

Fixpoint bfs (fuel : nat) (members : gset A) (start : A)
    (prev : gmap A A) (queue : list A) : option (list A) :=
  match queue with
  | [] => Some [start; start]
  | node :: queue' =>
      match fuel with
      | O => None
      | S fuel =>
          match bfs_scan members start node (children leb g node) prev queue' with
          | (true, prev', _) =>
              p ← trace (S (size prev')) prev' start node; Some (reverse p ++ [start])
          | (false, prev', queue'') => bfs fuel members start prev' queue''
          end
      end
  end.

Definition witness (scc : list A) : option (list A) :=
  match isort leb scc with
  | [] => None
  | start :: _ => bfs (S (length scc)) (list_to_set scc) start ∅ [start]
  end.

(** ** The search invariant *)

Section Search.
Context (members : gset A) (start : A).

(** An edge that stays inside the component. *)
Definition inner (x y : A) : Prop := E x y ∧ y ∈ members.

Definition discovered (prev : gmap A A) (x : A) : Prop := x = start ∨ x ∈ dom prev.

(** [d] is the depth at which each node was discovered; [node], when given, is the node
    being expanded, with the children in [cs] still to be looked at. *)
Record searching (prev : gmap A A) (queue : list A) (d : A → nat) : Prop := {
  b_d0 : d start = 0;
  b_prev : ∀ x y, prev !! x = Some y →
    inner y x ∧ x ≠ start ∧ discovered prev y ∧ d x = S (d y);
  b_queue : ∀ x, x ∈ queue → discovered prev x;
  b_sorted : StronglySorted (λ x y, d x ≤ d y) queue;
  b_near : ∀ x y, discovered prev x → y ∈ queue → d x ≤ S (d y);
  b_size : ∀ x, discovered prev x → d x ≤ size prev;
}.

Definition expanded (prev : gmap A A) (d : A → nat) (x : A) : Prop :=
  ∀ c, inner x c → c ≠ start ∧ c ∈ dom prev ∧ d c ≤ S (d x).

(** Between two iterations: what left the queue is expanded. *)
Definition resting (prev : gmap A A) (queue : list A) (d : A → nat) : Prop :=
  searching prev queue d ∧ ∀ x, discovered prev x → x ∉ queue → expanded prev d x.

(** While [node] is being expanded. *)
Record expanding (node : A) (cs : list A) (prev : gmap A A) (queue : list A) (d : A → nat)
    : Prop := {
  e_search : searching prev queue d;
  e_node : discovered prev node;
  e_low : ∀ y, y ∈ queue → d node ≤ d y;
  e_high : ∀ x, discovered prev x → d x ≤ S (d node);
  e_others : ∀ x, discovered prev x → x ∉ queue → x ≠ node → expanded prev d x;
  e_done : ∀ c, inner node c → c ∈ cs ∨ (c ≠ start ∧ c ∈ dom prev ∧ d c ≤ S (d node));
}.

Lemma discover_discovered prev c y x :
  discovered (<[c := y]> prev) x ↔ x = c ∨ discovered prev x.
Proof. unfold discovered. rewrite dom_insert_L. set_solver. Qed.

(** Queueing a new child. *)
Lemma expanding_discover node c cs prev queue d :
  expanding node (c :: cs) prev queue d → inner node c → c ≠ start → prev !! c = None →
  ∃ d', expanding node cs (<[c := node]> prev) (queue ++ [c]) d'.
Proof.
  intros [Hs Hn Hlow Hhigh Ho Hd] Hc Hcs Hnone. pose proof Hs as [].
  assert (Hnd : ¬ discovered prev c).
  { intros [?|Hin]; [done|]. by apply not_elem_of_dom in Hnone. }
  set (d' := λ x, if decide (x = c) then S (d node) else d x).
  assert (Hdc : d' c = S (d node)) by (unfold d'; by rewrite decide_True).
  assert (Hdd : ∀ x, discovered prev x → d' x = d x).
  { intros x Hx. unfold d'. rewrite decide_False; [done|]. by intros ->. }
  assert (Hdn : d' node = d node) by auto.
  assert (Hex : ∀ x, discovered prev x → expanded prev d x → expanded (<[c := node]> prev) d' x).
  { intros x Hx Hexp k Hk. destruct (Hexp k Hk) as (? & Hin & Hle).
    rewrite dom_insert_L, (Hdd x), (Hdd k) by (done || by right). split_and!; [done|set_solver|done]. }
  exists d'. split.
  - split.
    + rewrite Hdd; [done|by left].
    + intros x y. rewrite lookup_insert. case_decide as Hxc; subst.
      * intros [= <-]. rewrite Hdc, Hdn, discover_discovered. auto.
      * intros Hxy. destruct (b_prev0 x y Hxy) as (? & ? & Hy & ?).
        rewrite discover_discovered, !Hdd by (done || right; by eapply elem_of_dom_2). auto.
    + intros x. rewrite elem_of_app, list_elem_of_singleton, discover_discovered.
      intros [Hx| ->]; auto.
    + apply StronglySorted_app_2; [| |repeat constructor].
      * intros x y Hx ->%list_elem_of_singleton. rewrite Hdc, Hdd by auto. auto.
      * clear -b_sorted0 b_queue0 Hdd. induction b_sorted0 as [|x l _ IH Hl]; [constructor|].
        constructor; [apply IH; set_solver|]. rewrite Forall_forall in *. intros y Hy.
        rewrite !Hdd by (apply b_queue0; set_solver). by apply Hl.
    + intros x y. rewrite discover_discovered, elem_of_app, list_elem_of_singleton.
      intros [->|Hx] [Hy| ->]; rewrite ?Hdc, ?Hdd by auto.
      * specialize (Hlow y Hy). lia.
      * lia.
      * auto.
      * specialize (Hhigh x Hx). lia.
    + intros x. rewrite map_size_insert_None, discover_discovered by done.
      intros [->|Hx]; [rewrite Hdc|rewrite Hdd by done].
      * specialize (b_size0 node Hn). lia.
      * specialize (b_size0 x Hx). lia.
  - apply discover_discovered. by right.
  - intros y. rewrite elem_of_app, list_elem_of_singleton, Hdn.
    intros [Hy| ->]; [rewrite Hdd by auto; auto|rewrite Hdc; lia].
  - intros x. rewrite discover_discovered, Hdn. intros [->|Hx]; [by rewrite Hdc|].
    rewrite Hdd by done. auto.
  - intros x. rewrite discover_discovered, elem_of_app, list_elem_of_singleton.
    intros [->|Hx] Hq Hne; [tauto|]. apply Hex; [done|]. apply Ho; tauto.
  - intros k Hk. rewrite dom_insert_L, Hdn. destruct (Hd k Hk) as [Hin|(? & Hin & ?)].
    + apply elem_of_cons in Hin as [->|Hin]; [right|by left].
      rewrite Hdc. split_and!; [done|set_solver|done].
    + right. rewrite Hdd by (by right). split_and!; [done|set_solver|done].
Qed.

Lemma expanding_skip node c cs prev queue d :
  expanding node (c :: cs) prev queue d →
  (inner node c → c ≠ start ∧ c ∈ dom prev) →
  expanding node cs prev queue d.
Proof.
  intros [Hs Hn Hlow Hhigh Ho Hd] Hc. split; try done.
  intros k Hk. destruct (Hd k Hk) as [[->|Hin]%elem_of_cons|]; [right|by left|by right].
  destruct (Hc Hk). split_and!; [done..|]. apply Hhigh. by right.
Qed.

(** The loop over the children: it stops when one of them is [start]; otherwise [node] is
    expanded and the queue has grown by what was discovered. *)
Lemma bfs_scan_spec node cs prev queue d :
  expanding node cs prev queue d → (∀ c, c ∈ cs → E node c) →
  match bfs_scan members start node cs prev queue with
  | (true, prev', queue') =>
      inner node start ∧ ∃ d' cs', expanding node cs' prev' queue' d'
  | (false, prev', queue') =>
      ∃ d', expanding node [] prev' queue' d' ∧
        length queue' + size prev = length queue + size prev'
  end.
Proof.
  revert prev queue d. induction cs as [|c cs IH]; intros prev queue d He Hcs; simpl.
  { exists d. split; [done|lia]. }
  assert (Hcs' : ∀ k, k ∈ cs → E node k) by set_solver.
  assert (Hnc : E node c) by set_solver.
  case_decide as Hm; [case_decide as Hst|].
  - subst. split; [done|]. eauto.
  - destruct (prev !! c) as [y|] eqn:Hy.
    + apply (IH _ _ d); [|done]. eapply expanding_skip; [done|]. intros _.
      split; [done|by eapply elem_of_dom_2].
    + destruct (expanding_discover _ _ _ _ _ _ He) as [d' He']; [done..|].
      specialize (IH _ _ _ He' Hcs').
      destruct (bfs_scan _ _ _ _ _ _) as [[[] prev'] queue']; [done|].
      destruct IH as (d'' & ? & Hlen). exists d''. split; [done|].
      rewrite length_app, map_size_insert_None in Hlen by done. simpl in Hlen. lia.
  - apply (IH _ _ d); [|done]. eapply expanding_skip; [done|]. by intros [_ ?].
Qed.

(** ** The path that is printed *)

Lemma trace_spec prev queue d fuel x :
  searching prev queue d → discovered prev x → d x ≤ fuel →
  ∃ l, trace fuel prev start x = Some l ∧ length l = S (d x) ∧
    ∃ pre, reverse l = pre ++ [x] ∧ walk E (pre ++ [x]) ∧ head (pre ++ [x]) = Some start ∧
      ∀ y, y ∈ pre ++ [x] → y = start ∨ y ∈ members.
Proof.
  intros Hs. pose proof Hs as []. revert x. induction fuel as [|fuel IH]; intros x Hx Hle; simpl.
  - case_decide as Hst; [subst x|].
    + exists [start]. split_and!; [done|simpl; lia|]. exists []. split_and!; try done. set_solver.
    + destruct Hx as [|[y Hy]%elem_of_dom]; [done|].
      destruct (b_prev0 x y Hy) as (_ & _ & _ & Hd). lia.
  - case_decide as Hst; [subst x|].
    + exists [start]. split_and!; [done|simpl; lia|]. exists []. split_and!; try done. set_solver.
    + destruct Hx as [|[y Hy]%elem_of_dom]; [done|]. rewrite Hy. simpl.
      destruct (b_prev0 x y Hy) as ([Hyx Hm] & _ & Hyd & Hd).
      destruct (IH y Hyd) as (l & -> & Hlen & pre & Hrev & Hw & Hh & Hmem); [lia|].
      exists (x :: l). split_and!; [done|simpl; lia|]. exists (pre ++ [y]).
      rewrite reverse_cons, Hrev. split_and!; [done| | |].
      * rewrite <- app_assoc. by apply walk_snoc.
      * by destruct pre.
      * intros z. rewrite elem_of_app, list_elem_of_singleton. intros [Hz| ->]; auto.
Qed.

(** While [node] is expanded, no cycle through [start] is shorter than its depth plus one. *)
Lemma no_shorter node cs prev queue d q x :
  expanding node cs prev queue d → discovered prev x →
  walk E (x :: q ++ [start]) → (∀ y, y ∈ q → y ∈ members) → start ∈ members →
  d node ≤ d x + length q.
Proof.
  intros [Hs Hn Hlow Hhigh Ho Hd]. revert x. induction q as [|c q IH]; intros x Hx Hw Hq Hst.
  - simpl. destruct (decide (d node ≤ d x)) as [|Hlt]; [lia|]. exfalso.
    destruct (Ho x Hx) with (c := start) as [Hf _]; [| | |done].
    + intros Hin. specialize (Hlow x Hin). lia.
    + intros ->. lia.
    + split; [by destruct Hw|done].
  - destruct Hw as [Hxc Hw]. simpl.
    destruct (decide (d node ≤ d x)) as [|Hlt]; [lia|].
    destruct (Ho x Hx) with (c := c) as (_ & Hc & Hdc).
    + intros Hin. specialize (Hlow x Hin). lia.
    + intros ->. lia.
    + split; [done|]. apply Hq. set_solver.
    + enough (d node ≤ d c + length q) by lia.
      apply IH; [by right|done|set_solver|done].
Qed.

Definition shortest_cycle (p : list A) : Prop :=
  walk E (start :: p ++ [start]) ∧ (∀ x, x ∈ p → x ∈ members) ∧
  ∀ q, walk E (start :: q ++ [start]) → (∀ x, x ∈ q → x ∈ members) → length p ≤ length q.

Lemma resting_expanding prev queue d node :
  resting prev (node :: queue) d → expanding node (children leb g node) prev queue d.
Proof.
  intros [Hs He]. pose proof Hs as [].
  apply StronglySorted_cons in b_sorted0 as [Hhd Htl]. rewrite Forall_forall in Hhd.
  split.
  - split; try done; intros; [apply b_queue0|apply b_near0]; set_solver.
  - apply b_queue0. set_solver.
  - done.
  - intros x Hx. apply b_near0; [done|set_solver].
  - intros x Hx Hq Hne. apply He; [done|]. set_solver.
  - intros c [Hc _]. left. by apply elem_of_children.
Qed.

Lemma expanding_resting prev queue d node :
  expanding node [] prev queue d → resting prev queue d.
Proof.
  intros [Hs Hn Hlow Hhigh Ho Hd]. split; [done|]. intros x Hx Hq.
  destruct (decide (x = node)) as [->|]; [|auto].
  intros c Hc. destruct (Hd c Hc) as [|]; [set_solver|done].
Qed.

Lemma dom_prev_members prev queue d : searching prev queue d → dom prev ⊆ members ∖ {[start]}.
Proof.
  intros [] x [y Hy]%elem_of_dom. destruct (b_prev0 x y Hy) as ([_ ?] & ? & _). set_solver.
Qed.

(** The queue does not run dry while a cycle through [start] is unseen. *)
Lemma resting_nonempty prev d : resting prev [] d → ¬ tc inner start start.
Proof.
  intros [Hs He] Hc.
  assert (∀ x y, tc inner x y → discovered prev x → y ≠ start) as Hall.
  { induction 1 as [x y Hxy|x z y Hxz _ IH]; intros Hx.
    - by destruct (He x Hx (not_elem_of_nil x) y Hxy).
    - apply IH. right. by destruct (He x Hx (not_elem_of_nil x) z Hxz) as (_ & ? & _). }
  by apply (Hall start start Hc); [left|].
Qed.

Lemma bfs_correct fuel prev queue d :
  start ∈ members → tc inner start start →
  resting prev queue d → length queue + size members ≤ fuel + size prev + 1 →
  ∃ p, bfs fuel members start prev queue = Some (start :: p ++ [start]) ∧ shortest_cycle p.
Proof.
  intros Hst Hcyc. revert prev queue d. induction fuel as [|fuel IH].
  all: intros prev queue d Hr Hf.
  all: assert (Hsz : S (size prev) ≤ size members) by
    (destruct Hr as [Hr _]; pose proof (subseteq_size _ _ (dom_prev_members _ _ _ Hr)) as Hle;
     rewrite size_difference, size_singleton, size_dom in Hle by set_solver;
     assert (size members ≠ 0) by (apply size_non_empty_iff; set_solver); lia).
  all: destruct queue as [|node queue]; [by destruct (resting_nonempty _ _ Hr)|].
  { simpl in Hf. lia. }
  pose proof (resting_expanding _ _ _ _ Hr) as He. cbn [bfs].
  pose proof (bfs_scan_spec node _ _ _ _ He) as Hscan.
  specialize (Hscan (λ c Hc, proj1 (elem_of_children leb g node c) Hc)).
  destruct (bfs_scan _ _ _ _ _ _) as [[[] prev'] queue'].
  - destruct Hscan as ([Hns _] & d' & cs' & He').
    destruct (trace_spec prev' queue' d' (S (size prev')) node)
      as (l & -> & Hlen & pre & Hrev & Hw & Hh & Hmem); [exact (e_search _ _ _ _ _ He')|exact (e_node _ _ _ _ _ He')| |].
    { pose proof (b_size _ _ _ (e_search _ _ _ _ _ He') node (e_node _ _ _ _ _ He')). lia. }
    simpl. destruct (pre ++ [node]) as [|s p] eqn:Hp; [by destruct pre|].
    simpl in Hh. injection Hh as ->. exists p. rewrite Hrev. split; [done|].
    split_and!.
    + change (walk E ((start :: p) ++ [start])). rewrite <- Hp, <- app_assoc. simpl.
      apply walk_snoc; [by rewrite Hp|done].
    + intros x Hx. destruct (Hmem x) as [->|]; [set_solver|done..].
    + intros q Hwq Hq. pose proof (no_shorter _ _ _ _ _ q start He') as Hmin.
      rewrite (b_d0 _ _ _ (e_search _ _ _ _ _ He')) in Hmin.
      apply (f_equal length) in Hrev. rewrite length_reverse, Hlen in Hrev. simpl in Hrev.
      specialize (Hmin (or_introl eq_refl) Hwq Hq Hst). injection Hrev as <-. exact Hmin.
  - destruct Hscan as (d' & He' & Hlen). eapply IH; [by eapply expanding_resting|]. simpl in Hf. lia.
Qed.
End Search.

(** The cycle found for a component of [cycles_of], from its least member. *)
Lemma component_cycle o scc start :
  good_out g o → scc ∈ o → is_cycle leb g scc = true → start ∈ scc →
  tc (inner (list_to_set scc) ) start start.
Proof.
  intros Ho Hs Hc Hst. apply (in_cycle_tc leb g o scc start Ho Hs Hst) in Hc.
  assert (Hcl : ∀ y, rtc E start y → rtc E y start → y ∈ (list_to_set scc : gset A)).
  { intros y H1 H2. apply elem_of_list_to_set. by apply (good_out_class g o scc start y). }
  assert (∀ x y, tc E x y → rtc E start x → rtc E y start → tc (inner (list_to_set scc)) x y)
    as Hin; [|by apply Hin].
  clear Hc. induction 1 as [x y Hxy|x z y Hxz Hzy IH]; intros Hx Hy.
  - apply tc_once. split; [done|]. apply Hcl; [|done]. by eapply rtc_r.
  - apply tc_l with z; [split; [done|apply Hcl]|apply IH]; try done.
    + by eapply rtc_r.
    + etrans; [by apply tc_rtc|done].
    + by eapply rtc_r.
Qed.

Lemma witness_spec cs scc :
  cycles_of leb g = Some cs → scc ∈ cs →
  ∃ start p, witness scc = Some (start :: p ++ [start]) ∧ head (isort leb scc) = Some start ∧
    walk E (start :: p ++ [start]) ∧ (∀ x, x ∈ start :: p → x ∈ scc) ∧
    ∀ q, walk E (start :: q ++ [start]) → (∀ x, x ∈ q → x ∈ scc) → length p ≤ length q.
Proof.
  intros Hcs Hs. destruct (cycles_of_good leb g) as (o & cs' & _ & Ho & Hcs' & Hin & _).
  rewrite Hcs in Hcs'. injection Hcs' as <-. destruct (proj1 (Hin scc) Hs) as [Hso Hc].
  destruct (good_out_component g o scc Ho Hso) as [Hne Hnd].
  unfold witness. destruct (isort leb scc) as [|start l] eqn:Hsort.
  { by apply isort_nil in Hsort. }
  assert (Hst : start ∈ scc) by (apply (elem_of_isort leb); rewrite Hsort; set_solver).
  destruct (bfs_correct (list_to_set scc) start (S (length scc)) ∅ [start] (λ _, 0))
    as (p & Hp & Hw & Hmem & Hmin).
  - by apply elem_of_list_to_set.
  - by eapply component_cycle.
  - split.
    + split; try done.
      * intros x ->%list_elem_of_singleton. by left.
      * repeat constructor.
      * intros. simpl. lia.
    + intros x [->|Hx] Hq; [set_solver|]. by rewrite dom_empty_L in Hx; set_solver.
  - rewrite map_size_empty. rewrite size_list_to_set by done. simpl. lia.
  - exists start, p. setoid_rewrite elem_of_list_to_set in Hmem.
    setoid_rewrite elem_of_list_to_set in Hmin. split_and!; [done..| |exact Hmin].
    intros x [->|Hx]%elem_of_cons; auto.
Qed.

(** For every component [cycles_of] reports, [witness] terminates and returns a cycle of
    the graph that starts and ends at the component's least member, stays inside the
    component, and is a shortest one through that member. *)
Theorem witness_shortest cs scc :
  cycles_of leb g = Some cs → scc ∈ cs →
  ∃ start p, witness scc = Some (start :: p ++ [start]) ∧ head (isort leb scc) = Some start ∧
    walk E (start :: p ++ [start]) ∧ (∀ x, x ∈ start :: p → x ∈ scc) ∧
    ∀ q, walk E (start :: q ++ [start]) → (∀ x, x ∈ q → x ∈ scc) → length p ≤ length q.
Proof. apply witness_spec. Qed.
End Bfs.

(** A component with cycles of two lengths. *)
Definition sample_graph : gmap nat (gset nat) :=
  {[ 1 := {[2; 4]}; 2 := {[3]}; 3 := {[1]}; 4 := {[1]} ]}.

Lemma witness_shortest_witness :
  witness Nat.leb sample_graph [4; 3; 2; 1] = Some [1; 4; 1] ∧
  ∃ start p, witness Nat.leb sample_graph [4; 3; 2; 1] = Some (start :: p ++ [start]) ∧
    head (isort Nat.leb [4; 3; 2; 1]) = Some start ∧
    walk (gedge sample_graph) (start :: p ++ [start]) ∧
    (∀ x, x ∈ start :: p → x ∈ [4; 3; 2; 1]) ∧
    ∀ q, walk (gedge sample_graph) (start :: q ++ [start]) →
      (∀ x, x ∈ q → x ∈ [4; 3; 2; 1]) → length p ≤ length q.
Proof.
  split; [vm_compute; reflexivity|].
  apply (witness_shortest Nat.leb sample_graph [[4; 3; 2; 1]]); [vm_compute; reflexivity|].
  by left.
Defined.
