(* ===== verification/Deadlock.v ===== *)
(** * hack/validate-readiness-deadlock.py: the readiness wait graph

    Every component chart is rendered and reduced to its Services, its workloads and what
    their init containers wait for; [build_graph] turns that, the declared dependencies and
    the relaxed edges into one graph of everything that waits on everything else; [verdict]
    requires the graph to have no cycle and every relaxation to be needed. *)
From S2P Require Import Prelude PyStr PyVal Json Graphs Tarjan Bfs.
#[local] Open Scope string_scope.
#[local] Open Scope list_scope.

Module Deadlock.

(** [fail_measurement]: exit status 2. *)
Definition fail_measurement {A} : res A := Raise (SystemExit 2).

(** ** The umbrella's declarations *)

Definition edge : Type := string * string.

(** [{c["name"]: sorted(c.get("deps") or []) for c in components}] *)
Definition read_deps (doc : val) : res (gmap string (list string)) :=
  let* l := get_iter doc "components" in
  foldM (λ m c,
    let* nm := getitem c "name" in
    let* nm := as_str nm in
    let* ds := get_iter c "deps" in
    let* ds := mapM as_str ds in
    Ok (<[nm := sorted_strs ds]> m)) ∅ l.

(** One entry of [dependencyRelaxations]. The text of the cycle it breaks is documentation. *)
Definition read_relaxation (comps : gmap string (list string))
    (relaxed : gset edge) (r : val) : res (gset edge) :=
  if negb (is_dict r) then fail_measurement else
  let* fields := mapM (get r) ["component"; "dependency"; "issue"; "cycle"] in
  if negb (forallb truthy fields) then fail_measurement else
  let* c := getitem r "component" in
  let* c := as_str c in
  let* d := getitem r "dependency" in
  let* d := as_str d in
  if decide ((c, d) ∈ relaxed) then fail_measurement else
  match comps !! c with
  | None => fail_measurement
  | Some ds => if decide (d ∈ ds) then Ok ({[(c, d)]} ∪ relaxed) else fail_measurement
  end.

Definition read_umbrella (umbrella : option val)
    : res (gmap string (list string) * gset edge) :=
  match umbrella with
  | None => fail_measurement
  | Some doc =>
      let doc := or_ doc (VDict []) in
      let* comps := read_deps doc in
      if (size comps =? 0)%nat then fail_measurement else
      if forallb (λ '(_, ds), forallb (λ d, bool_decide (is_Some (comps !! d))) ds)
           (map_to_list comps)
      then
        let comps := delete "openstack" comps in
        let* rs := get_iter doc "dependencyRelaxations" in
        let* relaxed := foldM (read_relaxation comps) ∅ rs in
        Ok (comps, relaxed)
      else fail_measurement
  end.

(** ** What a rendered chart contains *)

Definition labels : Type := list (string * val).

Record service := Service { s_name : string; s_selector : labels }.

Record workload := Workload {
  w_kind : string;
  w_name : string;
  w_labels : labels;
  w_services : list string;
  w_pods : list labels;
  w_jobs : list string;
}.

Record chart := Chart {
  services : list service;
  workloads : list workload;
  children : nat;
}.

Definition WORKLOAD_KINDS : list string := ["Deployment"; "DaemonSet"; "StatefulSet"; "Job"].
Definition EXTERNAL_SERVICES : list string := ["postgresql"].

(** [s.split(",")] stripped of blanks. *)
Definition comma_items (s : string) : list string :=
  filter (λ t, t ≠ "") (strip <$> split_on "," s).

(** The part of [namespace:service] after the last colon. *)
Definition after_colon (t : string) : string := List.last (split_on ":" t) "".

(** The labels of each requirement of a DEPENDENCY_POD_JSON list. A [ValueError] or an
    [AttributeError] ends the list where it is; another exception escapes. *)
Fixpoint pod_requirements (entries : list val) (pods : list val) : res (list val) :=
  match entries with
  | [] => Ok pods
  | e :: entries' =>
      match get e "labels" with
      | Raise AttributeError => Ok pods
      | Raise x => Raise x
      | Ok l => pod_requirements entries' (if truthy l then pods ++ [l] else pods)
      end
  end.

Definition pod_json (value : val) (pods : list val) : res (list val) :=
  let* s := as_str value in
  match json_loads s with
  | Raise _ => Ok pods
  | Ok doc => let* entries := py_iter doc in pod_requirements entries pods
  end.

Definition waits_acc : Type := list string * list val * list string.

Definition read_env (acc : waits_acc) (e : val) : res waits_acc :=
  let '(svcs, pods, jobs) := acc in
  let* name := get e "name" in
  let* value := get e "value" in
  if negb (truthy value) then Ok acc
  else if eq_str name "DEPENDENCY_SERVICE" then
    let* s := py_str value in
    Ok (svcs ++ (after_colon <$> comma_items s), pods, jobs)
  else if eq_str name "DEPENDENCY_JOBS" then
    let* s := py_str value in
    Ok (svcs, pods, jobs ++ comma_items s)
  else if eq_str name "DEPENDENCY_POD_JSON" then
    let* pods := pod_json value pods in
    Ok (svcs, pods, jobs)
  else Ok acc.

Definition entrypoint_waits (pod_spec : val) : res waits_acc :=
  let* cs := get_iter pod_spec "initContainers" in
  let* (svcs, pods, jobs) := foldM (λ acc c,
      let* es := get_iter c "env" in foldM read_env acc es) ([], [], []) cs in
  Ok (sorted_set svcs, pods, sorted_set jobs).

Section Render.
  (** [Chart.yaml] exists; [helm template] on the copied chart; PyYAML's [safe_load_all]. *)
  Context (chart_exists : string → bool) (helm_template : string → Z * string * string)
          (safe_load_all : string → option (list val)).

Definition render (name : string) : list val + string :=
    if negb (chart_exists name) then inr "no chart"
    else
      let '(rc, out, err) := helm_template name in
      if negb (rc =? 0)%Z then inr err
      else match filter (λ d, is_dict d = true) <$> safe_load_all out with
           | None => inr "rendered output does not parse"
           | Some [] => inr "rendered 0 objects"
           | Some docs => inl docs
           end.

  (** A rendered document added to the Services and workloads of its chart. *)
Definition collect_doc (acc : list service * list workload) (d : val)
      : res (list service * list workload) :=
    let* kind := get d "kind" in
    if eq_str kind "Service" then
      let* md := getitem d "metadata" in
      let* nm := getitem md "name" in
      let* nm := as_str nm in
      let* spec := get_dict d "spec" in
      let* sel := get_dict spec "selector" in
      let* sel := items sel in
      Ok (acc.1 ++ [Service nm sel], acc.2)
    else if existsb (eq_str kind) WORKLOAD_KINDS then
      let* kd := as_str kind in
      let* spec := get_dict d "spec" in
      let* tpl := get_dict spec "template" in
      let* pspec := get_dict tpl "spec" in
      let* (svc, pods, jobs) := entrypoint_waits pspec in
      let* md := getitem d "metadata" in
      let* nm := getitem md "name" in
      let* nm := as_str nm in
      let* tmd := get_dict tpl "metadata" in
      let* lb := get_dict tmd "labels" in
      let* lb := items lb in
      let* pods := mapM items pods in
      Ok (acc.1, acc.2 ++ [Workload kd nm lb svc pods jobs])
    else Ok acc.

  (** [collect]: any chart that does not render fails the measurement. *)
Definition collect (names : list string) : res (gmap string chart) :=
    let* (charts, errors) := foldM (λ acc name,
        match render name with
        | inr err => Ok (acc.1, acc.2 ++ [name])
        | inl docs =>
            let* (ss, ws) := foldM collect_doc ([], []) docs in
            Ok (<[name := Chart ss ws (length docs)]> acc.1, acc.2)
        end) (∅, []) names in
    match errors with [] => Ok charts | _ => fail_measurement end.
End Render.

(** ** Who owns a Service, and what backs it *)

Definition owners_map : Type := gmap string (string * list workload).

(** [sorted(charts.items())] *)
Definition sorted_keys {B} (m : gmap string B) : list string := sorted_strs (elements (dom m)).
Definition sorted_items {B} (m : gmap string B) : list (string * B) :=
  omap (λ k, (k,.) <$> m !! k) (sorted_keys m).

(** A Service with an empty selector selects nothing. *)
Definition backing (data : chart) (svc : service) : list workload :=
  match s_selector svc with
  | [] => []
  | sel => filter (λ w, selector_matches sel (w_labels w) = true) (workloads data)
  end.

(** [owners.setdefault(...)], and whether another component already created the name. *)
Definition own_service (comp : string) (data : chart) (acc : owners_map * list string)
    (svc : service) : owners_map * list string :=
  let '(owners, duplicates) := acc in
  match owners !! s_name svc with
  | Some (c, _) =>
      (owners, if String.eqb c comp then duplicates else duplicates ++ [s_name svc])
  | None => (<[s_name svc := (comp, backing data svc)]> owners, duplicates)
  end.

Definition all_owners (charts : gmap string chart) : owners_map * list string :=
  foldl (λ acc '(comp, data), foldl (own_service comp data) acc (services data))
    (∅, []) (sorted_items charts).

(** The waited-on names no Service, or only a Service backed by nothing, answers. *)
Definition unanswered (owners : owners_map) (svc : string) : bool :=
  match owners !! svc with Some (_, _ :: _) => false | _ => true end.

Definition unresolved_names (owners : owners_map) (charts : gmap string chart) : list string :=
  filter (λ svc, unanswered owners svc = true)
    (flat_map (λ '(_, data), flat_map w_services (workloads data)) (sorted_items charts)).

Definition resolve (charts : gmap string chart) : res (owners_map * list string) :=
  let '(owners, duplicates) := all_owners charts in
  match duplicates with
  | _ :: _ => fail_measurement
  | [] =>
      let unresolved := unresolved_names owners charts in
      if forallb (λ s, bool_decide (s ∈ EXTERNAL_SERVICES)) unresolved
      then Ok (owners, sorted_set unresolved)
      else fail_measurement
  end.

(** ** The graph *)

Inductive node :=
  | comp_node (c : string)
  | create_node (c : string)
  | workload_node (c : string) (kind_name : string).

#[export] Instance node_eq_dec : EqDecision node.
Proof. solve_decision. Defined.

#[export] Instance node_countable : Countable node.
Proof.
  refine (inj_countable'
    (λ n, match n with
          | comp_node c => inl c
          | create_node c => inr (inl c)
          | workload_node c k => inr (inr (c, k)) end)
    (λ x, match x with
          | inl c => comp_node c
          | inr (inl c) => create_node c
          | inr (inr (c, k)) => workload_node c k end) _).
  by intros [].
Defined.

(** The order of the tuples ("composition", c), ("creation", c), ("workload", c, w). *)
Definition node_leb (a b : node) : bool :=
  match a, b with
  | comp_node c, comp_node d => str_leb c d
  | comp_node _, _ => true
  | create_node c, create_node d => str_leb c d
  | create_node _, workload_node _ _ => true
  | workload_node c k, workload_node d l =>
      if String.eqb c d then str_leb k l else str_leb c d
  | _, _ => false
  end.

Definition wl_node (c : string) (w : workload) : node :=
  workload_node c (w_kind w +:+ "/" +:+ w_name w).

(** Why an edge is there; the code renders these as sentences. *)
Inductive reason :=
  | ManagedChild | AfterCreation
  | WaitsService (svc : string) | WaitsPod (want : labels) | WaitsJob (job : string)
  | GatedOnExistence | GatedOnReadiness.

Definition wait : Type := node * node * reason.

Record stats := Stats {
  st_service : nat; st_pod : nat; st_job : nat; st_pod_unmatched : nat; st_job_unmatched : nat }.

Definition workload_table : Type := gmap string (gmap string workload).

(** [{c: {w["name"]: w for w in d["workloads"]} for c, d in charts.items()}] *)
Definition table_of (charts : gmap string chart) : workload_table :=
  (λ data, foldl (λ m w, <[w_name w := w]> m) ∅ (workloads data)) <$> charts.

Section BuildGraph.
Context (charts : gmap string chart) (comps : gmap string (list string))
        (relaxed : gset edge) (table : workload_table) (owners : owners_map).

Definition service_waits (n : node) (w : workload) : list wait :=
  flat_map (λ svc,
    match owners !! svc with
    | Some (owner, bs) => (λ b, (n, wl_node owner b, WaitsService svc)) <$> bs
    | None => []
    end) (w_services w).

Definition pod_matches (want : labels) : list node :=
  flat_map (λ '(c, ws),
    (λ x, wl_node c x) <$>
      filter (λ x, selector_matches want (w_labels x) = true) (map_to_list ws).*2)
    (sorted_items table).

Definition pod_waits (n : node) (w : workload) : list wait :=
  flat_map (λ want, (λ m, (n, m, WaitsPod want)) <$> pod_matches want) (w_pods w).

Definition job_target (comp job : string) : option workload :=
  ws ← table !! comp; t ← ws !! job; if String.eqb (w_kind t) "Job" then Some t else None.

Definition job_waits (comp : string) (n : node) (w : workload) : list wait :=
  omap (λ job, (λ t, (n, wl_node comp t, WaitsJob job)) <$> job_target comp job) (w_jobs w).

Definition workload_waits (comp : string) (w : workload) : list wait :=
  let n := wl_node comp w in
  [(comp_node comp, n, ManagedChild); (n, create_node comp, AfterCreation)]
  ++ service_waits n w ++ pod_waits n w ++ job_waits comp n w.

Definition creation_waits (comp : string) : list wait :=
  (λ dep, if decide ((comp, dep) ∈ relaxed)
          then (create_node comp, create_node dep, GatedOnExistence)
          else (create_node comp, comp_node dep, GatedOnReadiness))
  <$> default [] (comps !! comp).

Definition all_waits : list wait :=
  flat_map (λ '(comp, data), flat_map (workload_waits comp) (workloads data)
                             ++ creation_waits comp) (sorted_items charts).

(** [graph.setdefault(a, set()).add(b)] and [why.setdefault((a, b), reason)] *)
Definition add_edge (g : gmap node (gset node)) (e : wait) : gmap node (gset node) :=
  <[e.1.1 := {[e.1.2]} ∪ default ∅ (g !! e.1.1)]> g.
Definition add_why (m : gmap (node * node) reason) (e : wait) : gmap (node * node) reason :=
  match m !! e.1 with Some _ => m | None => <[e.1 := e.2]> m end.

Definition all_workloads : list (string * workload) :=
  flat_map (λ '(comp, data), (comp,.) <$> workloads data) (sorted_items charts).

Definition graph_stats : stats :=
  Stats
    (length (flat_map (λ '(c, w), service_waits (wl_node c w) w) all_workloads))
    (length (flat_map (λ '(c, w), pod_waits (wl_node c w) w) all_workloads))
    (length (flat_map (λ '(c, w), job_waits c (wl_node c w) w) all_workloads))
    (length (filter (λ want, pod_matches want = []) (flat_map (w_pods ∘ snd) all_workloads)))
    (length (flat_map (λ '(c, w), filter (λ j, job_target c j = None) (w_jobs w)) all_workloads)).

Definition build_graph : gmap node (gset node) * gmap (node * node) reason * stats :=
  (foldl add_edge ∅ all_waits, foldl add_why ∅ all_waits, graph_stats).
End BuildGraph.

(** ** The templates' own partition of the edges *)

Definition split_set (field : string) : list string :=
  sorted_strs (filter (λ x, x ≠ "") (split_on "," field)).

(** [s.split("=", 1)[1]] *)
Definition after_equals (s : string) : res string :=
  let '(_, sep, v) := partition_at "=" s in if sep : bool then Ok v else Raise IndexError.

Definition nth_word (ws : list string) (i : nat) : res string :=
  match ws !! i with Some w => Ok w | None => Raise IndexError end.

Notation partition_map := (gmap string (list string * list string)).

Definition read_partition_line (m : partition_map) (line : string) : res partition_map :=
  if startswith "#PARTITION " line then
    let parts := words line in
    let* name := nth_word parts 1 in
    let* p2 := nth_word parts 2 in
    let* strict := after_equals p2 in
    let* p3 := nth_word parts 3 in
    let* relaxed := after_equals p3 in
    Ok (<[name := (split_set strict, split_set relaxed)]> m)
  else Ok m.

(** What the declarations say the partition of [name] is. *)
Definition declared_partition (declared : gset edge) (name : string) (deps : list string)
    : list string * list string :=
  (sorted_strs (filter (λ d, (name, d) ∉ declared) deps),
   sorted_strs (filter (λ d, (name, d) ∈ declared) deps)).

Definition partition_ok (declared : gset edge) (rendered : partition_map)
    (item : string * list string) : bool :=
  bool_decide (rendered !! item.1 = Some (declared_partition declared item.1 item.2)).

(** [check_partition], given what [helm template] printed ([None]: it failed). *)
Definition check_partition (comps : gmap string (list string)) (declared : gset edge)
    (helm_output : option string) : res nat :=
  match helm_output with
  | None => fail_measurement
  | Some stdout =>
      let* rendered := foldM read_partition_line ∅ (splitlines stdout) in
      if (size rendered =? 0)%nat then fail_measurement
      else if forallb (partition_ok declared rendered) (sorted_items comps)
      then Ok (size rendered) else fail_measurement
  end.

(** ** The verdict *)

(** Which creation gate compositions.yaml is in. *)
Inductive gate_mode := PerEdge | Readiness | Existence.

Inductive problem :=
  | UnbrokenCycle (scc path : list node) (candidates : list edge)
  | StaleRelaxations (stale : list edge).

Definition edge_leb (a b : edge) : bool :=
  if String.eqb a.1 b.1 then str_leb a.2 b.2 else str_leb a.1 b.1.

Definition all_edges (comps : gmap string (list string)) : gset edge :=
  list_to_set (flat_map (λ '(c, ds), (c,.) <$> ds) (map_to_list comps)).

(** The relax-set the templates actually apply. *)
Definition effective_edges (mode : gate_mode) (comps : gmap string (list string))
    (declared : gset edge) : gset edge :=
  match mode with PerEdge => declared | Existence => all_edges comps | Readiness => ∅ end.

(** The order on components of the graph, [key=lambda s: sorted(s)]. *)
Fixpoint nodes_leb (l k : list node) : bool :=
  match l, k with
  | [], _ => true
  | _, [] => false
  | a :: l', b :: k' => if decide (a = b) then nodes_leb l' k' else node_leb a b
  end.
Definition scc_leb (l k : list node) : bool := nodes_leb (isort node_leb l) (isort node_leb k).

(** The creation edges inside a component that readiness gates. *)
Definition candidates (graph : gmap node (gset node)) (scc : list node) : list edge :=
  isort edge_leb (remove_dups (flat_map (λ a,
    match a with
    | create_node c =>
        omap (λ b, match b with
                   | comp_node d => if decide (b ∈ scc) then Some (c, d) else None
                   | _ => None end) (elements (default ∅ (graph !! a)))
    | _ => []
    end) scc)).

Section Verdict.
Context (charts : gmap string chart) (comps : gmap string (list string)) (owners : owners_map).
Notation table := (table_of charts).

Definition graph_of (relaxed : gset edge) : gmap node (gset node) :=
  (build_graph charts comps relaxed table owners).1.1.

(** 1. every cycle must be broken by a declared relaxation *)
Definition unbroken_cycles (effective : gset edge) : option (list problem) :=
  let graph := graph_of effective in
  cycles ← cycles_of node_leb graph;
  mapM (λ scc, path ← witness node_leb graph scc;
               Some (UnbrokenCycle scc path (candidates graph scc))) (isort scc_leb cycles).

(** 2. every declared relaxation must still be load-bearing *)
Definition is_stale (effective : gset edge) (e : edge) : option bool :=
  cycles ← cycles_of node_leb (graph_of (effective ∖ {[e]}));
  Some (match cycles with [] => true | _ => false end).

Fixpoint stale_edges (effective : gset edge) (es : list edge) : option (list edge) :=
  match es with
  | [] => Some []
  | e :: es' =>
      b ← is_stale effective e;
      rest ← stale_edges effective es';
      Some (if b : bool then e :: rest else rest)
  end.

Definition problems (effective : gset edge) : option (list problem) :=
  cs ← unbroken_cycles effective;
  stale ← stale_edges effective (isort edge_leb (elements effective));
  Some (cs ++ match stale with [] => [] | _ => [StaleRelaxations stale] end).
End Verdict.

Inductive outcome := Failed (ps : list problem) | Passed.
Definition exit_status (o : outcome) : Z := match o with Failed _ => 1 | Passed => 0 end.

(** [main]: the umbrella's values, the creation gate in use, the rendered partition and the
    rendered charts decide the outcome; [SystemExit 2] is a failed measurement. *)
Definition main (umbrella : option val) (mode : gate_mode) (partition_output : option string)
    (collect_charts : list string → res (gmap string chart)) : res outcome :=
  let* (comps, declared) := read_umbrella umbrella in
  let* charts := collect_charts (sorted_keys comps) in
  let* (owners, _) := resolve charts in
  let total := list_sum ((λ '(_, m), size m) <$> map_to_list (table_of charts)) in
  if ((total =? 0) || (size owners =? 0))%nat then fail_measurement else
  let* _ := match mode with
            | PerEdge => check_partition comps declared partition_output
            | _ => Ok O end in
  let effective := effective_edges mode comps declared in
  let st := (build_graph charts comps effective (table_of charts) owners).2 in
  if (st_service st =? 0)%nat then fail_measurement else
  match problems charts comps owners effective with
  | None => Raise RecursionError
  | Some [] => Ok Passed
  | Some ps => Ok (Failed ps)
  end.

(** ** Specification: what waits for what *)

Section Spec.
Context (charts : gmap string chart) (comps : gmap string (list string)) (owners : owners_map).
Notation table := (table_of charts).

(** [w] is a workload of component [c]. *)
Definition has_workload (c : string) (w : workload) : Prop :=
  ∃ ch, charts !! c = Some ch ∧ w ∈ workloads ch.

(** The rules of the module's docstring: a Composition waits for its children, a child for
    its Composition to be created, for the workloads behind the Services it names, for the
    pods it selects and for its jobs; creation waits for each dependency to be Ready, or,
    where the edge is relaxed, only to exist. *)
Inductive waits (relaxed : gset edge) : node → node → Prop :=
  | wait_child c w : has_workload c w → waits relaxed (comp_node c) (wl_node c w)
  | wait_created c w : has_workload c w → waits relaxed (wl_node c w) (create_node c)
  | wait_service c w svc o bs b :
      has_workload c w → svc ∈ w_services w → owners !! svc = Some (o, bs) → b ∈ bs →
      waits relaxed (wl_node c w) (wl_node o b)
  | wait_pod c w want c' ws nm x :
      has_workload c w → want ∈ w_pods w → table !! c' = Some ws → ws !! nm = Some x →
      selector_matches want (w_labels x) = true →
      waits relaxed (wl_node c w) (wl_node c' x)
  | wait_job c w job ws t :
      has_workload c w → job ∈ w_jobs w → table !! c = Some ws → ws !! job = Some t →
      w_kind t = "Job" →
      waits relaxed (wl_node c w) (wl_node c t)
  | wait_ready c ds d :
      is_Some (charts !! c) → comps !! c = Some ds → d ∈ ds → (c, d) ∉ relaxed →
      waits relaxed (create_node c) (comp_node d)
  | wait_exists c ds d :
      is_Some (charts !! c) → comps !! c = Some ds → d ∈ ds → (c, d) ∈ relaxed →
      waits relaxed (create_node c) (create_node d).

(** ** [build_graph] is that relation *)

Lemma gedge_add_edges l g a b :
  gedge (foldl add_edge g l) a b ↔ gedge g a b ∨ ∃ r, (a, b, r) ∈ l.
Proof.
  revert g. induction l as [|[[x y] r] l IH]; intros g; simpl; [set_solver|].
  rewrite IH. unfold gedge at 1. unfold add_edge. simpl.
  rewrite lookup_insert. setoid_rewrite elem_of_cons. unfold gedge.
  case_decide as Hx; simpl; [subst x|].
  - rewrite elem_of_union, elem_of_singleton. naive_solver.
  - naive_solver.
Qed.

Lemma elem_of_sorted_items {B} (m : gmap string B) k v :
  (k, v) ∈ sorted_items m ↔ m !! k = Some v.
Proof.
  unfold sorted_items, sorted_keys. rewrite list_elem_of_omap.
  setoid_rewrite elem_of_sorted_strs. setoid_rewrite elem_of_elements. split.
  - intros (k' & _ & Hk). destruct (m !! k') eqn:E; naive_solver.
  - intros Hk. exists k. rewrite Hk. split; [by eapply elem_of_dom_2|done].
Qed.

Lemma elem_of_flat_map {B C} (f : B → list C) l y : y ∈ flat_map f l ↔ ∃ x, x ∈ l ∧ y ∈ f x.
Proof.
  rewrite list_elem_of_In, in_flat_map. by setoid_rewrite list_elem_of_In.
Qed.

Lemma elem_of_service_waits n w a b r :
  (a, b, r) ∈ service_waits owners n w ↔
  a = n ∧ ∃ svc o bs x, svc ∈ w_services w ∧ owners !! svc = Some (o, bs) ∧ x ∈ bs ∧
    b = wl_node o x ∧ r = WaitsService svc.
Proof.
  unfold service_waits. rewrite elem_of_flat_map. split.
  - intros (svc & Hs & Hin). destruct (owners !! svc) as [[o bs]|] eqn:E; [|set_solver].
    apply list_elem_of_fmap in Hin as (x & [= -> -> ->] & Hx). naive_solver.
  - intros (-> & svc & o & bs & x & Hs & Ho & Hx & -> & ->). exists svc. rewrite Ho.
    split; [done|]. apply list_elem_of_fmap. eauto.
Qed.

Lemma elem_of_pod_matches want b :
  b ∈ pod_matches table want ↔ ∃ c ws nm x, table !! c = Some ws ∧ ws !! nm = Some x ∧
    selector_matches want (w_labels x) = true ∧ b = wl_node c x.
Proof.
  unfold pod_matches. rewrite elem_of_flat_map. split.
  - intros ([c ws] & Hc%elem_of_sorted_items & Hb).
    apply list_elem_of_fmap in Hb as (x & -> & Hx). apply list_elem_of_filter in Hx as [Hm Hx].
    apply list_elem_of_fmap in Hx as ([nm x'] & -> & Hx). apply elem_of_map_to_list in Hx.
    naive_solver.
  - intros (c & ws & nm & x & Hc & Hx & Hm & ->). exists (c, ws).
    split; [by apply elem_of_sorted_items|]. apply list_elem_of_fmap. exists x. split; [done|].
    apply list_elem_of_filter. split; [done|]. apply list_elem_of_fmap. exists (nm, x).
    split; [done|]. by apply elem_of_map_to_list.
Qed.

Lemma elem_of_job_waits c n w a b r :
  (a, b, r) ∈ job_waits table c n w ↔
  a = n ∧ ∃ job ws t, job ∈ w_jobs w ∧ table !! c = Some ws ∧ ws !! job = Some t ∧
    w_kind t = "Job" ∧ b = wl_node c t ∧ r = WaitsJob job.
Proof.
  unfold job_waits, job_target. rewrite list_elem_of_omap. split.
  - intros (job & Hj & Ht). destruct (table !! c) as [ws|]; [|done]. simpl in Ht.
    destruct (ws !! job) as [t|] eqn:E; [|done]. simpl in Ht.
    destruct (String.eqb_spec (w_kind t) "Job"); [|done]. injection Ht as <- <- <-.
    naive_solver.
  - intros (-> & job & ws & t & Hj & -> & Ht & Hk & -> & ->). exists job. split; [done|].
    simpl. rewrite Ht. simpl. by rewrite Hk.
Qed.

Lemma elem_of_workload_waits c w a b r :
  (a, b, r) ∈ workload_waits table owners c w ↔
  (a = comp_node c ∧ b = wl_node c w ∧ r = ManagedChild) ∨
  (a = wl_node c w ∧ b = create_node c ∧ r = AfterCreation) ∨
  (a, b, r) ∈ service_waits owners (wl_node c w) w ∨
  (a = wl_node c w ∧ ∃ want, want ∈ w_pods w ∧ b ∈ pod_matches table want ∧ r = WaitsPod want) ∨
  (a, b, r) ∈ job_waits table c (wl_node c w) w.
Proof.
  unfold workload_waits, pod_waits.
  rewrite !elem_of_app, !elem_of_cons, elem_of_nil, elem_of_flat_map.
  setoid_rewrite list_elem_of_fmap. naive_solver.
Qed.

Lemma elem_of_creation_waits relaxed c a b r :
  (a, b, r) ∈ creation_waits comps relaxed c ↔
  a = create_node c ∧ ∃ ds d, comps !! c = Some ds ∧ d ∈ ds ∧
    (((c, d) ∈ relaxed ∧ b = create_node d ∧ r = GatedOnExistence) ∨
     ((c, d) ∉ relaxed ∧ b = comp_node d ∧ r = GatedOnReadiness)).
Proof.
  unfold creation_waits. rewrite list_elem_of_fmap. split.
  - intros (d & Heq & Hd). destruct (comps !! c) as [ds|]; [|simpl in Hd; set_solver].
    simpl in Hd. case_decide; naive_solver.
  - intros (-> & ds & d & -> & Hd & [(? & -> & ->)|(? & -> & ->)]); exists d; simpl;
      by case_decide.
Qed.

Lemma graph_of_waits relaxed a b :
  gedge (graph_of charts comps owners relaxed) a b ↔ waits relaxed a b.
Proof.
  unfold graph_of, build_graph. simpl. rewrite gedge_add_edges.
  assert (¬ gedge ∅ a b) as He by (unfold gedge; rewrite lookup_empty; set_solver).
  unfold all_waits. setoid_rewrite elem_of_flat_map.
  split.
  - intros [?|(r & [c ch] & Hc%elem_of_sorted_items & Hin)]; [done|].
    rewrite elem_of_app, elem_of_flat_map in Hin. destruct Hin as [(w & Hw & Hin)|Hin].
    + assert (has_workload c w) as Hwl by (exists ch; auto).
      apply elem_of_workload_waits in Hin
        as [(-> & -> & _)|[(-> & -> & _)|[Hin|[(-> & want & Hp & Hb & _)|Hin]]]].
      * by constructor.
      * by constructor.
      * apply elem_of_service_waits in Hin as (-> & svc & o & bs & x & ? & ? & ? & -> & _).
        by eapply wait_service.
      * apply elem_of_pod_matches in Hb as (c' & ws & nm & x & ? & ? & ? & ->).
        by eapply wait_pod.
      * apply elem_of_job_waits in Hin as (-> & job & ws & t & ? & ? & ? & ? & -> & _).
        by eapply wait_job.
    + apply elem_of_creation_waits in Hin
        as (-> & ds & d & Hd & ? & [(? & -> & _)|(? & -> & _)]).
      * eapply wait_exists; eauto.
      * eapply wait_ready; eauto.
  - intros Hw. right.
    assert (∀ c w a b r, has_workload c w → (a, b, r) ∈ workload_waits table owners c w →
      ∃ r x, x ∈ sorted_items charts ∧ (a, b, r) ∈
        (let '(comp, data) := x in flat_map (workload_waits table owners comp) (workloads data)
           ++ creation_waits comps relaxed comp)) as Hlift.
    { intros c w a' b' r (ch & Hc & Hin) Hr. exists r, (c, ch).
      split; [by apply elem_of_sorted_items|]. apply elem_of_app. left.
      apply elem_of_flat_map. eauto. }
    assert (∀ c b r, is_Some (charts !! c) → (create_node c, b, r) ∈ creation_waits comps relaxed c →
      ∃ r x, x ∈ sorted_items charts ∧ (create_node c, b, r) ∈
        (let '(comp, data) := x in flat_map (workload_waits table owners comp) (workloads data)
           ++ creation_waits comps relaxed comp)) as Hcreate.
    { intros c b' r [ch Hc] Hr. exists r, (c, ch). split; [by apply elem_of_sorted_items|].
      apply elem_of_app. by right. }
    destruct Hw as [c w ?|c w ?|c w svc o bs x ????|c w want c' ws nm x ?????|c w job ws t ?????
      |c ds d ????|c ds d ????].
    + eapply (Hlift c w); [done|]. apply elem_of_workload_waits. auto.
    + eapply (Hlift c w); [done|]. apply elem_of_workload_waits. auto.
    + eapply (Hlift c w); [done|]. apply elem_of_workload_waits. do 2 right. left.
      apply elem_of_service_waits. naive_solver.
    + eapply (Hlift c w); [done|]. apply elem_of_workload_waits. do 3 right. left.
      split; [done|]. exists want. rewrite elem_of_pod_matches. naive_solver.
    + eapply (Hlift c w); [done|]. apply elem_of_workload_waits. do 4 right.
      apply elem_of_job_waits. naive_solver.
    + eapply Hcreate; [done|]. apply elem_of_creation_waits. naive_solver.
    + eapply Hcreate; [done|]. apply elem_of_creation_waits. naive_solver.
Qed.

Lemma graph_acyclic relaxed :
  acyclic (gedge (graph_of charts comps owners relaxed)) ↔ acyclic (waits relaxed).
Proof. apply acyclic_proper. intros a b. apply graph_of_waits. Qed.

(** ** The verdict *)

Notation acyclic_with relaxed := (acyclic (waits relaxed)).

(** A reported cycle: a component of mutually waiting nodes, with a walk of waits through
    its least member that stays inside it. *)
Definition genuine_cycle (relaxed : gset edge) (p : problem) : Prop :=
  ∃ scc start path, p = UnbrokenCycle scc (start :: path ++ [start])
      (candidates (graph_of charts comps owners relaxed) scc) ∧
    walk (waits relaxed) (start :: path ++ [start]) ∧
    (∀ x, x ∈ start :: path → x ∈ scc) ∧ ∀ x, x ∈ scc → tc (waits relaxed) x x.

Lemma tc_graph_of relaxed x y :
  tc (gedge (graph_of charts comps owners relaxed)) x y ↔ tc (waits relaxed) x y.
Proof.
  split; induction 1 as [x y Hxy|x z y Hxz _ IH].
  - by apply tc_once, graph_of_waits.
  - eapply tc_l; [by apply graph_of_waits|done].
  - by apply tc_once, graph_of_waits.
  - eapply tc_l; [by apply graph_of_waits|done].
Qed.

Lemma walk_graph_of relaxed l :
  walk (gedge (graph_of charts comps owners relaxed)) l → walk (waits relaxed) l.
Proof.
  induction l as [|x [|y l] IH]; [done..|]. intros [Hxy Hw].
  split; [by apply graph_of_waits|by apply IH].
Qed.

Lemma unbroken_cycles_spec eff :
  ∃ ps, unbroken_cycles charts comps owners eff = Some ps ∧
    Forall (genuine_cycle eff) ps ∧ (ps = [] ↔ acyclic_with eff).
Proof.
  destruct (cycles_of_spec node_leb (graph_of charts comps owners eff)) as (cs & Hcs & Hx & Hnil).
  unfold unbroken_cycles. rewrite Hcs. simpl.
  set (f := λ scc : list node, _ ← _; _).
  assert (Hf : ∀ scc, scc ∈ cs → ∃ p, f scc = Some p ∧ genuine_cycle eff p).
  { intros scc Hin. unfold f.
    destruct (witness_spec node_leb _ cs scc Hcs Hin) as (start & p & -> & _ & Hw & Hm & _).
    simpl. eexists. split; [done|]. exists scc, start, p. split_and!; [done| |done|].
    - by apply walk_graph_of.
    - intros x Hxs. apply tc_graph_of, Hx. eauto. }
  assert (∀ l, (∀ scc, scc ∈ l → scc ∈ cs) →
    ∃ ps, mapM f l = Some ps ∧ Forall (genuine_cycle eff) ps ∧ (ps = [] ↔ l = [])) as Hall.
  { induction l as [|scc l IH]; intros Hl; [by exists []|].
    destruct (Hf scc) as (p & Hp & Hg); [set_solver|].
    destruct IH as (ps & Hps & Hgs & _); [set_solver|].
    exists (p :: ps). simpl. rewrite Hp. simpl. rewrite Hps. split_and!; [done|by constructor|done]. }
  destruct (Hall (isort scc_leb cs)) as (ps & -> & Hg & Hn); [intros scc; by rewrite elem_of_isort|].
  exists ps. split_and!; [done..|]. by rewrite Hn, isort_nil, Hnil, graph_acyclic.
Qed.

Lemma is_stale_spec eff e :
  ∃ b : bool, is_stale charts comps owners eff e = Some b ∧
    (b = true ↔ acyclic_with (eff ∖ {[e]})).
Proof.
  destruct (cycles_of_spec node_leb (graph_of charts comps owners (eff ∖ {[e]})))
    as (cs & Hcs & _ & Hnil).
  unfold is_stale. rewrite Hcs. simpl. eexists. split; [done|].
  rewrite <- graph_acyclic, <- Hnil. by destruct cs.
Qed.

Lemma stale_edges_spec eff es :
  ∃ st, stale_edges charts comps owners eff es = Some st ∧
    ∀ e, e ∈ st ↔ e ∈ es ∧ acyclic_with (eff ∖ {[e]}).
Proof.
  induction es as [|e es (st & Hst & Hin)]; [exists []; set_solver|].
  destruct (is_stale_spec eff e) as (b & Hb & Hbe). simpl. rewrite Hb. simpl. rewrite Hst. simpl.
  eexists. split; [done|]. intros e'. rewrite elem_of_cons.
  destruct b; [rewrite elem_of_cons|]; rewrite Hin; naive_solver.
Qed.

(** The graph the gate builds from the rendered charts is the wait relation its
    docstring states: an edge is in [build_graph]'s graph exactly when one of the seven
    rules of [waits] gives it. *)
Theorem build_graph_edges relaxed a b :
  gedge (build_graph charts comps relaxed (table_of charts) owners).1.1 a b ↔ waits relaxed a b.
Proof. apply graph_of_waits. Qed.

Lemma problems_spec eff :
  ∃ ps, problems charts comps owners eff = Some ps ∧
    (ps = [] ↔ acyclic_with eff ∧ ∀ e, e ∈ eff → ¬ acyclic_with (eff ∖ {[e]})) ∧
    ∀ p, p ∈ ps → genuine_cycle eff p ∨
      ∃ st, p = StaleRelaxations st ∧ ∀ e, e ∈ st ↔ e ∈ eff ∧ acyclic_with (eff ∖ {[e]}).
Proof.
  destruct (unbroken_cycles_spec eff) as (cs & Hcs & Hg & Hcn).
  destruct (stale_edges_spec eff (isort edge_leb (elements eff))) as (st & Hst & Hin).
  setoid_rewrite elem_of_isort in Hin. setoid_rewrite elem_of_elements in Hin.
  unfold problems. rewrite Hcs. simpl. rewrite Hst. simpl. eexists. split; [done|]. split.
  - rewrite app_nil, Hcn. split.
    + intros [Hac Hnil]. split; [done|]. intros e He Hac'.
      destruct st; [|done]. assert (e ∈ []) by (by apply Hin). set_solver.
    + intros [Hac Hmin]. split; [done|]. destruct st as [|e st]; [done|].
      destruct (proj1 (Hin e)) as [He Hace]; [set_solver|]. by destruct (Hmin e).
  - rewrite Forall_forall in Hg. intros p [Hp|Hp]%elem_of_app; [left; auto|right].
    destruct st as [|e st]; [set_solver|]. apply list_elem_of_singleton in Hp as ->. eauto.
Qed.

(** C9: The verdict always terminates with a list of problems; it is empty exactly when no
    node waits for itself under the relax-set in force and every relaxation of that set,
    tightened alone, brings a cycle back. Cycles it reports are real walks of waits, and the
    relaxations it reports stale are exactly those whose removal leaves the graph acyclic. *)
Theorem verdict_exact eff :
  ∃ ps, problems charts comps owners eff = Some ps ∧
    (ps = [] ↔ acyclic_with eff ∧ ∀ e, e ∈ eff → ¬ acyclic_with (eff ∖ {[e]})) ∧
    ∀ p, p ∈ ps → genuine_cycle eff p ∨
      ∃ st, p = StaleRelaxations st ∧ ∀ e, e ∈ st ↔ e ∈ eff ∧ acyclic_with (eff ∖ {[e]}).
Proof. apply problems_spec. Qed.

(** Everything that can be waited for is in the graph. *)
Lemma waits_finite eff x y :
  waits eff x y → y ∈ elements (nodes (graph_of charts comps owners eff)).
Proof.
  intros Hw%graph_of_waits. apply elem_of_elements. by apply gedge_nodes in Hw as [_ ?].
Qed.

(** C20: No unbroken cycle is reported exactly when the install cannot deadlock: every
    Composition, creation and workload becomes ready once what it waits for has. *)
Theorem no_deadlock_iff eff :
  ∃ ps, problems charts comps owners eff = Some ps ∧
    ((∀ scc path cands, UnbrokenCycle scc path cands ∉ ps) ↔
     ∀ n, becomes_ready (waits eff) n).
Proof.
  destruct (unbroken_cycles_spec eff) as (cs & Hcs & Hg & Hcn).
  destruct (stale_edges_spec eff (isort edge_leb (elements eff))) as (st & Hst & Hin).
  unfold problems. rewrite Hcs. simpl. rewrite Hst. simpl. eexists. split; [done|].
  rewrite <- (acyclic_all_ready _ _ (waits_finite eff)), <- Hcn. split.
  - intros Hno. destruct Hg as [|p cs (scc & start & path & -> & _)]; [done|].
    destruct (Hno scc (start :: path ++ [start])
      (candidates (graph_of charts comps owners eff) scc)). set_solver.
  - intros -> scc path cands. destruct st; set_solver.
Qed.

(** Relaxing more edges cannot deadlock what fewer relaxations did not, as long as every
    dependency renders a workload: existence is implied by readiness. *)
Lemma relax_more eff eff' :
  eff ⊆ eff' →
  (∀ c d, (c, d) ∈ eff' → ∃ w, has_workload d w) →
  acyclic_with eff → acyclic_with eff'.
Proof.
  intros Hsub Hwl Hac x Hx. apply (Hac x). revert Hx. generalize x at 1 3. intros y Hy.
  assert (Hstep : ∀ a b, waits eff' a b → tc (waits eff) a b).
  { intros a b Hab. destruct Hab as [| | | | |c ds d ???? |c ds d ????].
    - by apply tc_once, wait_child.
    - by apply tc_once, wait_created.
    - by apply tc_once; eapply wait_service.
    - by apply tc_once; eapply wait_pod.
    - by apply tc_once; eapply wait_job.
    - apply tc_once. eapply wait_ready; eauto.
    - destruct (decide ((c, d) ∈ eff)) as [Hin|Hout].
      + apply tc_once. eapply wait_exists; eauto.
      + destruct (Hwl c d) as [w Hw]; [done|].
        eapply tc_l; [eapply wait_ready; eauto|].
        eapply tc_l; [by apply wait_child|]. by apply tc_once, wait_created. }
  induction Hy as [a b Hab|a k b Hak _ IH]; [auto|]. eapply tc_trans; eauto.
Qed.

(** When the gate passes and every component renders a workload, the relax-set in
    force is inclusion-minimal: no proper subset of it avoids the deadlock. *)
Theorem passing_set_minimal eff eff' :
  problems charts comps owners eff = Some [] →
  (∀ c d, (c, d) ∈ eff → ∃ w, has_workload d w) →
  eff' ⊂ eff → ¬ acyclic_with eff'.
Proof.
  intros Hp Hwl Hsub Hac'. destruct (problems_spec eff) as (ps & Hps & Hnil & _).
  rewrite Hp in Hps. injection Hps as <-. destruct (proj1 Hnil eq_refl) as [_ Hmin].
  destruct Hsub as [Hsub Hne].
  destruct (decide (eff ∖ eff' = ∅)) as [Hemp|Hemp].
  { destruct Hne. intros e He. destruct (decide (e ∈ eff')) as [|Hout]; [done|].
    assert (e ∈ eff ∖ eff') as Hin by (by apply elem_of_difference).
    rewrite Hemp in Hin. by apply elem_of_empty in Hin. }
  apply set_choose_L in Hemp as [e [He Hout]%elem_of_difference].
  apply (Hmin e He), (relax_more eff'); [| |done].
  - intros e' He'. apply elem_of_difference. split; [by apply Hsub|].
    by intros ->%elem_of_singleton.
  - intros c d [Hcd _]%elem_of_difference. by apply (Hwl c).
Qed.
End Spec.

(** ** The measurement around the verdict *)

(** Only declared edges can be declared relaxed. *)
Lemma read_umbrella_edges u comps declared :
  read_umbrella u = Ok (comps, declared) →
  ∀ c d, (c, d) ∈ declared → ∃ ds, comps !! c = Some ds ∧ d ∈ ds.
Proof.
  unfold read_umbrella. destruct u as [doc|]; [|done]. intros H.
  apply bind_Ok in H as (comps0 & _ & H).
  destruct (_ =? 0)%nat; [done|]. destruct (forallb _ _); [|done].
  apply bind_Ok in H as (rs & _ & H). apply bind_Ok in H as (rel & Hrel & H).
  injection H as <- <-.
  set (cs := delete "openstack" comps0) in *.
  refine (foldM_invariant (λ r, ∀ c d, (c, d) ∈ r → ∃ ds, cs !! c = Some ds ∧ d ∈ ds)
    _ _ _ _ _ _ Hrel); [|set_solver].
  intros a x a' Ha Hx. unfold read_relaxation in Hx.
  destruct (negb _); [done|]. apply bind_Ok in Hx as (fs & _ & Hx).
  destruct (negb _); [done|]. do 4 (apply bind_Ok in Hx as (? & _ & Hx)).
  case_decide; [done|]. destruct (cs !! _) as [ds|] eqn:Hc; [|done].
  case_decide; [|done]. injection Hx as <-.
  intros c d [[= -> ->]%elem_of_singleton|]%elem_of_union; eauto.
Qed.

Lemma elem_of_all_edges comps c d :
  (c, d) ∈ all_edges comps ↔ ∃ ds, comps !! c = Some ds ∧ d ∈ ds.
Proof.
  unfold all_edges. rewrite elem_of_list_to_set, elem_of_flat_map. split.
  - intros ([c' ds] & Hc%elem_of_map_to_list & Hin).
    apply list_elem_of_fmap in Hin as (d' & [= -> ->] & Hd). eauto.
  - intros (ds & Hc & Hd). exists (c, ds). split; [by apply elem_of_map_to_list|].
    apply list_elem_of_fmap. eauto.
Qed.

(** C33: When [resolve] succeeds, every Service any workload waits on is owned by a component
    that renders a workload behind it, or is a declared external Service: a renamed Service
    cannot silently remove edges from the graph. *)
Theorem resolve_complete charts owners unresolved c w svc :
  resolve charts = Ok (owners, unresolved) → has_workload charts c w → svc ∈ w_services w →
  (∃ o b bs, owners !! svc = Some (o, b :: bs)) ∨ svc ∈ EXTERNAL_SERVICES.
Proof.
  unfold resolve. destruct (all_owners charts) as [ow [|]]; [|done].
  destruct (forallb _ _) eqn:Hall; [|done]. intros [= <- _] (ch & Hc & Hw) Hs.
  destruct (ow !! svc) as [[o [|b bs]]|] eqn:Ho; [right|by left; eauto|right].
  all: assert (svc ∈ unresolved_names ow charts) as Hun by
    (unfold unresolved_names; apply list_elem_of_filter; split;
       [unfold unanswered; by rewrite Ho|];
     apply elem_of_flat_map; exists (c, ch); split; [by apply elem_of_sorted_items|];
     apply elem_of_flat_map; eauto).
  all: rewrite forallb_forall in Hall.
  all: by apply list_elem_of_In, Hall, bool_decide_eq_true in Hun.
Qed.

(** What a passing run has measured; the partition was checked if the gate is per edge. *)
Lemma main_checked u mode po collect_charts :
  main u mode po collect_charts = Ok Passed →
  ∃ comps declared charts owners un,
    read_umbrella u = Ok (comps, declared) ∧
    collect_charts (sorted_keys comps) = Ok charts ∧ resolve charts = Ok (owners, un) ∧
    (mode = PerEdge → ∃ k, check_partition comps declared po = Ok k) ∧
    let eff := effective_edges mode comps declared in
    (∀ n, becomes_ready (waits charts comps owners eff) n) ∧
    ∀ e, e ∈ eff → ¬ acyclic (waits charts comps owners (eff ∖ {[e]})).
Proof.
  unfold main. intros H. apply bind_Ok in H as ([comps declared] & Hu & H).
  apply bind_Ok in H as (charts & Hch & H). apply bind_Ok in H as ([owners un] & Hr & H).
  destruct (_ || _); [done|]. apply bind_Ok in H as (k & Hk & H).
  destruct (_ =? 0)%nat; [done|].
  exists comps, declared, charts, owners, un. do 3 (split; [done|]).
  split; [intros ->; eauto|].
  set (eff := effective_edges mode comps declared) in *. simpl.
  destruct (problems_spec charts comps owners eff) as (ps & Hps & Hnil & _).
  rewrite Hps in H. destruct ps as [|p ps]; [|done].
  destruct (proj1 Hnil eq_refl) as [Hac Hmin]. split; [|exact Hmin].
  exact (proj1 (acyclic_all_ready _ _ (waits_finite charts comps owners eff)) Hac).
Qed.

(** [main] exits 0 only after a full measurement: the umbrella and every chart were read,
    every waited-on Service resolved, the declared relaxations are edges of the declared
    graph, and then the install described by the gate in force cannot deadlock and needs
    every one of its relaxations. *)
Theorem main_passed_sound u mode po collect_charts :
  main u mode po collect_charts = Ok Passed →
  ∃ comps declared charts owners un,
    read_umbrella u = Ok (comps, declared) ∧ declared ⊆ all_edges comps ∧
    collect_charts (sorted_keys comps) = Ok charts ∧ resolve charts = Ok (owners, un) ∧
    let eff := effective_edges mode comps declared in
    (∀ n, becomes_ready (waits charts comps owners eff) n) ∧
    ∀ e, e ∈ eff → ¬ acyclic (waits charts comps owners (eff ∖ {[e]})).
Proof.
  intros (comps & declared & charts & owners & un & Hu & Hch & Hr & _ & Hres)%main_checked.
  exists comps, declared, charts, owners, un. split; [done|]. split; [|by split].
  intros [c d] Hin. rewrite elem_of_all_edges. exact (read_umbrella_edges u _ _ Hu c d Hin).
Qed.

(** ** A small install: neutron's agent waits for nova-api at startup, and nova's creation
    is gated on neutron. *)

Definition nova_docs : list val := [
  VDict [("kind", VStr "Service"); ("metadata", VDict [("name", VStr "nova-api")]);
         ("spec", VDict [("selector", VDict [("app", VStr "nova")])])];
  VDict [("kind", VStr "Deployment"); ("metadata", VDict [("name", VStr "nova-api")]);
         ("spec", VDict [("template", VDict [
            ("metadata", VDict [("labels", VDict [("app", VStr "nova"); ("x", VInt 1)])]);
            ("spec", VDict [])])])]].

Definition neutron_docs : list val := [
  VDict [("kind", VStr "DaemonSet"); ("metadata", VDict [("name", VStr "dhcp")]);
         ("spec", VDict [("template", VDict [("spec", VDict [("initContainers", VList [VDict [
            ("env", VList [VDict [("name", VStr "DEPENDENCY_SERVICE");
                                  ("value", VStr "openstack:nova-api, ")]])]])])])])]].

Definition sample_collect : list string → res (gmap string chart) :=
  collect (λ _, true) (λ n, (0%Z, n, ""))
    (λ out, Some (if String.eqb out "nova" then nova_docs else neutron_docs)).

Definition sample_umbrella (relaxations : list val) : val := VDict [
  ("components", VList [VDict [("name", VStr "neutron")];
                        VDict [("name", VStr "nova"); ("deps", VList [VStr "neutron"])]]);
  ("dependencyRelaxations", VList relaxations)].

Definition sample_relaxation : val := VDict [
  ("component", VStr "nova"); ("dependency", VStr "neutron");
  ("issue", VInt 110); ("cycle", VStr "neutron waits for nova-api")].

Definition sample_partition : string :=
  "#PARTITION neutron strict= relaxed=" +:+ newline +:+
  "#PARTITION nova strict= relaxed=neutron".

Lemma main_passed_sound_witness :
  main (Some (sample_umbrella [])) PerEdge (Some sample_partition) sample_collect
    = Raise (SystemExit 2) ∧
  (∃ p, main (Some (sample_umbrella [])) Readiness None sample_collect = Ok (Failed [p])) ∧
  ∃ comps declared charts owners un,
    read_umbrella (Some (sample_umbrella [sample_relaxation])) = Ok (comps, declared) ∧
    declared ⊆ all_edges comps ∧
    sample_collect (sorted_keys comps) = Ok charts ∧ resolve charts = Ok (owners, un) ∧
    let eff := effective_edges PerEdge comps declared in
    (∀ n, becomes_ready (waits charts comps owners eff) n) ∧
    ∀ e, e ∈ eff → ¬ acyclic (waits charts comps owners (eff ∖ {[e]})).
Proof.
  split; [vm_compute; reflexivity|]. split; [eexists; vm_compute; reflexivity|].
  apply (main_passed_sound _ PerEdge (Some sample_partition)). vm_compute. reflexivity.
Defined.

Definition sample_charts : gmap string chart :=
  match sample_collect ["neutron"; "nova"] with Ok m => m | Raise _ => ∅ end.
Definition sample_owners : owners_map := (all_owners sample_charts).1.
Definition sample_comps : gmap string (list string) :=
  <["nova" := ["neutron"]]> (<["neutron" := []]> ∅).

Lemma resolve_complete_witness :
  resolve sample_charts = Ok (sample_owners, []) ∧
  ((∃ o b bs, sample_owners !! "nova-api" = Some (o, b :: bs)) ∨
   "nova-api" ∈ EXTERNAL_SERVICES).
Proof.
  split; [vm_compute; reflexivity|].
  apply (resolve_complete sample_charts sample_owners [] "neutron"
    (Workload "DaemonSet" "dhcp" [] ["nova-api"] [] [])).
  - vm_compute. reflexivity.
  - eexists. split; [vm_compute; reflexivity|]. simpl. by left.
  - simpl. by left.
Defined.

Lemma passing_set_minimal_witness :
  problems sample_charts sample_comps sample_owners {[("nova", "neutron")]} = Some [] ∧
  ¬ acyclic (waits sample_charts sample_comps sample_owners ∅).
Proof.
  split; [vm_compute; reflexivity|].
  apply (passing_set_minimal sample_charts sample_comps sample_owners {[("nova", "neutron")]}).
  - vm_compute. reflexivity.
  - intros c d [= -> ->]%elem_of_singleton. eexists. eexists.
    split; [vm_compute; reflexivity|]. simpl. by left.
  - apply strict_spec_alt. split; [by apply empty_subseteq|]. done.
Defined.
End Deadlock.
