(* ===== verification/Migrate.v ===== *)
(** * hack/migrate-to-pvc.py: moving a StatefulSet's node path onto a claim

    The script drives [kubectl] and the clock. Both are parameters: a run is a function of an
    arbitrary cluster that answers every command, and it records the commands it gave with
    their answers, the lines it printed and how long it slept. The theorems hold for every
    cluster. The clock is read in microseconds. *)
From S2P Require Import Prelude PyStr PyVal Json.
#[local] Open Scope string_scope.
#[local] Open Scope list_scope.
#[local] Coercion VStr : string >-> val.

(** A list of values whose literals are strings: a command's arguments, an f-string's pieces. *)
#[local] Notation "'str[' x ; .. ; y ]" := (@cons val x .. (@cons val y (@nil val)) ..)
  (format "str[ x ;  .. ;  y ]").

Module Migrate.

(** ** Failures *)

(** Text built from literals and interpolated values: an f-string is the list of its pieces. *)
Definition text := list val.

(** One constructor per [raise Refusal], with the values its message interpolates. *)
Inductive refusal :=
  | NotListed (component : string)
  | KubectlFailed (args : list string) (stderr : string)
  | GetFailed (args : list string) (stderr : string)
  | NotOneComposition (component namespace : string) (found : Z)
  | TimedOut (timeout : Z) (description : text)
  | PodEnded (name : val) (phase : val) (log : string)
  | AlreadyPrepared (name : val) (claim : string)
  | NoStatefulSet (name : val) (claim : string)
  | NotHostPath (name volume source : val)
  | WrongReplicas (name replicas : val)
  | NotScheduled (name path : val)
  | ScaledBack (name held : val)
  | NoState (inner : refusal) (component : string) (name : val)
  | CopyDiffers (src dst : list (string * Z))
  | NoClaim (claim : string)
  | RecreatedWithoutClaim (name : val)
  | WrongVersion (name at_ : val) (want : string).

Inductive failure :=
  | Refused (r : refusal)
  | Raised (e : exn)
  | OutOfFuel.

Inductive out (A : Type) := Ret (a : A) | Fail (f : failure).
Arguments Ret {A} a.
Arguments Fail {A} f.

(** What a run did: a command with its standard input and its answer (status, stdout, stderr),
    a line printed, a sleep. *)
Inductive event :=
  | Kubectl (argv : list string) (stdin : option string) (answer : Z * string * string)
  | Printed (line : text)
  | Slept (seconds : Z).

(** ** Constants *)

Definition MARKERS : list (string * string) :=
  [("mariadb", "grastate.dat"); ("rabbitmq", "mnesia")].
Definition PAUSE_ANNOTATION : string := "krateo.io/paused".
Definition COPY_POD_TIMEOUT : Z := 1800.
Definition RESYNC_GUARD : Z := 90.
Definition WAIT_STEP : Z := 5.

Record Kube := { context : string; namespace : string; apply : bool }.
Definition base (k : Kube) : list string :=
  ["kubectl"; "--context"; context k; "--namespace"; namespace k].

(** ** Pure helpers *)

(** [entry_for]: the first entry of hack/durable-state.yaml with this component, [None] where
    the code refuses. *)
Fixpoint entry_in (es : list val) (component : string) : res (option val) :=
  match es with
  | [] => Ok None
  | e :: es' =>
      let* c := getitem e "component" in
      if eq_str c component then Ok (Some e) else entry_in es' component
  end.

Definition paused (comp : val) : res bool :=
  let* md := getitem comp "metadata" in
  let* an := get_dict md "annotations" in
  let* v := get an PAUSE_ANNOTATION in
  Ok (eq_str v "true").

(** A pod pinned to [node] by affinity. *)
Definition helper_pod (name : string) (node image : val) (volumes mounts : list val)
    (script : string) : val :=
  VDict [
    ("apiVersion", VStr "v1");
    ("kind", VStr "Pod");
    ("metadata", VDict [
      ("name", VStr name);
      ("labels", VDict [("app.kubernetes.io/managed-by", VStr "migrate-to-pvc")])]);
    ("spec", VDict [
      ("restartPolicy", VStr "Never");
      ("affinity", VDict [("nodeAffinity", VDict [
        ("requiredDuringSchedulingIgnoredDuringExecution", VDict [
          ("nodeSelectorTerms", VList [VDict [
            ("matchExpressions", VList [VDict [
              ("key", VStr "kubernetes.io/hostname");
              ("operator", VStr "In");
              ("values", VList [node])]])]])])])]);
      ("tolerations", VList [VDict [("operator", VStr "Exists")]]);
      ("containers", VList [VDict [
        ("name", VStr "copy");
        ("image", image);
        ("command", VList [VStr "/bin/sh"; VStr "-ec"; VStr script]);
        ("securityContext", VDict [("runAsUser", VInt 0)]);
        ("volumeMounts", VList mounts)]]);
      ("volumes", VList volumes)])].

(** [INVENTORY.format(d=..., p=...)] *)
Definition inventory (d p : string) : string :=
  "printf '" +:+ p +:+ "files=%s\n' " +:+ dquote +:+ "$(find " +:+ d +:+ " -mindepth 1 | wc -l)"
  +:+ dquote +:+ "; printf '" +:+ p +:+ "bytes=%s\n' " +:+ dquote +:+ "$(find " +:+ d
  +:+ " -type f -exec cat {} + | wc -c)" +:+ dquote.

Definition drop (n : nat) (s : string) : string := substring n (String.length s - n) s.

Definition parse_inventory (text prefix : string) : res (list (string * Z)) :=
  foldM (λ acc line,
    if startswith prefix line then
      let '(k, _, v) := partition_at "=" (drop (String.length prefix) line) in
      let* n := py_int (strip v) in
      Ok (dict_set k n acc)
    else Ok acc) [] (splitlines text).

(** [out["files"]] *)
Definition count_of (inv : list (string * Z)) (k : string) : res Z :=
  match assoc k inv with Some n => Ok n | None => Raise (KeyError k) end.

(** [[t["metadata"]["name"] for t in sts["spec"].get("volumeClaimTemplates") or []]] *)
Definition claim_templates (sts : val) : res (list val) :=
  let* spec := getitem sts "spec" in
  let* ts := get_iter spec "volumeClaimTemplates" in
  mapM (λ t, let* md := getitem t "metadata" in getitem md "name") ts.

(** [next((v for v in volumes if v["name"] == volume), None)] *)
Fixpoint find_volume (volume : val) (vs : list val) : res val :=
  match vs with
  | [] => Ok VNone
  | v :: vs' =>
      let* n := getitem v "name" in
      if py_eq n volume then Ok v else find_volume volume vs'
  end.

(** [s.replace(c, d)] for one-character strings. *)
Fixpoint replace_char (c d : ascii) (s : string) : string :=
  match s with
  | EmptyString => EmptyString
  | String e s' => String (if Ascii.eqb e c then d else e) (replace_char c d s')
  end.

(** The body of [ready]: the pod mounts the claim and its Ready condition is "True". *)
Definition pod_ready (claim : string) (p : val) : res bool :=
  if negb (truthy p) then Ok false else
  let* spec := getitem p "spec" in
  let* vs := get_iter spec "volumes" in
  let* claims := foldM (λ acc v,
    let* has := key_in "persistentVolumeClaim" v in
    if has : bool then
      let* c := getitem v "persistentVolumeClaim" in
      let* n := getitem c "claimName" in Ok (acc ++ [n])
    else Ok acc) [] vs in
  let* status := getitem p "status" in
  let* cs := get_iter status "conditions" in
  let* conds := mapM (λ c,
    let* t := getitem c "type" in
    let* st := getitem c "status" in
    let* t := hashable t in Ok (t, st)) cs in
  let ready := foldl (λ acc '(t, st), if eq_str t "Ready" then st else acc) VNone conds in
  Ok (py_in claim claims && eq_str ready "True").

(** ** Runs against a cluster *)

Section Run.
  (** The cluster and the clock: [kubectl argv stdin] gives status, stdout and stderr. *)
  Context {W : Type}.
  Context (kubectl : list string → option string → W → (Z * string * string) * W).
  Context (now : W → Z * W) (sleep : Z → W → W).
  (** The bound on the iterations of one [wait_for]. *)
  Context (fuel : nat).

  (** A run gives its outcome, what it did, in order, and the world it leaves. *)
Definition M (A : Type) : Type := W → out A * list event * W.

#[global] Instance M_ret : MRet M := λ A a w, (Ret a, [], w).
#[global] Instance M_bind : MBind M := λ A B f m w,
    match m w with
    | (Ret a, es, w1) => let '(o, es', w2) := f a w1 in (o, es ++ es', w2)
    | (Fail e, es, w1) => (Fail e, es, w1)
    end.

Definition fail {A} (f : failure) : M A := λ w, (Fail f, [], w).
Definition refuse {A} (r : refusal) : M A := fail (Refused r).
Definition lift {A} (r : res A) : M A :=
    match r with Ok a => mret a | Raise e => fail (Raised e) end.
Definition print (l : text) : M unit := λ w, (Ret (), [Printed l], w).
Definition get_time : M Z := λ w, let '(t, w') := now w in (Ret t, [], w').
Definition do_sleep (s : Z) : M unit := λ w, (Ret (), [Slept s], sleep s w).
Definition exec (argv : list string) (stdin : option string) : M (Z * string * string) :=
    λ w, let '(a, w') := kubectl argv stdin w in (Ret a, [Kubectl argv stdin a], w').

  (** [try: m except Refusal as e: raise Refusal(...e...)] *)
Definition rewrap {A} (f : refusal → refusal) (m : M A) : M A := λ w,
    match m w with
    | (Fail (Refused r), es, w') => (Fail (Refused (f r)), es, w')
    | r => r
    end.

  (** *** Kube *)

  (** [Kube.run]: a non-string argument is a [TypeError] of [subprocess.run]. *)
Definition run (k : Kube) (args : list val) (stdin : option string) (check : bool)
      : M (Z * string * string) :=
    let* args := lift (mapM as_str args) in
    let* p := exec (base k ++ args) stdin in
    if check && negb (p.1.1 =? 0)%Z then refuse (KubectlFailed args (strip p.2)) else mret p.

  (** [Kube.get] *)
Definition kube_get (k : Kube) (args : list val) : M val :=
    let* p := run k (VStr "get" :: args ++ [VStr "-o"; VStr "json"]) None false in
    if negb (p.1.1 =? 0)%Z then
      if contains "NotFound" p.2 || contains "not found" p.2 then mret VNone
      else let* args := lift (mapM as_str args) in refuse (GetFailed args (strip p.2))
    else lift (json_loads p.1.2).

  (** [Kube.change]: the change is described, and made only under [--apply]. *)
Definition change (k : Kube) (description : text) (args : list val) (stdin : option string)
      : M unit :=
    let* _ := print (VStr (if apply k then "  DO   " else "  PLAN ") :: description) in
    if apply k then let* _ := run k args stdin true in mret () else mret ().

  (** *** Steps *)

Definition resource (component : string) : string := component +:+ "s.composition.krateo.io".

Definition composition (k : Kube) (component : string) : M val :=
    let* found := kube_get k [VStr (resource component)] in
    let* items := lift (get (or_ found (VDict [])) "items") in
    let items := or_ items (VList []) in
    let* n := lift (py_len items) in
    if (n =? 1)%nat then lift (getidx items 0)
    else refuse (NotOneComposition component (namespace k) (Z.of_nat n)).

Definition microseconds : Z := 1000000.

Fixpoint wait_loop (n : nat) (description : text) (predicate : M bool) (timeout deadline : Z)
      : M unit :=
    match n with
    | O => fail OutOfFuel
    | S n =>
        let* t := get_time in
        if (t <? deadline)%Z then
          let* b := predicate in
          if b : bool then mret ()
          else let* _ := do_sleep WAIT_STEP in
               wait_loop n description predicate timeout deadline
        else refuse (TimedOut timeout description)
    end.

Definition wait_for (description : text) (predicate : M bool) (timeout : Z) : M unit :=
    let* t := get_time in
    wait_loop fuel description predicate timeout (t + timeout * microseconds)%Z.

  (** [done] inside [run_helper] *)
Definition pod_done (k : Kube) (name : val) : M bool :=
    let* p := kube_get k str["pod"; name] in
    if negb (truthy p) then mret false else
    let* status := lift (getitem p "status") in
    let* phase := lift (get status "phase") in
    mret (eq_str phase "Succeeded" || eq_str phase "Failed").

Definition run_helper (k : Kube) (pod : val) (timeout : Z) : M string :=
    let* md := lift (getitem pod "metadata") in
    let* name := lift (getitem md "name") in
    let* _ := run k str["delete"; "pod"; name; "--ignore-not-found"; "--wait=true"] None true in
    let* _ := run k str["apply"; "-f"; "-"] (Some (json_dumps pod)) true in
    let* _ := wait_for str["pod "; name] (pod_done k name) timeout in
    let* p := kube_get k str["pod"; name] in
    let* status := lift (getitem p "status") in
    let* phase := lift (getitem status "phase") in
    let* p := run k str["logs"; name] None false in
    let log := p.1.2 in
    let* _ := run k str["delete"; "pod"; name; "--wait=true"] None true in
    if eq_str phase "Succeeded" then mret log else refuse (PodEnded name phase log).

  (** *** prepare *)

  (** [f"..."], for a string the program uses as data. *)
Definition fstr (t : text) : res string := String.concat "" <$> mapM py_str t.

  (** What [prepare] has established when it starts to change things. *)
Record plan := {
    name : val; claim : string; marker : string; comp : val;
    path : val; node : val; image : val }.

  (** Lines 214-247: the refusals, in the order of the code; [None] when there is nothing to
      migrate. *)
Definition prepare_checks (k : Kube) (component : string) (entry : val) : M (option plan) :=
    let* name := lift (getitem entry "statefulset") in
    let* volume := lift (getitem entry "volume") in
    let* claim := lift (fstr str[volume; "-"; name; "-0"]) in
    let* marker := lift (match assoc component MARKERS with
                         | Some s => Ok s | None => Raise (KeyError component) end) in
    let* comp := composition k component in
    let* sts := kube_get k str["statefulset"; name] in
    if is_none sts then
      let* pvc := kube_get k str["pvc"; VStr claim] in
      if truthy pvc then refuse (AlreadyPrepared name claim)
      else refuse (NoStatefulSet name claim)
    else
    let* templates := lift (claim_templates sts) in
    if py_in volume templates then
      let* _ := print str[name; " already claims "; volume; ": nothing to migrate"] in
      mret None
    else
    let* spec := lift (getitem sts "spec") in
    let* template := lift (getitem spec "template") in
    let* pod_spec := lift (getitem template "spec") in
    let* volumes := lift (get_iter pod_spec "volumes") in
    let* source := lift (find_volume volume volumes) in
    let* host := (if truthy source then lift (key_in "hostPath" source) else mret false) in
    if negb host then refuse (NotHostPath name volume source) else
    let* hp := lift (getitem source "hostPath") in
    let* path := lift (getitem hp "path") in
    let* replicas := lift (get_default spec "replicas" (VInt 1)) in
    if negb (py_eq replicas (VInt 1)) then refuse (WrongReplicas name replicas) else
    let* pod_name := lift (fstr str[name; "-0"]) in
    let* pod := kube_get k str["pod"; VStr pod_name] in
    let* pspec := lift (get_default (or_ pod (VDict [])) "spec" (VDict [])) in
    let* node := lift (get pspec "nodeName") in
    if negb (truthy node) then refuse (NotScheduled name path) else
    let* containers := lift (getitem pod_spec "containers") in
    let* c0 := lift (getidx containers 0) in
    let* image := lift (getitem c0 "image") in
    let* _ := print str[component; ": "; name; " keeps "; path; " on node "; node;
                        "; target claim "; VStr claim] in
    mret (Some {| name := name; claim := claim; marker := marker; comp := comp;
                  path := path; node := node; image := image |}).

  (** Lines 249-266: pause the Composition, scale the StatefulSet to 0 and, under [--apply],
      see that it stays there. *)
Definition prepare_stop (k : Kube) (component : string) (p : plan) : M unit :=
    let* is_paused := lift (paused (comp p)) in
    let* _ := (if is_paused : bool then mret () else
      let* md := lift (getitem (comp p) "metadata") in
      let* cname := lift (getitem md "name") in
      change k str["pause Composition "; cname; " ("; PAUSE_ANNOTATION; ")"]
        str["annotate"; resource component; cname; PAUSE_ANNOTATION +:+ "=true"; "--overwrite"]
        None) in
    let* _ := change k str["scale "; name p; " to 0"]
                str["scale"; "statefulset"; name p; "--replicas=0"] None in
    if apply k then
      let* pod_name := lift (fstr str[name p; "-0"]) in
      let* _ := wait_for str["pod "; name p; "-0 to stop"]
                  (let* v := kube_get k str["pod"; VStr pod_name] in mret (is_none v)) 600 in
      let* _ := do_sleep RESYNC_GUARD in
      let* sts := kube_get k str["statefulset"; name p] in
      let* spec := lift (getitem sts "spec") in
      let* held := lift (get spec "replicas") in
      if py_eq held (VInt 0) then mret () else refuse (ScaledBack (name p) held)
    else mret ().

Definition probe_volumes (path : val) : list val :=
    [VDict [("name", VStr "src");
            ("hostPath", VDict [("path", path); ("type", VStr "Directory")])]].
Definition probe_mounts : list val :=
    [VDict [("name", VStr "src"); ("mountPath", VStr "/src"); ("readOnly", VBool true)]].

Definition probe_pod (p : plan) : res val :=
    let* nm := fstr str[name p; "-migrate-probe"] in
    let* script := fstr str["test -e /src/"; marker p; " || { echo 'no "; marker p; " in ";
                            path p; "'; exit 3; }; "] in
    Ok (helper_pod nm (node p) (image p) (probe_volumes (path p)) probe_mounts
          (script +:+ inventory "/src" "src.")).

Definition claim_doc (claim : string) (size : val) (storage_class : string) : val :=
    VDict [
      ("apiVersion", VStr "v1");
      ("kind", VStr "PersistentVolumeClaim");
      ("metadata", VDict [
        ("name", VStr claim);
        ("labels", VDict [("app.kubernetes.io/managed-by", VStr "migrate-to-pvc")])]);
      ("spec", VDict (
        [("accessModes", VList [VStr "ReadWriteOnce"]);
         ("resources", VDict [("requests", VDict [("storage", size)])])]
        ++ if String.eqb storage_class "" then []
           else [("storageClassName", VStr storage_class)]))].

Definition copy_script : string :=
    "if [ -n " +:+ dquote +:+ "$(ls -A /dst | grep -v '^lost+found$')" +:+ dquote +:+ " ]; then "
    +:+ "echo 'claim is not empty: a previous copy stopped part way. Delete the claim, "
    +:+ "then run prepare again'; exit 4; fi; " +:+ "cp -a /src/. /dst/; sync; "
    +:+ inventory "/dst" "dst.".

Definition copy_pod (p : plan) : res val :=
    let* nm := fstr str[name p; "-migrate-copy"] in
    let volumes := probe_volumes (path p) ++
      [VDict [("name", VStr "dst");
              ("persistentVolumeClaim", VDict [("claimName", VStr (claim p))])]] in
    let mounts := probe_mounts ++
      [VDict [("name", VStr "dst"); ("mountPath", VStr "/dst")]] in
    Ok (helper_pod nm (node p) (image p) volumes mounts copy_script).

  (** Lines 294-298: prove the marker is there and count the source. *)
Definition count_source (k : Kube) (component : string) (p : plan) (probe : val)
      : M (list (string * Z)) :=
    rewrap (λ e, NoState e component (name p))
      (let* log := run_helper k probe 600 in lift (parse_inventory log "src.")).

  (** Lines 310-332: create the claim unless it is there, copy, and count the copy. *)
Definition make_claim (k : Kube) (p : plan) (storage_class : string) (size : val) : M unit :=
    let* pvc := kube_get k str["pvc"; claim p] in
    if is_none pvc then
      change k str["create claim "; claim p] str["apply"; "-f"; "-"]
        (Some (json_dumps (claim_doc (claim p) size storage_class)))
    else mret ().

  (** A volume's own lost+found directory may be the one extra entry of the copy. *)
Definition lost_found (src_files dst_files : Z) : Z :=
    if (dst_files =? src_files + 1)%Z then 1 else 0.
  (** The two inventories agree, up to that entry. *)
Definition copy_matches (sf sb df db : Z) : bool :=
    ((df - lost_found sf df =? sf) && (db =? sb))%Z.

Definition prepare (k : Kube) (component : string) (entry : val) (storage_class : string)
      (size : val) : M unit :=
    let* checked := prepare_checks k component entry in
    match checked with
    | None => mret ()
    | Some p =>
        let* _ := prepare_stop k component p in
        let* probe := lift (probe_pod p) in
        if negb (apply k) then
          let* _ := print str["  PLAN prove "; path p; " on "; node p; " holds "; marker p;
                              ", and count its files and bytes"] in
          let* _ := print str["  PLAN create claim "; claim p; " ("; size; ", class ";
                              if String.eqb storage_class "" then "cluster default"
                              else storage_class; ")"] in
          let* _ := print str["  PLAN copy "; path p; " into "; claim p; " on "; node p;
                              ", and compare counts"] in
          print str["  PLAN delete StatefulSet "; name p; "; leave "; path p; " on ";
                    node p; " in place"]
        else
          let* src := count_source k component p probe in
          let* sf := lift (count_of src "files") in
          let* sb := lift (count_of src "bytes") in
          let* _ := print str["  OK   "; path p; " holds "; marker p; ": "; VInt sf;
                              " entries, "; VInt sb; " bytes"] in
          let* _ := make_claim k p storage_class size in
          let* copy := lift (copy_pod p) in
          let* _ := print str["  DO   copy "; path p; " into "; claim p] in
          let* log := run_helper k copy COPY_POD_TIMEOUT in
          let* dst := lift (parse_inventory log "dst.") in
          let* df := lift (count_of dst "files") in
          let* differs := (if negb (df - lost_found sf df =? sf)%Z then mret true else
            let* db := lift (count_of dst "bytes") in mret (negb (db =? sb)%Z)) in
          if differs : bool then refuse (CopyDiffers src dst) else
          let* db := lift (count_of dst "bytes") in
          let* _ := print str["  OK   claim matches: "; VInt (df - lost_found sf df);
                              " entries, "; VInt db; " bytes"] in
          let* _ := change k str["delete StatefulSet "; name p; ", keeping claim "; claim p]
                      str["delete"; "statefulset"; name p; "--wait=true"] None in
          print str["prepared. "; path p; " stays on "; node p; " until you delete it. Now apply ";
                    "the 0.3.36 CompositionDefinition, then run finish."]
    end.

  (** *** finish *)

Definition finish (k : Kube) (component : string) (entry : val) (version : string) : M unit :=
    let* name := lift (getitem entry "statefulset") in
    let* volume := lift (getitem entry "volume") in
    let* claim := lift (fstr str[volume; "-"; name; "-0"]) in
    let* comp := composition k component in
    let* pvc := kube_get k str["pvc"; VStr claim] in
    if is_none pvc then refuse (NoClaim claim) else
    let* sts := kube_get k str["statefulset"; name] in
    let* _ := (if is_none sts then mret () else
      let* sts := kube_get k str["statefulset"; name] in
      let* templates := lift (claim_templates sts) in
      if py_in volume templates then mret () else refuse (RecreatedWithoutClaim name)) in
    let* md := lift (getitem comp "metadata") in
    let* labels := lift (get_dict md "labels") in
    let* at_ := lift (get labels "krateo.io/composition-version") in
    let want := "v" +:+ replace_char "." "-" version in
    if negb (eq_str at_ want) then
      let* cname := lift (getitem md "name") in refuse (WrongVersion cname at_ want)
    else
    let* is_paused := lift (paused comp) in
    let* _ := (if is_paused : bool then
      let* cname := lift (getitem md "name") in
      change k str["unpause Composition "; cname]
        str["annotate"; resource component; cname; PAUSE_ANNOTATION +:+ "-"] None
    else mret ()) in
    if negb (apply k) then
      print str["  PLAN wait for "; name; "-0 Ready on claim "; VStr claim]
    else
    let* pod_name := lift (fstr str[name; "-0"]) in
    let* _ := wait_for str[name; "-0 Ready on claim "; VStr claim]
                (let* p := kube_get k str["pod"; VStr pod_name] in lift (pod_ready claim p)) 1800 in
    print str["finished. "; name; "-0 is Ready on claim "; VStr claim; "."].

  (** *** main *)

Inductive phase := Prepare | Finish.
Record args := {
    a_phase : phase; a_context : string; a_namespace : string; a_component : string;
    a_storage_class : string; a_size : string; a_version : string; a_apply : bool }.

Definition entry_for (listing : val) (component : string) : M val :=
    let* es := lift (get_iter (or_ listing (VDict [])) "durable") in
    let* e := lift (entry_in es component) in
    match e with Some e => mret e | None => refuse (NotListed component) end.

  (** [listing] is hack/durable-state.yaml and [values] the chart's values.yaml, parsed. *)
Definition main (listing values : val) (a : args) : M unit :=
    let* entry := entry_for listing (a_component a) in
    let* size := (if negb (String.eqb (a_size a) "") then mret (VStr (a_size a)) else
      let* v := lift (getitem values "volume") in lift (getitem v "size")) in
    let k := {| context := a_context a; namespace := a_namespace a; apply := a_apply a |} in
    match a_phase a with
    | Prepare => prepare k (a_component a) entry (a_storage_class a) size
    | Finish => finish k (a_component a) entry (a_version a)
    end.

  (** ** What a run emits *)

  (** Every event of every run of [m] satisfies [φ]. *)
Definition emits (φ : event → Prop) {A} (m : M A) : Prop := ∀ w, Forall φ (m w).1.2.

Section Emits.
    Context (φ : event → Prop) (k : Kube).

Lemma emits_bind {A B} (m : M A) (f : A → M B) :
      emits φ m → (∀ a, emits φ (f a)) → emits φ (m ≫= f).
Proof.
  intros Hm Hf w. specialize (Hm w). unfold mbind, M_bind.
  destruct (m w) as [[[a|e] es] w1]; [|done].
  specialize (Hf a w1). destruct (f a w1) as [[o es'] w2]. simpl in *.
  by apply Forall_app.
Qed.

Lemma emits_ret {A} (a : A) : emits φ (mret a).
Proof. intros w. constructor. Qed.
Lemma emits_fail {A} e : emits φ (@fail A e).
Proof. intros w. constructor. Qed.
Lemma emits_refuse {A} r : emits φ (@refuse A r).
Proof. intros w. constructor. Qed.
Lemma emits_lift {A} (r : res A) : emits φ (lift r).
Proof. destruct r; [apply emits_ret|apply emits_fail]. Qed.
Lemma emits_lift_bind {A B} (r : res A) (f : A → M B) :
      (∀ a, r = Ok a → emits φ (f a)) → emits φ (lift r ≫= f).
Proof.
  destruct r as [a|e]; intros H w; [|constructor].
  specialize (H a eq_refl w). unfold mbind, M_bind. simpl. by destruct (f a w) as [[o es] w'].
Qed.
Lemma emits_print l : φ (Printed l) → emits φ (print l).
Proof. intros H w. by repeat constructor. Qed.
Lemma emits_time : emits φ get_time.
Proof. intros w. unfold get_time. destruct (now w). constructor. Qed.
Lemma emits_sleep s : φ (Slept s) → emits φ (do_sleep s).
Proof. intros H w. by repeat constructor. Qed.
Lemma emits_rewrap {A} f (m : M A) : emits φ m → emits φ (rewrap f m).
Proof.
  intros H w. specialize (H w). unfold rewrap. by destruct (m w) as [[[a|[]] es] w'].
Qed.

Lemma emits_run args stdin check :
      (∀ xs a, mapM as_str args = Ok xs → φ (Kubectl (base k ++ xs) stdin a)) →
      emits φ (run k args stdin check).
Proof.
  intros H. apply emits_lift_bind. intros xs Hxs. apply emits_bind.
  - intros w. unfold exec. destruct (kubectl _ _ w) as [a w1]. constructor; [by apply H|constructor].
  - intros p. case_match; [apply emits_refuse|apply emits_ret].
Qed.

Lemma emits_change d args stdin :
      (∀ s, φ (Printed (VStr s :: d))) →
      (apply k = true → ∀ xs a, mapM as_str args = Ok xs →
        φ (Kubectl (base k ++ xs) stdin a)) →
      emits φ (change k d args stdin).
Proof.
  intros Hp H. apply emits_bind; [by apply emits_print|]. intros _.
  destruct (apply k); [|apply emits_ret]. apply emits_bind; [|intros _; apply emits_ret].
  apply emits_run. auto.
Qed.

Lemma emits_wait_for d p t :
      φ (Slept WAIT_STEP) → emits φ p → emits φ (wait_for d p t).
Proof.
  intros Hs Hp. apply emits_bind; [apply emits_time|]. intros t0.
  generalize (t0 + t * microseconds)%Z as dl. induction fuel as [|n IH]; intros dl;
    [apply emits_fail|]. apply emits_bind; [apply emits_time|]. intros t1.
  destruct (t1 <? dl)%Z; [|apply emits_refuse]. apply emits_bind; [done|].
  intros [|]; [apply emits_ret|]. apply emits_bind; [by apply emits_sleep|]. auto.
Qed.
End Emits.

  (** Lookups are harmless whenever reading is. *)
Lemma emits_get φ k args :
    (∀ xs a, φ (Kubectl (base k ++ "get" :: xs) None a)) → emits φ (kube_get k args).
Proof.
  intros H. apply emits_bind.
  - apply emits_run. intros xs a Hxs.
    apply mapM_as_str_cons in Hxs as (ys & _ & ->). apply H.
  - intros p. repeat case_match; auto using emits_ret, emits_lift.
    apply emits_lift_bind. intros. apply emits_refuse.
Qed.

  (** ** What a run has done before each event

      [safe φ H m R]: started after a history satisfying [H], [m] emits only events that [φ]
      allows after what came before them, and if it returns [a] the history satisfies [R a]. *)
Definition safe (φ : list event → event → Prop) (H : list event → Prop) {A} (m : M A)
      (R : A → list event → Prop) : Prop :=
    ∀ h w, H h →
      (∀ pre e post, (m w).1.2 = pre ++ e :: post → φ (h ++ pre) e) ∧
      (∀ a, (m w).1.1 = Ret a → R a (h ++ (m w).1.2)).

  (** [e] happened, at a point where [H] held of what came before. *)
Definition before (H : list event → Prop) (e : event) (h : list event) : Prop :=
    ∃ h1 h2, h = h1 ++ e :: h2 ∧ H h1.

Definition stable (H : list event → Prop) : Prop := ∀ h h', H h → H (h ++ h').

Lemma stable_before H e : stable (before H e).
Proof. intros h h' (h1 & h2 & -> & H1). exists h1, (h2 ++ h'). by rewrite <- app_assoc. Qed.
Lemma stable_True : stable (λ _, True).
Proof. done. Qed.
Lemma before_intro H e h : H h → before H e (h ++ [e]).
Proof. intros Hh. by exists h, []. Qed.
Lemma before_stable H e h : stable H → before H e h → H h.
Proof. intros Hs (h1 & h2 & -> & H1). by apply Hs. Qed.
Lemma before_mono (H H' : list event → Prop) e h :
    (∀ h, H h → H' h) → before H e h → before H' e h.
Proof. intros Hi (h1 & h2 & -> & H1). exists h1, h2. auto. Qed.

Lemma mapM_as_str_app args (l : list string) xs :
    mapM as_str (args ++ (VStr <$> l)) = Ok xs → ∃ ys, mapM as_str args = Ok ys ∧ xs = ys ++ l.
Proof.
  rewrite mapM_Ok_Forall2. intros H. apply Forall2_app_inv_l in H as (ys & zs & Hy & Hz & ->).
  exists ys. split; [by apply mapM_Ok_Forall2|]. f_equal. revert zs Hz.
  induction l as [|x l IH]; intros zs Hz; inversion Hz; simplify_eq/=; [done|].
  f_equal; auto.
Qed.

Section Safe.
    Context (φ : list event → event → Prop) (k : Kube).

Lemma safe_bind {A B} H (m : M A) (f : A → M B) R S :
      safe φ H m R → (∀ a, safe φ (R a) (f a) S) → safe φ H (m ≫= f) S.
Proof.
  intros Hm Hf h w Hh. destruct (Hm h w Hh) as [Hm1 Hm2]. unfold mbind, M_bind.
  destruct (m w) as [[[a|e] es] w1]; simpl in *; [|by split].
  destruct (Hf a (h ++ es) w1 (Hm2 a eq_refl)) as [Hf1 Hf2].
  destruct (f a w1) as [[o es'] w2]. simpl in *. split.
  - intros pre e post Heq. apply app_eq_inv in Heq as [(l & -> & E)|(l & -> & E)].
    + destruct l as [|e' l]; simplify_eq/=.
      * specialize (Hf1 [] e post eq_refl). by rewrite !app_nil_r in Hf1.
      * by apply (Hm1 pre e' l).
    + rewrite app_assoc. by apply (Hf1 l e post).
  - intros b ->. rewrite app_assoc. auto.
Qed.

Lemma safe_conseq {A} (H H' : list event → Prop) (m : M A) R R' :
      safe φ H' m R' → (∀ h, H h → H' h) → (∀ a h, R' a h → R a h) → safe φ H m R.
Proof. intros Hm Hi Hr h w Hh. destruct (Hm h w (Hi _ Hh)). split; eauto. Qed.

Lemma safe_pre {A} (H : list event → Prop) (m : M A) R (P : Prop) :
      (∀ h, H h → P) → (P → safe φ H m R) → safe φ H m R.
Proof. intros HP Hm h w Hh. apply Hm; eauto. Qed.

Lemma safe_exists {A X} (H : X → list event → Prop) (m : M A) R :
      (∀ x, safe φ (H x) m R) → safe φ (λ h, ∃ x, H x h) m R.
Proof. intros Hm h w [x Hh]. by apply (Hm x). Qed.

Lemma safe_ret {A} (H : list event → Prop) (a : A) R :
      (∀ h, H h → R a h) → safe φ H (mret a) R.
Proof.
  intros Hr h w Hh. split; [intros [] ?? ?; simplify_eq/=|].
  intros b [= <-]. simpl. rewrite app_nil_r. auto.
Qed.

Lemma safe_fail {A} H e (R : A → list event → Prop) : safe φ H (fail e) R.
Proof. intros h w Hh. split; [intros [] ?? ?; simplify_eq/=|done]. Qed.

Lemma safe_lift {A B} H (r : res A) (f : A → M B) S :
      (∀ a, r = Ok a → safe φ H (f a) S) → safe φ H (lift r ≫= f) S.
Proof.
  intros Hf. apply safe_bind with (R := λ a h, r = Ok a ∧ H h).
  - destruct r; [apply safe_ret; auto|apply safe_fail].
  - intros a h w [Hr Hh]. by apply Hf.
Qed.

Lemma safe_ret_bind {A B} H (a : A) (f : A → M B) S :
      safe φ H (f a) S → safe φ H (mret a ≫= f) S.
Proof. intros Hf. apply (safe_lift H (Ok a)). by intros ? [= <-]. Qed.

Lemma safe_lift_ret {A B C} H (r : res A) (f : A → B) (g : B → M C) S :
      (∀ a, r = Ok a → safe φ H (g (f a)) S) →
      safe φ H ((let* a := lift r in mret (f a)) ≫= g) S.
Proof.
  intros Hg. apply safe_bind with (R := λ b h, (∃ a, r = Ok a ∧ b = f a) ∧ H h).
  - apply safe_lift. intros a Ha. apply safe_ret. eauto.
  - intros b h w [(a & Ha & ->) Hh]. by apply Hg.
Qed.

Lemma safe_lift_end {A} H (r : res A) (R : A → list event → Prop) :
      (∀ a h, r = Ok a → H h → R a h) → safe φ H (lift r) R.
Proof. intros Hr. destruct r; [apply safe_ret; auto|apply safe_fail]. Qed.

Lemma safe_emits {A} H (m : M A) ψ :
      stable H → emits ψ m → (∀ h e, ψ e → φ h e) → safe φ H m (λ _, H).
Proof.
  intros Hs He Hi h w Hh. specialize (He w). split; [|intros _ _; by apply Hs].
  intros pre e post Heq. rewrite Heq in He.
  apply Forall_app in He as [_ He]. inversion He; subst. auto.
Qed.

Lemma safe_exec H argv stdin :
      (∀ h a, H h → φ h (Kubectl argv stdin a)) →
      safe φ H (exec argv stdin) (λ a, before H (Kubectl argv stdin a)).
Proof.
  intros He h w Hh. unfold exec. destruct (kubectl argv stdin w) as [a w1]. simpl. split.
  - intros [|e1 [|e2 l]] e post Heq; simplify_eq/=. rewrite app_nil_r. auto.
  - intros ? [= <-]. by apply before_intro.
Qed.

Lemma safe_run H args stdin check :
      (∀ xs h a, mapM as_str args = Ok xs → H h → φ h (Kubectl (base k ++ xs) stdin a)) →
      safe φ H (run k args stdin check) (λ p h, ∃ xs, mapM as_str args = Ok xs ∧
        (check = true → p.1.1 = 0%Z) ∧ before H (Kubectl (base k ++ xs) stdin p) h).
Proof.
  intros He. apply safe_lift. intros xs Hxs. eapply safe_bind; [apply safe_exec; eauto|].
  intros p. destruct (check && _) eqn:E; [apply safe_fail|]. apply safe_ret. intros h Hb.
  exists xs. split_and!; [done| |done]. intros ->. simpl in E.
  apply negb_false_iff in E. by apply Z.eqb_eq.
Qed.

  (** What [Kube.get] makes of an answer. *)
Definition answers (a : Z * string * string) (v : val) : Prop :=
    if (a.1.1 =? 0)%Z then json_loads a.1.2 = Ok v else v = VNone.

Definition got (H : list event → Prop) (xs : list string) (v : val) (h : list event) : Prop :=
    ∃ a, answers a v ∧ before H (Kubectl (base k ++ "get" :: xs ++ ["-o"; "json"]) None a) h.

Lemma safe_get H args :
      (∀ xs h a, φ h (Kubectl (base k ++ "get" :: xs) None a)) →
      safe φ H (kube_get k args) (λ v h, ∃ xs, mapM as_str args = Ok xs ∧ got H xs v h).
Proof.
  intros He. eapply safe_bind; [apply safe_run|].
  - intros xs h a Hxs _. apply mapM_as_str_cons in Hxs as (ys & _ & ->). apply He.
  - intros p. eapply safe_pre with (P := ∃ xs, mapM as_str args = Ok xs).
    { intros h (xs & Hxs & _). apply mapM_as_str_cons in Hxs as (ys & Hys & ->).
      apply (mapM_as_str_app _ ["-o"; "json"]) in Hys as (zs & Hzs & ->). eauto. }
    intros (xs & Hxs).
    apply safe_conseq with (H' := before H (Kubectl (base k ++ "get" :: xs ++ ["-o"; "json"]) None p))
      (R' := λ v h, answers p v ∧
        before H (Kubectl (base k ++ "get" :: xs ++ ["-o"; "json"]) None p) h).
    + unfold answers. destruct (p.1.1 =? 0)%Z; simpl.
      * apply safe_lift_end. auto.
      * destruct (_ || _); [apply safe_ret; auto|]. apply safe_lift. intros. apply safe_fail.
    + intros h (ys & Hys & _ & Hb). apply mapM_as_str_cons in Hys as (zs & Hzs & ->).
      apply (mapM_as_str_app _ ["-o"; "json"]) in Hzs as (us & Hus & ->). rewrite Hxs in Hus. by simplify_eq/=.
    + intros v h [Ha Hb]. exists xs. split; [done|]. by exists p.
Qed.
End Safe.

  (** [c] is the only Composition a lookup listed. *)
Definition sole_item (doc c : val) : Prop :=
    ∃ items, get (or_ doc (VDict [])) "items" = Ok items ∧
      py_len (or_ items (VList [])) = Ok 1%nat ∧ getidx (or_ items (VList [])) 0 = Ok c.

Section Rules.
    Context (φ : list event → event → Prop) (k : Kube).
    Hypothesis φ_print : ∀ h l, φ h (Printed l).
    Hypothesis φ_sleep : ∀ h s, φ h (Slept s).
    Hypothesis φ_get : ∀ xs h a, φ h (Kubectl (base k ++ "get" :: xs) None a).
    Hypothesis φ_logs : ∀ xs h a, φ h (Kubectl (base k ++ "logs" :: xs) None a).
    Hypothesis φ_apply : ∀ xs h s a, φ h (Kubectl (base k ++ "apply" :: xs) s a).
    Hypothesis φ_delete_pod : ∀ xs h a, φ h (Kubectl (base k ++ "delete" :: "pod" :: xs) None a).

Lemma safe_print H l : stable H → safe φ H (print l) (λ _, H).
Proof.
  intros Hs. apply safe_emits with (ψ := λ e, e = Printed l); [done|by apply emits_print|].
  intros h e ->. apply φ_print.
Qed.

Lemma safe_sleep H s : safe φ H (do_sleep s) (λ _, before H (Slept s)).
Proof.
  intros h w Hh. simpl. split; [|intros _ _; by apply before_intro].
  intros [|e1 [|e2 l]] e post Heq; simplify_eq/=. apply φ_sleep.
Qed.

Lemma safe_time H : safe φ H get_time (λ _, H).
Proof.
  intros h w Hh. unfold get_time. destruct (now w). simpl.
  split; [intros [] ?? ?; simplify_eq/=|]. intros. by rewrite app_nil_r.
Qed.

Lemma safe_wait_for H d p t G :
      stable H → safe φ H p (λ b h, H h ∧ (b = true → G h)) →
      safe φ H (wait_for d p t) (λ _ h, H h ∧ G h).
Proof.
  intros Hs Hp. eapply safe_bind; [apply safe_time|]. intros t0.
  generalize (t0 + t * microseconds)%Z as dl. generalize fuel as n.
  induction n as [|n IH]; intros dl; [apply safe_fail|]. eapply safe_bind; [apply safe_time|]. intros t1.
  destruct (t1 <? dl)%Z; [|apply safe_fail]. eapply safe_bind; [apply Hp|].
  intros [|]; [apply safe_ret; naive_solver|]. eapply safe_bind; [apply safe_sleep|].
  intros []. eapply safe_conseq; [apply IH| |done].
  intros h Hb. apply before_stable in Hb; [naive_solver|].
  intros h1 h2 [??]. split; [by apply Hs|done].
Qed.

Lemma safe_change H d args stdin :
      stable H →
      (∀ xs h a, apply k = true → mapM as_str args = Ok xs → H h →
        φ h (Kubectl (base k ++ xs) stdin a)) →
      safe φ H (change k d args stdin) (λ _ h, H h ∧ (apply k = true → ∃ xs a,
        mapM as_str args = Ok xs ∧ a.1.1 = 0%Z ∧
        before H (Kubectl (base k ++ xs) stdin a) h)).
Proof.
  intros Hs He. eapply safe_bind; [by apply safe_print|]. intros [].
  destruct (apply k); [|apply safe_ret; naive_solver].
  eapply safe_bind; [apply safe_run; auto|]. intros a. apply safe_ret.
  intros h (xs & Hxs & Ha & Hb). split; [by eapply before_stable|]. eauto 10.
Qed.

  (** [H] still holds after a lookup. *)
Lemma got_stable H xs v h : stable H → got k H xs v h → H h.
Proof. intros Hs (a & _ & Hb). by eapply before_stable. Qed.
Lemma stable_got H xs v : stable (got k H xs v).
Proof. intros h h' (a & Ha & Hb). exists a. split; [done|by apply stable_before]. Qed.

Lemma safe_get_keep H args : stable H → safe φ H (kube_get k args) (λ _, H).
Proof.
  intros Hs. eapply safe_conseq; [apply safe_get, φ_get|done|].
  intros v h (xs & _ & Hg). by eapply got_stable.
Qed.

Lemma safe_composition component :
      safe φ (λ _, True) (composition k component) (λ c h,
        ∃ doc, sole_item doc c ∧ got k (λ _, True) [resource component] doc h).
Proof.
  eapply safe_bind; [apply safe_get, φ_get|].
  intros doc. apply safe_lift. intros items Hi. apply safe_lift. intros n Hn.
  destruct (Nat.eqb_spec n 1) as [->|]; [|apply safe_fail].
  apply safe_lift_end. intros c h Hc (xs & [= <-] & Hg). exists doc.
  split; [|done]. by exists items.
Qed.

Lemma safe_pod_done H nm :
      stable H → safe φ H (pod_done k nm) (λ _, H).
Proof.
  intros Hs. eapply safe_bind; [apply safe_get, φ_get|]. intros p.
  apply safe_conseq with (H' := H) (R' := λ _, H); [|intros h (? & _ & ?); by eapply got_stable|done].
  destruct (negb _); [apply safe_ret; auto|].
  apply safe_lift. intros st _. apply safe_lift. intros ph _. apply safe_ret. auto.
Qed.

  (** The phase [run_helper] reads. *)
Definition phase_of (p : val) : res val :=
    let* status := getitem p "status" in getitem status "phase".

Lemma safe_run_helper H pod nm t :
      stable H →
      (let* md := getitem pod "metadata" in getitem md "name") = Ok (VStr nm) →
      safe φ H (run_helper k pod t) (λ log h, ∃ p a,
        phase_of p = Ok (VStr "Succeeded") ∧ a.1.2 = log ∧
        before (got k H ["pod"; nm] p) (Kubectl (base k ++ ["logs"; nm]) None a) h).
Proof.
  intros Hs (md & Hmd & Hnm)%bind_Ok. unfold run_helper.
  apply safe_lift. intros md' Hmd'. apply safe_lift. intros nm' Hnm'.
  assert (nm' = VStr nm) as -> by congruence. clear Hmd Hnm Hmd' Hnm'.
  eapply safe_bind; [apply safe_run|].
  { intros xs h a Hxs _. apply mapM_as_str_cons in Hxs as (ys & Hys & ->).
    apply mapM_as_str_cons in Hys as (zs & Hzs & ->). apply φ_delete_pod. }
  intros a0. eapply safe_bind; [apply safe_run|].
  { intros xs h a Hxs _. apply mapM_as_str_cons in Hxs as (ys & Hys & ->). apply φ_apply. }
  intros a1. apply safe_conseq with (H' := H) (R' := λ log h, ∃ p a,
    phase_of p = Ok (VStr "Succeeded") ∧ a.1.2 = log ∧
    before (got k H ["pod"; nm] p) (Kubectl (base k ++ ["logs"; nm]) None a) h); [|..|done].
  2: { intros h (xs0 & ? & ? & Hb). apply before_stable in Hb as (xs1 & ? & ? & Hb);
         [by eapply before_stable|].
       intros h1 h2 (xs & ? & ? & ?). exists xs. split_and!; [done..|]. by apply stable_before. }
  eapply safe_bind.
  { apply safe_wait_for with (G := λ _, True); [done|].
    eapply safe_conseq; [by apply safe_pod_done|done|naive_solver]. }
  intros []. eapply safe_bind.
  { eapply safe_conseq; [apply safe_get, φ_get|by intros h [Hh _]|done]. }
  intros p. apply safe_lift. intros st Hst. apply safe_lift. intros ph Hph.
  eapply safe_bind.
  { eapply safe_conseq with (H' := got k H ["pod"; nm] p); [apply safe_run| |done].
    - intros xs h a Hxs _. apply mapM_as_str_cons in Hxs as (ys & _ & ->). apply φ_logs.
    - intros h (xs & [= <-] & Hg). done. }
  intros a. eapply safe_bind.
  { apply safe_run. intros xs h b Hxs _. apply mapM_as_str_cons in Hxs as (ys & Hys & ->).
    apply mapM_as_str_cons in Hys as (zs & _ & ->). apply φ_delete_pod. }
  intros b. destruct (eq_str ph "Succeeded") eqn:E; [|apply safe_fail].
  apply eq_str_spec in E as ->. apply safe_ret. intros h (xs & ? & ? & Hb).
  apply before_stable in Hb.
  - destruct Hb as (ys & [= <-] & _ & Hb). exists p, a. split_and!; [|done|done].
    unfold phase_of. by rewrite Hst.
  - intros h1 h2 (ys & ? & ? & ?). exists ys. split_and!; [done..|]. by apply stable_before.
Qed.
End Rules.

  (** ** Order of the changes *)

Definition scale_args (name : string) := ["scale"; "statefulset"; name; "--replicas=0"].
Definition delete_args (name : string) := ["delete"; "statefulset"; name; "--wait=true"].
Definition pause_args (component cname : string) :=
    ["annotate"; resource component; cname; "krateo.io/paused=true"; "--overwrite"].
Definition unpause_args (component cname : string) :=
    ["annotate"; resource component; cname; "krateo.io/paused-"].

Section Order.
    Context (k : Kube) (component name : string).

    (** The Composition was read paused, or has been paused. *)
Definition pausing (h : list event) : Prop :=
      (∃ c a, a.1.1 = 0%Z ∧
        before (λ _, True) (Kubectl (base k ++ pause_args component c) None a) h) ∨
      (∃ doc c, sole_item doc c ∧ paused c = Ok true ∧
        got k (λ _, True) [resource component] doc h).

    (** After that and the scale to 0 the StatefulSet was read, past the guard, at 0. *)
Definition stopped (h : list event) : Prop :=
      ∃ sts spec held a, getitem sts "spec" = Ok spec ∧ get spec "replicas" = Ok held ∧
        py_eq held (VInt 0) = true ∧
        got k (before (before pausing (Kubectl (base k ++ scale_args name) None a))
                 (Slept RESYNC_GUARD)) [ "statefulset"; name ] sts h.

    (** After [H] the pod succeeded, and its log counts [files] and [bytes] under [prefix]. *)
Definition inventoried (H : list event → Prop) (pod prefix : string) (files bytes : Z)
        (h : list event) : Prop :=
      ∃ p a inv, phase_of p = Ok (VStr "Succeeded") ∧ parse_inventory a.1.2 prefix = Ok inv ∧
        count_of inv "files" = Ok files ∧ count_of inv "bytes" = Ok bytes ∧
        before (got k H ["pod"; pod] p) (Kubectl (base k ++ ["logs"; pod]) None a) h.

    (** The copy was verified. *)
Definition copied (h : list event) : Prop :=
      ∃ sf sb df db, copy_matches sf sb df db = true ∧
        inventoried (inventoried stopped (name +:+ "-migrate-probe") "src." sf sb)
          (name +:+ "-migrate-copy") "dst." df db h.

    (** What must have happened before the StatefulSet is scaled, and before it is deleted. *)
Definition in_order (h : list event) (e : event) : Prop :=
      (∀ a, e = Kubectl (base k ++ scale_args name) None a → pausing h) ∧
      (∀ a, e = Kubectl (base k ++ delete_args name) None a → copied h).

Lemma stable_pausing : stable pausing.
Proof.
  intros h h' [(c & a & Ha & Hb)|(doc & c & Hc & Hp & Hg)].
  - left. exists c, a. split; [done|by apply stable_before].
  - right. exists doc, c. split_and!; [done..|by apply stable_got].
Qed.

Lemma stable_stopped : stable stopped.
Proof.
  intros h h' (sts & spec & held & a & ? & ? & ? & ?). exists sts, spec, held, a.
  split_and!; [done..|by apply stable_got].
Qed.

Lemma stable_inventoried H pod prefix f b : stable (inventoried H pod prefix f b).
Proof.
  intros h h' (p & a & inv & ? & ? & ? & ? & ?). exists p, a, inv.
  split_and!; [done..|by apply stable_before].
Qed.

Lemma in_order_other h argv stdin a :
      argv ≠ base k ++ scale_args name → argv ≠ base k ++ delete_args name →
      in_order h (Kubectl argv stdin a).
Proof. split; intros ? [=]; by subst. Qed.

Lemma in_order_quiet h verb rest stdin a :
      verb ≠ "scale" → (∀ xs, verb :: rest ≠ "delete" :: "statefulset" :: xs) →
      in_order h (Kubectl (base k ++ verb :: rest) stdin a).
Proof.
  intros Hv Hd. apply in_order_other; intros [= -> ->]%(inj (app (base k))); [done|].
  by eapply Hd.
Qed.
End Order.

Section Ordered.
    Context (k : Kube) (component nm : string).
    Notation ok := (in_order k component nm).

Lemma ok_get xs h a : ok h (Kubectl (base k ++ "get" :: xs) None a).
Proof. by apply in_order_quiet. Qed.
Lemma ok_logs xs h a : ok h (Kubectl (base k ++ "logs" :: xs) None a).
Proof. by apply in_order_quiet. Qed.
Lemma ok_apply xs h s a : ok h (Kubectl (base k ++ "apply" :: xs) s a).
Proof. by apply in_order_quiet. Qed.
Lemma ok_delete_pod xs h a : ok h (Kubectl (base k ++ "delete" :: "pod" :: xs) None a).
Proof. by apply in_order_quiet. Qed.
Lemma ok_annotate xs h a : ok h (Kubectl (base k ++ "annotate" :: xs) None a).
Proof. by apply in_order_quiet. Qed.
Lemma ok_print h l : ok h (Printed l).
Proof. split; intros ? [=]. Qed.
Lemma ok_sleep h s : ok h (Slept s).
Proof. split; intros ? [=]. Qed.
Hint Resolve ok_get ok_logs ok_apply ok_delete_pod ok_annotate ok_print ok_sleep : core.
Hint Resolve stable_pausing stable_stopped stable_inventoried stable_before stable_got : core.

Lemma run_helper_spec H pod s t :
      stable H → (let* md := getitem pod "metadata" in getitem md "name") = Ok (VStr s) →
      safe ok H (run_helper k pod t) (λ log h, ∃ p a,
        phase_of p = Ok (VStr "Succeeded") ∧ a.1.2 = log ∧
        before (got k H ["pod"; s] p) (Kubectl (base k ++ ["logs"; s]) None a) h).
Proof. intros. by apply safe_run_helper. Qed.

    (** What the checks leave: the Composition as it was read. *)
Definition checked (p : plan) (h : list event) : Prop :=
      name p = VStr nm ∧
      ∃ doc, sole_item doc (comp p) ∧ got k (λ _, True) [resource component] doc h.

Lemma stable_checked p : stable (checked p).
Proof.
  intros h h' (? & doc & ? & ?). split; [done|]. exists doc. split; [done|]. by apply stable_got.
Qed.

Ltac step :=
  lazymatch goal with
  | |- safe _ _ (lift _ ≫= _) _ => apply safe_lift; intros
  | |- safe _ _ (mret _ ≫= _) _ => apply safe_ret_bind; cbn [negb]
  | |- safe _ _ (kube_get _ _ ≫= _) _ => eapply safe_bind; [by apply safe_get_keep; auto|intros]
  | |- safe _ _ (print _ ≫= _) _ => eapply safe_bind; [by apply safe_print|intros []]
  | |- safe _ _ (refuse _) _ => apply safe_fail
  | |- safe _ _ (mret _) _ => apply safe_ret
  | |- safe _ _ (if true then _ else _) _ => cbv iota
  | |- safe _ _ ((if ?b then _ else _) ≫= _) _ => destruct b eqn:?
  | |- safe _ _ (if ?b then _ else _) _ => destruct b eqn:?
  end.

Lemma prepare_checks_spec entry :
      getitem entry "statefulset" = Ok (VStr nm) →
      safe ok (λ _, True) (prepare_checks k component entry)
        (λ o h, ∀ p, o = Some p → checked p h).
Proof.
  intros Hn. unfold prepare_checks. do 4 step. eapply safe_bind; [by apply safe_composition|].
  intros c. assert (stable (λ h, ∃ doc, sole_item doc c ∧ got k (λ _, True) [resource component] doc h)).
  { intros h h' (doc & ? & ?). exists doc. split; [done|by apply stable_got]. }
  repeat step; intros h Hh p [= <-]. split; [simpl; congruence|done].
Qed.

Lemma prepare_stop_spec p :
      safe ok (checked p) (prepare_stop k component p)
        (λ _ h, checked p h ∧ (apply k = true → stopped k component nm h)).
Proof.
  pose proof (stable_checked p) as Hcs.
  eapply safe_pre with (P := name p = VStr nm); [by intros h [??]|]. intros Hname.
  apply safe_lift. intros b Hb.
  (* the pause *)
  eapply safe_bind with (R := λ _ h, checked p h ∧ (apply k = true → pausing k component h)).
  { destruct b.
    - apply safe_ret. intros h [Hn (doc & Hs & Hg)]. split; [split; eauto|].
      intros _. right. eauto.
    - apply safe_lift. intros md _. apply safe_lift. intros cn _.
      eapply safe_conseq; [eapply safe_change; eauto| |].
      + intros xs h a _ Hxs _. apply mapM_as_str_cons in Hxs as (ys & _ & ->). auto.
      + intros h Hh. exact Hh.
      + intros _ h [Hc Ha]. split; [done|]. intros E.
        destruct (Ha E) as (xs & a & Hxs & Ha0 & Hbf). left.
        apply mapM_as_str_cons in Hxs as (ys & Hxs & ->).
        apply mapM_as_str_cons in Hxs as (zs & Hxs & ->).
        apply bind_Ok in Hxs as (cs & Hcn & Hxs). apply bind_Ok in Hxs as (ws & Hxs & [= <-]).
        injection Hxs as <-. exists cs, a. split; [done|]. by eapply before_mono. }
  intros []. cbv beta. rewrite Hname.
  (* the scale *)
  eapply safe_bind.
  { apply safe_change.
    - auto.
    - intros h h' [Hc Hp]. split; [by apply Hcs|]. intros E. apply stable_pausing; auto.
    - intros xs h a E [= <-] [_ Hp]. split; intros a' [= Ea]. auto. }
  intros []. destruct (apply k) eqn:E; [|apply safe_ret; naive_solver].
  apply safe_lift. intros pn Hpn.
  set (H1 a h := checked p h ∧ before (pausing k component)
    (Kubectl (base k ++ scale_args nm) None a) h).
  eapply safe_conseq with (H' := λ h, ∃ a, H1 a h); [| |intros ? ? HR; exact HR].
  2: { intros h [[Hc _] Hs]. destruct (Hs eq_refl) as (xs & a & [= <-] & _ & Hsc).
       exists a. split; [done|]. eapply before_mono; [|eassumption]. naive_solver. }
  apply safe_exists. intros a.
  assert (stable (H1 a)) as HS by (intros h h' [??]; split; [by apply Hcs|by apply stable_before]).
  eapply safe_bind.
  { apply safe_wait_for with (G := λ _, True); auto.
    eapply safe_bind; [by apply safe_get_keep|]. intros v. apply safe_ret. auto. }
  intros []. eapply safe_bind; [by apply safe_sleep|]. intros [].
  eapply safe_bind; [by apply safe_get|]. intros sts.
  apply safe_lift. intros spec Hspec. apply safe_lift. intros held Hheld.
  destruct (py_eq held (VInt 0)) eqn:Eh; [|apply safe_fail]. apply safe_ret.
  intros h (xs & [= <-] & b1 & Ha & Hg). split.
  - eapply before_stable in Hg.
    + eapply before_stable in Hg; [by destruct Hg as [[??] _]|].
      intros h1 h2 [??]. split; [by apply HS|done].
    + auto.
  - intros _. exists sts, spec, held, a. split_and!; [done..|]. exists b1. split; [done|].
    eapply before_mono; [|eassumption]. intros h1 Hg1. eapply before_mono; [|done].
    by intros h2 [[??] _].
Qed.

Lemma helper_pod_name s n i vs ms sc :
      (let* md := getitem (helper_pod s n i vs ms sc) "metadata" in getitem md "name")
      = Ok (VStr s).
Proof. done. Qed.

Lemma probe_pod_name p pod :
      name p = VStr nm → probe_pod p = Ok pod →
      (let* md := getitem pod "metadata" in getitem md "name")
      = Ok (VStr (nm +:+ "-migrate-probe")).
Proof.
  unfold probe_pod. intros -> (s & Hs & H)%bind_Ok. apply bind_Ok in H as (sc & _ & [= <-]).
  rewrite helper_pod_name. by injection Hs as <-.
Qed.

Lemma copy_pod_name p pod :
      name p = VStr nm → copy_pod p = Ok pod →
      (let* md := getitem pod "metadata" in getitem md "name")
      = Ok (VStr (nm +:+ "-migrate-copy")).
Proof.
  unfold copy_pod. intros -> (s & Hs & [= <-])%bind_Ok.
  rewrite helper_pod_name. by injection Hs as <-.
Qed.

Lemma safe_rewrap {A} H f (m : M A) R : safe ok H m R → safe ok H (rewrap f m) R.
Proof.
  intros Hm h w Hh. specialize (Hm h w Hh). unfold rewrap.
  destruct (m w) as [[[a|[r|e|]] es] w']; [done| |done..].
  destruct Hm as [Hm _]. split; [exact Hm|done].
Qed.

    (** A helper pod's log, parsed, is an inventory taken after [H]. *)
Lemma inventory_spec H pod s t prefix :
      stable H → (let* md := getitem pod "metadata" in getitem md "name") = Ok (VStr s) →
      safe ok H (let* log := run_helper k pod t in lift (parse_inventory log prefix))
        (λ inv h, ∀ f b, count_of inv "files" = Ok f → count_of inv "bytes" = Ok b →
          inventoried k H s prefix f b h).
Proof.
  intros Hs Hn. eapply safe_bind; [by apply run_helper_spec|]. intros log.
  apply safe_lift_end. intros inv h Hi (p & a & Hp & <- & Hb) f b Hf Hbs.
  exists p, a, inv. auto.
Qed.

Lemma print_spec H l : stable H → safe ok H (print l) (λ _, H).
Proof. apply safe_print. auto. Qed.

Lemma make_claim_spec H p sc size :
      stable H → safe ok H (make_claim k p sc size) (λ _, H).
Proof.
  intros Hs. eapply safe_bind; [by apply safe_get_keep|]. intros v.
  destruct (is_none v); [|by apply safe_ret].
  eapply safe_conseq; [eapply (safe_change ok k ok_print)|done|by intros ? h [??]].
  - done.
  - intros xs h a _ [= <-] _. auto.
Qed.

Lemma prepare_ordered entry sc size :
      getitem entry "statefulset" = Ok (VStr nm) →
      safe ok (λ _, True) (prepare k component entry sc size) (λ _ _, True).
Proof.
  intros Hn. eapply safe_bind; [by apply prepare_checks_spec|]. intros [p|].
  2: by apply safe_ret.
  eapply safe_pre with (P := name p = VStr nm); [intros h Hh; by destruct (Hh p eq_refl)|].
  intros Hname. eapply safe_bind.
  { eapply safe_conseq; [apply prepare_stop_spec|intros h Hh; by apply Hh|done]. }
  intros []. apply safe_lift. intros probe Hprobe. destruct (apply k) eqn:E; cbn [negb].
  2: { apply safe_conseq with (H' := λ _, True) (R' := λ _ _, True); [|done..].
       do 3 (eapply safe_bind; [by apply print_spec|intros []]). by apply print_spec. }
  apply safe_conseq with (H' := stopped k component nm) (R' := λ _ _, True);
    [|naive_solver|done].
  eapply safe_bind.
  { apply safe_rewrap, inventory_spec; [auto|by eapply probe_pod_name]. }
  intros src. apply safe_lift. intros sf Hsf. apply safe_lift. intros sb Hsb.
  set (I := inventoried k (stopped k component nm) (nm +:+ "-migrate-probe") "src." sf sb).
  apply safe_conseq with (H' := I) (R' := λ _ _, True); [|intros h Hh; by apply Hh|done].
  assert (stable I) as HI by apply stable_inventoried.
  eapply safe_bind; [by apply print_spec|]. intros [].
  eapply safe_bind; [by apply make_claim_spec|]. intros [].
  apply safe_lift. intros copy Hcopy. eapply safe_bind; [by apply print_spec|]. intros [].
  apply safe_conseq with (H' := I) (R' := λ _ _, True); [|done..].
  eapply safe_bind; [apply run_helper_spec; [done|by eapply copy_pod_name]|]. intros log.
  apply safe_lift. intros dst Hdst. apply safe_lift. intros df Hdf.
  destruct (df - lost_found sf df =? sf)%Z eqn:Ef; cbn [negb];
    [|apply safe_ret_bind, safe_fail].
  apply safe_lift_ret. intros db Hdb. destruct (db =? sb)%Z eqn:Eb; cbn [negb]; [|apply safe_fail].
  apply safe_lift. intros db' Hdb'. assert (db' = db) as -> by congruence.
  assert (copy_matches sf sb df db = true) as Em by (unfold copy_matches; by rewrite Ef, Eb).
  apply safe_conseq with (H' := copied k component nm) (R' := λ _ _, True); [|..|done].
  2: { intros h (q & a & Hq & <- & Hb). exists sf, sb, df, db. split; [done|].
       by exists q, a, dst. }
  assert (stable (copied k component nm)) as HC.
  { intros h h' (? & ? & ? & ? & ? & Hi). do 4 eexists. split; [done|].
    by apply stable_inventoried. }
  eapply safe_bind; [by apply print_spec|]. intros [].
  eapply safe_bind; [apply safe_change; [auto|done|]|].
  { intros xs h a _ Hxs Hc. rewrite Hname in Hxs. injection Hxs as <-.
    split; intros a' [= Ea]. done. }
  intros []. eapply safe_conseq; [by apply (print_spec (λ _, True))|done..].
Qed.
End Ordered.

  (** ** Which commands a run gives *)

  (** A lookup, or output. *)
Definition only_reads (k : Kube) (e : event) : Prop :=
    match e with
    | Printed _ => True
    | Slept _ => False
    | Kubectl argv stdin _ => stdin = None ∧ ∃ rest, argv = base k ++ "get" :: rest
    end.

  (** Every command a migration may give; the two pods and the claim are the only objects it
      creates, the two pods and the StatefulSet the only ones it deletes. *)
Inductive permitted (component nm claim : string) : list string → option string → Prop :=
    | p_get rest : permitted component nm claim ("get" :: rest) None
    | p_logs pod : permitted component nm claim ["logs"; pod] None
    | p_pause c : permitted component nm claim (pause_args component c) None
    | p_unpause c : permitted component nm claim (unpause_args component c) None
    | p_scale : permitted component nm claim (scale_args nm) None
    | p_delete_pod s rest :
        s = nm +:+ "-migrate-probe" ∨ s = nm +:+ "-migrate-copy" →
        rest = ["--ignore-not-found"; "--wait=true"] ∨ rest = ["--wait=true"] →
        permitted component nm claim ("delete" :: "pod" :: s :: rest) None
    | p_apply_pod s node image vs ms script :
        s = nm +:+ "-migrate-probe" ∨ s = nm +:+ "-migrate-copy" →
        permitted component nm claim ["apply"; "-f"; "-"]
          (Some (json_dumps (helper_pod s node image vs ms script)))
    | p_apply_claim size sc :
        permitted component nm claim ["apply"; "-f"; "-"]
          (Some (json_dumps (claim_doc claim size sc)))
    | p_delete_sts : permitted component nm claim (delete_args nm) None.

Definition permitted_event (k : Kube) (component nm claim : string) (e : event) : Prop :=
    match e with
    | Kubectl argv stdin _ => ∃ args, argv = base k ++ args ∧ permitted component nm claim args stdin
    | Printed _ => True
    | Slept s => s = WAIT_STEP ∨ s = RESYNC_GUARD
    end.

Ltac emit :=
  lazymatch goal with
  | |- emits _ (lift _ ≫= _) => apply emits_lift_bind; intros
  | |- emits _ (_ ≫= _) => apply emits_bind; [|intros]
  | |- emits _ (lift _) => apply emits_lift
  | |- emits _ (mret _) => apply emits_ret
  | |- emits _ (refuse _) => apply emits_refuse
  | |- emits _ (fail _) => apply emits_fail
  | |- emits _ (print _) => apply emits_print
  | |- emits _ (kube_get _ _) => apply emits_get; intros
  | |- emits _ (change _ _ _ _) => apply emits_change; intros
  | |- emits _ (run _ _ _ _) => apply emits_run; intros
  | |- emits _ (wait_for _ _ _) => apply emits_wait_for
  | |- emits _ (do_sleep _) => apply emits_sleep
  | |- emits _ (rewrap _ _) => apply emits_rewrap
  | |- emits _ (if ?b then _ else _) => destruct b eqn:?
  | |- emits _ (match ?x with Some _ => _ | None => _ end) => destruct x
  end.

Lemma emits_mono (φ ψ : event → Prop) {A} (m : M A) :
    (∀ e, φ e → ψ e) → emits φ m → emits ψ m.
Proof. intros Hi Hm w. eapply Forall_impl; [apply Hm|done]. Qed.

Lemma only_reads_get k xs a : only_reads k (Kubectl (base k ++ "get" :: xs) None a).
Proof. split; eauto. Qed.
Hint Resolve only_reads_get : core.

Lemma composition_reads k component : emits (only_reads k) (composition k component).
Proof. unfold composition. repeat emit; auto. Qed.

Lemma prepare_checks_reads k component entry :
    emits (only_reads k) (prepare_checks k component entry).
Proof. unfold prepare_checks. repeat (apply composition_reads || emit); auto. all: done. Qed.

Lemma prepare_plan_reads k component entry sc size :
    apply k = false → emits (only_reads k) (prepare k component entry sc size).
Proof.
  intros E. apply emits_bind; [apply prepare_checks_reads|]. intros [p|]; [|emit].
  apply emits_bind.
  - unfold prepare_stop. repeat emit; try done; congruence.
  - intros []. rewrite E. repeat emit; done.
Qed.

Lemma finish_plan_reads k component entry version :
    apply k = false → emits (only_reads k) (finish k component entry version).
Proof.
  intros E. unfold finish. rewrite E. repeat (apply composition_reads || emit); auto;
    try done; congruence.
Qed.

Lemma main_plan_reads listing values a :
    a_apply a = false →
    emits (only_reads {| context := a_context a; namespace := a_namespace a; apply := false |})
      (main listing values a).
Proof.
  intros E. unfold main, entry_for. rewrite E. apply emits_bind; [repeat emit|]. intros e.
  apply emits_bind; [repeat emit|]. intros size.
  destruct (a_phase a); [by apply prepare_plan_reads|by apply finish_plan_reads].
Qed.

  (** Every value [m] returns satisfies [P]. *)
Definition yields {A} (m : M A) (P : A → Prop) : Prop := ∀ w a, (m w).1.1 = Ret a → P a.

Lemma yields_bind {A B} (m : M A) (f : A → M B) P :
    (∀ a, yields (f a) P) → yields (m ≫= f) P.
Proof.
  intros Hf w b. unfold mbind, M_bind. destruct (m w) as [[[a|e] es] w1]; [|done].
  specialize (Hf a w1 b). by destruct (f a w1) as [[o es'] w2].
Qed.
Lemma yields_lift {A B} (r : res A) (f : A → M B) P :
    (∀ a, r = Ok a → yields (f a) P) → yields (lift r ≫= f) P.
Proof.
  destruct r as [a|e]; intros Hf w b; [|done]. unfold mbind, M_bind. simpl.
  specialize (Hf a eq_refl w b). by destruct (f a w) as [[o es'] w2].
Qed.
Lemma yields_ret {A} (a : A) (P : A → Prop) : P a → yields (mret a) P.
Proof. by intros H w b [= <-]. Qed.
Lemma yields_fail {A} e (P : A → Prop) : yields (fail e) P.
Proof. done. Qed.

Lemma emits_bind_yields φ {A B} (m : M A) (f : A → M B) P :
    emits φ m → yields m P → (∀ a, P a → emits φ (f a)) → emits φ (m ≫= f).
Proof.
  intros Hm Hy Hf w. specialize (Hm w). specialize (Hy w). unfold mbind, M_bind.
  destruct (m w) as [[[a|e] es] w1]; [|done].
  specialize (Hf a (Hy a eq_refl) w1). destruct (f a w1) as [[o es'] w2]. simpl in *.
  by apply Forall_app.
Qed.

Ltac yield :=
  lazymatch goal with
  | |- yields (lift _ ≫= _) _ => apply yields_lift; intros ? _
  | |- yields (_ ≫= _) _ => apply yields_bind; intros ?
  | |- yields (refuse _) _ => apply yields_fail
  | |- yields (mret _) _ => apply yields_ret
  | |- yields (if ?b then _ else _) _ => destruct b
  end.

Section Permitted.
    Context (k : Kube) (component nm volume : string).
    Notation claim_name := (volume +:+ "-" +:+ nm +:+ "-0").
    Notation okc := (permitted_event k component nm claim_name).

Lemma okc_intro args stdin a :
      permitted component nm claim_name args stdin → okc (Kubectl (base k ++ args) stdin a).
Proof. exists args. done. Qed.

Lemma reads_permitted e : only_reads k e → okc e.
Proof.
  destruct e; simpl; [|done|done]. intros [-> [rest ->]]. exists ("get" :: rest).
  split; [done|constructor].
Qed.

Lemma kube_get_permitted args : emits okc (kube_get k args).
Proof. emit. apply okc_intro. constructor. Qed.

Lemma pod_done_permitted n : emits okc (pod_done k n).
Proof. unfold pod_done. repeat (apply kube_get_permitted || emit). Qed.

Lemma change_permitted d args xs stdin :
      mapM as_str args = Ok xs → permitted component nm claim_name xs stdin →
      emits okc (change k d args stdin).
Proof. intros Hxs Hp. emit; [done|]. assert (xs0 = xs) as -> by congruence. by apply okc_intro. Qed.

Lemma run_helper_permitted s node image vs ms script t :
      s = nm +:+ "-migrate-probe" ∨ s = nm +:+ "-migrate-copy" →
      emits okc (run_helper k (helper_pod s node image vs ms script) t).
Proof.
  intros Hs. pose proof (helper_pod_name s node image vs ms script) as Hn.
  pose proof (p_apply_pod component nm claim_name s node image vs ms script Hs) as Hp.
  revert Hn Hp. generalize (helper_pod s node image vs ms script) as pod. intros pod Hn Hp.
  apply bind_Ok in Hn as (md & Hmd & Hn). unfold run_helper.
  apply emits_lift_bind. intros md' Hmd'. apply emits_lift_bind. intros n Hn'.
  assert (n = VStr s) as -> by congruence.
  repeat (apply kube_get_permitted || apply pod_done_permitted || emit);
    try (left; done); apply okc_intro;
    repeat match goal with H : mapM _ _ = Ok _ |- _ => injection H as <- end.
  - apply p_delete_pod; auto.
  - done.
  - constructor.
  - apply p_delete_pod; auto.
Qed.

Ltac emit_ok := repeat (apply kube_get_permitted || emit); try done.

Lemma annotate_permitted d c suffix tail :
      (∀ c, permitted component nm claim_name
        (["annotate"; resource component; c; PAUSE_ANNOTATION +:+ suffix] ++ tail) None) →
      emits okc (change k d
        (str["annotate"; resource component; c; PAUSE_ANNOTATION +:+ suffix] ++ (VStr <$> tail))
        None).
Proof.
  intros Hp. destruct (as_str c) as [cs|e] eqn:Ec.
  - eapply change_permitted; [|apply (Hp cs)]. apply mapM_Ok_Forall2. clear Hp.
    do 4 (constructor; [done|]). induction tail; constructor; done.
  - emit; [done|]. apply mapM_as_str_cons in H0 as (ys & H0 & ->).
    apply mapM_as_str_cons in H0 as (zs & H0 & ->). apply bind_Ok in H0 as (y & H0 & _).
    congruence.
Qed.

Lemma prepare_stop_permitted p : name p = VStr nm → emits okc (prepare_stop k component p).
Proof.
  intros Hn. unfold prepare_stop. rewrite Hn. emit. emit.
  { destruct a; [emit|]. emit. emit. apply (annotate_permitted _ _ "=true" ["--overwrite"]).
    constructor. }
  emit; [eapply change_permitted; [done|constructor]|]. emit_ok.
  - by left.
  - simpl. by right.
Qed.

    (** What the checks fix: the names the entry gives. *)
Lemma prepare_checks_names entry :
      getitem entry "statefulset" = Ok (VStr nm) → getitem entry "volume" = Ok (VStr volume) →
      yields (prepare_checks k component entry)
        (λ o, ∀ p, o = Some p → name p = VStr nm ∧ claim p = claim_name).
Proof.
  intros Hn Hv. unfold prepare_checks. rewrite Hn, Hv.
  apply yields_lift. intros ? [= <-]. apply yields_lift. intros ? [= <-].
  apply yields_lift. intros c Hc. assert (c = claim_name) as -> by by injection Hc.
  repeat yield; intros p [= <-]; done.
Qed.

Lemma prepare_permitted entry sc size :
      getitem entry "statefulset" = Ok (VStr nm) → getitem entry "volume" = Ok (VStr volume) →
      emits okc (prepare k component entry sc size).
Proof.
  intros Hn Hv. eapply emits_bind_yields; [|by apply prepare_checks_names|].
  { eapply emits_mono; [apply reads_permitted|apply prepare_checks_reads]. }
  intros [p|] Hp; [|emit]. destruct (Hp p eq_refl) as [Hname Hclaim].
  emit; [by apply prepare_stop_permitted|]. emit. emit; [emit_ok|].
  match goal with H : probe_pod p = Ok ?q |- _ =>
    unfold probe_pod in H; rewrite Hname in H; apply bind_Ok in H as (s & [= <-] & H);
    apply bind_Ok in H as (sh & _ & [= <-]) end.
  emit. { unfold count_source. emit. emit; [|emit]. apply run_helper_permitted. by left. }
  emit. emit. emit; [emit_ok|]. emit.
  { unfold make_claim. rewrite Hclaim. emit; [apply kube_get_permitted|]. emit; [|emit].
    eapply change_permitted; [done|apply p_apply_claim]. }
  emit. match goal with H : copy_pod p = Ok ?q |- _ =>
    unfold copy_pod in H; rewrite Hname in H; apply bind_Ok in H as (s & [= <-] & [= <-]) end.
  emit; [emit_ok|]. emit; [apply run_helper_permitted; by right|].
  repeat emit; try done. rewrite Hname in *.
  match goal with H : mapM _ _ = Ok _ |- _ => injection H as <- end.
  apply okc_intro. constructor.
Qed.

Lemma finish_permitted entry version :
      getitem entry "statefulset" = Ok (VStr nm) → getitem entry "volume" = Ok (VStr volume) →
      emits okc (finish k component entry version).
Proof.
  intros Hn Hv. unfold finish. rewrite Hn, Hv. emit. emit. emit. emit.
  { eapply emits_mono; [apply reads_permitted|apply composition_reads]. }
  emit; [emit_ok|]. emit; [emit_ok|]. emit; [emit_ok|]. emit; [emit_ok|].
  do 3 emit. emit; [emit_ok|]. emit. emit.
  { emit; [|emit]. emit. apply (annotate_permitted _ _ "-" []). constructor. }
  emit; [emit_ok|]. emit. emit; [|emit_ok].
  emit; [by left|emit_ok].
Qed.
End Permitted.

Lemma main_permitted_aux listing values a es entry nm volume :
    get_iter (or_ listing (VDict [])) "durable" = Ok es →
    entry_in es (a_component a) = Ok (Some entry) →
    getitem entry "statefulset" = Ok (VStr nm) → getitem entry "volume" = Ok (VStr volume) →
    emits (permitted_event
             {| context := a_context a; namespace := a_namespace a; apply := a_apply a |}
             (a_component a) nm (volume +:+ "-" +:+ nm +:+ "-0"))
      (main listing values a).
Proof.
  intros Hes He Hn Hv. unfold main, entry_for. rewrite Hes.
  eapply emits_bind_yields with (P := λ e, e = entry); [repeat emit| |].
  { apply yields_lift. intros ? [= <-]. apply yields_lift. rewrite He. intros ? [= <-].
    by apply yields_ret. }
  intros ? ->. emit; [repeat emit|].
  destruct (a_phase a); [by apply prepare_permitted|by apply finish_permitted].
Qed.

  (** ** finish *)

Section Finish.
    Context (k : Kube) (component nm volume version : string).
    Notation claim_name := (volume +:+ "-" +:+ nm +:+ "-0").
    Notation want := ("v" +:+ replace_char "." "-" version).

Definition labelled (c : val) : Prop :=
      ∃ md labels, getitem c "metadata" = Ok md ∧ get_dict md "labels" = Ok labels ∧
        get labels "krateo.io/composition-version" = Ok (VStr want).

    (** The Composition was read at the wanted version, then the claim was seen. *)
Definition upgraded (h : list event) : Prop :=
      ∃ doc c pvc, sole_item doc c ∧ labelled c ∧ is_none pvc = false ∧
        got k (got k (λ _, True) [resource component] doc) ["pvc"; claim_name] pvc h.

Definition unpause_ok (h : list event) (e : event) : Prop :=
      ∀ c a, e = Kubectl (base k ++ unpause_args component c) None a → upgraded h.

Lemma stable_upgraded : stable upgraded.
Proof.
  intros h h' (doc & c & pvc & ? & ? & ? & ?). exists doc, c, pvc.
  split_and!; [done..|by apply stable_got].
Qed.

Lemma unpause_ok_get xs h a : unpause_ok h (Kubectl (base k ++ "get" :: xs) None a).
Proof. intros c b [=]. Qed.
Lemma unpause_ok_print h l : unpause_ok h (Printed l).
Proof. intros c b [=]. Qed.
Lemma unpause_ok_sleep h s : unpause_ok h (Slept s).
Proof. intros c b [=]. Qed.
Hint Resolve unpause_ok_get unpause_ok_print unpause_ok_sleep stable_upgraded : core.

Lemma finish_safe entry :
      getitem entry "statefulset" = Ok (VStr nm) → getitem entry "volume" = Ok (VStr volume) →
      safe unpause_ok (λ _, True) (finish k component entry version)
        (λ _ h, apply k = true → ∃ p, pod_ready claim_name p = Ok true ∧
          got k upgraded ["pod"; nm +:+ "-0"] p h).
Proof.
  intros Hn Hv. unfold finish. rewrite Hn, Hv.
  apply safe_lift. intros ? [= <-]. apply safe_lift. intros ? [= <-].
  apply safe_lift. intros ? [= <-].
  eapply safe_bind; [apply safe_composition; auto|].
  intros c. apply safe_exists. intros doc.
  eapply safe_pre; [by intros h [Hs _]; exact Hs|]. intros Hs.
  eapply safe_bind.
  { eapply safe_conseq with (H' := got k (λ _, True) [resource component] doc);
      [apply safe_get; auto|by intros h []|done]. }
  intros pvc. destruct (is_none pvc) eqn:Ep; [apply safe_fail|].
  set (H1 := got k (got k (λ _, True) [resource component] doc) ["pvc"; claim_name] pvc).
  apply safe_conseq with (H' := H1) (R' := λ _ h, apply k = true → ∃ p,
    pod_ready claim_name p = Ok true ∧ got k upgraded ["pod"; nm +:+ "-0"] p h);
    [|by intros h (xs & [= <-] & Hg)|done].
  assert (stable H1) as HS1 by apply stable_got.
  eapply safe_bind; [by apply safe_get_keep; auto|]. intros sts.
  eapply safe_bind with (R := λ _, H1).
  { destruct (is_none sts); [by apply safe_ret|].
    eapply safe_bind; [by apply safe_get_keep; auto|]. intros sts2. apply safe_lift.
    intros ts _. destruct (py_in _ _); [by apply safe_ret|apply safe_fail]. }
  intros []. apply safe_lift. intros md Hmd. apply safe_lift. intros labels Hlabels.
  apply safe_lift. intros at_ Hat.
  destruct (eq_str at_ want) eqn:Ew; cbn [negb]; [|apply safe_lift; intros; apply safe_fail].
  apply eq_str_spec in Ew as ->.
  assert (∀ h, H1 h → upgraded h) as Hup.
  { intros h Hh. exists doc, c, pvc. split_and!; [done| |done|done]. by exists md, labels. }
  apply safe_lift. intros b _.
  eapply safe_bind with (R := λ _, upgraded).
  { destruct b; [|by apply safe_ret]. apply safe_lift. intros cn _.
    eapply safe_conseq; [apply safe_change; [auto|exact HS1|]|done|].
    - intros xs h a _ _ Hh c' a' _. auto.
    - intros _ h [Hh _]. auto. }
  intros []. destruct (apply k); cbn [negb].
  2: { eapply safe_conseq; [apply (safe_print _ unpause_ok_print (λ _, True)); done|done..]. }
  apply safe_lift. intros ? [= <-].
  eapply safe_bind.
  { apply safe_wait_for with (G := λ h, ∃ p, pod_ready claim_name p = Ok true ∧
      got k upgraded ["pod"; nm +:+ "-0"] p h); auto.
    eapply safe_bind; [apply safe_get; auto|]. intros p. apply safe_lift_end.
    intros r h Hr (xs & [= <-] & Hg). split; [by eapply got_stable|].
    intros ->. exists p. split; [done|]. exact Hg. }
  intros []. eapply safe_conseq; [apply (safe_print _ unpause_ok_print)| |].
  2: { intros h Hh. exact Hh. }
  - intros h h' (Hu & p & Hp & Hg). split; [by apply stable_upgraded|]. exists p.
    split; [done|by apply stable_got].
  - intros _ h (_ & Hp) _. exact Hp.
Qed.
End Finish.


  (** ** Termination *)

Section Terminates.
    Context (clock : W → Z).
    Hypothesis clock_now : ∀ w, (clock w <= (now w).1 <= clock (now w).2)%Z.
    Hypothesis clock_kubectl : ∀ argv stdin w, (clock w <= clock (kubectl argv stdin w).2)%Z.
    Hypothesis clock_sleep : ∀ s w, (clock w + s * microseconds <= clock (sleep s w))%Z.

    (** [m] ends before the fuel does, and time does not run backwards. *)
Definition ends {A} (m : M A) : Prop :=
      ∀ w, (m w).1.1 ≠ Fail OutOfFuel ∧ (clock w <= clock (m w).2)%Z.

Lemma ends_bind {A B} (m : M A) (f : A → M B) : ends m → (∀ a, ends (f a)) → ends (m ≫= f).
Proof.
  intros Hm Hf w. destruct (Hm w) as [H1 H2]. unfold mbind, M_bind.
  destruct (m w) as [[[a|e] es] w1]; simpl in *; [|split; [congruence|done]].
  destruct (Hf a w1) as [H3 H4]. destruct (f a w1) as [[o es'] w2]. simpl in *.
  split; [done|lia].
Qed.
Lemma ends_ret {A} (a : A) : ends (mret a).
Proof. intros w. split; [done|simpl; lia]. Qed.
Lemma ends_refuse {A} r : ends (@refuse A r).
Proof. intros w. split; [done|simpl; lia]. Qed.
Lemma ends_lift {A} (r : res A) : ends (lift r).
Proof. intros w. destruct r; (split; [done|simpl; lia]). Qed.
Lemma ends_print l : ends (print l).
Proof. intros w. split; [done|simpl; lia]. Qed.
Lemma ends_sleep s : (0 <= s)%Z → ends (do_sleep s).
Proof.
  intros Hs w. split; [done|]. simpl. specialize (clock_sleep s w).
  unfold microseconds in *. lia.
Qed.
Lemma ends_exec argv stdin : ends (exec argv stdin).
Proof.
  intros w. unfold exec. specialize (clock_kubectl argv stdin w).
  by destruct (kubectl argv stdin w).
Qed.
Lemma ends_rewrap {A} f (m : M A) : ends m → ends (rewrap f m).
Proof.
  intros Hm w. specialize (Hm w). unfold rewrap.
  destruct (m w) as [[[a|[]] es] w']; simpl in *; naive_solver.
Qed.

Ltac fin :=
  lazymatch goal with
  | |- ends (_ ≫= _) => apply ends_bind; [|intros]
  | |- ends (lift _) => apply ends_lift
  | |- ends (mret _) => apply ends_ret
  | |- ends (refuse _) => apply ends_refuse
  | |- ends (print _) => apply ends_print
  | |- ends (exec _ _) => apply ends_exec
  | |- ends (rewrap _ _) => apply ends_rewrap
  | |- ends (if ?b then _ else _) => destruct b
  | |- ends (match ?x with Some _ => _ | None => _ end) => destruct x
  end.

Lemma ends_run k args stdin check : ends (run k args stdin check).
Proof. unfold run. repeat fin. Qed.
Lemma ends_get k args : ends (kube_get k args).
Proof. unfold kube_get. repeat (apply ends_run || fin). Qed.
Lemma ends_change k d args stdin : ends (change k d args stdin).
Proof. unfold change. repeat (apply ends_run || fin). Qed.

Lemma wait_loop_ends n d p t deadline :
      ends p → ∀ w, (deadline - clock w <= Z.of_nat n * (WAIT_STEP * microseconds))%Z →
      (wait_loop (S n) d p t deadline w).1.1 ≠ Fail OutOfFuel ∧
      (clock w <= clock (wait_loop (S n) d p t deadline w).2)%Z.
Proof.
  intros Hp. induction n as [|n IH]; intros w Hw.
  - cbn [wait_loop]. unfold mbind, M_bind, get_time. pose proof (clock_now w) as Hc.
    destruct (now w) as [t1 w1]. simpl in *. destruct (Z.ltb_spec t1 deadline); [lia|].
    simpl. split; [done|lia].
  - remember (S n) as m eqn:Em. cbn [wait_loop]. unfold mbind, M_bind, get_time.
    pose proof (clock_now w) as Hc. destruct (now w) as [t1 w1]. cbn [fst snd] in *.
    destruct (Z.ltb_spec t1 deadline); [|simpl; split; [done|lia]].
    destruct (Hp w1) as [H1 H2]. destruct (p w1) as [[[[]|e] es] w2]; cbn [fst snd] in *.
    + simpl. split; [done|lia].
    + unfold do_sleep. pose proof (clock_sleep WAIT_STEP w2) as Hsl.
      destruct (IH (sleep WAIT_STEP w2)) as [H3 H4]; [lia|].
      destruct (wait_loop m d p t deadline (sleep WAIT_STEP w2)) as [[o es'] w3].
      cbn [fst snd] in *. unfold WAIT_STEP, microseconds in *. split; [done|lia].
    + split; [congruence|lia].
Qed.

Lemma ends_wait_for d p t :
      ends p → (0 < fuel)%nat → (t <= (Z.of_nat fuel - 1) * WAIT_STEP)%Z → ends (wait_for d p t).
Proof.
  intros Hp H0 Ht w. destruct fuel as [|n] eqn:Ef; [lia|].
  unfold wait_for, mbind, M_bind, get_time. rewrite Ef.
  pose proof (clock_now w) as Hc. destruct (now w) as [t0 w1]. cbn [fst snd] in *.
  destruct (wait_loop_ends n d p t (t0 + t * microseconds) Hp w1) as [H1 H2].
  { unfold WAIT_STEP, microseconds in *. lia. }
  destruct (wait_loop (S n) d p t (t0 + t * microseconds) w1) as [[o es] w2].
  cbn [fst snd] in *. split; [done|lia].
Qed.

    (** 361 iterations cover the longest wait, 1800 seconds. *)
    Hypothesis enough : (361 <= fuel)%nat.

Ltac fins := repeat (apply ends_run || apply ends_get || apply ends_change || fin).

Lemma ends_wait d p t : ends p → (t <= 1800)%Z → ends (wait_for d p t).
Proof. intros Hp Ht. apply ends_wait_for; [done|lia|unfold WAIT_STEP; lia]. Qed.

Lemma ends_run_helper k pod t : (t <= 1800)%Z → ends (run_helper k pod t).
Proof.
  intros Ht. unfold run_helper, pod_done. fins. apply ends_wait; [fins|done].
Qed.

Lemma ends_composition k component : ends (composition k component).
Proof. unfold composition. fins. Qed.

Lemma ends_prepare k component entry sc size : ends (prepare k component entry sc size).
Proof.
  apply ends_bind.
  { unfold prepare_checks. repeat (apply ends_composition || apply ends_get || fin). }
  intros [p|]; [|fin]. apply ends_bind.
  { unfold prepare_stop. fins; [apply ends_wait; [fins|lia]|by apply ends_sleep]. }
  intros []. unfold count_source, make_claim, COPY_POD_TIMEOUT.
  repeat (fin || apply ends_get || apply ends_change || apply ends_run_helper); lia.
Qed.

Lemma ends_finish k component entry version : ends (finish k component entry version).
Proof.
  unfold finish. repeat (apply ends_composition || apply ends_get || apply ends_change || fin).
  apply ends_wait; [fins|lia].
Qed.

Lemma ends_main listing values a : ends (main listing values a).
Proof.
  unfold main, entry_for. repeat fin; destruct (a_phase a);
    try apply ends_prepare; apply ends_finish.
Qed.
End Terminates.

  (** ** The claims *)

  (** C10: Under every cluster, [prepare] scales the StatefulSet only when the Composition was
      read paused or has just been paused, and deletes it only after it was read at 0 replicas
      past the resync guard, a probe pod then succeeded on the node path, a copy pod then
      succeeded, and the two inventories their logs print agree up to lost+found. *)
Theorem prepare_in_order k component nm entry sc size w pre e post :
    getitem entry "statefulset" = Ok (VStr nm) →
    (prepare k component entry sc size w).1.2 = pre ++ e :: post →
    in_order k component nm pre e.
Proof.
  intros Hn. destruct (prepare_ordered k component nm entry sc size Hn [] w I) as [H _].
  apply H.
Qed.

  (** C24: Every command of a run, with the context and namespace it was told to use, is a
      lookup, a log, the pause or unpause of the component's Composition, the scale to 0 or the
      deletion of the entry's StatefulSet, or concerns the two helper pods and the claim, which
      is never deleted. *)
Theorem main_only_permitted listing values a es entry nm volume w :
    get_iter (or_ listing (VDict [])) "durable" = Ok es →
    entry_in es (a_component a) = Ok (Some entry) →
    getitem entry "statefulset" = Ok (VStr nm) → getitem entry "volume" = Ok (VStr volume) →
    Forall (permitted_event
             {| context := a_context a; namespace := a_namespace a; apply := a_apply a |}
             (a_component a) nm (volume +:+ "-" +:+ nm +:+ "-0"))
      (main listing values a w).1.2.
Proof. intros. by eapply main_permitted_aux. Qed.

  (** Without [--apply] a run only looks things up and prints: it never changes the
      cluster and never waits. *)
Theorem plan_only_reads listing values a w :
    a_apply a = false →
    Forall (only_reads {| context := a_context a; namespace := a_namespace a; apply := false |})
      (main listing values a w).1.2.
Proof. intros. by apply main_plan_reads. Qed.

  (** C25: When the checks of [prepare] refuse, raise or find nothing to migrate, that is the
      outcome of [prepare], and even under [--apply] it has only looked things up. *)
Theorem refused_unchanged k component entry sc size w :
    (∀ p, (prepare_checks k component entry w).1.1 ≠ Ret (Some p)) →
    Forall (only_reads k) (prepare k component entry sc size w).1.2 ∧
    (prepare k component entry sc size w).1.1 =
      match (prepare_checks k component entry w).1.1 with
      | Fail f => Fail f
      | Ret _ => Ret ()
      end.
Proof.
  intros Hp. pose proof (prepare_checks_reads k component entry w) as Hr.
  unfold prepare, mbind, M_bind.
  destruct (prepare_checks k component entry w) as [[[[p|]|f] es] w1]; simpl in *.
  - by destruct (Hp p).
  - by rewrite app_nil_r.
  - done.
Qed.

  (** C26: [finish] unpauses the Composition only after it was read with the label of the wanted
      version and the claim was seen, and under [--apply] it succeeds only if, after that, the
      pod was read Ready with the claim mounted. *)
Theorem finish_upgrades k component nm volume version entry w :
    getitem entry "statefulset" = Ok (VStr nm) → getitem entry "volume" = Ok (VStr volume) →
    (∀ pre e post, (finish k component entry version w).1.2 = pre ++ e :: post →
       unpause_ok k component nm volume version pre e) ∧
    ((finish k component entry version w).1.1 = Ret () → apply k = true →
       ∃ p, pod_ready (volume +:+ "-" +:+ nm +:+ "-0") p = Ok true ∧
         got k (upgraded k component nm volume version) ["pod"; nm +:+ "-0"] p
           (finish k component entry version w).1.2).
Proof.
  intros Hn Hv. destruct (finish_safe k component nm volume version entry Hn Hv [] w I) as [H1 H2].
  split; [apply H1|]. intros Hr. apply (H2 () Hr).
Qed.

  (** C27: A run ends: when the clock keeps up with the sleeps, no wait of [main] needs more than
      361 iterations. *)
Theorem main_ends listing values a w (clock : W → Z) :
    (∀ w, (clock w <= (now w).1 <= clock (now w).2)%Z) →
    (∀ argv stdin w, (clock w <= clock (kubectl argv stdin w).2)%Z) →
    (∀ s w, (clock w + s * microseconds <= clock (sleep s w))%Z) →
    (361 <= fuel)%nat →
    (main listing values a w).1.1 ≠ Fail OutOfFuel.
Proof. intros H1 H2 H3 H4. by apply (ends_main clock H1 H2 H3 H4). Qed.
End Run.

(** What [inventory] prints for [files] entries and [bytes] bytes. *)
Definition report (prefix : string) (files bytes : Z) : string :=
  prefix +:+ "files=" +:+ str_of_Z files +:+ newline +:+
  prefix +:+ "bytes=" +:+ str_of_Z bytes +:+ newline.

(** A prefix that can stand at the head of a line. *)
Definition plain (prefix : string) : bool :=
  all_chars (λ c, negb (is_linebreak c)) prefix.

Lemma drop_app p s : drop (String.length p) (p +:+ s) = s.
Proof.
  unfold drop. assert (String.length (p +:+ s) - String.length p = String.length s)%nat as ->.
  { induction p as [|c p IH]; simpl; [lia|done]. }
  induction p as [|c p IH]; simpl; [|done]. induction s as [|c s IH]; simpl; [done|].
  by rewrite IH.
Qed.

Lemma parse_line prefix key n rest acc :
  all_chars (λ d, negb (Ascii.eqb "=" d)) key = true → (0 <= n)%Z →
  foldM (λ acc line,
    if startswith prefix line then
      let '(k, _, v) := partition_at "=" (drop (String.length prefix) line) in
      let* n := py_int (strip v) in
      Ok (dict_set k n acc)
    else Ok acc) acc ((prefix +:+ key +:+ String "=" (str_of_Z n)) :: rest)
  = foldM (λ acc line,
    if startswith prefix line then
      let '(k, _, v) := partition_at "=" (drop (String.length prefix) line) in
      let* n := py_int (strip v) in
      Ok (dict_set k n acc)
    else Ok acc) (dict_set key n acc) rest.
Proof.
  intros Hk Hn. cbn [foldM]. rewrite startswith_app, drop_app, partition_at_app by done.
  rewrite strip_id by by apply str_of_nat_chars. by rewrite py_int_str_of_Z by done.
Qed.

(** [parse_inventory] reads back the counts the inventory of a directory prints, for every
    count. *)
Theorem inventory_roundtrip prefix files bytes :
  plain prefix = true → (0 <= files)%Z → (0 <= bytes)%Z →
  parse_inventory (report prefix files bytes) prefix = Ok [("files", files); ("bytes", bytes)].
Proof.
  intros Hp Hf Hb. unfold parse_inventory, report.
  assert (∀ n, (0 <= n)%Z → all_chars (λ c, negb (is_linebreak c)) (str_of_Z n) = true) as Hd
    by (intros; by apply str_of_nat_chars).
  assert (∀ key n s, (0 <= n)%Z → all_chars (λ c, negb (is_linebreak c)) key = true →
    splitlines (prefix +:+ key +:+ str_of_Z n +:+ newline +:+ s)
    = (prefix +:+ key +:+ str_of_Z n) :: splitlines s) as Hl.
  { intros key n s Hn Hk. rewrite <- !append_assoc. rewrite (append_assoc _ newline s).
    rewrite splitlines_line; [done|]. rewrite !all_chars_app, Hk, Hd by done.
    by unfold plain in Hp; rewrite Hp. }
  rewrite Hl by done. rewrite <- (append_nil_r newline) at 1. rewrite Hl by done.
  rewrite (parse_line prefix "files" files), (parse_line prefix "bytes" bytes); done.
Qed.

(** ** A recorded migration

    A cluster that plays back answers, with a clock that only sleeping moves. *)
Module Demo.
Definition answer : Type := Z * string * string.
Definition world : Type := list answer * Z.
Definition kubectl (argv : list string) (stdin : option string) (w : world) : answer * world :=
  match w with
  | (a :: l, t) => (a, (l, t))
  | ([], t) => ((1, "", "NotFound")%Z, ([], t))
  end.
Definition now (w : world) : Z * world := (w.2, w).
Definition sleep (s : Z) (w : world) : world := (w.1, (w.2 + s * microseconds)%Z).

Definition done_ : answer := (0%Z, "", "").
Definition missing : answer := (1%Z, "", "Error from server (NotFound)").
Definition json (v : val) : answer := (0%Z, json_dumps v, "").
Definition log (s : string) : answer := (0%Z, s, "").

Definition entry : val :=
  VDict [("component", VStr "mariadb"); ("statefulset", VStr "mariadb-server");
         ("volume", VStr "mysql-data")].
Definition listing : val := VDict [("durable", VList [entry])].

Definition compositions (labels annotations : list (string * val)) : val :=
  VDict [("items", VList [VDict [("metadata", VDict [("name", VStr "db");
    ("labels", VDict labels); ("annotations", VDict annotations)])]])].
Definition old_sts (replicas : Z) : val :=
  VDict [("spec", VDict [("replicas", VInt replicas);
    ("template", VDict [("spec", VDict [
      ("containers", VList [VDict [("image", VStr "mariadb:11")]]);
      ("volumes", VList [VDict [("name", VStr "mysql-data");
        ("hostPath", VDict [("path", VStr "/tmp/mysql-data")])]])])])])].
Definition pod_on_node : val := VDict [("spec", VDict [("nodeName", VStr "worker-1")])].
Definition pod_succeeded : val := VDict [("status", VDict [("phase", VStr "Succeeded")])].
Definition ready_pod : val :=
  VDict [("spec", VDict [("volumes", VList [VDict [("persistentVolumeClaim",
           VDict [("claimName", VStr "mysql-data-mariadb-server-0")])]])]);
         ("status", VDict [("conditions", VList [
           VDict [("type", VStr "Ready"); ("status", VStr "True")]])])].

(** prepare: the copy has one entry more, its file system's lost+found. *)
Definition prepare_world : world :=
  ([json (compositions [] []); json (old_sts 1); json pod_on_node;
    done_; done_; missing; json (old_sts 0);
    done_; done_; json pod_succeeded; json pod_succeeded; log (report "src." 3 70); done_;
    missing; done_;
    done_; done_; json pod_succeeded; json pod_succeeded; log (report "dst." 4 70); done_;
    done_], 0%Z).
(** finish, at the wanted version. *)
Definition finish_world : world :=
  ([json (compositions [("krateo.io/composition-version", VStr "v0-3-36")]
            [(PAUSE_ANNOTATION, VStr "true")]);
    json (VDict []); missing; done_; json (VDict []); json ready_pod], 0%Z).
(** A StatefulSet with two replicas. *)
Definition refused_world : world := ([json (compositions [] []); json (old_sts 2)], 0%Z).

Definition arguments (ph : phase) (ap : bool) : args :=
  {| a_phase := ph; a_context := "kind"; a_namespace := "openstack"; a_component := "mariadb";
     a_storage_class := ""; a_size := "10Gi"; a_version := "0.3.36"; a_apply := ap |}.
Definition kube (ap : bool) : Kube :=
  {| context := "kind"; namespace := "openstack"; apply := ap |}.

Definition prepare_run := prepare kubectl now sleep 361 (kube true) "mariadb" entry "" (VStr "10Gi").
Definition finish_run := finish kubectl now sleep 361 (kube true) "mariadb" entry "0.3.36".
Definition main_run (ph : phase) (ap : bool) :=
  main kubectl now sleep 361 listing VNone (arguments ph ap).

(** The commands of a run, without the options every command carries. *)
Definition commands (es : list event) : list (list string) :=
  omap (λ e, match e with Kubectl argv _ _ => Some (List.skipn 5 argv) | _ => None end) es.
End Demo.
Import Demo.

Definition prepare_events : list event := (prepare_run prepare_world).1.2.
(** The deletion of the StatefulSet, before the last line printed. *)
Definition deletion : nat := (length prepare_events - 2)%nat.
Definition deleted : event := Kubectl (base (kube true) ++ delete_args "mariadb-server") None done_.

Lemma prepare_in_order_witness :
  prepare_events = firstn deletion prepare_events ++ deleted :: skipn (S deletion) prepare_events ∧
  in_order (kube true) "mariadb" "mariadb-server" (firstn deletion prepare_events) deleted.
Proof.
  assert (prepare_events =
    firstn deletion prepare_events ++ deleted :: skipn (S deletion) prepare_events) as H
    by (vm_compute; reflexivity).
  split; [exact H|].
  exact (prepare_in_order kubectl now sleep 361 (kube true) "mariadb" "mariadb-server" entry ""
    (VStr "10Gi") prepare_world _ _ _ eq_refl H).
Defined.

Lemma main_only_permitted_witness :
  length (commands (main_run Prepare true prepare_world).1.2) = 22%nat ∧
  Forall (permitted_event (kube true) "mariadb" "mariadb-server" "mysql-data-mariadb-server-0")
    (main_run Prepare true prepare_world).1.2.
Proof.
  split; [vm_compute; reflexivity|].
  exact (main_only_permitted kubectl now sleep 361 listing VNone (arguments Prepare true) [entry]
    entry "mariadb-server" "mysql-data" prepare_world eq_refl eq_refl eq_refl eq_refl).
Defined.

Lemma plan_only_reads_witness :
  length (main_run Prepare false prepare_world).1.2 = 10%nat ∧
  Forall (only_reads (kube false)) (main_run Prepare false prepare_world).1.2.
Proof.
  split; [vm_compute; reflexivity|].
  exact (plan_only_reads kubectl now sleep 361 listing VNone (arguments Prepare false)
    prepare_world eq_refl).
Defined.

Lemma refused_unchanged_witness :
  (prepare_run refused_world).1.1 = Fail (Refused (WrongReplicas (VStr "mariadb-server") (VInt 2))) ∧
  Forall (only_reads (kube true)) (prepare_run refused_world).1.2.
Proof.
  split; [vm_compute; reflexivity|].
  refine (proj1 (refused_unchanged kubectl now sleep 361 (kube true) "mariadb" entry ""
    (VStr "10Gi") refused_world _)).
  intros p. vm_compute. congruence.
Defined.

Lemma finish_upgrades_witness :
  (finish_run finish_world).1.1 = Ret () ∧
  ∃ p, pod_ready "mysql-data-mariadb-server-0" p = Ok true ∧
    got (kube true) (upgraded (kube true) "mariadb" "mariadb-server" "mysql-data" "0.3.36")
      ["pod"; "mariadb-server-0"] p (finish_run finish_world).1.2.
Proof.
  assert ((finish_run finish_world).1.1 = Ret ()) as H by (vm_compute; reflexivity).
  split; [exact H|].
  exact (proj2 (finish_upgrades kubectl now sleep 361 (kube true) "mariadb" "mariadb-server"
    "mysql-data" "0.3.36" entry finish_world eq_refl eq_refl) H eq_refl).
Defined.

Lemma main_ends_witness : (main_run Prepare true prepare_world).1.1 ≠ Fail OutOfFuel.
Proof.
  apply (main_ends kubectl now sleep 361 listing VNone (arguments Prepare true) prepare_world snd).
  - intros w. simpl. lia.
  - intros argv stdin [[|a l] t]; simpl; lia.
  - intros s [l t]. simpl. lia.
  - lia.
Defined.

Lemma inventory_roundtrip_witness :
  parse_inventory (report "src." 3 70) "src." = Ok [("files", 3%Z); ("bytes", 70%Z)].
Proof. apply inventory_roundtrip; [reflexivity|lia|lia]. Defined.
End Migrate.
