(* ===== verification/Io.v ===== *)
(** * Effectful programs

    A program that reads and changes a state [S], records what it does as events [E], and
    returns a value or raises an [X]: exceptions keep the changes made before them. *)
From S2P Require Import Prelude.

Inductive outcome (X A : Type) := Ret (a : A) | Exn (x : X).
Arguments Ret {X A} a.
Arguments Exn {X A} x.

Section Io.
  Context {S E X : Type}.

Definition Io (A : Type) : Type := S → outcome X A * list E * S.

#[global] Instance Io_ret : MRet Io := λ A a s, (Ret a, [], s).
#[global] Instance Io_bind : MBind Io := λ A B f m s,
    match m s with
    | (Ret a, es, s1) => let '(o, es', s2) := f a s1 in (o, es ++ es', s2)
    | (Exn x, es, s1) => (Exn x, es, s1)
    end.

Definition raise {A} (x : X) : Io A := λ s, (Exn x, [], s).
Definition tell (e : E) : Io unit := λ s, (Ret (), [e], s).
Definition gets {A} (f : S → A) : Io A := λ s, (Ret (f s), [], s).
Definition modify (f : S → S) : Io unit := λ s, (Ret (), [], f s).
Definition of_option {A} (o : option A) (x : X) : Io A :=
    match o with Some a => mret a | None => raise x end.

  (** [try: m except ... as x: h(x)], where [h] may raise again. *)
Definition try_ {A} (m : Io A) (h : X → Io A) : Io A := λ s,
    match m s with
    | (Exn x, es, s1) => let '(o, es', s2) := h x s1 in (o, es ++ es', s2)
    | r => r
    end.

Fixpoint iterM {A} (f : A → Io unit) (l : list A) : Io unit :=
    match l with [] => mret () | a :: l' => f a ≫= λ _, iterM f l' end.

  (** *** One step of a run *)

Lemma run_bind {A B} (m : Io A) (f : A → Io B) s a es s1 :
    m s = (Ret a, es, s1) →
    (m ≫= f) s = (let '(o, es', s2) := f a s1 in (o, es ++ es', s2)).
Proof. intros H. unfold mbind, Io_bind. by rewrite H. Qed.

Lemma run_bind_pure {A B} (m : Io A) (f : A → Io B) s a s1 :
    m s = (Ret a, [], s1) → (m ≫= f) s = f a s1.
Proof. intros H. rewrite (run_bind _ _ _ _ _ _ H). by destruct (f a s1) as [[o es] s2]. Qed.

Lemma run_bind_exn {A B} (m : Io A) (f : A → Io B) s x es s1 :
    m s = (Exn x, es, s1) → (m ≫= f) s = (Exn x, es, s1).
Proof. intros H. unfold mbind, Io_bind. by rewrite H. Qed.

  (** ** Runs that keep a property of the state *)

Section Keeps.
    (** [I] holds at every step: of the state before and after, whatever the outcome; [φ]
        holds of every event. *)
    Context (I : S → Prop) (φ : E → Prop).

Definition keeps {A} (m : Io A) : Prop := ∀ s, I s → I (m s).2 ∧ Forall φ (m s).1.2.

Lemma keeps_ret {A} (a : A) : keeps (mret a).
Proof. intros s Hs. by split. Qed.
Lemma keeps_raise {A} x : keeps (@raise A x).
Proof. intros s Hs. by split. Qed.
Lemma keeps_tell e : φ e → keeps (tell e).
Proof. intros He s Hs. split; [done|by repeat constructor]. Qed.
Lemma keeps_gets {A} (f : S → A) : keeps (gets f).
Proof. intros s Hs. by split. Qed.
Lemma keeps_modify f : (∀ s, I s → I (f s)) → keeps (modify f).
Proof. intros Hf s Hs. split; [by apply Hf|constructor]. Qed.
Lemma keeps_bind {A B} (m : Io A) (f : A → Io B) :
      keeps m → (∀ a, keeps (f a)) → keeps (m ≫= f).
Proof.
  intros Hm Hf s Hs. destruct (Hm s Hs) as [H1 H2]. unfold mbind, Io_bind.
  destruct (m s) as [[[a|x] es] s1]; [|done].
  destruct (Hf a s1 H1) as [H3 H4]. destruct (f a s1) as [[o es'] s2]. simpl in *.
  split; [done|by apply Forall_app].
Qed.
Lemma keeps_try {A} (m : Io A) (h : X → Io A) :
      keeps m → (∀ x, keeps (h x)) → keeps (try_ m h).
Proof.
  intros Hm Hh s Hs. destruct (Hm s Hs) as [H1 H2]. unfold try_.
  destruct (m s) as [[[a|x] es] s1]; [done|].
  destruct (Hh x s1 H1) as [H3 H4]. destruct (h x s1) as [[o es'] s2]. simpl in *.
  split; [done|by apply Forall_app].
Qed.
Lemma keeps_iterM {A} (f : A → Io unit) l : (∀ a, keeps (f a)) → keeps (iterM f l).
Proof.
  intros Hf. induction l as [|a l IH]; [apply keeps_ret|]. by apply keeps_bind.
Qed.
Lemma keeps_option {A} (o : option A) x : keeps (of_option o x).
Proof. destruct o; [apply keeps_ret|apply keeps_raise]. Qed.
End Keeps.

  (** ** What a run can raise *)

Section Only.
    Context (P : X → Prop).

    (** Every exception of [m] satisfies [P]. *)
Definition only {A} (m : Io A) : Prop := ∀ s x, (m s).1.1 = Exn x → P x.

Lemma only_ret {A} (a : A) : only (mret a).
Proof. done. Qed.
Lemma only_raise {A} x : P x → only (@raise A x).
Proof. by intros H s y [= <-]. Qed.
Lemma only_tell e : only (tell e).
Proof. done. Qed.
Lemma only_gets {A} (f : S → A) : only (gets f).
Proof. done. Qed.
Lemma only_modify f : only (modify f).
Proof. done. Qed.
Lemma only_bind {A B} (m : Io A) (f : A → Io B) : only m → (∀ a, only (f a)) → only (m ≫= f).
Proof.
  intros Hm Hf s x. unfold mbind, Io_bind. specialize (Hm s x).
  destruct (m s) as [[[a|y] es] s1]; [|intros [= ->]; by apply Hm].
  specialize (Hf a s1 x). by destruct (f a s1) as [[o es'] s2].
Qed.
Lemma only_try {A} (m : Io A) h : (∀ x, only (h x)) → only (try_ m h).
Proof.
  intros Hh s x. unfold try_. destruct (m s) as [[[a|y] es] s1]; [done|].
  specialize (Hh y s1 x). by destruct (h y s1) as [[o es'] s2].
Qed.
Lemma only_iterM {A} (f : A → Io unit) l : Forall (λ a, only (f a)) l → only (iterM f l).
Proof. induction 1; [done|]. by apply only_bind. Qed.
End Only.
End Io.
Arguments Io : clear implicits.
