(* ===== verification/Emitter.v ===== *)
(** * blueprints/openstack/chart/files/contract-emitter.py: the service-contract emitter

    One run reads the OpenStack APIs and inserts usage or health rows into ClickHouse. The
    environment is a function; the network ([urlopen]) and the clock are parameters, so that
    the theorems hold for every behaviour of the services. *)
From Stdlib Require Import SpecFloat.
From S2P Require Import Prelude PyStr PyVal Json Sha256 Calendar Io.
#[local] Open Scope string_scope.
#[local] Open Scope list_scope.
#[local] Coercion VStr : string >-> val.

Module Emitter.

(** ** Exceptions *)

(** What a request or the handling of its answer can raise. *)
Inductive xn :=
  | HTTPError (code : Z)
  | Timeout
  | NetError (name : string)
  | Py (e : exn).

(** [type(e).__name__] *)
Definition exn_name (e : exn) : string :=
  match e with
  | KeyError _ => "KeyError"
  | TypeError => "TypeError"
  | AttributeError => "AttributeError"
  | ValueError => "ValueError"
  | IndexError => "IndexError"
  | OverflowError => "OverflowError"
  | ZeroDivisionError => "ZeroDivisionError"
  | RecursionError => "RecursionError"
  | SystemExit _ => "SystemExit"
  end.
Definition xn_name (x : xn) : string :=
  match x with
  | HTTPError _ => "HTTPError"
  | Timeout => "TimeoutError"
  | NetError n => n
  | Py e => exn_name e
  end.

(** ** Intervals and times *)

(** [s[:-1]] and [s[-1]]. *)
Fixpoint split_last (s : string) : string * option ascii :=
  match s with
  | EmptyString => (EmptyString, None)
  | String c EmptyString => (EmptyString, Some c)
  | String c s' => let '(i, l) := split_last s' in (String c i, l)
  end.

Definition parse_interval (s : string) : res Z :=
  let '(i, l) := split_last s in
  let* n := py_int i in
  match l with
  | Some "s"%char => Ok (n * 1)%Z
  | Some "m"%char => Ok (n * 60)%Z
  | Some "h"%char => Ok (n * 3600)%Z
  | Some c => Raise (KeyError (String c ""))
  | None => Raise IndexError
  end.

Definition fmt (ts : Z) : string := strftime " " "" (gmtime ts).
Definition fmt_rfc3339 (ts : Z) : string := strftime "T" "Z" (gmtime ts).

(** [now // interval * interval] *)
Definition window_start (now interval : Z) : res Z :=
  if (interval =? 0)%Z then Raise ZeroDivisionError else Ok (now / interval * interval)%Z.

(** ** Record ids *)

Definition nul : ascii := ascii_of_nat 0.

(** The bytes that are hashed: each part, followed by a NUL. *)
Definition id_bytes (parts : list string) : string :=
  String.concat "" (map (λ p, p +:+ String nul "") parts).

Definition deterministic_id (parts : list string) : string :=
  substring 0 32 (hexdigest (id_bytes parts)).

(** ** Tags *)

(** A tag that is not a string has no [partition]. *)
Definition split_tags (raw : list val) : res (list (string * val)) :=
  foldM (λ tags t,
    match t with
    | VStr s =>
        let '(k, sep, v) := partition_at ":" s in
        Ok (dict_set k (VStr (if sep : bool then v else "")) tags)
    | _ => Raise AttributeError
    end) [] raw.

(** ** float() *)

(** Underscores may separate digits, one at a time. *)
Fixpoint drop_underscores (digit_before : bool) (s : string) : option string :=
  match s with
  | EmptyString => Some EmptyString
  | String c s' =>
      if Ascii.eqb c "_" then
        match s' with
        | String d _ => if digit_before && is_digit d then drop_underscores false s' else None
        | EmptyString => None
        end
      else String c <$> drop_underscores (is_digit c) s'
  end.

Definition float_of_string (s : string) : option spec_float :=
  s ← drop_underscores false (strip s);
  let '(neg, s) := match s with
                   | String "-" t => (true, t) | String "+" t => (false, t) | t => (false, t)
                   end in
  let sign f := if neg : bool then SFopp f else f in
  if String.eqb (lower s) "inf" || String.eqb (lower s) "infinity" then
    Some (sign (S754_infinity false))
  else if String.eqb (lower s) "nan" then Some S754_nan
  else
    let '(m, k, r) := digits 0 0 s in
    let '(m, fk, r) := match r with
                       | String "." t => digits m 0 t
                       | _ => (m, 0%nat, r)
                       end in
    if Nat.eqb (k + fk) 0 then None else
    let finish e := Some (float_of_decimal neg m (e - Z.of_nat fk)) in
    match r with
    | EmptyString => finish 0%Z
    | String c t =>
        if Ascii.eqb c "e" || Ascii.eqb c "E" then
          let '(eneg, t) := match t with
                            | String "-" u => (true, u) | String "+" u => (false, u)
                            | u => (false, u)
                            end in
          let '(e, ek, u) := digits 0 0 t in
          if Nat.eqb ek 0 || negb (String.eqb u "") then None
          else finish (if eneg : bool then - e else e)%Z
        else None
    end.

Definition float_of_int (z : Z) : res spec_float :=
  match binary_normalize 53 1024 z 0 false with
  | S754_infinity _ => Raise OverflowError
  | f => Ok f
  end.

(** [float(v)] *)
Definition py_float (v : val) : res spec_float :=
  match v with
  | VFloat f => Ok f
  | VInt z => float_of_int z
  | VBool b => float_of_int (Z.b2z b)
  | VStr s => match float_of_string s with Some f => Ok f | None => Raise ValueError end
  | _ => Raise TypeError
  end.

(** [sum] of floats, with the compensation of Python 3.12 and later: the running sum and the
    lost low-order part. *)
Definition fadd := SFadd 53 1024.
Definition fsub := SFsub 53 1024.
Definition cs_add (acc : spec_float * spec_float) (x : spec_float) : spec_float * spec_float :=
  let '(hi, lo) := acc in
  let t := fadd hi x in
  let c := if SFleb (SFabs x) (SFabs hi) then fadd (fsub hi t) x else fadd (fsub x t) hi in
  (t, fadd lo c).
Definition cs_total (acc : spec_float * spec_float) : spec_float :=
  let '(hi, lo) := acc in
  match lo with S754_finite _ _ _ => fadd hi lo | _ => hi end.

Definition py_sum (l : list spec_float) : val :=
  match l with
  | [] => VInt 0
  | x :: l' => VFloat (cs_total (foldl cs_add (fadd (S754_zero false) x, S754_zero false) l'))
  end.

(** ** URL encoding *)

Definition url_safe (c : ascii) : bool :=
  let n := code c in
  (is_digit c || ((65 <=? n) && (n <=? 90)) || ((97 <=? n) && (n <=? 122)) ||
   Ascii.eqb c "_" || Ascii.eqb c "." || Ascii.eqb c "-" || Ascii.eqb c "~")%Z.

Definition upper_hex (n : Z) : ascii := char (if n <? 10 then 48 + n else 55 + n)%Z.

(** [urllib.parse.quote_plus] *)
Fixpoint quote_plus (s : string) : string :=
  match s with
  | EmptyString => EmptyString
  | String c s' =>
      if url_safe c then String c (quote_plus s')
      else if Ascii.eqb c " " then String "+" (quote_plus s')
      else String "%" (String (upper_hex (code c / 16)) (String (upper_hex (code c mod 16))
             (quote_plus s')))
  end.

Definition urlencode (params : list (string * string)) : string :=
  String.concat "&" (map (λ kv, quote_plus kv.1 +:+ "=" +:+ quote_plus kv.2) params).

(** ** Requests *)

Record http_request := {
  method : string; url : string; headers : list (string * string); data : option string;
  timeout : Z; unverified : bool }.

Record http_response := { status : Z; resp_headers : list (string * string); content : string }.

(** A request with what became of it, a line of the log. *)
Inductive event :=
  | Sent (r : http_request) (answer : http_response + xn)
  | Logged (line : list val).
Inductive body := NoBody | Bytes (s : string) | Object (v : val).

(** ** The constants of a run *)

Section Environment.
  (** [os.environ] *)
  Context (env : string → option string).

Definition getenv (k dflt : string) : string := default dflt (env k).
Definition SERVICE : string := getenv "SERVICE_NAME" "openstack".
Definition ORG : string := getenv "ORG" "default".
Definition SOURCE : string := getenv "SOURCE" "openstack-blueprint".

  (** Whether [ssl_context] drops certificate verification. *)
Definition ssl_context (url : string) : bool :=
    startswith "https" url && String.eqb (lower (getenv "TLS_VERIFY" "true")) "false".

Definition build_request (method url : string) (token : string) (b : body)
      (hs : list (string * string)) (timeout : Z) : http_request :=
    let data := match b with
                | NoBody => None
                | Bytes s => Some s
                | Object v => Some (json_dumps v)
                end in
    let h0 := [("Content-Type", "application/json")] in
    let h1 := if String.eqb token "" then h0 else dict_set "X-Auth-Token" token h0 in
    let h2 := foldl (λ h '(k, v), dict_set k v h) h1 hs in
    {| method := method; url := url; headers := h2; data := data; timeout := timeout;
       unverified := ssl_context url |}.

  (** *** Catalog *)

  (** The endpoint of a service, in catalog order. *)
Fixpoint find_endpoint (interface region : string) (eps : list val) : res (option string) :=
    match eps with
    | [] => Ok None
    | ep :: eps' =>
        let* i := get ep "interface" in
        if negb (eq_str i interface) then find_endpoint interface region eps' else
        let* skip := (if String.eqb region "" then Ok false else
          let* r := get ep "region" in Ok (negb (eq_str r region || is_none r))) in
        if skip : bool then find_endpoint interface region eps' else
        let* u := getitem ep "url" in
        match u with VStr u => Ok (Some (rstrip_char "/" u)) | _ => Raise AttributeError end
    end.

Fixpoint find_service (interface region svc_type : string) (catalog : list val)
      : res (option string) :=
    match catalog with
    | [] => Ok None
    | svc :: rest =>
        let* t := get svc "type" in
        if negb (eq_str t svc_type) then find_service interface region svc_type rest else
        let* eps := get_default svc "endpoints" (VList []) in
        let* eps := py_iter eps in
        let* u := find_endpoint interface region eps in
        match u with
        | Some u => Ok (Some u)
        | None => find_service interface region svc_type rest
        end
    end.

Definition endpoint_url (catalog : list val) (svc_type : string) : res (option string) :=
    find_service (getenv "OS_INTERFACE" "internal") (getenv "OS_REGION_NAME" "") svc_type catalog.

  (** *** Rows *)

  (** [p.encode()] on a value. *)
Definition encode (v : val) : res string :=
    match v with VStr s => Ok s | _ => Raise AttributeError end.

  (** A usage row for the window of [interval] seconds from [wstart]. *)
Definition usage_row (wstart interval : Z) (metric : string) (qty : val) (unit : string)
      (resource_id tenant : val) (tags : list (string * val)) : res val :=
    let* tn := encode tenant in
    let* rs := encode resource_id in
    let rid := deterministic_id [ORG; tn; SERVICE; rs; metric; fmt_rfc3339 wstart] in
    let* q := py_float qty in
    Ok (VDict [
      ("record_id", VStr rid);
      ("org", VStr ORG);
      ("tenant", tenant);
      ("service", VStr SERVICE);
      ("resource_id", resource_id);
      ("metric", VStr metric);
      ("quantity", VFloat q);
      ("unit", VStr unit);
      ("window_start", VStr (fmt wstart));
      ("window_end", VStr (fmt (wstart + interval)));
      ("tags", VDict tags);
      ("source", VStr SOURCE)]).

Definition health_row (wstart checked : Z) (component : val) (status reason : string)
      : res val :=
    let* c := encode component in
    let rid := deterministic_id [ORG; ""; SERVICE; c; fmt_rfc3339 wstart] in
    Ok (VDict [
      ("record_id", VStr rid);
      ("org", VStr ORG);
      ("tenant", VStr "");
      ("service", VStr SERVICE);
      ("component", component);
      ("status", VStr status);
      ("reason", VStr reason);
      ("checked_at", VStr (fmt checked))]).

  (** *** Pure steps of the collectors *)

  (** The floating IPs counted per project: the counts so far, and the exception that ended the
      loop. *)
Fixpoint bump (fips : list (val * Z)) (pid : val) : list (val * Z) :=
    match fips with
    | [] => [(pid, 1%Z)]
    | (k, n) :: rest => if py_eq k pid then (k, (n + 1)%Z) :: rest else (k, n) :: bump rest pid
    end.

Definition fip_project (fip : val) : res val :=
    let* a := get fip "project_id" in
    if truthy a then hashable a else
    let* b := get fip "tenant_id" in
    hashable (or_ b (VStr "")).

Fixpoint count_fips (fips : list (val * Z)) (l : list val) : list (val * Z) * option exn :=
    match l with
    | [] => (fips, None)
    | fip :: l' =>
        match fip_project fip with
        | Ok pid => count_fips (bump fips pid) l'
        | Raise e => (fips, Some e)
        end
    end.

Fixpoint fip_count (fips : list (val * Z)) (pid : val) : option Z :=
    match fips with
    | [] => None
    | (k, n) :: rest => if py_eq k pid then Some n else fip_count rest pid
    end.

Definition pool_capacity (p : val) : res spec_float :=
    let* c := get_default p "capabilities" (VDict []) in
    let* t := get c "total_capacity_gb" in
    py_float (or_ t (VInt 0)).

Definition RANK (status : string) : res Z :=
    match assoc status [("OK", 0%Z); ("Warning", 1%Z); ("Unknown", 2%Z); ("Critical", 3%Z)] with
    | Some n => Ok n
    | None => Raise (KeyError status)
    end.

  (** *** Databases *)

Definition usage_database : string := getenv "CH_DATABASE" "showback".
Definition health_database : string :=
    let h := getenv "CH_HEALTH_DATABASE" "" in
    if String.eqb h "" then usage_database else h.

  (** ** Runs *)

Section Run.
    Context {W : Type}.
    (** The network, and [int(time.time())]. *)
    Context (urlopen : http_request → W → (http_response + xn) * W) (now : W → Z * W).

Record state := { world : W; rows : list val }.
Definition M : Type → Type := Io state event xn.

Definition lift {A} (r : res A) : M A :=
      match r with Ok a => mret a | Raise e => raise (Py e) end.
Definition log (line : list val) : M unit := tell (Logged line).
Definition time : M Z := λ s,
      let '(t, w) := now (world s) in (Ret t, [], {| world := w; rows := rows s |}).
Definition append (r : val) : M unit :=
      modify (λ s, {| world := world s; rows := rows s ++ [r] |}).

Definition send (r : http_request) : M http_response := λ s,
      let '(a, w) := urlopen r (world s) in
      (match a with inl p => Ret p | inr x => Exn x end, [Sent r a],
       {| world := w; rows := rows s |}).

Definition request (method url token : string) (b : body) (hs : list (string * string))
        (timeout : Z) : M http_response :=
      send (build_request method url token b hs timeout).

Definition get_json (url token : string) : M val :=
      let* r := request "GET" url token NoBody [] 15 in lift (json_loads (content r)).

    (** A variable of the environment that must be set. *)
Definition environ (k : string) : M string :=
      lift (match env k with Some v => Ok v | None => Raise (KeyError k) end).

Definition keystone_auth : M (string * string * val) :=
      let* u := environ "OS_AUTH_URL" in
      let auth_url := rstrip_char "/" u in
      let* user := environ "OS_USERNAME" in
      let* password := environ "OS_PASSWORD" in
      let named n dom := VDict [("name", VStr n); ("domain", VDict [("name", VStr dom)])] in
      let doc := VDict [("auth", VDict [
        ("identity", VDict [
          ("methods", VList [VStr "password"]);
          ("password", VDict [("user", VDict [
            ("name", VStr user);
            ("domain", VDict [("name", VStr (getenv "OS_USER_DOMAIN_NAME" "default"))]);
            ("password", VStr password)])])]);
        ("scope", VDict [("project", named (getenv "OS_PROJECT_NAME" "admin")
           (getenv "OS_PROJECT_DOMAIN_NAME" "default"))])])] in
      let* r := request "POST" (auth_url +:+ "/auth/tokens") "" (Object doc) [] 15 in
      let* token := lift (match assoc "X-Subject-Token" (resp_headers r) with
                          | Some t => Ok t | None => Raise (KeyError "X-Subject-Token") end) in
      let* d := lift (json_loads (content r)) in
      let* t := lift (getitem d "token") in
      let* catalog := lift (get_default t "catalog" (VList [])) in
      mret (auth_url, token, catalog).

    (** *** Usage *)

Definition row (wstart interval : Z) (metric : string) (qty : val) (unit : string)
        (resource_id tenant : val) (tags : list (string * val)) : M () :=
      let* r := lift (usage_row wstart interval metric qty unit resource_id tenant tags) in
      append r.

    (** [try: ... except Exception as e: log(...)]; the line carries the exception's name where
        the code prints its text. *)
Definition best_effort (what : list val) (m : M unit) : M unit :=
      try_ m (λ x, log (what ++ [VStr (xn_name x)])).

Definition count_floating_ips (neutron token : string) : M (list (val * Z)) :=
      try_ (let* d := get_json (neutron +:+ "/v2.0/floatingips") token in
            let* l := lift (get_default d "floatingips" (VList [])) in
            let* l := lift (py_iter l) in
            let '(fips, e) := count_fips [] l in
            let* _ := (match e with
              | Some e => log [VStr "WARN neutron floatingips: "; VStr (exn_name e)]
              | None => mret ()
              end) in
            mret fips)
           (λ x, let* _ := log [VStr "WARN neutron floatingips: "; VStr (xn_name x)] in mret []).

Definition nova_usage (wstart interval : Z) (nova token : string) (pid name : val)
        (tags : list (string * val)) : M unit :=
      let* id := lift (py_str pid) in
      let* d := get_json (nova +:+ "/limits?tenant_id=" +:+ id) token in
      let* l := lift (getitem d "limits") in
      let* ab := lift (getitem l "absolute") in
      let* n := lift (get_default ab "totalInstancesUsed" (VInt 0)) in
      let* _ := row wstart interval "instances.count" n "count" pid name tags in
      let* n := lift (get_default ab "totalCoresUsed" (VInt 0)) in
      let* _ := row wstart interval "vcpu.used" n "cores" pid name tags in
      let* n := lift (get_default ab "totalRAMUsed" (VInt 0)) in
      row wstart interval "ram.used" n "MiB" pid name tags.

Definition cinder_usage (wstart interval : Z) (cinder token : string) (pid name : val)
        (tags : list (string * val)) : M unit :=
      let* id := lift (py_str pid) in
      let* d := get_json (cinder +:+ "/os-quota-sets/" +:+ id +:+ "?usage=True") token in
      let* qs := lift (getitem d "quota_set") in
      let* gb := lift (get qs "gigabytes") in
      if is_dict gb then
        let* n := lift (get_default gb "in_use" (VInt 0)) in
        row wstart interval "storage.used" n "GiB" pid name tags
      else mret ().

Definition when {A} (o : option A) (f : A → M unit) : M unit :=
      match o with Some a => f a | None => mret () end.

Definition project_usage (wstart interval : Z) (nova cinder : option string) (token : string)
        (fips : list (val * Z)) (p : val) : M unit :=
      let* pid := lift (getitem p "id") in
      let* name := lift (getitem p "name") in
      let* raw := lift (get_default p "tags" (VList [])) in
      let* raw := lift (py_iter raw) in
      let* tags := lift (split_tags raw) in
      let* _ := when nova (λ u, best_effort [VStr "WARN nova limits ["; name; VStr "]: "]
        (nova_usage wstart interval u token pid name tags)) in
      let* _ := when cinder (λ u, best_effort [VStr "WARN cinder quota ["; name; VStr "]: "]
        (cinder_usage wstart interval u token pid name tags)) in
      let* pid' := lift (hashable pid) in
      when (fip_count fips pid') (λ n,
        row wstart interval "floating_ips.count" (VInt n) "count" pid name tags).

    (** Capacity metrics belong to no tenant. *)
Definition nova_capacity (wstart interval : Z) (nova token : string) : M unit :=
      let* d := get_json (nova +:+ "/os-hypervisors/statistics") token in
      let* st := lift (getitem d "hypervisor_statistics") in
      let* n := lift (get_default st "vcpus" (VInt 0)) in
      let* _ := row wstart interval "vcpu.capacity" n "cores" (VStr "hypervisors") (VStr "") [] in
      let* n := lift (get_default st "memory_mb" (VInt 0)) in
      row wstart interval "ram.capacity" n "MiB" (VStr "hypervisors") (VStr "") [].

Definition cinder_capacity (wstart interval : Z) (cinder token : string) : M unit :=
      let* d := get_json (cinder +:+ "/scheduler-stats/get_pools?detail=True") token in
      let* v := lift (get_default d "pools" (VList [])) in
      let* pools := lift (py_iter v) in
      let* caps := lift (mapM pool_capacity pools) in
      if truthy v then
        row wstart interval "storage.capacity" (py_sum caps) "GiB" (VStr "cinder-pools")
          (VStr "") []
      else mret ().

    (** [endpoint_url(...) or ...]: an empty URL is no endpoint. *)
Definition nonempty (o : option string) : option string :=
      match o with Some "" => None | _ => o end.

Definition collect_usage (auth_url token : string) (catalog : val) : M (list val) :=
      let* interval := lift (parse_interval (getenv "INTERVAL" "5m")) in
      let* t := time in
      let* wstart := lift (window_start t interval) in
      let* catalog := lift (py_iter catalog) in
      let endpoint ty := let* o := lift (endpoint_url catalog ty) in mret (nonempty o) in
      let* ks := endpoint "identity" in
      let ks := default auth_url ks in
      let* nova := endpoint "compute" in
      let* c3 := endpoint "volumev3" in
      let* cinder := (match c3 with
                      | Some _ => mret c3 | None => endpoint "block-storage" end) in
      let* neutron := endpoint "network" in
      let* d := get_json (ks +:+ "/projects") token in
      let* projects := lift (get_default d "projects" (VList [])) in
      let* fips := (match neutron with
                    | Some n => count_floating_ips n token
                    | None => mret []
                    end) in
      let* projects := lift (py_iter projects) in
      let* _ := iterM (project_usage wstart interval nova cinder token fips) projects in
      let* _ := when nova (λ u, best_effort [VStr "WARN hypervisor statistics: "]
                  (nova_capacity wstart interval u token)) in
      let* _ := when cinder (λ u, best_effort [VStr "WARN cinder pools: "]
                  (cinder_capacity wstart interval u token)) in
      gets rows.

    (** *** Health *)

Definition http_reason (code : Z) : string := "http " +:+ str_of_Z code.

    (** The status of an answered probe. *)
Definition status_of (code : Z) : string * string :=
      if ((code <? 400) || (code =? 401) || (code =? 403))%Z then ("OK", http_reason code)
      else if (500 <=? code)%Z then ("Critical", http_reason code)
      else ("Warning", http_reason code).

Definition probe (url : val) : M (string * string) :=
      try_ (let* u := lift (match url with VStr u => Ok u | _ => Raise Unmodelled end) in
            let* r := request "GET" u "" NoBody [] 5 in
            mret (status_of (status r)))
           (λ x, match x with
                 | HTTPError code => mret (status_of code)
                 | Timeout => mret ("Unknown", "timeout")
                 | _ => mret ("Critical", xn_name x)
                 end).

    (** The URL of the first endpoint on the interface, [None] when there is none or it is
        empty. *)
Fixpoint interface_url (interface : string) (eps : list val) : res (option val) :=
      match eps with
      | [] => Ok None
      | ep :: eps' =>
          let* i := get ep "interface" in
          if eq_str i interface then
            let* u := getitem ep "url" in Ok (if truthy u then Some u else None)
          else interface_url interface eps'
      end.

Definition component_of (svc : val) : res val :=
      let* n := get_default svc "name" (VStr "unknown") in
      get_default svc "type" n.

Definition row_health (wstart checked : Z) (component : val) (status reason : string) : M unit :=
      let* r := lift (health_row wstart checked component status reason) in append r.

    (** The loop over the catalog, with [seen] and [worst]. *)
Fixpoint health_loop (wstart checked : Z) (interface : string) (catalog : list val)
        (seen : bool) (worst : string) : M (bool * string) :=
      match catalog with
      | [] => mret (seen, worst)
      | svc :: rest =>
          let* eps := lift (get_default svc "endpoints" (VList [])) in
          let* eps := lift (py_iter eps) in
          let* url := lift (interface_url interface eps) in
          match url with
          | None => health_loop wstart checked interface rest seen worst
          | Some u =>
              let* p := probe u in
              let* c := lift (component_of svc) in
              let* _ := row_health wstart checked c p.1 p.2 in
              let* worst := (if negb seen then mret p.1 else
                let* a := lift (RANK p.1) in
                let* b := lift (RANK worst) in
                mret (if (b <? a)%Z then p.1 else worst)) in
              health_loop wstart checked interface rest true worst
          end
      end.

Definition collect_health (auth_url : string) (catalog : val) : M (list val) :=
      let* interval := lift (parse_interval (getenv "INTERVAL" "1m")) in
      let* t := time in
      let* wstart := lift (window_start t interval) in
      let* checked := time in
      let interface := getenv "OS_INTERFACE" "internal" in
      let* catalog := lift (py_iter catalog) in
      let* r := health_loop wstart checked interface catalog false "Unknown" in
      let* worst := (if r.1 : bool then mret r.2 else
        let* p := probe (VStr auth_url) in
        let* _ := row_health wstart checked (VStr "identity") p.1 p.2 in
        mret p.1) in
      let* _ := row_health wstart checked (VStr "_service") worst "worst of components" in
      gets rows.

    (** *** ClickHouse *)

    (** [database] is [None] for the default, and empty for no database at all. *)
Definition ch_query (sql : string) (b : option string) (database : option string)
        : M http_response :=
      let* u := environ "CH_URL" in
      let base := rstrip_char "/" u in
      let db := default usage_database database in
      let params := ("query", sql) :: if String.eqb db "" then [] else [("database", db)] in
      let hs := ("Content-Type", "application/octet-stream") ::
        let user := getenv "CH_USERNAME" "" in
        if String.eqb user "" then []
        else [("X-ClickHouse-User", user); ("X-ClickHouse-Key", getenv "CH_PASSWORD" "")] in
      request "POST" (base +:+ "/?" +:+ urlencode params) "" (Bytes (default "" b)) hs 30.

    (** One JSON document per line. *)
Definition each_row (rs : list val) : string :=
      String.concat newline (map json_dumps rs) +:+ newline.

Definition ch_insert (table : string) (rs : list val) (database : option string) : M unit :=
      match rs with
      | [] => log [VStr "nothing to insert"]
      | _ =>
          let db := default usage_database database in
          let sql := "INSERT INTO " +:+ db +:+ "." +:+ table +:+ " FORMAT JSONEachRow" in
          let* _ := ch_query sql (Some (each_row rs)) (Some db) in
          log [VStr "inserted "; VInt (Z.of_nat (length rs)); VStr " rows into "; VStr db;
               VStr "."; VStr table]
      end.

Definition create_database : string := "CREATE DATABASE IF NOT EXISTS " +:+ health_database.
Definition health_table : string := getenv "CH_HEALTH_TABLE" "health_records".
Definition create_table : string :=
      "CREATE TABLE IF NOT EXISTS " +:+ health_database +:+ "." +:+ health_table +:+ " (" +:+
      " record_id String," +:+ " org LowCardinality(String)," +:+
      " tenant LowCardinality(String)," +:+ " service LowCardinality(String)," +:+
      " component LowCardinality(String)," +:+
      " status Enum8('OK' = 1, 'Warning' = 2, 'Critical' = 3, 'Unknown' = 4)," +:+
      " reason String," +:+ " checked_at DateTime64(3, 'UTC') DEFAULT now64(3)" +:+
      ") ENGINE = ReplacingMergeTree(checked_at)" +:+ " PARTITION BY toYYYYMM(checked_at)" +:+
      " ORDER BY (org, tenant, service, component, record_id)".

Definition ch_bootstrap_health_table : M unit :=
      let* _ := ch_query create_database None (Some "") in
      let* _ := ch_query create_table None None in
      mret ().

    (** *** main *)

Definition main : M unit :=
      let mode := getenv "MODE" "usage" in
      let* a := keystone_auth in
      let '(auth_url, token, catalog) := a in
      if String.eqb mode "usage" then
        let* rs := collect_usage auth_url token catalog in
        ch_insert (getenv "CH_USAGE_TABLE" "usage_records") rs None
      else if String.eqb mode "health" then
        let* _ := (if String.eqb (lower (getenv "CH_BOOTSTRAP_HEALTH_TABLE" "true")) "true"
                   then ch_bootstrap_health_table else mret ()) in
        let* rs := collect_health auth_url catalog in
        ch_insert health_table rs (Some health_database)
      else raise (Py (SystemExit 1)).
End Run.
End Environment.
End Emitter.
