(* ===== verification/EmitterFacts.v ===== *)
(** * What the emitter promises

    Health: one row per probed service with a status of the contract's enumeration, and a
    consolidated row carrying the worst. Usage: conforming rows in an aligned window, and
    collectors that cannot take each other down. Ids: one per record and window. ClickHouse:
    what is sent is what was meant. *)
From Stdlib Require Import SpecFloat.
From S2P Require Import Prelude PyStr PyVal Json Sha256 Calendar Io Emitter.
#[local] Open Scope string_scope.
#[local] Open Scope list_scope.
Import Emitter.

Module EmitterFacts.

(** ** Record ids *)

Definition no_nul (s : string) : bool := all_chars (λ c, negb (Ascii.eqb c nul)) s.

Lemma id_bytes_cons p ps : id_bytes (p :: ps) = p +:+ String nul (id_bytes ps).
Proof.
  unfold id_bytes. destruct ps as [|q ps]; simpl map.
  - cbn. done.
  - change (String.concat "" ((p +:+ String nul "") :: (q +:+ String nul "") ::
      map (λ p, p +:+ String nul "") ps))
      with ((p +:+ String nul "") +:+ "" +:+ id_bytes (q :: ps)).
    rewrite append_assoc. done.
Qed.

Lemma nul_split p q s t :
  no_nul p = true → no_nul q = true → p +:+ String nul s = q +:+ String nul t → p = q ∧ s = t.
Proof.
  unfold no_nul. revert q. induction p as [|c p IH]; intros [|d q]; cbn [all_chars]; intros Hp Hq.
  - by intros [= ->].
  - intros [= <- _]. by rewrite Ascii.eqb_refl in Hq.
  - intros [= -> _]. by rewrite Ascii.eqb_refl in Hp.
  - apply andb_prop in Hp as [_ Hp]. apply andb_prop in Hq as [_ Hq].
    intros [= -> H]. destruct (IH q Hp Hq H) as [-> ->]. done.
Qed.

Lemma id_bytes_inj ps qs :
  Forall (λ p, no_nul p = true) ps → Forall (λ p, no_nul p = true) qs →
  id_bytes ps = id_bytes qs → ps = qs.
Proof.
  intros Hp. revert qs. induction Hp as [|p ps Hp Hps IH]; intros qs Hq H.
  - destruct qs as [|q qs]; [done|]. rewrite id_bytes_cons in H. by destruct q.
  - destruct qs as [|q qs]; [rewrite id_bytes_cons in H; by destruct p|].
    rewrite !id_bytes_cons in H. apply Forall_cons in Hq as [Hq Hqs].
    apply nul_split in H as [-> H]; [|done..]. f_equal. by apply IH.
Qed.

Lemma all_chars_substring p n m s : all_chars p s = true → all_chars p (substring n m s) = true.
Proof.
  revert n m. induction s as [|c s IH]; intros n m; [by destruct n, m|].
  cbn [all_chars]. intros [Hc Hs]%andb_prop. destruct n as [|n], m as [|m];
    cbn [substring all_chars]; rewrite ?Hc, ?IH; done.
Qed.

Lemma length_substring_0 m s : (m <= String.length s)%nat → String.length (substring 0 m s) = m.
Proof.
  revert m. induction s as [|c s IH]; intros [|m] Hm; simpl in *; try done; try lia.
  rewrite IH; [done|lia].
Qed.

Lemma fmt_no_nul sep tail t :
  no_nul sep = true → no_nul tail = true → (0 <= t < year_10000)%Z →
  no_nul (strftime sep tail (gmtime t)) = true.
Proof.
  intros Hs Ht Hb. unfold strftime, no_nul in *.
  pose proof (gmtime_year t Hb) as Hy. pose proof (gmtime_bounds t) as (?&?&?&?&?).
  assert (∀ n, (0 <= n)%Z → all_chars (λ c, negb (Ascii.eqb c nul)) (str_of_Z n) = true) as Hn
    by (intros; by apply str_of_nat_chars).
  assert (∀ n, (0 <= n)%Z → all_chars (λ c, negb (Ascii.eqb c nul)) (pad2 n) = true) as Hp2.
  { intros n Hn0. unfold pad2. destruct (n <? 10)%Z; [|auto]. cbn [all_chars]. by rewrite Hn. }
  assert (∀ n, (0 <= n)%Z → all_chars (λ c, negb (Ascii.eqb c nul)) (pad4 n) = true) as Hp4.
  { intros n Hn0. unfold pad4. repeat case_match; rewrite ?all_chars_app, ?Hn; done. }
  rewrite !all_chars_app, Hs, Ht, Hp4, !Hp2 by lia. done.
Qed.

Lemma fmt_rfc3339_inj w w' :
  (0 <= w < year_10000)%Z → (0 <= w' < year_10000)%Z → fmt_rfc3339 w = fmt_rfc3339 w' → w = w'.
Proof. unfold fmt_rfc3339. apply strftime_inj. Qed.

Lemma fmt_rfc3339_no_nul w : (0 <= w < year_10000)%Z → no_nul (fmt_rfc3339 w) = true.
Proof. unfold fmt_rfc3339. by apply fmt_no_nul. Qed.

(** A record id is 32 lower-case hexadecimal digits of a digest, and the bytes digested
    tell records apart: for NUL-free names and times up to the year 9999, two usage records
    hash the same bytes exactly when organisation, tenant, service, resource, metric and
    window are all the same. *)
Theorem record_id_window org tn srv rs mt org' tn' srv' rs' mt' w w' :
  Forall (λ p, no_nul p = true) [org; tn; srv; rs; mt; org'; tn'; srv'; rs'; mt'] →
  (0 <= w < year_10000)%Z → (0 <= w' < year_10000)%Z →
  String.length (deterministic_id [org; tn; srv; rs; mt; fmt_rfc3339 w]) = 32%nat ∧
  all_chars is_hex (deterministic_id [org; tn; srv; rs; mt; fmt_rfc3339 w]) = true ∧
  (id_bytes [org; tn; srv; rs; mt; fmt_rfc3339 w]
   = id_bytes [org'; tn'; srv'; rs'; mt'; fmt_rfc3339 w'] ↔
   (org, tn, srv, rs, mt, w) = (org', tn', srv', rs', mt', w')).
Proof.
  intros Hn Hw Hw'. unfold deterministic_id.
  destruct (hexdigest_shape (id_bytes [org; tn; srv; rs; mt; fmt_rfc3339 w])) as [Hl Hh].
  split_and!.
  - apply length_substring_0. rewrite Hl. lia.
  - by apply all_chars_substring.
  - clear Hl Hh. split; [|by intros [= -> -> -> -> -> ->]]. intros H. apply id_bytes_inj in H.
    + injection H as -> -> -> -> -> H. by rewrite (fmt_rfc3339_inj w w' Hw Hw' H).
    + repeat (apply Forall_cons in Hn as [? Hn]). repeat constructor; try done.
      by apply fmt_rfc3339_no_nul.
    + repeat (apply Forall_cons in Hn as [? Hn]). repeat constructor; try done.
      by apply fmt_rfc3339_no_nul.
Qed.

Lemma record_id_window_witness :
  id_bytes ["acme"; "tenant-a"; "openstack"; "p1"; "vcpu.used"; fmt_rfc3339 1767225600]
  ≠ id_bytes ["acme"; "tenant-a"; "openstack"; "p1"; "vcpu.used"; fmt_rfc3339 1767225900].
Proof.
  intros H. apply (record_id_window "acme" "tenant-a" "openstack" "p1" "vcpu.used" "acme"
    "tenant-a" "openstack" "p1" "vcpu.used" 1767225600 1767225900) in H; [discriminate H| |..].
  - repeat constructor.
  - vm_compute. split; congruence.
  - vm_compute. split; congruence.
Defined.

(** ** Tags *)

(** [split_tags] undoes the platform's [key:value] convention: tags built from distinct
    colon-free keys give back exactly those keys and values, in order. *)
Theorem split_tags_roundtrip (kvs : list (string * string)) :
  NoDup kvs.*1 →
  Forall (λ kv, all_chars (λ c, negb (Ascii.eqb ":" c)) kv.1 = true) kvs →
  split_tags (map (λ kv, VStr (kv.1 +:+ String ":" kv.2)) kvs)
  = Ok (map (λ kv, (kv.1, VStr kv.2)) kvs).
Proof.
  intros Hnd Hk. unfold split_tags.
  assert (∀ acc, (∀ k, k ∈ kvs.*1 → k ∉ acc.*1) →
    foldM (λ tags t, match t with
      | VStr s => let '(k, sep, v) := partition_at ":" s in
                  Ok (dict_set k (VStr (if sep : bool then v else "")) tags)
      | _ => Raise AttributeError end) acc
      (map (λ kv, VStr (kv.1 +:+ String ":" kv.2)) kvs)
    = Ok (acc ++ map (λ kv, (kv.1, VStr kv.2)) kvs)) as H.
  2: { by rewrite (H []) by set_solver. }
  induction kvs as [|[k v] kvs IH]; intros acc Hacc; simpl; [by rewrite app_nil_r|].
  apply Forall_cons in Hk as [Hk1 Hk]. apply NoDup_cons in Hnd as [Hni Hnd].
  simpl in Hk1. rewrite partition_at_app by done.
  assert (dict_set k (VStr v) acc = acc ++ [(k, VStr v)]) as ->.
  { specialize (Hacc k ltac:(left)). clear -Hacc. induction acc as [|[j w] acc IH]; [done|].
    simpl. destruct (String.eqb_spec k j) as [->|]; [set_solver|].
    rewrite IH by set_solver. done. }
  cbn. rewrite IH; [|done|done|].
  - by rewrite <- app_assoc.
  - intros j Hj. rewrite fmap_app. set_solver.
Qed.

Lemma split_tags_roundtrip_witness :
  split_tags [VStr "env:prod"; VStr "cost-center:cc-42"]
  = Ok [("env", VStr "prod"); ("cost-center", VStr "cc-42")].
Proof.
  apply (split_tags_roundtrip [("env", "prod"); ("cost-center", "cc-42")]).
  - apply NoDup_cons. split; [set_solver|]. apply NoDup_singleton.
  - repeat constructor.
Defined.

(** ** What reaches ClickHouse *)

(** [urllib.parse.parse_qsl] on the other side: cut at [&], then at [=], then decode. *)
Fixpoint unquote_plus (s : string) : option string :=
  match s with
  | EmptyString => Some EmptyString
  | String c s' =>
      if Ascii.eqb c "+" then String " " <$> unquote_plus s'
      else if Ascii.eqb c "%" then
        match s' with
        | String a (String b s'') =>
            x ← hex_digit a; y ← hex_digit b; String (char (x * 16 + y)) <$> unquote_plus s''
        | _ => None
        end
      else String c <$> unquote_plus s'
  end.

Definition parse_pair (s : string) : option (string * string) :=
  let '(k, _, v) := partition_at "=" s in
  k' ← unquote_plus k; v' ← unquote_plus v; Some (k', v').
Definition parse_query (s : string) : option (list (string * string)) :=
  mapM parse_pair (split_on "&" s).

(** Checked for each of the 256 characters. *)
Definition quote_char (c : ascii) : string :=
  if url_safe c then String c ""
  else if Ascii.eqb c " " then "+"
  else String "%" (String (upper_hex (code c / 16)) (String (upper_hex (code c mod 16)) "")).

Lemma quote_plus_cons c s : quote_plus (String c s) = quote_char c +:+ quote_plus s.
Proof. unfold quote_char. simpl. destruct (url_safe c), (Ascii.eqb c " "); done. Qed.

Lemma quote_char_plain c :
  all_chars (λ d, negb (Ascii.eqb "&" d) && negb (Ascii.eqb "=" d)) (quote_char c) = true.
Proof. destruct c as [[] [] [] [] [] [] [] []]; reflexivity. Qed.

Lemma quote_plus_plain s :
  all_chars (λ d, negb (Ascii.eqb "&" d) && negb (Ascii.eqb "=" d)) (quote_plus s) = true.
Proof.
  induction s as [|c s IH]; [done|]. by rewrite quote_plus_cons, all_chars_app, quote_char_plain.
Qed.

Lemma unquote_quote_char c s :
  unquote_plus (quote_char c +:+ s) = String c <$> unquote_plus s.
Proof. destruct c as [[] [] [] [] [] [] [] []]; reflexivity. Qed.

Lemma unquote_quote s : unquote_plus (quote_plus s) = Some s.
Proof.
  induction s as [|c s IH]; [done|]. by rewrite quote_plus_cons, unquote_quote_char, IH.
Qed.

Lemma all_chars_weaken (p q : ascii → bool) s :
  (∀ c, p c = true → q c = true) → all_chars p s = true → all_chars q s = true.
Proof.
  intros H. induction s as [|c s IH]; [done|]. cbn [all_chars].
  intros [Hc Hs]%andb_prop. by rewrite (H c Hc), IH.
Qed.

Lemma parse_pair_encode k v :
  parse_pair (quote_plus k +:+ "=" +:+ quote_plus v) = Some (k, v).
Proof.
  unfold parse_pair. change ("=" +:+ quote_plus v) with (String "=" (quote_plus v)).
  rewrite partition_at_app.
  - by rewrite !unquote_quote.
  - eapply all_chars_weaken; [|apply quote_plus_plain]. intros c [_ H]%andb_prop. done.
Qed.

(** The query string of a request decodes to the parameters it was built from. *)
Lemma parse_query_urlencode params :
  params ≠ [] → parse_query (urlencode params) = Some params.
Proof.
  intros Hne. unfold parse_query, urlencode. rewrite split_on_concat_words.
  - clear Hne. induction params as [|[k v] params IH]; [done|]. cbn [map mapM].
    rewrite IH. change (parse_pair _) with (parse_pair (quote_plus k +:+ "=" +:+ quote_plus v)).
    by rewrite parse_pair_encode.
  - by destruct params.
  - apply Forall_map, Forall_true. intros [k v]. rewrite !all_chars_app.
    assert (∀ s, all_chars (λ d, negb (Ascii.eqb "&" d)) (quote_plus s) = true) as Hq.
    { intros s. eapply all_chars_weaken; [|apply quote_plus_plain].
      by intros c [H _]%andb_prop. }
    by rewrite !Hq.
Qed.

(** *** JSON documents stay on their line *)

Definition no_newline (s : string) : bool := all_chars (λ c, negb (Ascii.eqb (char 10) c)) s.

Lemma no_newline_app s t : no_newline (s +:+ t) = no_newline s && no_newline t.
Proof. apply all_chars_app. Qed.

Lemma no_newline_concat sep l :
  no_newline sep = true → Forall (λ s, no_newline s = true) l →
  no_newline (String.concat sep l) = true.
Proof.
  intros Hs. induction 1 as [|s l H Hl IH]; [done|]. destruct l as [|t l]; [done|].
  change (String.concat sep (s :: t :: l)) with (s +:+ sep +:+ String.concat sep (t :: l)).
  by rewrite !no_newline_app, H, Hs, IH.
Qed.

Lemma hex_char_no_newline n : Ascii.eqb (char 10) (hex_char (n mod 16)) = false.
Proof.
  assert (0 <= n mod 16 < 16)%Z as H by (apply Z.mod_pos_bound; lia).
  pose proof (hex_char_is_hex _ H) as Hh.
  destruct (Ascii.eqb_spec (char 10) (hex_char (n mod 16))) as [E|]; [|done].
  rewrite <- E in Hh. done.
Qed.

Lemma u_escape_no_newline n : no_newline (u_escape n) = true.
Proof. unfold u_escape, no_newline. cbn [all_chars]. by rewrite !hex_char_no_newline. Qed.

Lemma escape_code_no_newline n : no_newline (escape_code n) = true.
Proof.
  unfold escape_code.
  assert (no_newline (if (32 <=? n)%Z && (n <=? 126)%Z then String (char n) ""
    else if (n <? 65536)%Z then u_escape n
    else u_escape (55296 + (n - 65536) / 1024) +:+ u_escape (56320 + (n - 65536) mod 1024)) = true)
    as H.
  { destruct ((32 <=? n)%Z && (n <=? 126)%Z) eqn:E.
    - apply andb_prop in E as [E1%Z.leb_le E2%Z.leb_le]. unfold no_newline. cbn [all_chars].
      destruct (Ascii.eqb_spec (char 10) (char n)) as [Hc|]; [|done].
      apply (f_equal code) in Hc. unfold code, char in Hc.
      rewrite !nat_ascii_embedding in Hc by lia. lia.
    - destruct (n <? 65536)%Z; rewrite ?no_newline_app, ?u_escape_no_newline; done. }
  repeat case_match; try done; exact H.
Qed.

Lemma dumps_string_no_newline s : no_newline (dumps_string s) = true.
Proof.
  unfold dumps_string. rewrite !no_newline_app, no_newline_concat; [done|done|].
  apply Forall_map, Forall_true. intros. apply escape_code_no_newline.
Qed.

Lemma str_of_Z_no_newline z : no_newline (str_of_Z z) = true.
Proof.
  unfold no_newline. destruct (Z.le_gt_cases 0 z); [by apply str_of_nat_chars|].
  assert (∀ d, (0 <= d < 10)%Z → negb (Ascii.eqb (char 10) (digit d)) = true) as Hd
    by by apply (digit_cases (λ c, negb (Ascii.eqb (char 10) c))).
  unfold str_of_Z. by destruct (z <? 0)%Z; [cbn [all_chars]|]; apply str_of_pos_aux_chars.
Qed.

Lemma zeros_no_newline n : no_newline (zeros n) = true.
Proof. by induction n. Qed.

Lemma rstrip_by_chars p q s : all_chars p s = true → all_chars p (rstrip_by q s) = true.
Proof.
  induction s as [|c s IH]; [done|]. cbn [all_chars]. intros [Hc Hs]%andb_prop.
  specialize (IH Hs). cbn [rstrip_by].
  destruct (rstrip_by q s); [destruct (q c); [done|by cbn [all_chars]; rewrite Hc]|].
  cbn [all_chars] in *. by rewrite Hc.
Qed.

Lemma repr_finite_no_newline m e : no_newline (repr_finite m e) = true.
Proof.
  unfold repr_finite. destruct (shortest _ _ _ _ _ _) as [c0 x0].
  set (t := rstrip_char "0" (str_of_Z c0)).
  assert (no_newline (if String.eqb t "" then "0" else t) = true) as Hd.
  { destruct (String.eqb t ""); [done|]. apply rstrip_by_chars, str_of_Z_no_newline. }
  revert Hd. generalize (if String.eqb t "" then "0" else t) as d. intros d Hd.
  assert (∀ i k, no_newline (substring i k d) = true) as Hs
    by (intros; by apply all_chars_substring).
  assert (no_newline match d with
      | EmptyString => "" | String c "" => String c "" | String c r => String c (String "." r)
      end = true) as Hm.
  { destruct d as [|c [|c' r]]; done. }
  repeat case_match; rewrite ?no_newline_app, ?zeros_no_newline, ?Hs, ?Hd, ?str_of_Z_no_newline;
    try done; cbn [andb]; rewrite ?andb_true_r; done.
Qed.

Lemma float_repr_no_newline f : no_newline (float_repr f) = true.
Proof.
  destruct f as [[]|[]| |b m e]; [reflexivity..|]. unfold float_repr.
  rewrite no_newline_app, repr_finite_no_newline. by destruct b.
Qed.

Lemma json_dumps_no_newline v : no_newline (json_dumps v) = true.
Proof.
  induction v as [|b|z|f|s|l IH|d IH] using val_nested_ind.
  - done.
  - by destruct b.
  - apply str_of_Z_no_newline.
  - apply float_repr_no_newline.
  - apply dumps_string_no_newline.
  - change (no_newline ("[" +:+ String.concat ", " (map json_dumps l) +:+ "]") = true).
    rewrite !no_newline_app, no_newline_concat; [done|done|]. by apply Forall_map.
  - change (no_newline ("{" +:+ String.concat ", "
      (map (λ kv, dumps_string kv.1 +:+ ": " +:+ json_dumps kv.2) d) +:+ "}") = true).
    rewrite !no_newline_app, no_newline_concat; [done|done|]. apply Forall_map.
    eapply Forall_impl; [done|]. intros [k w] H. cbv beta.
    by rewrite !no_newline_app, dumps_string_no_newline, H.
Qed.

(** The body of an insert is one JSON document per line, one line per row, whatever the
    rows hold: cutting it at the newlines gives the documents back. *)
Theorem each_row_lines rs :
  rs ≠ [] → split_on (char 10) (each_row rs) = map json_dumps rs ++ [""].
Proof.
  intros Hne. unfold each_row.
  assert (String.concat newline (map json_dumps rs) +:+ newline
    = String.concat newline (map json_dumps rs ++ [""])) as ->.
  { destruct rs as [|r rs]; [done|]. clear Hne. revert r. induction rs as [|r' rs IH]; intros r.
    - simpl. done.
    - change (String.concat newline (map json_dumps (r :: r' :: rs)))
        with (json_dumps r +:+ newline +:+ String.concat newline (map json_dumps (r' :: rs))).
      rewrite append_assoc, (append_assoc newline), IH. done. }
  apply (split_on_concat_words (char 10)); [by destruct rs|].
  apply Forall_app. split; [|by repeat constructor].
  apply Forall_map, Forall_true. apply json_dumps_no_newline.
Qed.

Lemma each_row_lines_witness :
  split_on (char 10) (each_row [VDict [("a", VStr newline)]; VInt 2])
  = [json_dumps (VDict [("a", VStr newline)]); "2"; ""].
Proof. apply (each_row_lines [VDict [("a", VStr newline)]; VInt 2]). discriminate. Defined.
End EmitterFacts.
