(* ===== verification/EmitterRuns.v ===== *)
(** * Runs of the emitter

    What [collect_health], [collect_usage] and the ClickHouse calls do, for every network and
    clock. *)
From Stdlib Require Import SpecFloat.
From S2P Require Import Prelude PyStr PyVal Json Sha256 Calendar Io Emitter EmitterFacts.
#[local] Open Scope string_scope.
#[local] Open Scope list_scope.
#[local] Coercion VStr : string >-> val.
Import Emitter EmitterFacts.

Module EmitterRuns.

(** ** Windows *)

(** [w] starts the window of [interval] seconds that [t] is in. *)
Definition in_window (interval t w : Z) : Prop :=
  (w <= t < w + interval ∧ w mod interval = 0)%Z.

Lemma window_start_spec t interval :
  (0 < interval)%Z → ∃ w, window_start t interval = Ok w ∧ in_window interval t w.
Proof.
  intros Hi. unfold window_start. destruct (Z.eqb_spec interval 0); [lia|].
  eexists. split; [done|]. split.
  - pose proof (Z.div_mod t interval ltac:(lia)). pose proof (Z.mod_pos_bound t interval Hi). lia.
  - apply Z.mod_mul. lia.
Qed.

(** ** The contract's statuses *)

Definition enum : list string := ["OK"; "Warning"; "Critical"; "Unknown"].
Definition rank (s : string) : Z := match RANK s with Ok n => n | Raise _ => 0%Z end.

Lemma RANK_enum s : s ∈ enum → RANK s = Ok (rank s).
Proof. unfold enum. rewrite !elem_of_cons. intros [->|[->|[->|[->|H]]]]; [done..|set_solver]. Qed.

(** [w] is one of the statuses and none ranks above it. *)
Definition worst_of (statuses : list string) (w : string) : Prop :=
  w ∈ statuses ∧ ∀ s, s ∈ statuses → (rank s <= rank w)%Z.

(** What a probe makes of an answer. *)
Definition classify (a : http_response + xn) : string * string :=
  match a with
  | inl r => status_of (status r)
  | inr (HTTPError code) => status_of code
  | inr Timeout => ("Unknown", "timeout")
  | inr x => ("Critical", xn_name x)
  end.

Lemma classify_enum a : (classify a).1 ∈ enum.
Proof.
  assert (∀ c, (status_of c).1 ∈ enum) as H.
  { intros c. unfold status_of, enum. repeat case_match; set_solver. }
  destruct a as [r|[c| |n|e]]; simpl; auto; unfold enum; set_solver.
Qed.

Section Runs.
  Context (env : string → option string) {W : Type}.
  Context (urlopen : http_request → W → (http_response + xn) * W) (now : W → Z * W).

Definition probe_request (u : string) : http_request :=
    build_request env "GET" u "" NoBody [] 5.

Lemma lift_run {A B} (r : res A) (f : A → @M W B) a s :
    r = Ok a → (lift r ≫= f) s = f a s.
Proof. intros ->. by apply run_bind_pure. Qed.

Lemma probe_spec u (s : @state W) :
    ∃ es w, probe env urlopen (VStr u) s =
      (Ret (classify (urlopen (probe_request u) (world s)).1), es,
       {| world := w; rows := rows s |}).
Proof.
  unfold probe, try_, request, send, probe_request, mbind, Io_bind, lift. cbn.
  destruct (urlopen _ (world s)) as [[r|[c| |n|e]] w]; cbn; eauto.
Qed.

  (** The row the contract asks for. *)
Definition health_doc (wstart checked : Z) (component st reason : string) : val :=
    VDict [
      ("record_id", VStr (deterministic_id
        [ORG env; ""; SERVICE env; component; fmt_rfc3339 wstart]));
      ("org", VStr (ORG env));
      ("tenant", VStr "");
      ("service", VStr (SERVICE env));
      ("component", VStr component);
      ("status", VStr st);
      ("reason", VStr reason);
      ("checked_at", VStr (fmt checked))].

  (** The component and URL of a catalog entry that is probed. *)
Definition service_target (interface : string) (svc : val) : res (option (string * string)) :=
    let* eps := get_default svc "endpoints" (VList []) in
    let* eps := py_iter eps in
    let* url := interface_url interface eps in
    match url with
    | None => Ok None
    | Some (VStr u) =>
        let* c := component_of svc in
        let* c := encode c in
        Ok (Some (c, u))
    | Some _ => Raise Unmodelled
    end.

Definition health_rows (wstart checked : Z) (targets results : list (string * string))
      : list val :=
    zip_with (λ t r, health_doc wstart checked t.1 r.1 r.2) targets results.

Definition probed (t r : string * string) : Prop :=
    ∃ w, r = classify (urlopen (probe_request t.2) w).1.

Lemma row_health_spec wstart checked c st rs (s : @state W) :
    row_health env wstart checked (VStr c) st rs s =
      (Ret (), [], {| world := world s; rows := rows s ++ [health_doc wstart checked c st rs] |}).
Proof. done. Qed.

  (** What the loop has seen, and the worst of it. *)
Definition worst_so_far (seen : bool) (worst : string) (results : list (string * string))
      (worst' : string) : Prop :=
    if seen then worst_of (worst :: results.*1) worst'
    else match results with [] => worst' = worst | _ => worst_of results.*1 worst' end.

Lemma worst_step seen worst r results worst' :
    (seen = true → worst ∈ enum) → r.1 ∈ enum →
    worst_so_far true (if seen then if (rank worst <? rank r.1)%Z then r.1 else worst else r.1)
      results worst' →
    worst_so_far seen worst (r :: results) worst'.
Proof.
  intros Hw Hr [Hin Hmax]. destruct seen; simpl in *.
  - destruct (Z.ltb_spec (rank worst) (rank r.1)); split.
    + by right.
    + intros s. rewrite !elem_of_cons. intros [->|[->|Hs]].
      * specialize (Hmax r.1 ltac:(left)). lia.
      * apply Hmax. left.
      * apply Hmax. by right.
    + apply elem_of_cons in Hin as [->|Hin]; [left|by do 2 right].
    + intros s. rewrite !elem_of_cons. intros [->|[->|Hs]].
      * apply Hmax. left.
      * specialize (Hmax worst ltac:(left)). lia.
      * apply Hmax. by right.
  - by split.
Qed.

Lemma health_loop_spec wstart checked interface svcs :
    ∀ ts seen worst s, mapM (service_target interface) svcs = Ok ts →
    (seen = true → worst ∈ enum) →
    ∃ results worst' es w,
      health_loop env urlopen wstart checked interface svcs seen worst s =
        (Ret (seen || negb (Nat.eqb (length (omap id ts)) 0), worst'), es,
         {| world := w; rows := rows s ++ health_rows wstart checked (omap id ts) results |}) ∧
      Forall2 probed (omap id ts) results ∧ worst_so_far seen worst results worst'.
Proof.
  induction svcs as [|svc svcs IH]; intros ts seen worst s Hts Hw.
  - injection Hts as <-. exists [], worst, [], (world s). split_and!; [|constructor|].
    + simpl. unfold health_rows. simpl. rewrite orb_false_r, app_nil_r. by destruct s.
    + destruct seen; [|done]. split; [set_solver|]. intros s'. rewrite list_elem_of_singleton.
      by intros ->.
  - apply bind_Ok in Hts as (t & Ht & Hts). apply bind_Ok in Hts as (ts' & Hts' & [= <-]).
    unfold service_target in Ht. apply bind_Ok in Ht as (e0 & He0 & Ht).
    apply bind_Ok in Ht as (eps & Heps & Ht). apply bind_Ok in Ht as (url & Hurl & Ht).
    cbn [health_loop]. rewrite (lift_run _ _ _ _ He0), (lift_run _ _ _ _ Heps),
      (lift_run _ _ _ _ Hurl).
    destruct url as [u|]; [|injection Ht as <-; apply (IH ts' seen worst s Hts' Hw)].
    destruct u as [| | | |u| |]; try done.
    apply bind_Ok in Ht as (cv & Hcv & Ht). apply bind_Ok in Ht as (c & Hc & [= <-]).
    destruct cv as [| | | |c'| |]; try done. injection Hc as ->.
    destruct (probe_spec u s) as (es1 & w1 & Hpr).
    set (r := classify (urlopen (probe_request u) (world s)).1) in Hpr.
    assert (r.1 ∈ enum) as Hre by apply classify_enum.
    set (worst1 := if seen then if (rank worst <? rank r.1)%Z then r.1 else worst else r.1).
    set (s2 := {| world := w1; rows := rows s ++ [health_doc wstart checked c r.1 r.2] |}).
    destruct (IH ts' true worst1 s2 Hts') as (results & worst' & es & w & Hr & Hp & Hws).
    { intros _. unfold worst1. destruct seen; [destruct (_ <? _)%Z|]; auto. }
    assert ((if negb seen then mret r.1 else
               let* a := lift (RANK r.1) in
               let* b := lift (RANK worst) in
               mret (if (b <? a)%Z then r.1 else worst) : M string) s2 = (Ret worst1, [], s2)) as Hstep.
    { unfold worst1. destruct seen; cbn [negb]; [|done].
      by rewrite (lift_run _ _ _ _ (RANK_enum _ Hre)), (lift_run _ _ _ _ (RANK_enum _ (Hw eq_refl))). }
    exists (r :: results), worst', (es1 ++ es), w. split_and!.
    + rewrite (run_bind _ _ _ _ _ _ Hpr), (lift_run _ _ _ _ Hcv).
      rewrite (run_bind_pure _ _ _ _ _ (row_health_spec _ _ _ _ _ _)).
      rewrite (run_bind_pure _ _ _ _ _ Hstep). cbv beta. rewrite Hr. simpl omap.
      simpl length. rewrite orb_true_r. unfold s2. simpl rows. unfold health_rows. simpl zip_with.
      by rewrite <- app_assoc.
    + simpl. constructor; [|done]. by exists (world s).
    + by apply worst_step.
Qed.

  (** What is probed: the catalog's targets, or Keystone itself when there is none. *)
Definition health_targets (auth_url : string) (ts : list (option (string * string)))
      : list (string * string) :=
    match omap id ts with [] => [("identity", auth_url)] | l => l end.

Lemma collect_health_run auth_url svcs ts interval (s : @state W) :
    parse_interval (getenv env "INTERVAL" "1m") = Ok interval → (0 < interval)%Z →
    mapM (service_target (getenv env "OS_INTERFACE" "internal")) svcs = Ok ts →
    rows s = [] →
    ∃ wstart checked results worst,
      (collect_health env urlopen now auth_url (VList svcs) s).1.1 =
        Ret (health_rows wstart checked (health_targets auth_url ts) results ++
             [health_doc wstart checked "_service" worst "worst of components"]) ∧
      in_window interval (now (world s)).1 wstart ∧
      Forall2 probed (health_targets auth_url ts) results ∧
      Forall (λ r, r.1 ∈ enum) results ∧ worst_of results.*1 worst.
Proof.
  intros Hi Hpos Hts Hrows.
  destruct (window_start_spec (now (world s)).1 interval Hpos) as (wstart & Hws & Hin).
  unfold collect_health. rewrite (lift_run _ _ _ _ Hi).
  assert (∀ st : @state W, time now st = (Ret (now (world st)).1, [],
    {| world := (now (world st)).2; rows := rows st |})) as Htime.
  { intros st. unfold time. by destruct (now (world st)). }
  rewrite (run_bind_pure _ _ _ _ _ (Htime s)), (lift_run _ _ _ _ Hws),
    (run_bind_pure _ _ _ _ _ (Htime _)).
  rewrite (lift_run (py_iter (VList svcs)) _ svcs _ eq_refl). cbn [world rows].
  set (checked := (now (now (world s)).2).1).
  set (s1 := {| world := (now (now (world s)).2).2; rows := rows s |}).
  destruct (health_loop_spec wstart checked (getenv env "OS_INTERFACE" "internal") svcs ts false
    "Unknown" s1 Hts ltac:(done)) as (results & worst & es & w & Hr & Hp & Hworst).
  rewrite (run_bind _ _ _ _ _ _ Hr). simpl rows in *. rewrite Hrows in *. simpl app in *.
  unfold health_targets.
  assert (∀ ts rs, Forall2 probed ts rs → Forall (λ r, r.1 ∈ enum) rs) as Henum.
  { induction 1 as [|t r l k [w' ->] Hl IH]; constructor; [apply classify_enum|done]. }
  destruct (omap id ts) as [|t targets] eqn:Et.
  - apply Forall2_nil_inv_l in Hp as ->. cbn [length Nat.eqb orb negb fst].
    destruct (probe_spec auth_url {| world := w; rows := [] |}) as (es1 & w1 & Hpr).
    cbn [world rows] in Hpr. set (r := classify (urlopen (probe_request auth_url) w).1) in *.
    exists wstart, checked, [r], r.1. split_and!.
    + assert ((let* p := probe env urlopen (VStr auth_url) in
               let* _ := row_health env wstart checked (VStr "identity") p.1 p.2 in
               mret p.1 : M string) {| world := w; rows := health_rows wstart checked [] [] |}
              = (Ret r.1, es1 ++ [],
                 {| world := w1; rows := [health_doc wstart checked "identity" r.1 r.2] |}))
        as Hid.
      { rewrite (run_bind _ _ _ _ _ _ Hpr).
        by rewrite (run_bind_pure _ _ _ _ _ (row_health_spec _ _ _ _ _ _)). }
      rewrite (run_bind _ _ _ _ _ _ Hid).
      by rewrite (run_bind_pure _ _ _ _ _ (row_health_spec _ _ _ _ _ _)).
    + done.
    + constructor; [by exists w|constructor].
    + constructor; [apply classify_enum|constructor].
    + split; [left|]. intros s'. simpl. rewrite list_elem_of_singleton. by intros ->.
  - exists wstart, checked, results, worst. split_and!; [|done|done|by eapply Henum|].
    + cbn [length Nat.eqb orb negb fst snd].
      rewrite (run_bind_pure (mret worst) _ _ worst _ eq_refl).
      by rewrite (run_bind_pure _ _ _ _ _ (row_health_spec _ _ _ _ _ _)).
    + inversion Hp; subst. done.
Qed.

  (** ** Usage *)

  (** The metrics of the contract, with their units. *)
Definition METRICS : list (string * string) :=
    [("instances.count", "count"); ("vcpu.used", "cores"); ("ram.used", "MiB");
     ("storage.used", "GiB"); ("floating_ips.count", "count"); ("vcpu.capacity", "cores");
     ("ram.capacity", "MiB"); ("storage.capacity", "GiB")].

  (** A row of the usage schema, in the window of [interval] seconds from [wstart]. *)
Definition conforming (wstart interval : Z) (r : val) : Prop :=
    ∃ metric unit tenant res q tags,
      (metric, unit) ∈ METRICS ∧ Forall (λ kv, is_str kv.2 = true) tags ∧
      r = VDict [
        ("record_id", VStr (deterministic_id
          [ORG env; tenant; SERVICE env; res; metric; fmt_rfc3339 wstart]));
        ("org", VStr (ORG env)); ("tenant", VStr tenant); ("service", VStr (SERVICE env));
        ("resource_id", VStr res); ("metric", VStr metric); ("quantity", VFloat q);
        ("unit", VStr unit); ("window_start", VStr (fmt wstart));
        ("window_end", VStr (fmt (wstart + interval))); ("tags", VDict tags);
        ("source", VStr (SOURCE env))].

Section Usage.
    Context (wstart interval : Z).
    Notation conf s := (Forall (conforming wstart interval) (rows s)).
    Notation kept := (keeps (λ s : @state W, conf s) (λ _, True)).

Lemma lift_kept {A} (r : res A) : kept (lift r).
Proof. destruct r; [apply keeps_ret|apply keeps_raise]. Qed.

Lemma lift_bind_kept {A B} (r : res A) (f : A → @M W B) :
      (∀ a, r = Ok a → kept (f a)) → kept (lift r ≫= f).
Proof.
  destruct r as [a|e]; intros Hf.
  - intros s Hs. rewrite (lift_run (Ok a) f a s eq_refl). by apply Hf.
  - intros s Hs. by split.
Qed.

Lemma send_kept r : kept (send urlopen r).
Proof.
  intros s Hs. unfold send. destruct (urlopen r (world s)) as [[?|?] w]; simpl;
    split; try done; by repeat constructor.
Qed.

Lemma row_kept metric unit qty res tenant tags :
      (metric, unit) ∈ METRICS → Forall (λ kv, is_str kv.2 = true) tags →
      kept (row env wstart interval metric qty unit res tenant tags).
Proof.
  intros Hm Ht. apply lift_bind_kept. intros r Hr. apply keeps_modify. intros s Hs. simpl.
  apply Forall_app. split; [done|]. constructor; [|constructor].
  unfold usage_row in Hr. apply bind_Ok in Hr as (tn & Htn & Hr).
  apply bind_Ok in Hr as (rs & Hrs & Hr). apply bind_Ok in Hr as (q & Hq & [= <-]).
  destruct tenant as [| | | |t| |]; try done. injection Htn as ->.
  destruct res as [| | | |u| |]; try done. injection Hrs as ->.
  by exists metric, unit, tn, rs, q, tags.
Qed.

Lemma split_tags_strings raw tags :
      split_tags raw = Ok tags → Forall (λ kv, is_str kv.2 = true) tags.
Proof.
  unfold split_tags. intros H.
  refine (foldM_invariant (Forall (λ kv : string * val, is_str kv.2 = true)) _ [] raw tags _ _ H);
    [|constructor].
  intros a t a' Ha Hs. destruct t as [| | | |s| |]; try done.
  destruct (partition_at ":" s) as [[k sep] v]. injection Hs as <-.
  clear -Ha. induction a as [|[j w] a IH]; simpl; [by repeat constructor|].
  apply Forall_cons in Ha as [Hj Ha]. destruct (String.eqb k j); constructor; auto.
Qed.

  (** Every list of rows [m] returns conforms. *)
Definition gives (m : @M W (list val)) : Prop :=
      ∀ s, conf s → ∀ rs, (m s).1.1 = Ret rs → Forall (conforming wstart interval) rs.

Lemma gives_bind {A} (m : @M W A) (f : A → @M W (list val)) :
      kept m → (∀ a, gives (f a)) → gives (m ≫= f).
Proof.
  intros Hm Hf s Hs rs. destruct (Hm s Hs) as [H1 _]. unfold mbind, Io_bind.
  destruct (m s) as [[[a|x] es] s1]; [|done]. specialize (Hf a s1 H1 rs).
  by destruct (f a s1) as [[o es'] s2].
Qed.

Ltac keep :=
  lazymatch goal with
  | |- keeps _ _ (lift _ ≫= _) => apply lift_bind_kept; intros
  | |- keeps _ _ (_ ≫= _) => apply keeps_bind; [|intros]
  | |- keeps _ _ (lift _) => apply lift_kept
  | |- keeps _ _ (mret _) => apply keeps_ret
  | |- keeps _ _ (send _ _) => apply send_kept
  | |- keeps _ _ (request _ _ _ _ _ _ _ _) => apply send_kept
  | |- keeps _ _ (log _) => by apply keeps_tell
  | |- keeps _ _ (try_ _ _) => apply keeps_try; [|intros]
  | |- keeps _ _ (best_effort _ _) => apply keeps_try; [|intros]
  | |- keeps _ _ (row _ _ _ _ _ _ _ _ _) => apply row_kept; [set_solver|]
  | |- keeps _ _ (when ?o _) => destruct o; cbn [when]
  | |- keeps _ _ (match ?o with Some _ => _ | None => _ end) => destruct o
  | |- keeps _ _ (let '(_, _) := ?p in _) => destruct p
  | |- keeps _ _ (if ?b then _ else _) => destruct b
  end.

Lemma get_json_kept u token : kept (get_json env urlopen u token).
Proof. unfold get_json. repeat keep. Qed.

Lemma project_usage_kept nova cinder token fips p :
      kept (project_usage env urlopen wstart interval nova cinder token fips p).
Proof.
  unfold project_usage, nova_usage, cinder_usage.
  repeat (apply get_json_kept || keep); by eapply split_tags_strings.
Qed.

Lemma capacity_kept u token :
      kept (nova_capacity env urlopen wstart interval u token) ∧
      kept (cinder_capacity env urlopen wstart interval u token).
Proof.
  unfold nova_capacity, cinder_capacity.
  split; repeat (apply get_json_kept || keep); constructor.
Qed.

Lemma collect_usage_gives auth_url token svcs (s : @state W) rs :
      parse_interval (getenv env "INTERVAL" "5m") = Ok interval →
      window_start (now (world s)).1 interval = Ok wstart → rows s = [] →
      (collect_usage env urlopen now auth_url token svcs s).1.1 = Ret rs →
      Forall (conforming wstart interval) rs.
Proof.
  intros Hi Hws Hrows. revert rs.
  unfold collect_usage. rewrite (lift_run _ _ _ _ Hi).
  assert (time now s = (Ret (now (world s)).1, [],
    {| world := (now (world s)).2; rows := rows s |})) as Htime.
  { unfold time. by destruct (now (world s)). }
  rewrite (run_bind_pure _ _ _ _ _ Htime), (lift_run _ _ _ _ Hws).
  assert (Forall (conforming wstart interval)
    (rows {| world := (now (world s)).2; rows := rows s |})) as Hs1 by (simpl; by rewrite Hrows).
  revert Hs1. generalize {| world := (now (world s)).2; rows := rows s |}.
  clear Htime s Hrows Hws Hi. apply gives_bind; [apply lift_kept|]. intros svcs'.
  do 5 (apply gives_bind; [repeat keep|intros ?]).
  apply gives_bind; [apply get_json_kept|intros d].
  apply gives_bind; [apply lift_kept|intros pl].
  apply gives_bind; [|intros fips].
  { unfold count_floating_ips. repeat (apply get_json_kept || keep). }
  apply gives_bind; [apply lift_kept|intros ps].
  apply gives_bind; [apply keeps_iterM; intros; apply project_usage_kept|intros _].
  apply gives_bind; [repeat keep; apply capacity_kept|intros _].
  apply gives_bind; [repeat keep; apply capacity_kept|intros _].
  intros st Hst rs [= <-]. done.
Qed.
End Usage.

  (** A project as Keystone lists it. *)
Definition good_project (p : val) : bool :=
    match getitem p "id", getitem p "name", get_default p "tags" (VList []) with
    | Ok (VStr _), Ok (VStr _), Ok (VList ts) => forallb is_str ts
    | _, _, _ => false
    end.

  (** The one exception a count can still raise: a double is too small for it. *)
Definition overflow (x : xn) : Prop := x = Py OverflowError.

Lemma only_lift_bind {A B} (r : res A) (f : A → @M W B) a :
    r = Ok a → only overflow (f a) → only overflow (lift r ≫= f).
Proof. intros Hr Hf s x. rewrite (lift_run _ _ _ _ Hr). apply Hf. Qed.

Lemma only_pure {A B} (m : @M W A) (f : A → @M W B) a :
    (∀ s, m s = (Ret a, [], s)) → only overflow (f a) → only overflow (m ≫= f).
Proof. intros Hm Hf s x. rewrite (run_bind_pure _ _ _ _ _ (Hm s)). apply Hf. Qed.

Lemma split_tags_total ts : forallb is_str ts = true → ∃ tags, split_tags ts = Ok tags.
Proof.
  unfold split_tags. generalize (@nil (string * val)) as acc.
  induction ts as [|t ts IH]; intros acc; [by exists acc|]. cbn [forallb].
  intros [Ht Hts]%andb_prop. destruct t as [| | | |s| |]; try done. cbn [foldM].
  destruct (partition_at ":" s) as [[k sep] v]. apply (IH _ Hts).
Qed.

Lemma when_only {A} (o : option A) (f : A → @M W ()) :
    (∀ a, only overflow (f a)) → only overflow (when o f).
Proof. intros Hf. destruct o; simpl; [apply Hf|apply only_ret]. Qed.

Lemma best_effort_only what (m : @M W ()) : only overflow (best_effort what m).
Proof. apply only_try. intros x. apply only_tell. Qed.

Lemma count_row_only wstart interval metric n unit (pid nm : string) tags :
    only overflow (@row env W wstart interval metric (VInt n) unit pid nm tags).
Proof.
  unfold row, usage_row. cbn [encode]. apply only_bind; [|intros; apply only_modify].
  simpl. unfold float_of_int. destruct (binary_normalize _ _ _ _ _); simpl;
    first [apply only_ret|by apply only_raise].
Qed.

Lemma project_usage_only wstart interval nova cinder token fips p :
    good_project p = true →
    only overflow (project_usage env urlopen wstart interval nova cinder token fips p).
Proof.
  unfold good_project.
  destruct (getitem p "id") as [[| | | |pid| |]|] eqn:Hid; try done.
  destruct (getitem p "name") as [[| | | |nm| |]|] eqn:Hnm; try done.
  destruct (get_default p "tags" (VList [])) as [[| | | | |ts|]|] eqn:Hts; try done.
  intros Hs. destruct (split_tags_total ts Hs) as (tags & Htags). unfold project_usage.
  apply (only_lift_bind _ _ _ Hid), (only_lift_bind _ _ _ Hnm), (only_lift_bind _ _ _ Hts).
  apply (only_lift_bind _ _ ts eq_refl), (only_lift_bind _ _ _ Htags).
  apply only_bind; [apply when_only; intros; apply best_effort_only|intros _].
  apply only_bind; [apply when_only; intros; apply best_effort_only|intros _].
  apply (only_lift_bind _ _ (VStr pid) eq_refl). apply when_only. intros n. apply count_row_only.
Qed.

Lemma count_floating_ips_only n token :
    only overflow (count_floating_ips env urlopen n token).
Proof. apply only_try. intros x. apply only_bind; [apply only_tell|intros _; apply only_ret]. Qed.

  (** The endpoints the collectors look up resolve. *)
Definition resolvable (svcs : list val) : Prop :=
    ∀ ty, ty ∈ ["identity"; "compute"; "volumev3"; "block-storage"; "network"] →
      ∃ o, endpoint_url env svcs ty = Ok o.

  (** The URL of the identity service, or the one authentication used. *)
Definition keystone_url (auth_url : string) (svcs : list val) : string :=
    match endpoint_url env svcs "identity" with
    | Ok o => default auth_url (nonempty o)
    | Raise _ => auth_url
    end.

  (** Whenever it is asked, Keystone lists these projects. *)
Definition lists_projects (auth_url token : string) (svcs ps : list val) : Prop :=
    ∀ w, ∃ r d, (urlopen (build_request env "GET" (keystone_url auth_url svcs +:+ "/projects")
                   token NoBody [] 15) w).1 = inl r ∧
      json_loads (content r) = Ok d ∧ get_default d "projects" (VList []) = Ok (VList ps).

Lemma get_json_run {B} u token (f : val → @M W B) (P : val → Prop) :
    (∀ w, ∃ r d, (urlopen (build_request env "GET" u token NoBody [] 15) w).1 = inl r ∧
       json_loads (content r) = Ok d ∧ P d) →
    (∀ d, P d → only overflow (f d)) → only overflow (get_json env urlopen u token ≫= f).
Proof.
  intros Hu Hf s x. destruct (Hu (world s)) as (r & d & Hr & Hd & HP).
  unfold get_json, request, send.
  destruct (urlopen (build_request env "GET" u token NoBody [] 15) (world s)) as [a w] eqn:E.
  simpl in Hr. subst a.
  assert ((let* r := (λ s0 : @state W, let '(a, w0) := urlopen
      (build_request env "GET" u token NoBody [] 15) (world s0) in
      (match a with inl p => Ret p | inr x0 => Exn x0 end,
        [Sent (build_request env "GET" u token NoBody [] 15) a],
        {| world := w0; rows := rows s0 |})) in lift (json_loads (content r)) : @M W val) s
    = (Ret d, [Sent (build_request env "GET" u token NoBody [] 15) (inl r)] ++ [],
       {| world := w; rows := rows s |})) as Hrun.
  { unfold mbind, Io_bind. rewrite E. simpl. by rewrite Hd. }
  rewrite (run_bind _ _ _ _ _ _ Hrun). intros H.
  destruct (f d _) as [[o es] s2] eqn:Ef. apply (Hf d HP {| world := w; rows := rows s |} x).
  by rewrite Ef.
Qed.

Lemma collect_usage_only auth_url token svcs ps interval :
    parse_interval (getenv env "INTERVAL" "5m") = Ok interval → (0 < interval)%Z →
    resolvable svcs → lists_projects auth_url token svcs ps →
    Forall (λ p, good_project p = true) ps →
    only overflow (collect_usage env urlopen now auth_url token (VList svcs)).
Proof.
  intros Hi Hpos Hres Hps Hgood. unfold collect_usage.
  apply (only_lift_bind _ _ _ Hi). apply only_bind.
  { intros s x. unfold time. by destruct (now (world s)). }
  intros t. destruct (window_start_spec t interval Hpos) as (wstart & Hws & _).
  apply (only_lift_bind _ _ _ Hws), (only_lift_bind _ _ svcs eq_refl).
  assert (∀ ty, ty ∈ ["identity"; "compute"; "volumev3"; "block-storage"; "network"] →
    ∃ o, endpoint_url env svcs ty = Ok o ∧ ∀ B (f : _ → @M W B), only overflow (f (nonempty o)) →
      only overflow ((let* o := lift (endpoint_url env svcs ty) in mret (nonempty o)) ≫= f))
    as Hep.
  { intros ty Hty. destruct (Hres ty Hty) as (o & Ho). exists o. split; [done|].
    intros B f. apply only_pure. intros s. by rewrite (lift_run _ _ _ _ Ho). }
  destruct (Hep "identity") as (ks & Hks & Hk1); [set_solver|]. apply Hk1.
  destruct (Hep "compute") as (nova & _ & Hk2); [set_solver|]. apply Hk2.
  destruct (Hep "volumev3") as (c3 & _ & Hk3); [set_solver|]. apply Hk3.
  apply only_bind.
  { destruct (nonempty c3); [apply only_ret|]. destruct (Hres "block-storage") as (o & Ho);
      [set_solver|]. apply (only_lift_bind _ _ _ Ho). apply only_ret. }
  intros cinder. destruct (Hep "network") as (neutron & _ & Hk4); [set_solver|]. apply Hk4.
  unfold lists_projects, keystone_url in Hps. rewrite Hks in Hps.
  eapply get_json_run; [exact Hps|]. intros d Hd.
  apply (only_lift_bind _ _ _ Hd). apply only_bind.
  { destruct (nonempty neutron); [apply count_floating_ips_only|apply only_ret]. }
  intros fips. apply (only_lift_bind _ _ ps eq_refl). apply only_bind.
  { apply only_iterM. eapply Forall_impl; [exact Hgood|]. intros p Hp.
    by apply project_usage_only. }
  intros _. apply only_bind; [apply when_only; intros; apply best_effort_only|intros _].
  apply only_bind; [apply when_only; intros; apply best_effort_only|intros _].
  apply only_gets.
Qed.

Lemma collect_usage_conforming auth_url token svcs interval (s : @state W) :
    parse_interval (getenv env "INTERVAL" "5m") = Ok interval → (0 < interval)%Z → rows s = [] →
    ∃ wstart, in_window interval (now (world s)).1 wstart ∧
      ∀ rs, (collect_usage env urlopen now auth_url token svcs s).1.1 = Ret rs →
        Forall (conforming wstart interval) rs.
Proof.
  intros Hi Hpos Hrows.
  destruct (window_start_spec (now (world s)).1 interval Hpos) as (wstart & Hws & Hin).
  exists wstart. split; [done|]. intros rs. by apply collect_usage_gives.
Qed.

  (** ** ClickHouse *)

  (** The parameters of a request to [base], as the server decodes them. *)
Definition params_of (base : string) (e : event) : option (list (string * string)) :=
    match e with
    | Sent r _ => q ← drop_prefix (base +:+ "/?") (url r); parse_query q
    | Logged _ => None
    end.

Definition answered (e : event) : bool :=
    match e with Sent _ (inl _) => true | _ => false end.

  (** What a query should carry. *)
Definition query_params (sql db : string) : list (string * string) :=
    ("query", sql) :: if String.eqb db "" then [] else [("database", db)].

Lemma drop_prefix_app p t : drop_prefix p (p +:+ t) = Some t.
Proof.
  induction p as [|c p IH]; [by destruct t|]. rewrite append_cons. simpl.
  by rewrite Ascii.eqb_refl.
Qed.

Lemma ch_query_run u sql b database (s : @state W) :
    env "CH_URL" = Some u →
    ∃ r a w, ch_query env urlopen sql b database s =
      (match a with inl p => Ret p | inr x => Exn x end, [Sent r a],
       {| world := w; rows := rows s |}) ∧
      data r = Some (default "" b) ∧
      params_of (rstrip_char "/" u) (Sent r a)
      = Some (query_params sql (default (usage_database env) database)).
Proof.
  intros Hu. unfold ch_query. unfold environ. rewrite Hu. rewrite (lift_run _ _ u s eq_refl).
  unfold request, send. set (r := build_request _ _ _ _ _ _ _).
  destruct (urlopen r (world s)) as [a w]. exists r, a, w. split; [done|]. split; [done|].
  unfold params_of, r. cbn [build_request url].
  rewrite <- (append_assoc _ "/?"), drop_prefix_app. simpl.
  apply parse_query_urlencode. done.
Qed.

Lemma bootstrap_run u (s : @state W) :
    env "CH_URL" = Some u →
    ∃ e1, params_of (rstrip_char "/" u) e1 = Some (query_params (create_database env) "") ∧
      ((ch_bootstrap_health_table env urlopen s).1.2 = [e1] ∧ answered e1 = false ∨
       ∃ e2, (ch_bootstrap_health_table env urlopen s).1.2 = [e1; e2] ∧ answered e1 = true ∧
         params_of (rstrip_char "/" u) e2
         = Some (query_params (create_table env) (usage_database env))).
Proof.
  intros Hu. unfold ch_bootstrap_health_table.
  destruct (ch_query_run u (create_database env) None (Some "") s Hu) as (r & a & w & Hr & _ & Hp).
  exists (Sent r a). split; [done|]. destruct a as [p|x].
  - right. rewrite (run_bind _ _ _ _ _ _ Hr).
    destruct (ch_query_run u (create_table env) None None {| world := w; rows := rows s |} Hu)
      as (r2 & a2 & w2 & Hr2 & _ & Hp2). exists (Sent r2 a2).
    destruct a2 as [p2|x2].
    + rewrite (run_bind _ _ _ _ _ _ Hr2). by split_and!.
    + rewrite (run_bind_exn _ _ _ _ _ _ Hr2). by split_and!.
  - left. by rewrite (run_bind_exn _ _ _ _ _ _ Hr).
Qed.

  (** ** The claims *)

  (** Whatever the services answer, [collect_health] returns: one row per catalog service
      with an endpoint on the interface (or one for Keystone when there is none), whose status
      is what the probe's answer maps to, one of OK, Warning, Critical and Unknown, and a last
      row [_service] with the status that ranks worst; all in the aligned window of the clock. *)
Theorem collect_health_rows auth_url svcs ts interval (s : @state W) :
    parse_interval (getenv env "INTERVAL" "1m") = Ok interval → (0 < interval)%Z →
    mapM (service_target (getenv env "OS_INTERFACE" "internal")) svcs = Ok ts →
    rows s = [] →
    ∃ wstart checked results worst,
      (collect_health env urlopen now auth_url (VList svcs) s).1.1 =
        Ret (health_rows wstart checked (health_targets auth_url ts) results ++
             [health_doc wstart checked "_service" worst "worst of components"]) ∧
      in_window interval (now (world s)).1 wstart ∧
      Forall2 probed (health_targets auth_url ts) results ∧
      Forall (λ r, r.1 ∈ enum) results ∧ worst_of results.*1 worst.
Proof. apply collect_health_run. Qed.

  (** C28: Every row [collect_usage] returns conforms: the columns of the usage schema, a metric
      of the contract in its unit, string tags, a float, the id of its own fields, and the
      aligned window the clock is in. *)
Theorem collect_usage_conforms auth_url token svcs interval (s : @state W) :
    parse_interval (getenv env "INTERVAL" "5m") = Ok interval → (0 < interval)%Z → rows s = [] →
    ∃ wstart, in_window interval (now (world s)).1 wstart ∧
      ∀ rs, (collect_usage env urlopen now auth_url token svcs s).1.1 = Ret rs →
        Forall (conforming wstart interval) rs.
Proof. apply collect_usage_conforming. Qed.

  (** The collectors are best-effort: once Keystone lists well-formed projects, nothing
      Nova, Cinder or Neutron answers, and no request they fail, keeps [collect_usage] from
      returning its rows, short of a count too large for a double. *)
Theorem collect_usage_survives auth_url token svcs ps interval (s : @state W) :
    parse_interval (getenv env "INTERVAL" "5m") = Ok interval → (0 < interval)%Z →
    resolvable svcs → lists_projects auth_url token svcs ps →
    Forall (λ p, good_project p = true) ps →
    (∃ rs, (collect_usage env urlopen now auth_url token (VList svcs) s).1.1 = Ret rs) ∨
    (collect_usage env urlopen now auth_url token (VList svcs) s).1.1 = Exn (Py OverflowError).
Proof.
  intros Hi Hpos Hres Hps Hgood.
  pose proof (collect_usage_only auth_url token svcs ps interval Hi Hpos Hres Hps Hgood s) as Ho.
  destruct (collect_usage _ _ _ _ _ _ s) as [[[rs|x] es] s1]; simpl in *; [eauto|].
  right. by rewrite (Ho x eq_refl).
Qed.

  (** A ClickHouse query is one request, whose URL decodes, byte for byte, to the SQL and,
      unless it is empty, the database that were meant, and which carries the given body. *)
Theorem ch_query_sends u sql b database (s : @state W) :
    env "CH_URL" = Some u →
    ∃ r a, (ch_query env urlopen sql b database s).1.2 = [Sent r a] ∧
      data r = Some (default "" b) ∧
      params_of (rstrip_char "/" u) (Sent r a)
      = Some (query_params sql (default (usage_database env) database)).
Proof.
  intros Hu. destruct (ch_query_run u sql b database s Hu) as (r & a & w & Hr & Hd & Hp).
  exists r, a. by rewrite Hr.
Qed.

  (** C29: The bootstrap first creates the health database with a request that names no
      database, and creates the table only when that was answered; the table is named in the
      health database, but its request is pinned to the usage database. *)
Theorem bootstrap_order u (s : @state W) :
    env "CH_URL" = Some u →
    ∃ e1, params_of (rstrip_char "/" u) e1 = Some (query_params (create_database env) "") ∧
      ((ch_bootstrap_health_table env urlopen s).1.2 = [e1] ∧ answered e1 = false ∨
       ∃ e2, (ch_bootstrap_health_table env urlopen s).1.2 = [e1; e2] ∧ answered e1 = true ∧
         params_of (rstrip_char "/" u) e2
         = Some (query_params (create_table env) (usage_database env))).
Proof. apply bootstrap_run. Qed.
End Runs.

(** ** The conformance test's control plane *)
Module Demo.
Definition env (k : string) : option string :=
  match k with
  | "CH_URL" => Some "http://clickhouse:8123/"
  | "CH_HEALTH_DATABASE" => Some "openstack_health"
  | _ => None
  end.
Definition now (_ : unit) : Z * unit := (1767225723%Z, ()).

Definition endpoint (ty nm u : string) : val :=
  VDict [("type", VStr ty); ("name", VStr nm); ("endpoints", VList [VDict [
    ("interface", VStr "internal"); ("url", VStr u)]])].
Definition catalog : list val :=
  [endpoint "identity" "keystone" "http://keystone.mock/v3";
   endpoint "compute" "nova" "http://nova.mock/v2.1";
   endpoint "volumev3" "cinder" "http://cinder.mock/v3";
   endpoint "network" "neutron" "http://neutron.mock"].

Definition projects : list val :=
  [VDict [("id", VStr "p1"); ("name", VStr "tenant-a");
          ("tags", VList [VStr "env:prod"; VStr "gpu"; VStr "cost-center:cc-42"])];
   VDict [("id", VStr "p2"); ("name", VStr "tenant-b"); ("tags", VList [])]].

Definition routes : list (string * val) :=
  [("http://keystone.mock/v3/projects", VDict [("projects", VList projects)]);
   ("http://neutron.mock/v2.0/floatingips", VDict [("floatingips", VList [
      VDict [("project_id", VStr "p1")]; VDict [("project_id", VStr "p1")];
      VDict [("project_id", VStr "p2")]])]);
   ("http://nova.mock/v2.1/limits?tenant_id=p1", VDict [("limits", VDict [("absolute", VDict [
      ("totalInstancesUsed", VInt 3); ("totalCoresUsed", VInt 8);
      ("totalRAMUsed", VInt 16384)])])]);
   ("http://cinder.mock/v3/os-quota-sets/p1?usage=True", VDict [("quota_set", VDict [
      ("gigabytes", VDict [("in_use", VInt 120); ("limit", VInt 1000)])])]);
   ("http://nova.mock/v2.1/os-hypervisors/statistics", VDict [("hypervisor_statistics",
      VDict [("vcpus", VInt 64); ("memory_mb", VInt 262144)])]);
   ("http://cinder.mock/v3/scheduler-stats/get_pools?detail=True", VDict [("pools", VList [
      VDict [("capabilities", VDict [("total_capacity_gb", VStr "500.0")])];
      VDict [("capabilities", VDict [("total_capacity_gb", VInt 250)])]])])].

Definition answer (v : val) : http_response + xn :=
  inl {| status := 200; resp_headers := []; content := json_dumps v |}.

(** Nova's limits of the second project and its Cinder quota are not there. *)
Definition usage_network (r : http_request) (w : unit) : (http_response + xn) * unit :=
  (match assoc (url r) routes with Some v => answer v | None => inr (HTTPError 404) end, w).

(** One endpoint per branch of the status mapping. *)
Definition health_network (r : http_request) (w : unit) : (http_response + xn) * unit :=
  (if startswith "http://keystone.mock" (url r) then answer (VDict [])
   else if startswith "http://nova.mock" (url r) then inr (HTTPError 503)
   else if startswith "http://cinder.mock" (url r) then inr (HTTPError 404)
   else inr Timeout, w).

Definition start : @state unit := {| world := (); rows := [] |}.
Definition usage_run := collect_usage env usage_network now "http://keystone.mock/v3" "tok"
  (VList catalog) start.
Definition health_run := collect_health env health_network now "http://keystone.mock/v3"
  (VList catalog) start.
Definition field (k : string) (r : val) : val :=
  match getitem r k with Ok v => v | Raise _ => VNone end.
Definition rows_of (o : outcome xn (list val)) : list val :=
  match o with Ret rs => rs | Exn _ => [] end.
End Demo.
Import Demo.

Definition mock_targets : list (option (string * string)) :=
  [Some ("identity", "http://keystone.mock/v3"); Some ("compute", "http://nova.mock/v2.1");
   Some ("volumev3", "http://cinder.mock/v3"); Some ("network", "http://neutron.mock")].

Lemma collect_health_rows_witness :
  map (λ r, (field "component" r, field "status" r)) (rows_of health_run.1.1)
  = [(VStr "identity", VStr "OK"); (VStr "compute", VStr "Critical");
     (VStr "volumev3", VStr "Warning"); (VStr "network", VStr "Unknown");
     (VStr "_service", VStr "Critical")] ∧
  ∃ wstart checked results worst,
    health_run.1.1 = Ret (health_rows env wstart checked
      (health_targets "http://keystone.mock/v3" mock_targets) results ++
      [health_doc env wstart checked "_service" worst "worst of components"]) ∧
    in_window 60 1767225723 wstart ∧
    Forall2 (probed env health_network) (health_targets "http://keystone.mock/v3" mock_targets)
      results ∧
    Forall (λ r, r.1 ∈ enum) results ∧ worst_of results.*1 worst.
Proof.
  split; [vm_compute; reflexivity|].
  exact (collect_health_rows env health_network now "http://keystone.mock/v3" catalog mock_targets
    60 start eq_refl eq_refl eq_refl eq_refl).
Defined.

Lemma collect_usage_conforms_witness :
  length (rows_of usage_run.1.1) = 9%nat ∧
  ∃ wstart, in_window 300 1767225723 wstart ∧
    ∀ rs, usage_run.1.1 = Ret rs → Forall (conforming env wstart 300) rs.
Proof.
  split; [vm_compute; reflexivity|].
  exact (collect_usage_conforms env usage_network now "http://keystone.mock/v3" "tok"
    (VList catalog) 300 start eq_refl eq_refl eq_refl).
Defined.

Lemma collect_usage_survives_witness :
  (∃ rs, usage_run.1.1 = Ret rs) ∨ usage_run.1.1 = Exn (Py OverflowError).
Proof.
  apply (collect_usage_survives env usage_network now "http://keystone.mock/v3" "tok" catalog
    projects 300 start); [reflexivity|reflexivity| | |].
  - intros ty. rewrite !elem_of_cons. intros [->|[->|[->|[->|[->|H]]]]].
    + by eexists.
    + by eexists.
    + by eexists.
    + by eexists.
    + by eexists.
    + by apply not_elem_of_nil in H.
  - intros w. exists {| status := 200; resp_headers := [];
      content := json_dumps (VDict [("projects", VList projects)]) |},
      (VDict [("projects", VList projects)]).
    split_and!; vm_compute; reflexivity.
  - repeat constructor.
Defined.

Lemma ch_query_sends_witness :
  ∃ r a, (ch_query env health_network "INSERT INTO a.b FORMAT JSONEachRow" (Some "{}")
            (Some "a&b=1%") start).1.2 = [Sent r a] ∧
    data r = Some "{}" ∧
    params_of "http://clickhouse:8123" (Sent r a)
    = Some [("query", "INSERT INTO a.b FORMAT JSONEachRow"); ("database", "a&b=1%")].
Proof.
  exact (ch_query_sends env health_network "http://clickhouse:8123/" _ (Some "{}")
    (Some "a&b=1%") start eq_refl).
Defined.

(** Every request is answered. *)
Definition willing (r : http_request) (w : unit) : (http_response + xn) * unit :=
  (answer VNone, w).

Lemma bootstrap_order_witness :
  map (params_of "http://clickhouse:8123") (ch_bootstrap_health_table env willing start).1.2
  = [Some [("query", "CREATE DATABASE IF NOT EXISTS openstack_health")];
     Some [("query", create_table env); ("database", "showback")]] ∧
  ∃ e1, params_of "http://clickhouse:8123" e1 = Some (query_params (create_database env) "") ∧
    ((ch_bootstrap_health_table env willing start).1.2 = [e1] ∧ answered e1 = false ∨
     ∃ e2, (ch_bootstrap_health_table env willing start).1.2 = [e1; e2] ∧ answered e1 = true ∧
       params_of "http://clickhouse:8123" e2 = Some (query_params (create_table env) "showback")).
Proof.
  split; [vm_compute; reflexivity|].
  exact (bootstrap_order env willing "http://clickhouse:8123/" start eq_refl).
Defined.
End EmitterRuns.
