(* ===== verification/Base64.v ===== *)
(** * base64.b64decode, and decoding the bytes as UTF-8

    The decoder skips characters outside the alphabet and stops at the padding, as
    binascii.a2b_base64 does when it is not strict. Text is kept as its UTF-8 bytes. *)
From S2P Require Import Prelude PyStr.
#[local] Open Scope string_scope.

Definition sextet (c : ascii) : option Z :=
  let n := code c in
  (if (65 <=? n) && (n <=? 90) then Some (n - 65)
   else if (97 <=? n) && (n <=? 122) then Some (n - 71)
   else if (48 <=? n) && (n <=? 57) then Some (n + 4)
   else if n =? 43 then Some 62
   else if n =? 47 then Some 63
   else None)%Z.

(** [quad]: how many characters of a group of four were read; [left]: the bits kept from them;
    [pads]: the padding seen since. *)
Fixpoint a2b (quad pads : nat) (left : Z) (s : string) : option string :=
  match s with
  | EmptyString => match quad with O => Some EmptyString | _ => None end
  | String c s' =>
      if Ascii.eqb c "=" then
        if ((2 <=? quad) && (4 <=? quad + S pads))%nat%bool then Some EmptyString
        else a2b quad (if (2 <=? quad)%nat then S pads else pads) left s'
      else
        match sextet c with
        | None => a2b quad pads left s'
        | Some v =>
            match quad with
            | O => a2b 1 0 v s'
            | 1%nat => option_map (String (char (left * 4 + v / 16)%Z)) (a2b 2 0 (v mod 16)%Z s')
            | 2%nat => option_map (String (char (left * 16 + v / 4)%Z)) (a2b 3 0 (v mod 4)%Z s')
            | _ => option_map (String (char (left * 64 + v)%Z)) (a2b 0 0 0%Z s')
            end
        end
  end.

Definition between (lo hi : Z) (c : ascii) : bool := ((lo <=? code c) && (code c <=? hi))%Z.
Definition tail_byte : ascii → bool := between 128 191.

(** Well-formed UTF-8: no overlong form, no surrogate, nothing above U+10FFFF. *)
Fixpoint utf8_valid (s : string) : bool :=
  match s with
  | EmptyString => true
  | String c t =>
      if between 0 127 c then utf8_valid t
      else match t with
      | String d t2 =>
          if between 194 223 c then tail_byte d && utf8_valid t2
          else match t2 with
          | String e t3 =>
              if between 224 239 c then
                (if Ascii.eqb c (char 224) then between 160 191 d
                 else if Ascii.eqb c (char 237) then between 128 159 d else tail_byte d)
                && tail_byte e && utf8_valid t3
              else match t3 with
              | String f t4 =>
                  between 240 244 c
                  && (if Ascii.eqb c (char 240) then between 144 191 d
                      else if Ascii.eqb c (char 244) then between 128 143 d else tail_byte d)
                  && tail_byte e && tail_byte f && utf8_valid t4
              | EmptyString => false
              end
          | EmptyString => false
          end
      | EmptyString => false
      end
  end.

(** [base64.b64decode(s).decode()]; [None] stands for the exception either step raises. *)
Definition b64decode_text (s : string) : option string :=
  if all_chars (between 0 127) s then
    match a2b 0 0 0 s with
    | Some t => if utf8_valid t then Some t else None
    | None => None
    end
  else None.

(** [base64.b64decode(s, validate=True)]: the whole text is of the alphabet, then at most two
    padding characters. The bytes are kept as they are. *)
Definition is_alphabet (c : ascii) : bool := match sextet c with Some _ => true | None => false end.
Definition is_padding (s : string) : bool :=
  String.eqb s "" || String.eqb s "=" || String.eqb s "==".
Definition b64decode_strict (s : string) : option string :=
  if is_padding (lstrip_by is_alphabet s) then a2b 0 0 0 s else None.

Example b64_hello : b64decode_text "aGVs
bG8=" = Some "hello".
Proof. vm_compute. reflexivity. Qed.
Example b64_errors : (b64decode_text "aGVsb", b64decode_text "aGVsbG", b64decode_text "/w==") = (None, None, None).
Proof. vm_compute. reflexivity. Qed.
