(* ===== verification/PyRe.v ===== *)
(** * Regular expressions, as Python's re module matches them

    [compile] parses a pattern into its syntax tree; [run] is the backtracking matcher (leftmost,
    first alternative first, repetitions greedy unless marked lazy); [denotes] is what a pattern
    means without an order of attempts, and [run_sound] and [run_complete] relate the two. The
    classes \s, \d and \w are those of ASCII. *)
From S2P Require Import Prelude PyStr.
From Stdlib Require Import Relations.
#[local] Open Scope string_scope.
#[local] Open Scope list_scope.

(** ** Patterns *)

Inductive citem :=
  | Range (a b : ascii) | Space | NotSpace | Digit | NotDigit | Word | NotWord.

Inductive re :=
  | Eps
  | Set_ (neg : bool) (items : list citem)
  | Dot
  | Seq (a b : re)
  | Alt (a b : re)
  | Star (greedy : bool) (a : re)
  | Grp (n : nat) (a : re)
  | Bol | Eol | WordB
  | Ahead (want : bool) (a : re).

(** IGNORECASE, MULTILINE, DOTALL *)
Record flags := { fl_i : bool; fl_m : bool; fl_s : bool }.
Definition no_flags : flags := {| fl_i := false; fl_m := false; fl_s := false |}.
Definition I_ : flags := {| fl_i := true; fl_m := false; fl_s := false |}.
Definition M_ : flags := {| fl_i := false; fl_m := true; fl_s := false |}.
Definition MS : flags := {| fl_i := false; fl_m := true; fl_s := true |}.

Definition is_word (c : ascii) : bool :=
  let n := code c in
  (((48 <=? n) && (n <=? 57)) || ((65 <=? n) && (n <=? 90)) || ((97 <=? n) && (n <=? 122))
   || (n =? 95))%Z.

Definition in_item (c : ascii) (i : citem) : bool :=
  match i with
  | Range a b => ((code a <=? code c) && (code c <=? code b))%Z
  | Space => is_space c | NotSpace => negb (is_space c)
  | Digit => is_digit c | NotDigit => negb (is_digit c)
  | Word => is_word c | NotWord => negb (is_word c)
  end.

Definition in_set (fl : flags) (neg : bool) (items : list citem) (c : ascii) : bool :=
  xorb neg
    (existsb (in_item c) items
     || (fl_i fl && (existsb (in_item (lower_char c)) items
                     || existsb (in_item (upper_char c)) items))).

(** ** Parsing a pattern *)

Definition literal (c : ascii) : re := Set_ false [Range c c].

(** The class or character an escape stands for, inside or outside brackets. *)
Definition escape_item (c : ascii) : citem :=
  if Ascii.eqb c "s" then Space else if Ascii.eqb c "S" then NotSpace
  else if Ascii.eqb c "d" then Digit else if Ascii.eqb c "D" then NotDigit
  else if Ascii.eqb c "w" then Word else if Ascii.eqb c "W" then NotWord
  else if Ascii.eqb c "n" then Range (char 10) (char 10)
  else if Ascii.eqb c "t" then Range (char 9) (char 9)
  else Range c c.

(** The body of a bracketed class, up to its closing bracket. *)
Fixpoint parse_items (fuel : nat) (s : string) : option (list citem * string) :=
  match fuel with
  | O => None
  | S fuel =>
      match s with
      | EmptyString => None
      | String "]" s' => Some ([], s')
      | String "\" (String c s') =>
          match parse_items fuel s' with
          | Some (l, t) => Some (escape_item c :: l, t) | None => None end
      | String a (String "-" (String b s')) =>
          if Ascii.eqb b "]"
          then Some ([Range a a; Range "-" "-"], s')
          else match parse_items fuel s' with
               | Some (l, t) => Some (Range a b :: l, t) | None => None end
      | String a s' =>
          match parse_items fuel s' with
          | Some (l, t) => Some (Range a a :: l, t) | None => None end
      end
  end.

Fixpoint repeat_re (n : nat) (r : re) : re :=
  match n with O => Eps | S n => Seq r (repeat_re n r) end.
Fixpoint upto_re (n : nat) (r : re) : re :=
  match n with O => Eps | S n => Alt (Seq r (upto_re n r)) Eps end.

(** The digits at the head of [s]. *)
Fixpoint read_nat (acc : nat) (seen : bool) (s : string) : option nat * string :=
  match s with
  | String c s' =>
      if is_digit c then read_nat (10 * acc + Z.to_nat (code c - 48)) true s'
      else (if seen then Some acc else None, s)
  | EmptyString => (if seen then Some acc else None, s)
  end.

(** The quantifier after an atom, if there is one. *)
Definition quantify (r : re) (s : string) : re * string :=
  match s with
  | String "*" (String "?" s') => (Star false r, s')
  | String "*" s' => (Star true r, s')
  | String "+" (String "?" s') => (Seq r (Star false r), s')
  | String "+" s' => (Seq r (Star true r), s')
  | String "?" s' => (Alt r Eps, s')
  | String "{" s' =>
      match read_nat 0 false s' with
      | (Some m, String "}" t) => (repeat_re m r, t)
      | (Some m, String "," t) =>
          match read_nat 0 false t with
          | (None, String "}" t') => (Seq (repeat_re m r) (Star true r), t')
          | (Some n, String "}" t') => (Seq (repeat_re m r) (upto_re (n - m) r), t')
          | _ => (r, s)
          end
      | _ => (r, s)
      end
  | _ => (r, s)
  end.

(** What follows the name of a named group, which is a numbered group here. *)
Fixpoint after_name (s : string) : string :=
  match s with
  | EmptyString => EmptyString
  | String ">" s' => s'
  | String _ s' => after_name s'
  end.

(** An alternation, up to the end or a closing parenthesis; [g] is the next group's number. *)
Fixpoint parse_alt (fuel g : nat) (s : string) {struct fuel} : option (re * nat * string) :=
  match fuel with
  | O => None
  | S fuel =>
      match parse_seq fuel g s with
      | Some (a, g1, String "|" s1) =>
          match parse_alt fuel g1 s1 with
          | Some (b, g2, s2) => Some (Alt a b, g2, s2)
          | None => None
          end
      | r => r
      end
  end
with parse_seq (fuel g : nat) (s : string) {struct fuel} : option (re * nat * string) :=
  match fuel with
  | O => None
  | S fuel =>
      match s with
      | EmptyString | String ")" _ | String "|" _ => Some (Eps, g, s)
      | _ =>
          match parse_atom fuel g s with
          | Some (a, g1, s1) =>
              let '(q, s2) := quantify a s1 in
              match parse_seq fuel g1 s2 with
              | Some (Eps, g2, s3) => Some (q, g2, s3)
              | Some (b, g2, s3) => Some (Seq q b, g2, s3)
              | None => None
              end
          | None => None
          end
      end
  end
with parse_atom (fuel g : nat) (s : string) {struct fuel} : option (re * nat * string) :=
  match fuel with
  | O => None
  | S fuel =>
      let close (f : re → re) (r : option (re * nat * string)) :=
        match r with
        | Some (a, g', String ")" t) => Some (f a, g', t)
        | _ => None
        end in
      match s with
      | EmptyString => None
      | String "(" (String "?" (String ":" s')) => close id (parse_alt fuel g s')
      | String "(" (String "?" (String "!" s')) => close (Ahead false) (parse_alt fuel g s')
      | String "(" (String "?" (String "=" s')) => close (Ahead true) (parse_alt fuel g s')
      | String "(" (String "?" (String "P" (String "<" s'))) =>
          close (Grp g) (parse_alt fuel (S g) (after_name s'))
      | String "(" s' => close (Grp g) (parse_alt fuel (S g) s')
      | String "[" (String "^" s') =>
          match parse_items fuel s' with Some (l, t) => Some (Set_ true l, g, t) | None => None end
      | String "[" s' =>
          match parse_items fuel s' with Some (l, t) => Some (Set_ false l, g, t) | None => None end
      | String "." s' => Some (Dot, g, s')
      | String "^" s' => Some (Bol, g, s')
      | String "$" s' => Some (Eol, g, s')
      | String "\" (String "b" s') => Some (WordB, g, s')
      | String "\" (String c s') => Some (Set_ false [escape_item c], g, s')
      | String c s' =>
          if Ascii.eqb c "*" || Ascii.eqb c "+" || Ascii.eqb c "?" || Ascii.eqb c "\"
          then None else Some (literal c, g, s')
      end
  end.

(** [re.compile(s)]; [None] is [re.error]. *)
Definition compile (s : string) : option re :=
  match parse_alt (3 * String.length s + 3) 1 s with
  | Some (r, _, EmptyString) => Some r
  | _ => None
  end.

(** A pattern that is a constant of the program. *)
Definition the {A} (o : option A) (dflt : A) : A := match o with Some a => a | None => dflt end.

(** Patterns are written with a backquote for each double quote. *)
Fixpoint dq (s : string) : string :=
  match s with
  | EmptyString => EmptyString
  | String c s' => String (if Ascii.eqb c "`" then char 34 else c) (dq s')
  end.

(** ** Matching *)

(** A position in the text: the character before it, the text from it, its index, and the
    groups closed on the way, the latest first. *)
Record st := {
  prev : option ascii; rest : string; pos : nat; caps : list (nat * string) }.

Definition start (s : string) : st := {| prev := None; rest := s; pos := 0; caps := [] |}.

Definition at_bol (fl : flags) (s : st) : bool :=
  match prev s with
  | None => true
  | Some c => fl_m fl && Ascii.eqb c (char 10)
  end.

Definition at_eol (fl : flags) (s : st) : bool :=
  match rest s with
  | EmptyString => true
  | String c t => Ascii.eqb c (char 10) && (fl_m fl || String.eqb t EmptyString)
  end.

Definition at_word_boundary (s : st) : bool :=
  xorb (match prev s with Some c => is_word c | None => false end)
       (match rest s with String c _ => is_word c | EmptyString => false end).

(** One character read. *)
Definition step (p : ascii → bool) (s : st) : option st :=
  match rest s with
  | String c t =>
      if p c then Some {| prev := Some c; rest := t; pos := S (pos s); caps := caps s |} else None
  | EmptyString => None
  end.

Definition dot (fl : flags) (c : ascii) : bool := fl_s fl || negb (Ascii.eqb c (char 10)).

(** The text between two positions, and a group closed with it. *)
Definition between (s s' : st) : string := substring 0 (pos s' - pos s) (rest s).
Definition capture (n : nat) (s s' : st) : st :=
  {| prev := prev s'; rest := rest s'; pos := pos s'; caps := (n, between s s') :: caps s' |}.

(** Repetition of what [ra] matches; an iteration that reads nothing ends the attempt. *)
Fixpoint repeat_ (ra : st → (st → option st) → option st) (greedy : bool) (k : st → option st)
    (fuel : nat) (s : st) : option st :=
  let again :=
    match fuel with
    | O => None
    | S fuel => ra s (λ s', if Nat.eqb (pos s') (pos s) then None else repeat_ ra greedy k fuel s')
    end in
  if greedy then match again with Some x => Some x | None => k s end
  else match k s with Some x => Some x | None => again end.

Fixpoint run (fl : flags) (r : re) (s : st) (k : st → option st) {struct r} : option st :=
  match r with
  | Eps => k s
  | Set_ neg items => match step (in_set fl neg items) s with Some s' => k s' | None => None end
  | Dot => match step (dot fl) s with Some s' => k s' | None => None end
  | Seq a b => run fl a s (λ s', run fl b s' k)
  | Alt a b => match run fl a s k with Some x => Some x | None => run fl b s k end
  | Star greedy a => repeat_ (run fl a) greedy k (String.length (rest s)) s
  | Grp n a => run fl a s (λ s', k (capture n s s'))
  | Bol => if at_bol fl s then k s else None
  | Eol => if at_eol fl s then k s else None
  | WordB => if at_word_boundary s then k s else None
  | Ahead want a =>
      if Bool.eqb want (match run fl a s Some with Some _ => true | None => false end)
      then k s else None
  end.

Record found := { m_start : nat; m_end : nat; m_text : string; m_groups : list (nat * string) }.

Definition found_at (s s' : st) : found :=
  {| m_start := pos s; m_end := pos s'; m_text := between s s'; m_groups := caps s' |}.

Fixpoint lookup_group (n : nat) (l : list (nat * string)) : option string :=
  match l with
  | [] => None
  | (i, t) :: l' => if Nat.eqb i n then Some t else lookup_group n l'
  end.

(** [m.group(n)]: the whole match for 0, [None] for a group that took no part. *)
Definition group (m : found) (n : nat) : option string :=
  match n with O => Some (m_text m) | _ => lookup_group n (m_groups m) end.

(** [m.group(n)] of a group that every match closes. *)
Definition group' (m : found) (n : nat) : string := default EmptyString (group m n).

(** [r.match(s)] *)
Definition match_here (fl : flags) (r : re) (s : st) : option found :=
  option_map (found_at s) (run fl r s Some).
Definition re_match (fl : flags) (r : re) (s : string) : option found := match_here fl r (start s).

(** The position one character on. *)
Definition advance (s : st) : option st :=
  match rest s with
  | String c t => Some {| prev := Some c; rest := t; pos := S (pos s); caps := [] |}
  | EmptyString => None
  end.

(** The first match at or after [s], with the position it ends at. *)
Fixpoint search_from (fl : flags) (r : re) (fuel : nat) (s : st) : option (found * st) :=
  match run fl r s Some with
  | Some s' => Some (found_at s s', s')
  | None =>
      match fuel, advance s with
      | S fuel, Some s1 => search_from fl r fuel s1
      | _, _ => None
      end
  end.

(** [r.search(s)] *)
Definition search (fl : flags) (r : re) (s : string) : option found :=
  option_map fst (search_from fl r (String.length s) (start s)).

(** [r.finditer(s)], for a pattern that no empty string matches. *)
Fixpoint finditer_from (fl : flags) (r : re) (fuel : nat) (s : st) : list found :=
  match fuel with
  | O => []
  | S fuel =>
      match search_from fl r (String.length (rest s)) s with
      | None => []
      | Some (m, s') =>
          m :: match (if Nat.eqb (m_end m) (m_start m) then advance s'
                      else Some {| prev := prev s'; rest := rest s'; pos := pos s'; caps := [] |}) with
               | Some s1 => finditer_from fl r fuel s1
               | None => []
               end
      end
  end.
Definition finditer (fl : flags) (r : re) (s : string) : list found :=
  finditer_from fl r (S (String.length s)) (start s).

(** [bool(r.search(s))], [bool(r.match(s))] *)
Definition searches (fl : flags) (r : re) (s : string) : bool :=
  match search fl r s with Some _ => true | None => false end.
Definition matches (fl : flags) (r : re) (s : string) : bool :=
  match re_match fl r s with Some _ => true | None => false end.

(** ** What a pattern denotes *)

(** Iterations of a step that moves. *)
Inductive iter (R : st → st → Prop) : st → st → Prop :=
  | iter_done s : iter R s s
  | iter_more s1 s2 s3 : R s1 s2 → pos s2 ≠ pos s1 → iter R s2 s3 → iter R s1 s3.

Fixpoint denotes (fl : flags) (r : re) (s s' : st) {struct r} : Prop :=
  match r with
  | Eps => s' = s
  | Set_ neg items => step (in_set fl neg items) s = Some s'
  | Dot => step (dot fl) s = Some s'
  | Seq a b => ∃ t, denotes fl a s t ∧ denotes fl b t s'
  | Alt a b => denotes fl a s s' ∨ denotes fl b s s'
  | Star _ a => iter (denotes fl a) s s'
  | Grp n a => ∃ t, denotes fl a s t ∧ s' = capture n s t
  | Bol => at_bol fl s = true ∧ s' = s
  | Eol => at_eol fl s = true ∧ s' = s
  | WordB => at_word_boundary s = true ∧ s' = s
  | Ahead want a => s' = s ∧ ((∃ t, denotes fl a s t) ↔ want = true)
  end.

(** ** The matcher finds exactly what the pattern denotes *)

Lemma step_pos p s s' :
  step p s = Some s' →
  pos s' = S (pos s) ∧ String.length (rest s) = S (String.length (rest s')).
Proof.
  unfold step. destruct (rest s) as [|c t]; [done|]. destruct (p c); [|done].
  by intros [= <-].
Qed.

(** The text read and the text left make up the text. *)
Lemma denotes_pos fl r s s' :
  denotes fl r s s' →
  (pos s ≤ pos s' ∧ pos s' + String.length (rest s') = pos s + String.length (rest s))%nat.
Proof.
  revert s s'. induction r as [|neg items| |a IHa b IHb|a IHa b IHb|g a IHa|n a IHa| | | |w a IHa];
    intros s s'; simpl.
  - by intros ->.
  - intros H. apply step_pos in H. lia.
  - intros H. apply step_pos in H. lia.
  - intros (t & Ha & Hb). apply IHa in Ha. apply IHb in Hb. lia.
  - intros [H|H]; [by apply IHa in H|by apply IHb in H].
  - induction 1 as [s|s1 s2 s3 H1 _ _ IH]; [lia|]. apply IHa in H1. lia.
  - intros (t & Ha & ->). apply IHa in Ha. simpl. lia.
  - by intros [_ ->].
  - by intros [_ ->].
  - by intros [_ ->].
  - by intros [-> _].
Qed.

(** What [run] answers for a continuation [k], for a set [D] of end positions. *)
Definition answers (o : option st) (D : st → Prop) (k : st → option st) : Prop :=
  match o with
  | Some x => ∃ s', D s' ∧ k s' = Some x
  | None => ∀ s', D s' → k s' = None
  end.

Lemma answers_iff o D D' k : (∀ s, D s ↔ D' s) → answers o D k → answers o D' k.
Proof. intros H. destruct o; simpl; [intros (x & Hx & Hk); exists x|intros Hk x Hx]; firstorder. Qed.

Lemma answers_here o (b : bool) s k :
  o = (if b then k s else None) → answers o (λ s', b = true ∧ s' = s) k.
Proof.
  intros ->. destruct b; simpl.
  - destruct (k s) eqn:E; simpl; [by exists s|]. by intros ? [_ ->].
  - by intros ? [? _].
Qed.

Lemma answers_step p s k :
  answers (match step p s with Some s' => k s' | None => None end) (λ s', step p s = Some s') k.
Proof.
  destruct (step p s) as [s'|]; simpl; [|done].
  destruct (k s') eqn:E; simpl; [by exists s'|]. by intros ? [= <-].
Qed.

(** One alternative after the other. *)
Lemma answers_or o1 o2 D1 D2 k :
  answers o1 D1 k → answers o2 D2 k →
  answers (match o1 with Some x => Some x | None => o2 end) (λ s, D1 s ∨ D2 s) k.
Proof.
  destruct o1 as [x|]; simpl; [intros (s & Hs & Hk) _; exists s; auto|].
  intros H1. destruct o2 as [x|]; simpl; [intros (s & Hs & Hk); exists s; auto|].
  intros H2 s [Hs|Hs]; auto.
Qed.

Lemma repeat_answers fl a g k :
  (∀ s k, answers (run fl a s k) (denotes fl a s) k) →
  ∀ fuel s, (String.length (rest s) ≤ fuel)%nat →
  answers (repeat_ (run fl a) g k fuel s) (iter (denotes fl a) s) k.
Proof.
  intros IHa. induction fuel as [|fuel IH]; intros s Hs.
  - eapply answers_iff; [|apply (answers_here _ true s); simpl; destruct g; [done|by destruct (k s)]].
    intros s'. split; [intros [_ ->]; constructor|].
    inversion 1 as [|? s2 ? H1 H2]; subst; [done|]. apply denotes_pos in H1. lia.
  - assert (answers (run fl a s (λ s', if Nat.eqb (pos s') (pos s) then None
                                       else repeat_ (run fl a) g k fuel s'))
      (λ s', ∃ s2, denotes fl a s s2 ∧ pos s2 ≠ pos s ∧ iter (denotes fl a) s2 s') k) as Hagain.
    { specialize (IHa s (λ s', if Nat.eqb (pos s') (pos s) then None
                               else repeat_ (run fl a) g k fuel s')).
      assert (∀ t, denotes fl a s t → pos t ≠ pos s → String.length (rest t) ≤ fuel)%nat as Hlen
        by (intros t Ht; apply denotes_pos in Ht; lia).
      destruct (run fl a s _) as [x|]; simpl in *.
      - destruct IHa as (t & Ha & Ht). destruct (Nat.eqb_spec (pos t) (pos s)) as [|Hne]; [done|].
        specialize (IH t (Hlen t Ha Hne)). rewrite Ht in IH. destruct IH as (s' & Hi & Hk). eauto 10.
      - intros s' (t & Ha & Hne & Hi). specialize (IHa t Ha). specialize (IH t (Hlen t Ha Hne)).
        apply Nat.eqb_neq in Hne. rewrite Hne in IHa. rewrite IHa in IH. by apply IH. }
    assert (answers (k s) (λ s', true = true ∧ s' = s) k) as Hstop by by apply answers_here.
    simpl. destruct g.
    + eapply answers_iff; [|exact (answers_or _ _ _ _ _ Hagain Hstop)].
      intros s'. split; [intros [(t & H1 & H2 & H3)|[_ ->]]; [exact (iter_more _ _ _ _ H1 H2 H3)|constructor]|].
      inversion 1 as [|? s2 ? H1 H2 H3]; subst; [by right|left; by exists s2].
    + eapply answers_iff; [|exact (answers_or _ _ _ _ _ Hstop Hagain)].
      intros s'. split; [intros [[_ ->]|(t & H1 & H2 & H3)]; [constructor|exact (iter_more _ _ _ _ H1 H2 H3)]|].
      inversion 1 as [|? s2 ? H1 H2 H3]; subst; [by left|right; by exists s2].
Qed.

Lemma run_answers fl r : ∀ s k, answers (run fl r s k) (denotes fl r s) k.
Proof.
  induction r as [|neg items| |a IHa b IHb|a IHa b IHb|g a IHa|n a IHa| | | |w a IHa];
    intros s k; simpl run; simpl denotes.
  - apply (answers_iff _ (λ s', true = true ∧ s' = s)); [naive_solver|]. by apply answers_here.
  - apply answers_step.
  - apply answers_step.
  - specialize (IHa s (λ s', run fl b s' k)).
    destruct (run fl a s (λ s', run fl b s' k)) as [x|]; simpl in *.
    + destruct IHa as (t & Ha & Hb). specialize (IHb t k). rewrite Hb in IHb. simpl in IHb.
      destruct IHb as (s' & Hb' & Hk). exists s'. eauto.
    + intros s' (t & Ha & Hb). specialize (IHb t k). rewrite (IHa t Ha) in IHb. by apply IHb.
  - by apply answers_or.
  - by apply repeat_answers.
  - specialize (IHa s (λ s', k (capture n s s'))).
    destruct (run fl a s _) as [x|]; simpl in *.
    + destruct IHa as (t & Ha & Hk). exists (capture n s t). eauto.
    + intros s' (t & Ha & ->). by apply IHa.
  - by apply answers_here.
  - by apply answers_here.
  - by apply answers_here.
  - specialize (IHa s Some).
    apply (answers_iff _ (λ s', Bool.eqb w (match run fl a s Some with Some _ => true | None => false end)
                            = true ∧ s' = s)); [|by apply answers_here].
    intros s'. rewrite Bool.eqb_true_iff. destruct (run fl a s Some) as [x|]; simpl in *.
    + destruct IHa as (t & Ha & _). split.
      * intros [-> ->]. split; [done|]. split; eauto.
      * intros [-> H]. split; [|done]. apply H. eauto.
    + split.
      * intros [-> ->]. split; [done|]. split; [|done]. intros (t & Ht). by apply IHa in Ht.
      * intros [-> H]. split; [|done]. destruct w; [|done].
        destruct (proj2 H eq_refl) as (t & Ht). by apply IHa in Ht.
Qed.

(** A match found is one the pattern denotes; none found, and there is none. *)
Lemma match_here_Some fl r s m :
  match_here fl r s = Some m → ∃ s', denotes fl r s s' ∧ m = found_at s s'.
Proof.
  unfold match_here. pose proof (run_answers fl r s Some) as H.
  destruct (run fl r s Some) as [x|]; [|done]. destruct H as (s' & Hd & [= ->]).
  intros [= <-]. eauto.
Qed.

Lemma match_here_None fl r s s' : match_here fl r s = None → ¬ denotes fl r s s'.
Proof.
  unfold match_here. pose proof (run_answers fl r s Some) as H.
  destruct (run fl r s Some) as [x|]; [done|]. intros _ Hd. by apply H in Hd.
Qed.

Lemma matches_spec fl r s : matches fl r s = true ↔ ∃ s', denotes fl r (start s) s'.
Proof.
  unfold matches, re_match. destruct (match_here fl r (start s)) as [m|] eqn:E.
  - split; [|done]. intros _. apply match_here_Some in E as (s' & ? & _). eauto.
  - split; [done|]. intros (s' & H). by apply (match_here_None _ _ _ _ E) in H.
Qed.

(** A test of all characters. *)
Definition all_ascii : list ascii := map ascii_of_nat (seq 0 256).

Lemma forall_ascii (p : ascii → bool) : forallb p all_ascii = true → ∀ c, p c = true.
Proof.
  rewrite forallb_forall. intros H c. apply H. unfold all_ascii. apply in_map_iff.
  exists (nat_of_ascii c). split; [apply ascii_nat_embedding|]. apply in_seq.
  pose proof (nat_ascii_bounded c). lia.
Qed.

(** ** Symbolic execution

    [yields o Q]: the attempt succeeds, in a state in [Q]. Each rule follows the matcher's first
    choice. *)

Definition yields (o : option st) (Q : st → Prop) : Prop := ∃ x, o = Some x ∧ Q x.

(** [w] was read, [t] is left. *)
Definition moved (s s' : st) (w t : string) : Prop :=
  rest s' = t ∧ pos s' = (pos s + String.length w)%nat ∧ caps s' = caps s.

Lemma yields_set fl neg items s c t k Q :
  rest s = String c t → in_set fl neg items c = true →
  (∀ s', moved s s' (String c EmptyString) t → yields (k s') Q) →
  yields (run fl (Set_ neg items) s k) Q.
Proof.
  intros Hr Hc Hk. simpl. unfold step. rewrite Hr, Hc. apply Hk. repeat split; simpl; lia.
Qed.

(** A greedy repetition reads [w] when the text after it does not go on. *)
Lemma yields_star fl neg items w t k Q : ∀ s,
  rest s = (w ++ t)%string → all_chars (in_set fl neg items) w = true →
  (match t with String c _ => in_set fl neg items c | EmptyString => false end) = false →
  (∀ s', moved s s' w t → yields (k s') Q) →
  yields (run fl (Star true (Set_ neg items)) s k) Q.
Proof.
  intros s. simpl. set (fuel := String.length (rest s)).
  assert (String.length (rest s) ≤ fuel)%nat as Hf by done. clearbody fuel. revert fuel s Hf.
  induction w as [|c w IH]; intros fuel s Hf Hr Hw Ht Hk.
  - assert (yields (k s) Q) as Hs by (apply Hk; repeat split; [done|simpl; lia]).
    destruct fuel as [|fuel]; [done|]. simpl repeat_. cbn [run]. unfold step. rewrite Hr. simpl.
    destruct t as [|d t]; [done|]. by rewrite Ht.
  - rewrite Hr in Hf. simpl in Hf, Hw. apply andb_true_iff in Hw as [Hc Hw].
    destruct fuel as [|fuel]; [lia|].
    set (s1 := {| prev := Some c; rest := (w ++ t)%string; pos := S (pos s); caps := caps s |}).
    assert (step (in_set fl neg items) s = Some s1) as Hstep by (unfold step; rewrite Hr; simpl; by rewrite Hc).
    destruct (IH fuel s1) as (x & Hx & HQ); [simpl; lia|done|done|done| |].
    { intros s' (H1 & H2 & H3). apply Hk. repeat split; [done| |done]. simpl in *. lia. }
    exists x. split; [|done]. cbn [repeat_ run]. rewrite Hstep.
    replace (Nat.eqb (pos s1) (pos s)) with false by (symmetry; apply Nat.eqb_neq; simpl; lia).
    cbn [run] in Hx. by rewrite Hx.
Qed.

Lemma yields_alt_l fl a b s k Q : yields (run fl a s k) Q → yields (run fl (Alt a b) s k) Q.
Proof. intros (x & Hx & HQ). exists x. simpl. by rewrite Hx. Qed.

Lemma yields_seq fl a b s k Q :
  yields (run fl a s (λ s', run fl b s' k)) Q → yields (run fl (Seq a b) s k) Q.
Proof. done. Qed.

Lemma yields_bol fl s k Q : at_bol fl s = true → yields (k s) Q → yields (run fl Bol s k) Q.
Proof. intros Hb Hk. simpl. by rewrite Hb. Qed.

(** An optional character, or what it opens, that is not there. *)
Definition misses (fl : flags) (neg : bool) (items : list citem) (s : st) : Prop :=
  (match rest s with String c _ => in_set fl neg items c | EmptyString => false end) = false.

Lemma yields_opt_no fl neg items s k Q :
  misses fl neg items s → yields (k s) Q → yields (run fl (Alt (Set_ neg items) Eps) s k) Q.
Proof.
  unfold misses. intros Hc Hk. simpl. unfold step. destruct (rest s); [done|]. by rewrite Hc.
Qed.

Lemma yields_opt_seq_no fl neg items r s k Q :
  misses fl neg items s → yields (k s) Q →
  yields (run fl (Alt (Seq (Set_ neg items) r) Eps) s k) Q.
Proof.
  unfold misses. intros Hc Hk. simpl. unfold step. destruct (rest s); [done|]. by rewrite Hc.
Qed.

Lemma yields_grp fl n a s k Q :
  yields (run fl a s (λ s', k (capture n s s'))) Q → yields (run fl (Grp n a) s k) Q.
Proof. done. Qed.

Lemma digit_ten c : is_digit c = true → In c (list_ascii_of_string "0123456789").
Proof.
  intros H.
  assert (E : implb (is_digit c) (existsb (Ascii.eqb c) (list_ascii_of_string "0123456789")) = true)
    by (revert c H; intros c _; revert c; apply forall_ascii; vm_compute; reflexivity).
  rewrite H in E. cbn [implb] in E. apply existsb_exists in E as (x & Hx & ->%Ascii.eqb_eq). exact Hx.
Qed.

(** A literal text in front of a pattern. *)
Definition lits (w : string) (r : re) : re := foldr (λ c r, Seq (literal c) r) r (list_ascii_of_string w).

Lemma in_set_literal c : in_set no_flags false [Range c c] c = true.
Proof. unfold in_set. simpl. by rewrite !Z.leb_refl. Qed.

Lemma yields_lits w r t k Q : ∀ s,
  rest s = (w ++ t)%string → (∀ s', moved s s' w t → yields (run no_flags r s' k) Q) →
  yields (run no_flags (lits w r) s k) Q.
Proof.
  induction w as [|c w IH]; intros s Hr Hk; simpl.
  - apply Hk. repeat split; [done|simpl; lia].
  - eapply yields_set; [exact Hr|apply in_set_literal|]. intros s1 (H1 & H2 & H3).
    apply IH; [done|]. intros s' (H4 & H5 & H6). apply Hk. repeat split; [done| |congruence].
    simpl in *. lia.
Qed.

Lemma moved_trans s1 s2 s3 w t w' t' :
  moved s1 s2 w t → moved s2 s3 w' t' → moved s1 s3 (w ++ w') t'.
Proof.
  intros (H1 & H2 & H3) (H4 & H5 & H6). repeat split; [done| |congruence].
  rewrite H5, H2. clear. induction w; simpl; lia.
Qed.

Lemma between_moved s s' w t : rest s = (w ++ t)%string → moved s s' w t → between s s' = w.
Proof.
  intros Hr (_ & Hp & _). unfold between. rewrite Hr, Hp.
  replace (pos s + String.length w - pos s)%nat with (String.length w) by lia.
  clear. induction w as [|c w IH]; [by destruct t|]. simpl. by rewrite IH.
Qed.

(** ** Examples *)

Example compile_groups :
  option_map (λ r, map (λ m, (group' m 1, group' m 2)) (finditer no_flags r "see oci://h.io/a/b-c, oci://x"))
    (compile "oci://([a-z0-9.-]+)/([a-zA-Z0-9._/-]+)") = Some [("h.io", "a/b-c")].
Proof. vm_compute. reflexivity. Qed.

Example search_flags :
  (searches I_ (the (compile "latest") Eps) "v1-Latest",
   searches no_flags (the (compile "-p\s+[`']?6379[`']?(?!\d)") Eps) "-p 63790") = (true, false).
Proof. vm_compute. reflexivity. Qed.

Example lazy_multiline :
  option_map (λ m, group' m 1)
    (search MS (the (compile "^CACHES\s*=\s*\{(.*?)^\}") Eps)
       ("A = {" ++ newline ++ "}" ++ newline ++ "CACHES = {" ++ newline ++ "x" ++ newline ++ "}"))
  = Some (newline ++ "x" ++ newline)%string.
Proof. vm_compute. reflexivity. Qed.

(** ** Searching for a pattern that reads ahead only *)

Lemma literal_eq c d : in_set no_flags false [Range c c] d = Ascii.eqb c d.
Proof.
  unfold in_set. cbn [existsb in_item fl_i no_flags andb xorb]. rewrite !orb_false_r.
  destruct (Ascii.eqb_spec c d) as [->|H]; [by rewrite Z.leb_refl|].
  apply not_true_iff_false. intros [H1%Z.leb_le H2%Z.leb_le]%andb_prop. apply H.
  unfold code in *. rewrite <- (ascii_nat_embedding c), <- (ascii_nat_embedding d). f_equal. lia.
Qed.

(** A literal text and then a pattern. *)
Fixpoint after_text (w s : string) : option string :=
  match w, s with
  | EmptyString, _ => Some s
  | String c w', String d s' => if Ascii.eqb c d then after_text w' s' else None
  | _, _ => None
  end.

Lemma after_text_spec w s t : after_text w s = Some t ↔ s = (w ++ t)%string.
Proof.
  revert s. induction w as [|c w IH]; intros s; cbn [after_text].
  - split; [by intros [= ->]|by intros ->].
  - rewrite append_cons. destruct s as [|d s]; [done|].
    destruct (Ascii.eqb_spec c d) as [->|H]; [|naive_solver]. rewrite IH. naive_solver.
Qed.

Lemma run_lits (f : string → bool) r w :
  (∀ s, is_Some (run no_flags r s Some) ↔ f (rest s) = true) → ∀ s,
  is_Some (run no_flags (lits w r) s Some) ↔ ∃ t, after_text w (rest s) = Some t ∧ f t = true.
Proof.
  intros Hr. induction w as [|c w IH]; intros s.
  - cbn. rewrite Hr. naive_solver.
  - change (lits (String c w) r) with (Seq (literal c) (lits w r)). cbn [run literal after_text].
    unfold step. destruct (rest s) as [|d t]; [by split; [intros [? ?]|intros (? & ? & _)]|].
    rewrite literal_eq. destruct (Ascii.eqb c d); [apply IH|].
    by split; [intros [? ?]|intros (? & ? & _)].
Qed.

(** A search finds what holds at some position, when matching does not look back. *)
Lemma search_scan fl r (f : string → bool) :
  (∀ s, is_Some (run fl r s Some) ↔ f (rest s) = true) → ∀ fuel s,
  String.length (rest s) = fuel →
  is_Some (search_from fl r fuel s) ↔ ∃ a t, rest s = (a ++ t)%string ∧ f t = true.
Proof.
  intros Hr fuel. induction fuel as [|fuel IH]; intros s Hs; cbn [search_from];
    destruct (run fl r s Some) as [x|] eqn:E.
  1,3: split; [intros _|eauto]; exists "", (rest s); split; [done|]; apply Hr; by rewrite E.
  - assert (Hf : f (rest s) ≠ true) by (rewrite <- Hr, E; by intros [? ?]).
    destruct (rest s); [|done]. split; [by intros [? ?]|]. intros ([|] & [|] & ? & ?); naive_solver.
  - assert (Hf : f (rest s) ≠ true) by (rewrite <- Hr, E; by intros [? ?]).
    unfold advance. destruct (rest s) as [|c u] eqn:Eu; [done|]. rewrite IH by (simpl in *; lia).
    cbn [rest]. split.
    + intros (a & t & -> & Ht). by exists (String c a), t.
    + intros ([|d a] & t & Ha & Ht).
      * cbn in Ha. subst t. done.
      * rewrite append_cons in Ha. injection Ha as _ ->. eauto.
Qed.

Lemma searches_scan fl r (f : string → bool) text :
  (∀ s, is_Some (run fl r s Some) ↔ f (rest s) = true) →
  searches fl r text = true ↔ ∃ a t, text = (a ++ t)%string ∧ f t = true.
Proof.
  intros Hr. rewrite <- (search_scan fl r f Hr _ (start text) eq_refl). unfold searches, search.
  destruct (search_from fl r _ _) as [[m s]|]; cbn; [by split; eauto|by split; [|intros [? ?]]].
Qed.
