(* ===== verification/PyText.v ===== *)
(** * Python's methods on longer texts

    Finding, counting and replacing substrings, slices, and the substitutions of the re module,
    for the programs that read templates and workflows as text. *)
From S2P Require Import Prelude PyStr PyRe.
#[local] Open Scope string_scope.
#[local] Open Scope list_scope.

(** [s[n:]] and [s[:n]] *)
Fixpoint drop_str (n : nat) (s : string) : string :=
  match n, s with
  | S n, String _ s' => drop_str n s'
  | _, _ => s
  end.
Fixpoint take_str (n : nat) (s : string) : string :=
  match n, s with
  | S n, String c s' => String c (take_str n s')
  | _, _ => EmptyString
  end.

(** [s.find(p)], [None] where Python answers -1. *)
Fixpoint find_str (p s : string) : option nat :=
  if startswith p s then Some O
  else match s with
       | EmptyString => None
       | String _ s' => match find_str p s' with Some n => Some (S n) | None => None end
       end.

(** [s.index(p)] *)
Definition index_str (p s : string) : res nat :=
  match find_str p s with Some n => Ok n | None => Raise ValueError end.

(** [s.replace(p, q)] for a non-empty [p], and [s.count(p)]. *)
Fixpoint replace_fuel (fuel : nat) (p q s : string) : string :=
  match fuel with
  | O => s
  | S fuel =>
      if startswith p s then q ++ replace_fuel fuel p q (drop_str (String.length p) s)
      else match s with
           | EmptyString => EmptyString
           | String c s' => String c (replace_fuel fuel p q s')
           end
  end.
Definition replace_str (p q s : string) : string := replace_fuel (S (String.length s)) p q s.

Fixpoint count_fuel (fuel : nat) (p s : string) : nat :=
  match fuel with
  | O => O
  | S fuel =>
      if startswith p s then S (count_fuel fuel p (drop_str (String.length p) s))
      else match s with EmptyString => O | String _ s' => count_fuel fuel p s' end
  end.
Definition count_str (p s : string) : nat := count_fuel (S (String.length s)) p s.

(** [s.split(p)] for a non-empty [p]. *)
Fixpoint split_fuel (fuel : nat) (p s : string) : list string :=
  match fuel, find_str p s with
  | S fuel, Some n => take_str n s :: split_fuel fuel p (drop_str (n + String.length p) s)
  | _, _ => [s]
  end.
Definition split_str (p s : string) : list string := split_fuel (S (String.length s)) p s.

(** [r.sub(f, s)]: the text between the matches is kept. *)
Fixpoint sub_from (f : found → string) (ms : list found) (at_ : nat) (s : string) : string :=
  match ms with
  | [] => drop_str at_ s
  | m :: ms' =>
      take_str (m_start m - at_) (drop_str at_ s) ++ f m ++ sub_from f ms' (m_end m) s
  end.
Definition re_sub (fl : flags) (r : re) (f : found → string) (s : string) : string :=
  sub_from f (finditer fl r s) 0 s.

(** [r.findall(s)] for a pattern with one group. *)
Definition findall (fl : flags) (r : re) (s : string) : list string :=
  map (λ m, group' m 1) (finditer fl r s).

(** [re.escape(s)] *)
Definition special (c : ascii) : bool :=
  contains (String c EmptyString) "()[]{}?*+-|^$\.&~# " || is_space c.
Fixpoint re_escape (s : string) : string :=
  match s with
  | EmptyString => EmptyString
  | String c s' => if special c then String "\" (String c (re_escape s')) else String c (re_escape s')
  end.

Lemma find_contains p s : contains p s = match find_str p s with Some _ => true | None => false end.
Proof.
  induction s as [|c s IH]; cbn [contains find_str]; unfold startswith.
  - by destruct (String.prefix p EmptyString).
  - destruct (String.prefix p (String c s)); [done|]. cbn [orb]. rewrite IH. by destruct (find_str p s).
Qed.

Lemma take_drop_str n s : (take_str n s +:+ drop_str n s)%string = s.
Proof.
  revert s. induction n as [|n IH]; intros [|c s]; try done. cbn [take_str drop_str].
  by rewrite append_cons, IH.
Qed.

(** The text at the place that was found. *)
Lemma find_str_spec p s n : find_str p s = Some n → startswith p (drop_str n s) = true.
Proof.
  revert n. induction s as [|c s IH]; intros n; cbn [find_str].
  - destruct (startswith p EmptyString) eqn:E; [|done]. by intros [= <-].
  - destruct (startswith p (String c s)) eqn:E; [by intros [= <-]|].
    destruct (find_str p s) as [m|]; [|done]. intros [= <-]. by apply IH.
Qed.

Lemma length_drop_str n s : String.length (drop_str n s) = (String.length s - n)%nat.
Proof. revert s. induction n as [|n IH]; intros [|c s]; cbn; [done..|]. apply IH. Qed.

Lemma drop_drop_str n m s : drop_str n (drop_str m s) = drop_str (m + n) s.
Proof.
  revert s. induction m as [|m IH]; intros s; [done|]. destruct s; [by destruct n|]. apply IH.
Qed.

Lemma find_str_app p s n :
  find_str p s = Some n → (take_str n s +:+ p +:+ drop_str (n + String.length p) s)%string = s.
Proof.
  intros H%find_str_spec. apply startswith_inv in H as (t & Ht).
  assert (Hd : drop_str (n + String.length p) s = t).
  { rewrite <- drop_drop_str, Ht. clear. induction p as [|c p IH]; [done|]. exact IH. }
  rewrite Hd, <- Ht. apply take_drop_str.
Qed.

(** Nothing is found before the first place where it is found. *)
Lemma find_str_before p : p ≠ "" → ∀ s n, find_str p s = Some n → contains p (take_str n s) = false.
Proof.
  intros Hp. induction s as [|c s IH]; intros n; cbn [find_str].
  - destruct (startswith p "") eqn:E; [|done]. intros [= <-]. destruct p; [congruence|done].
  - destruct (startswith p (String c s)) eqn:E.
    + intros [= <-]. destruct p; [congruence|done].
    + destruct (find_str p s) as [m|] eqn:Em; [|done]. intros [= <-]. cbn [take_str contains].
      rewrite (IH m eq_refl), orb_false_r. apply not_true_iff_false. intros H.
      apply startswith_inv in H as (t & Ht). apply not_true_iff_false in E. apply E.
      rewrite <- (take_drop_str m s). change (String c (take_str m s +:+ drop_str m s))
        with (String c (take_str m s) +:+ drop_str m s). rewrite Ht, append_assoc. apply startswith_app.
Qed.

Lemma split_fuel_ne fuel p s : split_fuel fuel p s ≠ [].
Proof. destruct fuel; cbn [split_fuel]; [done|]. by destruct (find_str p s). Qed.

(** The pieces joined give the text back, and the separator is in none of them. *)
Lemma split_str_spec p s :
  p ≠ "" → String.concat p (split_str p s) = s ∧ ∀ w, w ∈ split_str p s → contains p w = false.
Proof.
  intros Hp. unfold split_str. assert (Hf : (String.length s < S (String.length s))%nat) by lia.
  revert Hf. generalize (S (String.length s)) as fuel. intros fuel. revert s.
  induction fuel as [|fuel IH]; intros s Hf; [lia|]. cbn [split_fuel].
  destruct (find_str p s) as [n|] eqn:E.
  - destruct (IH (drop_str (n + String.length p) s)) as [IH1 IH2].
    { rewrite length_drop_str. destruct p; [congruence|]. cbn [String.length].
      destruct s; [|cbn [String.length] in *; lia]. by destruct n. }
    split.
    + destruct (split_fuel fuel p (drop_str (n + String.length p) s)) as [|w ws] eqn:Ew.
      * by apply split_fuel_ne in Ew.
      * change (String.concat p (take_str n s :: w :: ws))
          with (take_str n s +:+ p +:+ String.concat p (w :: ws)). rewrite IH1. by apply find_str_app.
    + intros w [->|Hw]%elem_of_cons; [by apply find_str_before|by apply IH2].
  - split; [done|]. intros w ->%list_elem_of_singleton. by rewrite find_contains, E.
Qed.

Lemma drop_app_str a t : drop_str (String.length a) (a +:+ t) = t.
Proof. induction a as [|c a IH]; [done|]. exact IH. Qed.
Lemma take_app_str a t : take_str (String.length a) (a +:+ t) = a.
Proof. induction a as [|c a IH]; [done|]. cbn [String.length String.append take_str]. by rewrite IH. Qed.

Lemma length_take_str n s : (n ≤ String.length s)%nat → String.length (take_str n s) = n.
Proof.
  revert s. induction n as [|n IH]; intros [|c s] H; cbn [String.length] in *; try done; [lia|].
  cbn [take_str String.length]. rewrite IH; lia.
Qed.

Lemma find_str_length p s n : find_str p s = Some n → (n ≤ String.length s)%nat.
Proof.
  revert n. induction s as [|c s IH]; intros n; cbn [find_str].
  - destruct (startswith p ""); [|done]. by intros [= <-].
  - destruct (startswith p (String c s)); [intros [= <-]; lia|].
    destruct (find_str p s) as [m|]; [|done]. intros [= <-]. specialize (IH m eq_refl). cbn; lia.
Qed.

(** The text around the first place. *)
Lemma find_str_split p s n :
  p ≠ "" → find_str p s = Some n →
  ∃ a t, s = (a +:+ p +:+ t)%string ∧ String.length a = n ∧ contains p a = false.
Proof.
  intros Hp H. exists (take_str n s), (drop_str (n + String.length p) s). split; [symmetry; by apply find_str_app|].
  split; [by apply length_take_str, (find_str_length p)|by apply find_str_before].
Qed.

Lemma contains_app_r p a s : contains p s = true → contains p (a +:+ s) = true.
Proof.
  intros H. induction a as [|c a IH]; [done|]. rewrite append_cons. cbn [contains]. by rewrite IH, orb_true_r.
Qed.

(** [s.rfind(p)] *)
Fixpoint rfind_str (p s : string) : option nat :=
  match s with
  | EmptyString => if startswith p "" then Some 0%nat else None
  | String _ s' =>
      match rfind_str p s' with
      | Some n => Some (S n)
      | None => if startswith p s then Some 0%nat else None
      end
  end.

Lemma rfind_contains p s : contains p s = match rfind_str p s with Some _ => true | None => false end.
Proof.
  induction s as [|c s IH]; cbn [contains rfind_str]; unfold startswith.
  - by destruct (String.prefix p "").
  - rewrite IH. destruct (rfind_str p s); [by rewrite orb_true_r|]. rewrite orb_false_r.
    by destruct (String.prefix p (String c s)).
Qed.

(** The text around the last place. *)
Lemma rfind_str_split p s n :
  rfind_str p s = Some n → ∃ a t, s = (a +:+ p +:+ t)%string ∧ String.length a = n ∧
    contains p (drop_str 1 (p +:+ t)) = false ∨ p = "".
Proof.
  revert n. induction s as [|c s IH]; intros n; cbn [rfind_str].
  - destruct p; [intros _; by exists "", ""; right|done].
  - destruct (rfind_str p s) as [k|] eqn:Ek.
    + intros [= <-]. destruct (IH k eq_refl) as (a & t & [(-> & <- & H)|H]); [|by exists a, t; right].
      exists (String c a), t. by left.
    + destruct (startswith p (String c s)) eqn:E; [|done]. intros [= <-].
      apply startswith_inv in E as (t & Ht). exists "", t. left. split; [done|]. split; [done|].
      cbn [String.append]. rewrite <- Ht. cbn [drop_str]. rewrite rfind_contains, Ek. done.
Qed.
