(* ===== verification/Preflight.v ===== *)
(** * hack/preflight-refs.py: every chart and image reference resolves, is immutable, is pullable

    The scan of the tree, the registry queries with the media-type cache, and the two modes of
    [main]. The tree (names and decoded texts of files) and the registries are the input: a
    registry may answer a request differently depending on what was asked before. *)
From S2P Require Import Prelude PyStr PyVal Json PyRe Io.
#[local] Open Scope string_scope.
#[local] Open Scope list_scope.

Module Preflight.

(** ** The patterns *)

Definition compiled (s : string) : re := the (compile (dq s)) Eps.

Definition OCI : re := Eval vm_compute in compiled "oci://([a-z0-9.-]+)/([a-zA-Z0-9._/-]+)".
Definition IMG : re := Eval vm_compute in
  compiled "\b([a-z0-9-]+(?:\.[a-z0-9-]+)+)/([a-zA-Z0-9._/-]+):([a-zA-Z0-9._-]+)\b".
Definition VERSION_NEAR : re := Eval vm_compute in
  compiled "version:\s*`?([0-9]+\.[0-9]+\.[0-9]+[^`\s]*)`?".
Definition DIGEST : re := Eval vm_compute in
  compiled "\b([a-z0-9-]+(?:\.[a-z0-9-]+)+)/([a-zA-Z0-9._/-]+)@(sha256:[a-f0-9]{64})\b".
Definition SKIP : re := Eval vm_compute in
  compiled "\{\{|\$\{|%[sqvd]|CHART_VERSION|VERSION|<[a-zA-Z]|x\.y\.z|\.\.\.".
Definition MUTABLE : re := Eval vm_compute in compiled "latest".
Definition NAME_NEAR : re := Eval vm_compute in
  compiled "^\s*(?:chart|name):\s*`?([a-z0-9][a-z0-9._-]*)`?\s*$".
Definition REPO_LINE : re := Eval vm_compute in
  compiled "^\s*repository:\s*[`\']?([a-zA-Z0-9][a-zA-Z0-9._/-]*)[`\']?\s*(?:#.*)?$".
Definition TAG_LINE : re := Eval vm_compute in
  compiled "^\s*tag:\s*[`\']?([a-zA-Z0-9][a-zA-Z0-9._-]*)[`\']?\s*(?:#.*)?$".
Definition REG_LINE : re := Eval vm_compute in
  compiled "^\s*registry:\s*[`\']?([a-zA-Z0-9._-]*)[`\']?\s*(?:#.*)?$".

Definition V2_MANIFEST : list string :=
  ["application/vnd.oci.image.manifest.v1+json";
   "application/vnd.oci.image.index.v1+json";
   "application/vnd.docker.distribution.manifest.v2+json";
   "application/vnd.docker.distribution.manifest.list.v2+json"].

Definition V1_MANIFEST : list string :=
  ["application/vnd.docker.distribution.manifest.v1+json";
   "application/vnd.docker.distribution.manifest.v1+prettyjws"].

(** ** References in the text of a file *)

Definition skipped (s : string) : bool := searches no_flags SKIP s.

(** [lines[idx + off]] when it exists. *)
Definition line_at (lines : list string) (idx : nat) (off : Z) : option string :=
  let j := (Z.of_nat idx + off)%Z in
  if (0 <=? j)%Z then lines !! Z.to_nat j else None.

(** The first result of [f] among the lines at these offsets. *)
Definition first_near {A} (lines : list string) (idx : nat) (f : string → option A)
    (offs : list Z) : option A :=
  foldr (λ off acc,
    match line_at lines idx off with
    | Some l => match f l with Some a => Some a | None => acc end
    | None => acc
    end) None offs.

Definition near : list Z := [0; 1; 2; -1; -2; 3; -3]%Z.

Definition pair_name (lines : list string) (idx : nat) : option string :=
  first_near lines idx (λ l, option_map (λ m, group' m 1) (re_match no_flags NAME_NEAR l)) near.

Definition pair_version (lines : list string) (idx : nat) : option string :=
  first_near lines idx (λ l,
    match search no_flags VERSION_NEAR l with
    | Some m => if skipped (group' m 1) then None else Some (group' m 1)
    | None => None
    end) near.

(** What a [tag:] or [registry:] line gives. *)
Definition tag_of (l : string) : option string :=
  match re_match no_flags TAG_LINE l with
  | Some m => if skipped (group' m 1) then None else Some (group' m 1)
  | None => None
  end.
Definition registry_of (l : string) : option string :=
  option_map (λ m, group' m 1) (re_match no_flags REG_LINE l).

Definition around : list Z := [1; 2; 3; -1; -2; -3; 4; -4]%Z.

(** Host, path and tag of a [repository:] line with the keys beside it. *)
Definition split_image (lines : list string) (idx : nat) : option (string * string * string) :=
  match lines !! idx with
  | None => None
  | Some line =>
      match re_match no_flags REPO_LINE line with
      | None => None
      | Some m =>
          let repo := group' m 1 in
          if startswith "oci://" repo || skipped line then None else
          let tag := first_near lines idx tag_of around in
          let registry := first_near lines idx registry_of around in
          match tag with
          | None | Some EmptyString => None
          | Some t =>
              let '(h, has_slash, p) := partition_at "/" repo in
              match registry with
              | Some (String _ _ as r) => Some (r, repo, t)
              | _ => if has_slash && contains "." h then Some (h, p, t)
                     else Some ("docker.io", repo, t)
              end
          end
      end
  end.

(** A reference with the file and line it was written at. *)
Record ref := {
  r_host : string; r_path : string; r_tag : string; r_file : string; r_line : nat }.

#[global] Instance ref_eq_dec : EqDecision ref.
Proof. solve_decision. Defined.

(** The order of the tuples. *)
Definition ref_leb (a b : ref) : bool :=
  let lt s t := str_leb s t && negb (String.eqb s t) in
  lt (r_host a) (r_host b) || String.eqb (r_host a) (r_host b) &&
  (lt (r_path a) (r_path b) || String.eqb (r_path a) (r_path b) &&
  (lt (r_tag a) (r_tag b) || String.eqb (r_tag a) (r_tag b) &&
  (lt (r_file a) (r_file b) || String.eqb (r_file a) (r_file b) &&
   Nat.leb (r_line a) (r_line b)))).

Definition ends_any (sufs : list string) (s : string) : bool := existsb (λ x, endswith x s) sufs.

(** The last component of a path. *)
Definition last_segment (p : string) : string := List.last (split_on "/" p) "".

Definition is_ref_tail (c : ascii) : bool :=
  existsb (Ascii.eqb c) [char 34; "'"; "/"; ","]%char.

(** The chart reference of one [oci://] match. *)
Definition chart_ref (lines : list string) (rel : string) (i : nat) (m : found) : option ref :=
  let host := group' m 1 in
  let path := rstrip_by is_ref_tail (group' m 2) in
  if skipped (m_text m) then None else
  let ver := pair_version lines i in
  let path' :=
    if existsb (String.eqb (last_segment path)) ["charts"; "chart"]
    then match pair_name lines i with
         | Some (String _ _ as nm) => Some (path ++ "/" ++ nm)%string
         | _ => None
         end
    else Some path in
  match path', ver with
  | Some p, Some (String _ _ as v) =>
      Some {| r_host := host; r_path := p; r_tag := v; r_file := rel; r_line := S i |}
  | _, _ => None
  end.

Definition local_host (h : string) : bool := ends_any [".krateo.dev"; ".svc"] h.

Definition digest_ref (rel : string) (i : nat) (m : found) : option ref :=
  if local_host (group' m 1) then None else
  Some {| r_host := group' m 1; r_path := group' m 2; r_tag := group' m 3; r_file := rel;
          r_line := S i |}.

Definition image_ref (line rel : string) (i : nat) (m : found) : option ref :=
  let host := group' m 1 in
  let path := group' m 2 in
  if skipped (m_text m) || local_host host then None else
  if endswith "//" (rstrip_by is_space (substring 0 (m_start m) line)) then None else
  if negb (contains "/" path) && Nat.ltb (count_char "." host) 1 then None else
  Some {| r_host := host; r_path := path; r_tag := group' m 3; r_file := rel; r_line := S i |}.

Definition split_ref (lines : list string) (rel : string) (i : nat) : option ref :=
  option_map (λ '(h, p, t),
    {| r_host := h; r_path := p; r_tag := t; r_file := rel; r_line := S i |})
    (split_image lines i).

(** What one line adds to the charts and to the images. *)
Definition line_charts (lines : list string) (rel : string) (i : nat) (line : string) : list ref :=
  omap (chart_ref lines rel i) (finditer no_flags OCI line).
Definition line_images (lines : list string) (rel : string) (i : nat) (line : string) : list ref :=
  omap (digest_ref rel i) (finditer no_flags DIGEST line)
  ++ option_list (split_ref lines rel i)
  ++ omap (image_ref line rel i) (finditer no_flags IMG line).

(** ** The walk over the tree *)

(** A file's text, or [None] when it cannot be opened. *)
Inductive node :=
  | File (name : string) (text : option string)
  | Dir (name : string) (children : list node).

(** Text mode reads the three line endings as one. *)
Fixpoint universal_newlines (s : string) : string :=
  match s with
  | EmptyString => EmptyString
  | String c s' =>
      if Ascii.eqb c (char 13)
      then String (char 10)
             (match s' with
              | String d s'' => if Ascii.eqb d (char 10) then universal_newlines s''
                                else universal_newlines s'
              | EmptyString => EmptyString
              end)
      else String c (universal_newlines s')
  end.

Definition PRUNED : list string := [".git"; "node_modules"; "charts"].
Definition SCANNED : list string := [".yaml"; ".yml"; ".tpl"; ".json"].

Definition scan_text (rel text : string) : list ref * list ref :=
  let lines := split_on (char 10) (universal_newlines text) in
  (List.concat (imap (line_charts lines rel) lines),
   List.concat (imap (line_images lines rel) lines)).

Definition scan_file (dir name : string) (text : option string) : list ref * list ref :=
  if ends_any SCANNED name
  then match text with Some t => scan_text (dir ++ name) t | None => ([], []) end
  else ([], []).

(** [os.walk] below a directory whose entries are [children]; [dir] is the prefix of their
    paths. *)
Fixpoint scan_node (dir : string) (n : node) : list ref * list ref :=
  match n with
  | File name text => scan_file dir name text
  | Dir name children =>
      if existsb (String.eqb name) PRUNED then ([], [])
      else (fix go (ns : list node) : list ref * list ref :=
              match ns with
              | [] => ([], [])
              | n :: ns' =>
                  let '(c, i) := scan_node (dir ++ name ++ "/") n in
                  let '(c', i') := go ns' in (c ++ c', i ++ i')
              end) children
  end.

(** The two sets, as lists without repetitions. *)
Definition scan (root : list node) : list ref * list ref :=
  let found := map (scan_node "") root in
  (remove_dups (List.concat (map fst found)), remove_dups (List.concat (map snd found))).

(** ** Registry queries *)

Record request := { url : string; headers : list (string * string) }.

(** A request is answered (only a success status is an answer: [urlopen] raises on the others),
    refused with a status, or fails; [body] is [None] when reading it fails. *)
Inductive response :=
  | Reply (status : Z) (ctype : option string) (body : option string)
  | HTTPError (code : Z)
  | NoReply.

(** The requests sent, the latest first, and the cache of media types. *)
Definition key : Type := string * string * string.
Record state := { sent : list request; media : list (key * option string) }.

Definition event : Type := request * response.
Definition M := @Io state event exn.

Fixpoint cached (k : key) (c : list (key * option string)) : option (option string) :=
  match c with
  | [] => None
  | (k', v) :: c' => if decide (k = k') then Some v else cached k c'
  end.

Section Registry.
  (** What the network answers a request, given those sent before. *)
  Context (web : list request → request → response).

Definition urlopen (r : request) : M response := λ s,
    let resp := web (sent s) r in
    (Ret resp, [(r, resp)], {| sent := r :: sent s; media := media s |}).

Definition raises {A} (r : res A) : M A :=
    match r with Ok a => mret a | Raise e => raise e end.

  (** [json.load(r)], where any failure is one exception. *)
Definition json_body (resp : response) : res val :=
    match resp with
    | Reply _ _ (Some b) => json_loads b
    | _ => Raise ValueError
    end.

Definition plain (u : string) : request := {| url := u; headers := [] |}.

Definition ok_or (r : res val) (dflt : val) : val := match r with Ok v => v | Raise _ => dflt end.

Definition ghcr_token (repo : string) : M val :=
    let* resp := urlopen (plain ("https://" ++ "ghcr.io" ++ "/token?scope=repository:" ++ repo
                                 ++ ":pull")) in
    mret (ok_or (let* v := json_body resp in get_default v "token" (VStr "")) (VStr "")).

  (** [{"Authorization": "Bearer " + tok} if tok else {}] *)
Definition bearer (tok : val) : res (list (string * string)) :=
    if truthy tok then
      match tok with
      | VStr t => Ok [("Authorization", ("Bearer " ++ t)%string)]
      | _ => Raise TypeError
      end
    else Ok [].

Definition v2_endpoint (host repo : string) : M (string * string * list (string * string)) :=
    if String.eqb host "ghcr.io" then
      let* tok := ghcr_token repo in
      let* auth := raises (bearer tok) in
      mret ("https://ghcr.io/v2", repo, auth)
    else if existsb (String.eqb host) ["docker.io"; "registry-1.docker.io"] then
      let repo := if contains "/" repo then repo else ("library/" ++ repo)%string in
      let* resp := urlopen (plain ("https://auth.docker.io/token?service=registry.docker.io&scope=repository:"
                                   ++ repo ++ ":pull")) in
      let tok := ok_or (let* v := json_body resp in getitem v "token") (VStr "") in
      let* auth := raises (bearer tok) in
      mret ("https://registry-1.docker.io/v2", repo, auth)
    else mret (("https://" ++ host ++ "/v2")%string, repo, []).

Fixpoint join (sep : string) (l : list string) : string :=
    match l with
    | [] => ""
    | [x] => x
    | x :: l' => (x ++ sep ++ join sep l')%string
    end.

  (** [hdrs["Accept"] = ...] on a copy of the authorization. *)
Definition manifest_request (base repo ref : string) (auth : list (string * string))
      (accept : list string) : request :=
    {| url := (base ++ "/" ++ repo ++ "/manifests/" ++ ref)%string;
       headers := dict_set "Accept" (join "," accept) auth |}.

Definition is_digest (ref : string) : bool := startswith "sha256:" ref.

Definition tag_request (repo ref : string) : request :=
    plain ("https://quay.io/api/v1/repository/" ++ repo ++ "/tag/?specificTag=" ++ ref
           ++ "&onlyActiveTags=true").

  (** The status the tag API's answer stands for. *)
Definition tag_status (resp : response) : Z :=
    match resp with
    | HTTPError c => c
    | _ => match (let* v := json_body resp in get v "tags") with
           | Ok t => if truthy t then 200 else 404
           | Raise _ => 0
           end
    end.

Definition status_of (resp : response) : Z :=
    match resp with Reply s _ _ => s | HTTPError c => c | NoReply => 0 end.

Definition registry_get (host repo ref : string) : M Z :=
    if String.eqb host "quay.io" && negb (is_digest ref) then
      let* resp := urlopen (tag_request repo ref) in mret (tag_status resp)
    else
      let* (base, repo, auth) := v2_endpoint host repo in
      let* resp := urlopen (manifest_request base repo ref auth V2_MANIFEST) in
      mret (status_of resp).

  (** The type a 200 was served with, without its parameters; an empty one tells nothing. *)
Definition media_type_of (resp : response) : option string :=
    match resp with
    | Reply s ct _ =>
        if (s =? 200)%Z
        then match lower (strip (partition_at ";" (default "" ct)).1.1) with
             | EmptyString => None
             | String _ _ as t => Some t
             end
        else None
    | _ => None
    end.

Definition remember (k : key) (mt : option string) (s : state) : state :=
    {| sent := sent s; media := (k, mt) :: media s |}.

Definition manifest_media_type (host repo ref : string) : M (option string) :=
    let k := (host, repo, ref) in
    let* hit := gets (λ s, cached k (media s)) in
    match hit with
    | Some mt => mret mt
    | None =>
        let* (base, path, auth) := v2_endpoint host repo in
        let* resp := urlopen (manifest_request base path ref auth (V2_MANIFEST ++ V1_MANIFEST)) in
        let mt := media_type_of resp in
        let* _ := modify (remember k mt) in
        mret mt
    end.

(** ** The two modes of [main] *)

Inductive kind := Chart | Image.

(** What a run found: the statuses, the findings, and the exit status. *)
Record report := {
    rep_code : Z;
    rep_bad : list (kind * ref * Z);
    rep_mutable : list ref;
    rep_schema1 : list (ref * string) }.

Definition mutable_refs (images : list ref) : list ref :=
    isort ref_leb (List.filter (λ r, searches I_ MUTABLE (r_tag r)) images).

Definition mutable_only (images : list ref) : report :=
    let mutable := mutable_refs images in
    {| rep_code := match images, mutable with [], _ => 1 | _, [] => 0 | _, _ => 1 end;
       rep_bad := []; rep_mutable := mutable; rep_schema1 := [] |}.

Definition is_v1 (mt : option string) : bool :=
    match mt with Some t => existsb (String.eqb t) V1_MANIFEST | None => false end.

Definition check_chart (bad : list (kind * ref * Z)) (r : ref) : M (list (kind * ref * Z)) :=
    let* code := registry_get (r_host r) (r_path r) (r_tag r) in
    mret (if (code =? 200)%Z then bad else bad ++ [(Chart, r, code)]).

Definition findings : Type := list (kind * ref * Z) * list (ref * string).

Definition check_image (acc : findings) (r : ref) : M findings :=
    let '(bad, schema1) := acc in
    let* code := registry_get (r_host r) (r_path r) (r_tag r) in
    let ok := (code =? 200)%Z in
    let* mt := (if ok then manifest_media_type (r_host r) (r_path r) (r_tag r) else mret None) in
    let schema1' := match mt with
                    | Some t => if is_v1 mt then schema1 ++ [(r, t)] else schema1
                    | None => schema1
                    end in
    mret (if ok then bad else bad ++ [(Image, r, code)], schema1').

Fixpoint foldIo {A B} (f : B → A → M B) (b : B) (l : list A) : M B :=
    match l with [] => mret b | x :: l' => let* b' := f b x in foldIo f b' l' end.

Definition full_run (charts images : list ref) : M report :=
    let* bad := foldIo check_chart [] (isort ref_leb charts) in
    let* (bad, schema1) := foldIo check_image (bad, []) (isort ref_leb images) in
    let mutable := mutable_refs images in
    mret {| rep_code :=
              match bad, mutable, schema1 with
              | [], [], [] => match charts, images with [], [] => 1 | _, _ => 0 end
              | _, _, _ => 1
              end;
            rep_bad := bad; rep_mutable := mutable; rep_schema1 := schema1 |}.

Definition main (mutable_flag : bool) (root : list node) : M report :=
    let '(charts, images) := scan root in
    if mutable_flag then mret (mutable_only images) else full_run charts images.
End Registry.
End Preflight.
