(* ===== verification/PreflightRuns.v ===== *)
(** * What a run of hack/preflight-refs.py establishes

    [main_passes]: a full run ends with 0 only when every reference scanned was confirmed by a
    registry, and inspected, during that run. [asks_once]: the cache spares every repeated
    question. [mutable_only_exact]: the offline mode. *)
From S2P Require Import Prelude PyStr PyVal Json PyRe Io Preflight.
#[local] Open Scope string_scope.
#[local] Open Scope list_scope.

Module PreflightRuns.
Import Preflight.

(** ** Postconditions of a run

    [triple P m Q]: from a history and a state in [P], if [m] returns then [Q] holds of the value,
    the longer history and the state. *)

Definition assertion : Type := list event → state → Prop.

Definition triple {A} (P : assertion) (m : M A) (Q : A → assertion) : Prop :=
  ∀ h s a es s', P h s → m s = (Ret a, es, s') → Q a (h ++ es) s'.

Lemma triple_ret {A} (a : A) (P : assertion) (Q : A → assertion) :
  (∀ h s, P h s → Q a h s) → triple P (mret a) Q.
Proof. intros H h s b es s' HP [= <- <- <-]. rewrite app_nil_r. auto. Qed.

Lemma triple_bind {A B} (m : M A) (f : A → M B) P Q R :
  triple P m Q → (∀ a, triple (Q a) (f a) R) → triple P (m ≫= f) R.
Proof.
  intros Hm Hf h s b es s' HP. unfold mbind, Io_bind.
  destruct (m s) as [[[a|x] es1] s1] eqn:E; [|done].
  destruct (f a s1) as [[o es2] s2] eqn:E2. intros [= -> <- <-].
  rewrite app_assoc. eapply Hf; [|exact E2]. eapply Hm; eauto.
Qed.

Lemma triple_conseq {A} (P P' : assertion) (m : M A) (Q Q' : A → assertion) :
  triple P m Q → (∀ h s, P' h s → P h s) → (∀ a h s, Q a h s → Q' a h s) → triple P' m Q'.
Proof. intros H HP HQ h s a es s' HP' E. eauto. Qed.

Lemma triple_gets {A} (f : state → A) (P : assertion) :
  triple P (gets f) (λ a h s, P h s ∧ a = f s).
Proof. intros h s a es s' HP [= <- <- <-]. by rewrite app_nil_r. Qed.

Lemma triple_modify f (P Q : assertion) :
  (∀ h s, P h s → Q h (f s)) → triple P (modify f) (λ _, Q).
Proof. intros H h s a es s' HP [= <- <- <-]. rewrite app_nil_r. auto. Qed.

Lemma triple_raises {A} (r : res A) (P : assertion) :
  triple P (raises r) (λ a h s, P h s ∧ r = Ok a).
Proof.
  destruct r as [b|e]; simpl; [apply triple_ret; auto|]. by intros h s b es s' _ [= ? ?].
Qed.

(** A fold whose invariant mentions the elements done. *)
Lemma triple_fold {A B} (f : B → A → M B) (I : list A → B → assertion) l :
  (∀ d x b, triple (I d b) (f b x) (I (d ++ [x]))) →
  ∀ d b, triple (I d b) (foldIo f b l) (I (d ++ l)).
Proof.
  intros Hf. induction l as [|x l IH]; intros d b; simpl.
  - rewrite app_nil_r. apply triple_ret. auto.
  - eapply triple_bind; [apply Hf|]. intros b'. specialize (IH (d ++ [x]) b').
    by rewrite <- app_assoc in IH.
Qed.

(** ** What is kept by every request *)

(** The registry that a reference names, and the repository path it is known by there. *)
Definition endpoint (host repo : string) : string * string :=
  if String.eqb host "ghcr.io" then ("https://ghcr.io/v2", repo)
  else if existsb (String.eqb host) ["docker.io"; "registry-1.docker.io"]
  then ("https://registry-1.docker.io/v2",
        if contains "/" repo then repo else ("library/" ++ repo)%string)
  else (("https://" ++ host ++ "/v2")%string, repo).

(** The exchange asks for this reference's manifest, accepting these types. *)
Definition asks (accept : list string) (host repo ref : string) (e : event) : Prop :=
  ∃ auth, e.1 = manifest_request (endpoint host repo).1 (endpoint host repo).2 ref auth accept.

(** The exchange shows that the reference exists: on quay.io a tag is in the list of active tags,
    anywhere else the manifest is served anonymously. *)
Definition confirms (r : ref) (e : event) : Prop :=
  if String.eqb (r_host r) "quay.io" && negb (is_digest (r_tag r))
  then e.1 = tag_request (r_path r) (r_tag r) ∧ tag_status e.2 = 200%Z
  else asks V2_MANIFEST (r_host r) (r_path r) (r_tag r) e ∧ status_of e.2 = 200%Z.

(** The exchange tells the media type of the reference. *)
Definition inspects (k : key) (e : event) : Prop :=
  asks (V2_MANIFEST ++ V1_MANIFEST) k.1.1 k.1.2 k.2 e.

(** Every cached type was served in the history. *)
Definition coherent (h : list event) (s : state) : Prop :=
  ∀ k mt, cached k (media s) = Some mt → ∃ e, e ∈ h ∧ inspects k e ∧ media_type_of e.2 = mt.

(** An assertion that stays true as the history grows. *)
Definition stable (P : assertion) : Prop :=
  ∀ h s e, P h s → P (h ++ [e]) {| sent := e.1 :: sent s; media := media s |}.

Section Runs.
  Context (web : list request → request → response).

Lemma triple_urlopen r (P : assertion) :
    stable P → triple P (urlopen web r) (λ resp h s, P h s ∧ (r, resp) ∈ h).
Proof.
  intros HP h s a es s' H [= <- <- <-]. split; [by apply (HP h s (r, web (sent s) r))|].
  set_solver.
Qed.

Lemma triple_endpoint host repo (P : assertion) :
    stable P →
    triple P (v2_endpoint web host repo) (λ x h s, P h s ∧ x.1 = endpoint host repo).
Proof.
  intros HP. unfold v2_endpoint, endpoint, ghcr_token. destruct (String.eqb host "ghcr.io").
  - eapply triple_bind.
    { eapply triple_bind; [by apply triple_urlopen|]. intros resp.
      apply (triple_ret _ _ (λ _, P)). by intros h s [? _]. }
    intros tok. eapply triple_bind; [apply triple_raises|]. intros auth. simpl.
    apply triple_ret. by intros h s [? _].
  - destruct (existsb _ _).
    + eapply triple_bind; [by apply triple_urlopen|]. intros resp. simpl.
      eapply triple_bind; [apply triple_raises|]. intros auth. simpl.
      apply triple_ret. by intros h s [[? _] _].
    + apply triple_ret. auto.
Qed.

Lemma triple_registry_get (r : ref) (P : assertion) :
    stable P →
    triple P (registry_get web (r_host r) (r_path r) (r_tag r))
      (λ c h s, P h s ∧ (c = 200%Z → ∃ e, e ∈ h ∧ confirms r e)).
Proof.
  intros HP. unfold registry_get, confirms. destruct (String.eqb (r_host r) "quay.io" && _).
  - eapply triple_bind; [by apply triple_urlopen|]. intros resp. simpl. apply triple_ret.
    intros h s [? Hin]. split; [done|]. intros Hc. eexists. split; [exact Hin|]. done.
  - eapply triple_bind; [by apply triple_endpoint|]. intros [[base repo] auth].
    eapply triple_bind; [apply triple_urlopen|].
    { intros h s e [? ?]. split; [by apply HP|done]. }
    intros resp. simpl. apply triple_ret. intros h s [[? Hb] Hin]. split; [done|].
    intros Hc. eexists. split; [exact Hin|]. split; [|done]. exists auth. simpl. simpl in Hb. by rewrite <- Hb.
Qed.

Lemma stable_coherent : stable coherent.
Proof. intros h s e H k mt Hk. destruct (H k mt Hk) as (e' & ? & ?). exists e'. set_solver. Qed.

Lemma stable_and (P Q : assertion) : stable P → stable Q → stable (λ h s, P h s ∧ Q h s).
Proof. intros HP HQ h s e [? ?]. split; [by apply HP|by apply HQ]. Qed.

Lemma stable_history (Q : list event → Prop) :
    (∀ h e, Q h → Q (h ++ [e])) → stable (λ h _, Q h).
Proof. intros H h s e. apply H. Qed.

Lemma triple_media_type host repo ref (P : list event → Prop) :
    (∀ h e, P h → P (h ++ [e])) →
    triple (λ h s, P h ∧ coherent h s) (manifest_media_type web host repo ref)
      (λ mt h s, (P h ∧ coherent h s) ∧
                 ∃ e, e ∈ h ∧ inspects (host, repo, ref) e ∧ media_type_of e.2 = mt).
Proof.
  intros HP. assert (stable (λ h s, P h ∧ coherent h s)) as Hst.
  { apply (stable_and (λ h _, P h)); [by apply stable_history|apply stable_coherent]. }
  unfold manifest_media_type. eapply triple_bind; [apply triple_gets|]. intros [mt|].
  - apply triple_ret. intros h s [[? Hc] Hk]. split; [done|]. by apply Hc.
  - eapply triple_bind.
    { eapply triple_conseq; [by apply (triple_endpoint host repo)| |]; [by intros h s [? _]|].
      intros x h s H. exact H. }
    intros [[base path] auth]. simpl.
    eapply triple_bind; [apply triple_urlopen|].
    { intros h s e [? ?]. split; [by apply Hst|done]. }
    intros resp. simpl. eapply triple_bind.
    { apply (triple_modify _ _ (λ h s, (P h ∧ coherent h s) ∧
        ∃ e, e ∈ h ∧ inspects (host, repo, ref) e ∧ media_type_of e.2 = media_type_of resp)).
      intros h s [[[HPh Hc] Hb] Hin].
      assert (∃ e, e ∈ h ∧ inspects (host, repo, ref) e ∧ media_type_of e.2 = media_type_of resp)
        as He.
      { eexists. split; [exact Hin|]. split; [|done]. exists auth. simpl. simpl in Hb. by rewrite <- Hb. }
      repeat split; [done| |done]. intros k mt. simpl. destruct (decide (k = (host, repo, ref))) as [Hk|];
        [|apply Hc].
      intros Hmt. injection Hmt as Hmt. by rewrite Hk, <- Hmt. }
    intros u. apply triple_ret. auto.
Qed.

(** ** A passing run *)

(** So far every reference done was confirmed and, for the images, inspected and found
    pullable. *)
Definition confirmed (d : list ref) (h : list event) : Prop :=
    ∀ r, r ∈ d → ∃ e, e ∈ h ∧ confirms r e.
Definition pullable (d : list ref) (h : list event) : Prop :=
    ∀ r, r ∈ d → ∃ e, e ∈ h ∧ inspects (r_host r, r_path r, r_tag r) e ∧
                      is_v1 (media_type_of e.2) = false.

Lemma confirmed_grows d h e : confirmed d h → confirmed d (h ++ [e]).
Proof. intros H r Hr. destruct (H r Hr) as (e' & ? & ?). exists e'. set_solver. Qed.
Lemma pullable_grows d h e : pullable d h → pullable d (h ++ [e]).
Proof. intros H r Hr. destruct (H r Hr) as (e' & ? & ?). exists e'. set_solver. Qed.

Definition charts_done (d : list ref) (bad : list (kind * ref * Z)) : assertion :=
    λ h s, (bad = [] → confirmed d h) ∧ coherent h s.

Lemma triple_chart d r bad :
    triple (charts_done d bad) (check_chart web bad r) (charts_done (d ++ [r])).
Proof.
  unfold check_chart. eapply triple_bind.
  { apply triple_registry_get. apply stable_and; [|apply stable_coherent].
    apply stable_history. intros h e H ->. by apply confirmed_grows, H. }
  intros c. apply triple_ret. intros h s [[Hb Hc] Hr]. split; [|done].
  destruct (c =? 200)%Z eqn:E; [|by intros []%app_nil].
  apply Z.eqb_eq in E. intros Hn x. rewrite elem_of_app, list_elem_of_singleton.
  intros [Hx| ->]; [by apply Hb|by apply Hr].
Qed.

Definition images_done (ok : list event → Prop) (d : list ref) (acc : findings) : assertion :=
    λ h s, (acc.1 = [] → ok h ∧ confirmed d h ∧ (acc.2 = [] → pullable d h)) ∧ coherent h s.

Lemma triple_image ok d r acc :
    (∀ h e, ok h → ok (h ++ [e])) →
    triple (images_done ok d acc) (check_image web acc r) (images_done ok (d ++ [r])).
Proof.
  intros Hok. unfold check_image. destruct acc as [bad schema1].
  set (Q h := bad = [] → ok h ∧ confirmed d h ∧ (schema1 = [] → pullable d h)).
  assert (∀ h e, Q h → Q (h ++ [e])) as HQ.
  { intros h e H Hb. destruct (H Hb) as (? & ? & ?).
    repeat split; auto using confirmed_grows, pullable_grows. }
  assert (stable (λ h s, Q h ∧ coherent h s)) as Hst.
  { apply (stable_and (λ h _, Q h)); [by apply stable_history|apply stable_coherent]. }
  eapply triple_bind; [apply (triple_registry_get r _ Hst)|]. intros c. simpl.
  destruct (c =? 200)%Z eqn:E; simpl.
  - apply Z.eqb_eq in E. eapply triple_bind.
    { eapply triple_conseq; [apply (triple_media_type _ _ _
        (λ h, Q h ∧ ∃ e, e ∈ h ∧ confirms r e))| |].
      - intros h e [? (e' & ? & ?)]. split; [by apply HQ|]. exists e'. set_solver.
      - intros h s [[? ?] Hr]. auto.
      - intros mt h s H. exact H. }
    intros mt. apply triple_ret. intros h s [[[HQh Hr] Hc] (e & He & Hi & Hmt)].
    split; [|done]. simpl. intros Hb. destruct (HQh Hb) as (Hokh & Hcd & Hpd). split; [done|].
    split; [intros x; rewrite elem_of_app, list_elem_of_singleton; intros [Hx| ->]; auto|].
    intros Hs. assert (schema1 = [] ∧ is_v1 mt = false) as [Hs1 Hv].
    { destruct mt as [t|]; [|done]. destruct (is_v1 (Some t)); [|done]. by apply app_nil in Hs as []. }
    intros x. rewrite elem_of_app, list_elem_of_singleton. intros [Hx| ->]; [by apply Hpd|].
    exists e. split; [done|]. split; [done|]. by rewrite Hmt.
  - eapply triple_bind; [by apply (triple_ret _ _ (λ _ h s, Q h ∧ coherent h s)); intros h s [? _]|].
    intros mt. apply triple_ret. intros h s [_ Hc]. split; [|done]. by intros []%app_nil.
Qed.

Lemma full_run_done charts images rep es s' s :
    media s = [] → full_run web charts images s = (Ret rep, es, s') → rep_code rep = 0%Z →
    charts ++ images ≠ [] ∧ confirmed (charts ++ images) es ∧ pullable images es ∧
    mutable_refs images = [].
Proof.
  intros Hm Hrun Hcode.
  assert (triple (λ h s, coherent h s) (full_run web charts images)
    (λ rep h s, rep_code rep = 0%Z → charts ++ images ≠ [] ∧ confirmed (charts ++ images) h ∧
       pullable images h ∧ mutable_refs images = [])) as H.
  { unfold full_run. eapply triple_bind.
    { eapply triple_conseq; [apply (triple_fold _ charts_done (isort ref_leb charts)
        (λ d x b, triple_chart d x b) [] [])| |intros a h s0 H; exact H].
      intros h s0 Hc. split; [|done]. by intros _ r Hr%elem_of_nil. }
    intros bad. eapply triple_bind.
    { eapply triple_conseq; [apply (triple_fold _
          (images_done (confirmed ([] ++ isort ref_leb charts))) (isort ref_leb images)) with (d := [])| |
          intros a h s0 H; exact H].
      - intros d x b. apply triple_image. intros h e. apply confirmed_grows.
      - intros h s0 [Hb Hc]. split; [|done]. intros Hn. split; [by apply Hb|].
        split; [|intros _]; by intros r Hr%elem_of_nil. }
    intros [bad' schema1]. apply triple_ret. intros h s0 [H _]. simpl in *.
    destruct bad' as [|]; [|done]. destruct (mutable_refs images) eqn:Emut; [|done].
    destruct schema1; [|done]. destruct (H eq_refl) as (Hch & Him & Hp). specialize (Hp eq_refl).
    intros Hne. split; [by destruct charts, images|].
    split; [|split; [intros r Hr; apply Hp; by apply elem_of_isort|done]].
    intros r. rewrite elem_of_app. intros [Hr|Hr]; [apply Hch|apply Him]; by apply elem_of_isort. }
  apply (H [] s rep es s'); [|done|done]. intros k mt. by rewrite Hm.
Qed.

(** ** How often a registry is asked for a media type *)

(** Only these requests accept the schema 1 types too. *)
Definition is_media (e : event) : bool :=
    match assoc "Accept" (headers e.1) with
    | Some a => String.eqb a (join "," (V2_MANIFEST ++ V1_MANIFEST))
    | None => false
    end.
Definition asked (es : list event) : nat := length (List.filter is_media es).

Lemma asked_app es1 es2 : asked (es1 ++ es2) = (asked es1 + asked es2)%nat.
Proof. unfold asked. by rewrite List.filter_app, length_app. Qed.

(** [m] asks for no media type and leaves the cache alone, however it ends. *)
Definition quiet {A} (m : M A) : Prop :=
    ∀ s o es s', m s = (o, es, s') → asked es = 0%nat ∧ media s' = media s.

Lemma quiet_ret {A} (a : A) : quiet (mret a).
Proof. by intros s o es s' [= <- <- <-]. Qed.

Lemma quiet_bind {A B} (m : M A) (f : A → M B) : quiet m → (∀ a, quiet (f a)) → quiet (m ≫= f).
Proof.
  intros Hm Hf s o es s'. unfold mbind, Io_bind.
  destruct (m s) as [[[a|x] es1] s1] eqn:E; apply Hm in E as [E1 E2].
  - destruct (f a s1) as [[o2 es2] s2] eqn:F. apply Hf in F as [F1 F2]. intros [= <- <- <-].
    rewrite asked_app, E1, F1, F2. auto.
  - by intros [= <- <- <-].
Qed.

Lemma quiet_raises {A} (r : res A) : quiet (raises r).
Proof. by destruct r; intros s o es s' [= <- <- <-]. Qed.

Lemma quiet_urlopen r : (∀ resp, is_media (r, resp) = false) → quiet (urlopen web r).
Proof.
  intros H s o es s' [= <- <- <-]. split; [|done]. unfold asked. simpl. by rewrite H.
Qed.

Lemma quiet_endpoint host repo : quiet (v2_endpoint web host repo).
Proof.
  unfold v2_endpoint, ghcr_token. destruct (String.eqb host _); [|destruct (existsb _ _)];
    [| |apply quiet_ret].
  - apply quiet_bind; [apply quiet_bind; [by apply quiet_urlopen|intros; apply quiet_ret]|].
    intros tok. apply quiet_bind; [apply quiet_raises|intros; apply quiet_ret].
  - apply quiet_bind; [by apply quiet_urlopen|]. intros resp.
    apply quiet_bind; [apply quiet_raises|intros; apply quiet_ret].
Qed.

Lemma is_media_manifest base repo ref auth accept resp :
    is_media (manifest_request base repo ref auth accept, resp)
    = String.eqb (join "," accept) (join "," (V2_MANIFEST ++ V1_MANIFEST)).
Proof. unfold is_media, manifest_request. simpl headers. by rewrite assoc_dict_set. Qed.

Lemma quiet_registry_get host repo ref : quiet (registry_get web host repo ref).
Proof.
  unfold registry_get. destruct (String.eqb host _ && _).
  - apply quiet_bind; [by apply quiet_urlopen|intros; apply quiet_ret].
  - apply quiet_bind; [apply quiet_endpoint|]. intros [[base path] auth].
    apply quiet_bind; [|intros; apply quiet_ret]. apply quiet_urlopen. intros resp.
    by rewrite is_media_manifest.
Qed.

(** The cache holds distinct keys of [ks], one more for each question asked. *)
Definition frugal {A} (ks : list key) (m : M A) : Prop :=
    ∀ s o es s', m s = (o, es, s') → NoDup (media s).*1 → (media s).*1 ⊆ ks →
      (asked es + length (media s) = length (media s'))%nat ∧
      NoDup (media s').*1 ∧ (media s').*1 ⊆ ks.

Lemma frugal_quiet {A} ks (m : M A) : quiet m → frugal ks m.
Proof. intros Hm s o es s' E Hn Hk. apply Hm in E as [-> ->]. auto. Qed.

Lemma frugal_bind {A B} ks (m : M A) (f : A → M B) :
    frugal ks m → (∀ a, frugal ks (f a)) → frugal ks (m ≫= f).
Proof.
  intros Hm Hf s o es s'. unfold mbind, Io_bind.
  destruct (m s) as [[[a|x] es1] s1] eqn:E.
  - destruct (f a s1) as [[o2 es2] s2] eqn:F. intros [= <- <- <-] Hn Hk.
    destruct (Hm _ _ _ _ E Hn Hk) as (E1 & Hn1 & Hk1).
    destruct (Hf _ _ _ _ _ F Hn1 Hk1) as (F1 & Hn2 & Hk2). rewrite asked_app.
    split; [lia|done].
  - intros [= <- <- <-]. by apply (Hm _ _ _ _ E).
Qed.

Lemma cached_None k c : cached k c = None ↔ k ∉ c.*1.
Proof.
  induction c as [|[j v] c IH]; simpl; [set_solver|]. destruct (decide (k = j)); set_solver.
Qed.

Lemma frugal_media_type ks host repo ref :
    (host, repo, ref) ∈ ks → frugal ks (manifest_media_type web host repo ref).
Proof.
  intros Hin s o es s' H Hn Hk. unfold manifest_media_type in H.
  unfold mbind at 1, Io_bind at 1, gets in H.
  destruct (cached (host, repo, ref) (media s)) as [mt|] eqn:Hc; [by injection H as <- <- <-|].
  unfold mbind at 1, Io_bind at 1 in H.
  destruct (v2_endpoint web host repo s) as [[[[[base path] auth]|x] es1] s1] eqn:E;
    apply quiet_endpoint in E as [E1 E2]; [|injection H as <- <- <-; rewrite E1, E2; auto].
  unfold mbind, Io_bind, urlopen, modify, mret, Io_ret in H. injection H as <- <- <-.
  rewrite !asked_app, E1. simpl media. rewrite E2. simpl.
  split; [|split; [|set_solver]].
  - unfold asked. simpl. rewrite is_media_manifest, String.eqb_refl. done.
  - constructor; [by apply cached_None|done].
Qed.

Lemma frugal_fold {A B} ks (f : B → A → M B) l :
    (∀ b x, x ∈ l → frugal ks (f b x)) → ∀ b, frugal ks (foldIo f b l).
Proof.
  induction l as [|x l IH]; intros Hf b; simpl; [apply frugal_quiet, quiet_ret|].
  apply frugal_bind; [apply Hf; left|]. intros b'. apply IH. intros; apply Hf; by right.
Qed.

Definition key_of (r : ref) : key := (r_host r, r_path r, r_tag r).

Lemma frugal_run charts images : frugal (map key_of images) (full_run web charts images).
Proof.
  unfold full_run. apply frugal_bind.
  { apply frugal_fold. intros b x _. apply frugal_quiet. unfold check_chart.
    apply quiet_bind; [apply quiet_registry_get|intros; apply quiet_ret]. }
  intros bad. apply frugal_bind; [|intros [b sc]; apply frugal_quiet, quiet_ret].
  apply frugal_fold. intros [b sc] x Hx%elem_of_isort. unfold check_image.
  apply frugal_bind; [apply frugal_quiet, quiet_registry_get|]. intros c.
  apply frugal_bind; [|intros; apply frugal_quiet, quiet_ret].
  destruct (c =? 200)%Z; [|apply frugal_quiet, quiet_ret].
  apply frugal_media_type. apply list_elem_of_fmap. by exists x.
Qed.

Lemma main_asked flag root o es s' :
    main web flag root {| sent := []; media := [] |} = (o, es, s') →
    (asked es <= length (remove_dups (map key_of (scan root).2)))%nat.
Proof.
  unfold main. destruct (scan root) as [charts images]. destruct flag.
  { intros [= <- <- <-]. unfold asked. simpl. lia. }
  intros E. destruct (frugal_run charts images _ _ _ _ E) as (Ha & Hn & Hk);
    [constructor|by intros x Hx%elem_of_nil|].
  simpl in Ha. rewrite Nat.add_0_r in Ha. rewrite Ha.
  rewrite <- (length_fmap fst (media s')). apply submseteq_length, NoDup_submseteq; [done|].
  intros k Hk'. apply elem_of_remove_dups. by apply Hk.
Qed.
End Runs.

(** ** The mutable-tag test *)

(** For a lower-case letter, ignoring case is lowering the text. *)
Lemma in_set_lower c d :
  In c (list_ascii_of_string "latest") →
  in_set I_ false [Range c c] d = Ascii.eqb c (lower_char d).
Proof.
  intros H. apply Bool.eqb_prop. revert d. eapply forall_ascii.
  simpl in H. repeat (destruct H as [<-|H]; [by vm_compute|]). done.
Qed.

(** A literal, one character after the other. *)
Fixpoint lit_re (cs : list ascii) : re :=
  match cs with
  | [] => Eps
  | [c] => literal c
  | c :: cs' => Seq (literal c) (lit_re cs')
  end.

Lemma run_lit cs k : Forall (λ c, In c (list_ascii_of_string "latest")) cs → ∀ s, ∃ s',
  run I_ (lit_re cs) s k
  = if String.prefix (string_of_list_ascii cs) (lower (rest s)) then k s' else None.
Proof.
  induction 1 as [|c cs Hc Hcs IH]; intros s.
  { exists s. simpl. by destruct (lower (rest s)). }
  assert (∀ s, run I_ (lit_re (c :: cs)) s k
    = match step (in_set I_ false [Range c c]) s with
      | Some s' => run I_ (lit_re cs) s' k | None => None end) as -> by by destruct cs.
  unfold step. destruct (rest s) as [|d t]; [by exists s|].
  rewrite (in_set_lower _ _ Hc). cbn [lower String.prefix string_of_list_ascii].
  destruct (ascii_dec c (lower_char d)) as [->|Hne].
  - rewrite Ascii.eqb_refl. apply IH.
  - apply Ascii.eqb_neq in Hne. rewrite Hne. by exists s.
Qed.

Lemma run_mutable s : ∃ s',
  run I_ MUTABLE s Some = if String.prefix "latest" (lower (rest s)) then Some s' else None.
Proof.
  apply (run_lit (list_ascii_of_string "latest")). rewrite Forall_forall. intros c.
  by rewrite list_elem_of_In.
Qed.

Lemma contains_unfold p s :
  contains p s = String.prefix p s || match s with EmptyString => false | String _ t => contains p t end.
Proof. by destruct s. Qed.

Lemma search_mutable fuel : ∀ s, String.length (rest s) = fuel →
  (match search_from I_ MUTABLE fuel s with Some _ => true | None => false end)
  = contains "latest" (lower (rest s)).
Proof.
  induction fuel as [|fuel IH]; intros s Hs.
  - destruct (rest s) eqn:E; [|done]. unfold search_from. destruct (run_mutable s) as [s' ->].
    by rewrite E.
  - cbn [search_from]. rewrite contains_unfold. destruct (run_mutable s) as [s' ->].
    destruct (String.prefix _ _); [done|]. unfold advance. destruct (rest s) as [|c t]; [done|].
    rewrite orb_false_l. apply IH. simpl in *. lia.
Qed.

Lemma searches_mutable s : searches I_ MUTABLE s = contains "latest" (lower s).
Proof.
  pose proof (search_mutable (String.length s) (start s) eq_refl) as H. simpl rest in H.
  rewrite <- H. unfold searches, search.
  by destruct (search_from I_ MUTABLE (String.length s) (start s)) as [[]|].
Qed.

(** An image reference whose tag says "latest" in any case. *)
Definition floating (r : ref) : bool := contains "latest" (lower (r_tag r)).

Lemma mutable_refs_nil images : mutable_refs images = [] ↔ ∀ r, r ∈ images → floating r = false.
Proof.
  unfold mutable_refs. rewrite isort_nil. unfold floating. induction images as [|r l IH]; simpl.
  - split; [intros _ r Hr%elem_of_nil|]; done.
  - rewrite searches_mutable. setoid_rewrite elem_of_cons. destruct (contains _ _) eqn:E.
    + split; [done|]. intros H. rewrite (H r) in E; [done|by left].
    + rewrite IH. split; [|auto]. intros H x [->|Hx]; auto.
Qed.

(** ** The image declared by a [repository:] line and the [tag:] line after it *)

Definition SPACES : re := Star true (Set_ false [Space]).
Definition quote : list citem := [Range (char 34) (char 34); Range "'" "'"].
Definition alnum : list citem := [Range "a" "z"; Range "A" "Z"; Range "0" "9"].

(** The patterns of the two keys, for the characters a value may go on with. *)
Definition keyed (key : string) (rst : list citem) : re :=
  Seq Bol (Seq SPACES (lits key (Seq SPACES (Seq (Alt (Set_ false quote) Eps)
    (Seq (Grp 1 (Seq (Set_ false alnum) (Star true (Set_ false rst))))
    (Seq (Alt (Set_ false quote) Eps) (Seq SPACES
    (Seq (Alt (Seq (Set_ false [Range "#" "#"]) (Star true Dot)) Eps) Eol)))))))).

Definition path_chars : list citem := alnum ++ [Range "." "."; Range "_" "_"; Range "/" "/"; Range "-" "-"].
Definition tag_chars : list citem := alnum ++ [Range "." "."; Range "_" "_"; Range "-" "-"].

Lemma REPO_LINE_keyed : REPO_LINE = keyed "repository:" path_chars.
Proof. reflexivity. Qed.
Lemma TAG_LINE_keyed : TAG_LINE = keyed "tag:" tag_chars.
Proof. reflexivity. Qed.

(** A value of such a key: its first character is a letter or a digit. *)
Definition value_of (rst : list citem) (v : string) : bool :=
  match v with
  | String c v' => in_set no_flags false alnum c && all_chars (in_set no_flags false rst) v'
  | EmptyString => false
  end.

Definition quotes : list string := [""; dquote; "'"].

Lemma alnum_plain c : in_set no_flags false alnum c = true →
  in_set no_flags false [Space] c = false ∧ in_set no_flags false quote c = false.
Proof.
  intros H. rewrite <- !negb_true_iff, <- andb_true_iff. revert H. rewrite <- implb_true_iff.
  revert c. eapply forall_ascii. by vm_compute.
Qed.

(** After a value: the closing quote if any, and the end of the line. *)
Lemma yields_end q s k Q :
  q ∈ quotes → rest s = q → (∀ s', caps s' = caps s → yields (k s') Q) →
  yields (run no_flags (Seq (Alt (Set_ false quote) Eps) (Seq SPACES
    (Seq (Alt (Seq (Set_ false [Range "#" "#"]) (Star true Dot)) Eps) Eol))) s k) Q.
Proof.
  intros Hq Hr Hk.
  assert (∀ s1, rest s1 = "" → caps s1 = caps s → yields (run no_flags (Seq SPACES
    (Seq (Alt (Seq (Set_ false [Range "#" "#"]) (Star true Dot)) Eps) Eol)) s1 k) Q) as Hend.
  { intros s1 H1 Hc1. apply yields_seq. apply yields_star with "" ""; [done|done|done|].
    intros s2 (H2 & _ & Hc2). apply yields_seq, yields_opt_seq_no; [unfold misses; by rewrite H2|].
    simpl. unfold at_eol. rewrite H2. apply Hk. congruence. }
  apply yields_seq.
  unfold quotes in Hq. rewrite !elem_of_cons in Hq. destruct Hq as [->|[->|[->|Hq%elem_of_nil]]].
  - apply yields_opt_no; [unfold misses; by rewrite Hr|]. by apply Hend.
  - apply yields_alt_l. eapply yields_set; [exact Hr|reflexivity|]. intros s1 (H1 & _ & Hc1). by apply Hend.
  - apply yields_alt_l. eapply yields_set; [exact Hr|reflexivity|]. intros s1 (H1 & _ & Hc1). by apply Hend.
  - done.
Qed.

Lemma in_set_space c : in_set no_flags false [Space] c = is_space c.
Proof. unfold in_set. simpl. by rewrite !orb_false_r. Qed.

Lemma all_chars_ext p p' s : (∀ c, p c = p' c) → all_chars p s = all_chars p' s.
Proof. intros H. induction s; simpl; [done|]. by rewrite H, IHs. Qed.

(** A value up to its closing quote, and the rest of the line. *)
Definition value_tail (rst : list citem) : re :=
  Seq (Grp 1 (Seq (Set_ false alnum) (Star true (Set_ false rst))))
    (Seq (Alt (Set_ false quote) Eps) (Seq SPACES
    (Seq (Alt (Seq (Set_ false [Range "#" "#"]) (Star true Dot)) Eps) Eol))).

Lemma yields_value rst q c v s :
  q ∈ quotes → value_of rst (String c v) = true →
  (match q with String c _ => in_set no_flags false rst c | EmptyString => false end) = false →
  rest s = (String c v ++ q)%string → caps s = [] →
  yields (run no_flags (value_tail rst) s Some) (λ s, caps s = [(1%nat, String c v)]).
Proof.
  intros Hq Hv Hqr Hr Hc. simpl in Hv. apply andb_true_iff in Hv as [Ha Hv].
  apply yields_seq, yields_grp, yields_seq. eapply yields_set; [exact Hr|done|]. intros s1 M1.
  apply yields_star with v q; [by destruct M1|done|done|]. intros s2 M2.
  pose proof (moved_trans _ _ _ _ _ _ _ M1 M2) as M.
  pose proof (between_moved _ _ _ _ Hr M) as Hb.
  apply yields_end with q; [done|by destruct M as (? & _)|]. intros s3 H3. eexists.
  split; [done|]. rewrite H3. simpl. rewrite Hb. destruct M as (_ & _ & ->). by rewrite Hc.
Qed.

(** A key, a space and a value, quoted or not: the first group is the value. *)
Lemma match_keyed key rst ind q v :
  all_chars is_space ind = true →
  (match key with String c _ => negb (is_space c) | EmptyString => false end) = true →
  q ∈ quotes → value_of rst v = true →
  (match q with String c _ => in_set no_flags false rst c | EmptyString => false end) = false →
  ∃ m, re_match no_flags (keyed key rst) (ind ++ key ++ " " ++ q ++ v ++ q) = Some m ∧
       group' m 1 = v.
Proof.
  intros Hind Hkey Hq Hv Hqr.
  set (line := (ind ++ key ++ " " ++ q ++ v ++ q)%string).
  enough (yields (run no_flags (keyed key rst) (start line) Some) (λ s, caps s = [(1%nat, v)]))
    as (s & Hs & Hc).
  { exists (found_at (start line) s). unfold re_match, match_here. rewrite Hs.
    split; [done|]. unfold group', group. simpl. by rewrite Hc. }
  destruct v as [|c v]; [done|].
  unfold keyed. apply yields_seq, yields_bol; [done|]. apply yields_seq.
  apply yields_star with ind (key ++ " " ++ q ++ String c v ++ q)%string; [done| | |].
  { rewrite (all_chars_ext _ is_space); [done|]. intros; apply in_set_space. }
  { destruct key as [|d key]; [done|]. unfold in_set. simpl. apply negb_true_iff in Hkey.
    by rewrite Hkey. }
  intros s1 (H1 & _ & Hc1). apply yields_lits with (" " ++ q ++ String c v ++ q)%string; [done|].
  intros s2 (H2 & _ & Hc2). apply yields_seq.
  assert (in_set no_flags false alnum c = true) as Ha by (simpl in Hv; by apply andb_true_iff in Hv as []).
  destruct (alnum_plain c Ha) as [Hsp Hqt].
  apply yields_star with " " (q ++ String c v ++ q)%string; [done|done| |].
  { unfold quotes in Hq. rewrite !elem_of_cons in Hq.
    by destruct Hq as [->|[->|[->|Hq%elem_of_nil]]]. }
  intros s3 (H3 & _ & Hc3). apply yields_seq.
  assert (∀ s4, rest s4 = (String c v ++ q)%string → caps s4 = caps s3 →
    yields (run no_flags (value_tail rst) s4 Some) (λ s, caps s = [(1%nat, String c v)])) as Hval.
  { intros s4 H4 Hc4. apply yields_value with q; [done|done|done|done|].
    rewrite Hc4, Hc3, Hc2, Hc1. done. }
  unfold quotes in Hq. rewrite !elem_of_cons in Hq. destruct Hq as [->|[->|[->|Hq%elem_of_nil]]].
  - apply yields_opt_no; [unfold misses; by rewrite H3|]. by apply Hval.
  - apply yields_alt_l. eapply yields_set; [exact H3|reflexivity|]. intros s4 (H4 & _ & Hc4).
    by apply Hval.
  - apply yields_alt_l. eapply yields_set; [exact H3|reflexivity|]. intros s4 (H4 & _ & Hc4).
    by apply Hval.
  - done.
Qed.

(** ** The properties *)

(** The line [key: value] of a chart, indented and perhaps quoted. *)
Definition key_line (ind key q v : string) : string := (ind ++ key ++ " " ++ q ++ v ++ q)%string.

Lemma value_not_oci v : value_of path_chars v = true → startswith "oci://" v = false.
Proof.
  intros H. destruct (startswith "oci://" v) eqn:E; [|done].
  apply startswith_inv in E as [t ->]. done.
Qed.

Lemma first_near_None {A} lines idx (f : string → option A) offs :
  (∀ off l, off ∈ offs → line_at lines idx off = Some l → f l = None) →
  first_near lines idx f offs = None.
Proof.
  induction offs as [|off offs IH]; intros H; simpl; [done|].
  rewrite IH by (intros; eapply H; [by right|done]).
  destruct (line_at lines idx off) as [l|] eqn:E; [|done]. by rewrite (H off l) by (done || left).
Qed.

(** No line around declares a registry of its own. *)
Definition no_registry_near (lines : list string) (i : nat) : bool :=
  forallb (λ off, match line_at lines i off with
                  | Some l => match registry_of l with None => true | Some _ => false end
                  | None => true
                  end) around.

Lemma split_image_keys lines i ind q host path ind' q' tag :
  lines !! i = Some (key_line ind "repository:" q (host ++ "/" ++ path)) →
  lines !! S i = Some (key_line ind' "tag:" q' tag) →
  all_chars is_space ind = true → all_chars is_space ind' = true → q ∈ quotes → q' ∈ quotes →
  value_of path_chars (host ++ "/" ++ path) = true → value_of tag_chars tag = true →
  all_chars (λ c, negb (Ascii.eqb "/" c)) host = true → contains "." host = true →
  skipped (key_line ind "repository:" q (host ++ "/" ++ path)) = false → skipped tag = false →
  no_registry_near lines i = true →
  split_image lines i = Some (host, path, tag).
Proof.
  intros Hr Ht Hi Hi' Hq Hq' Hv Hv' Hh Hd Hs Hst Hreg.
  assert (∀ q rst, q ∈ quotes → rst = path_chars ∨ rst = tag_chars →
    (match q with String c _ => in_set no_flags false rst c | EmptyString => false end) = false) as Hqr.
  { unfold quotes. intros p rst. rewrite !elem_of_cons.
    by intros [->|[->|[->|?%elem_of_nil]]] [-> | ->]. }
  destruct (match_keyed "repository:" path_chars ind q (host ++ "/" ++ path)) as (m & Hm & Hg);
    [done..|by apply Hqr; [|left]|].
  destruct (match_keyed "tag:" tag_chars ind' q' tag) as (mt & Hmt & Hgt);
    [done..|by apply Hqr; [|right]|].
  unfold split_image. rewrite Hr, REPO_LINE_keyed. unfold key_line in Hs |- *. rewrite Hm, Hg.
  rewrite value_not_oci by done. rewrite Hs. cbv beta iota delta [orb].
  rewrite (first_near_None lines i registry_of around); [|].
  2: { unfold no_registry_near in Hreg. rewrite forallb_forall in Hreg. intros off l Ho Hl.
       apply list_elem_of_In, Hreg in Ho. rewrite Hl in Ho. by destruct (registry_of l). }
  assert (first_near lines i tag_of around = Some tag) as ->.
  { unfold around. cbn [first_near foldr]. unfold line_at at 1.
    replace (Z.of_nat i + 1)%Z with (Z.of_nat (S i)) by lia.
    rewrite (proj2 (Z.leb_le _ _)) by apply Nat2Z.is_nonneg. rewrite Nat2Z.id, Ht.
    unfold tag_of at 1. rewrite TAG_LINE_keyed. unfold key_line. rewrite Hmt, Hgt. by rewrite Hst. }
  change ("/" ++ path)%string with (String "/" path). rewrite partition_at_app by done.
  destruct tag; [done|]. by rewrite Hd.
Qed.

Definition fresh : state := {| sent := []; media := [] |}.

(** C13: when a full run ends with status 0, something was scanned, a registry confirmed every
    chart and image reference during that run, and every image was served with a media type that
    is not schema 1 (or with none that could be told) under a tag that does not say latest. *)
Theorem main_passes web root rep es s' :
  main web false root fresh = (Ret rep, es, s') → rep_code rep = 0%Z →
  (scan root).1 ++ (scan root).2 ≠ [] ∧
  (∀ r, r ∈ (scan root).1 ++ (scan root).2 → ∃ e, e ∈ es ∧ confirms r e) ∧
  (∀ r, r ∈ (scan root).2 →
     (∃ e, e ∈ es ∧ inspects (key_of r) e ∧ is_v1 (media_type_of e.2) = false) ∧
     floating r = false).
Proof.
  unfold main. destruct (scan root) as [charts images]. intros Hrun Hcode.
  destruct (full_run_done web charts images rep es s' fresh) as (Hne & Hc & Hp & Hm); [done..|].
  split; [done|]. split; [exact Hc|]. intros r Hr. split; [by apply Hp|].
  by apply (mutable_refs_nil images).
Qed.

(** A run asks a registry for the media type of each distinct image reference at most once,
    however it ends and whatever the registries answer. *)
Theorem asks_once web flag root :
  (asked (main web flag root fresh).1.2 <= length (remove_dups (map key_of (scan root).2)))%nat.
Proof.
  destruct (main web flag root fresh) as [[o es] s'] eqn:E. simpl. by apply (main_asked _ _ _ _ _ _ E).
Qed.

(** The offline mode sends no request and always reports; it ends with status 0 exactly when
    it has seen an image and no image's tag says latest, in any case. *)
Theorem mutable_only_exact web root s :
  ∃ rep, main web true root s = (Ret rep, [], s) ∧
    (rep_code rep = 0%Z ↔ (scan root).2 ≠ [] ∧ ∀ r, r ∈ (scan root).2 → floating r = false).
Proof.
  unfold main. destruct (scan root) as [charts images]. eexists. split; [reflexivity|].
  simpl snd. rewrite <- mutable_refs_nil. unfold mutable_only. cbn [rep_code].
  destruct images as [|r l]; [split; [done|by intros [? _]]|].
  by destruct (mutable_refs (r :: l)); split; [..|intros [_ ?]].
Qed.

(** An image written as a repository key and a tag key on the next line, each indented and
    quoted in any way, is found with its host, path and tag, unless a registry key stands
    nearby or a line is a placeholder. *)
Theorem split_image_found lines i ind q host path ind' q' tag :
  lines !! i = Some (key_line ind "repository:" q (host ++ "/" ++ path)) →
  lines !! S i = Some (key_line ind' "tag:" q' tag) →
  all_chars is_space ind = true → all_chars is_space ind' = true → q ∈ quotes → q' ∈ quotes →
  value_of path_chars (host ++ "/" ++ path) = true → value_of tag_chars tag = true →
  all_chars (λ c, negb (Ascii.eqb "/" c)) host = true → contains "." host = true →
  skipped (key_line ind "repository:" q (host ++ "/" ++ path)) = false → skipped tag = false →
  no_registry_near lines i = true →
  split_image lines i = Some (host, path, tag).
Proof. apply split_image_keys. Qed.

(** ** Concrete runs *)

(** Registries that have everything: quay.io lists the tag, ghcr.io and Docker Hub hand out a
    token, and manifests are served as OCI indexes. *)
Definition everywhere (sent : list request) (r : request) : response :=
  if contains "/token?" (url r) then Reply 200 None (Some (json_dumps (VDict [("token", VStr "t")])))
  else if contains "specificTag" (url r)
  then Reply 200 None (Some (json_dumps (VDict [("tags", VList [VInt 1])])))
  else Reply 200 (Some "application/vnd.oci.image.index.v1+json; charset=utf-8") None.

Definition sample_lines : list string :=
  ["image:"; "  repository: ghcr.io/org/app"; "  tag: 1.2.3"; "other: quay.io/org/thing:v1.0";
   "again: quay.io/org/thing:v1.0"; "chart: oci://ghcr.io/org/charts"; "name: demo"; "version: 0.1.0"].
Definition sample_tree : list node :=
  [Dir "chart" [File "values.yaml" (Some (join newline sample_lines));
                Dir "charts" [File "ignored.yaml" (Some "x: ghcr.io/a/b:latest")];
                File "README.md" (Some "ghcr.io/a/b:latest")]].

Example sample_scan :
  (map (λ r, (r_host r, r_path r, r_tag r, r_line r)) (scan sample_tree).1,
   map (λ r, (r_host r, r_path r, r_tag r, r_line r)) (scan sample_tree).2)
  = ([("ghcr.io", "org/charts/demo", "0.1.0", 6%nat)],
     [("ghcr.io", "org/app", "1.2.3", 2%nat); ("quay.io", "org/thing", "v1.0", 4%nat);
      ("quay.io", "org/thing", "v1.0", 5%nat)]).
Proof. vm_compute. reflexivity. Qed.

Definition sample_run := main everywhere false sample_tree fresh.
Definition sample_report : report :=
  {| rep_code := 0; rep_bad := []; rep_mutable := []; rep_schema1 := [] |}.

Lemma main_passes_witness :
  main everywhere false sample_tree fresh = (Ret sample_report, sample_run.1.2, sample_run.2) ∧
  (scan sample_tree).1 ++ (scan sample_tree).2 ≠ [] ∧
  (∀ r, r ∈ (scan sample_tree).1 ++ (scan sample_tree).2 →
     ∃ e, e ∈ sample_run.1.2 ∧ confirms r e) ∧
  (∀ r, r ∈ (scan sample_tree).2 →
     (∃ e, e ∈ sample_run.1.2 ∧ inspects (key_of r) e ∧ is_v1 (media_type_of e.2) = false) ∧
     floating r = false).
Proof.
  split; [vm_compute; reflexivity|].
  exact (main_passes everywhere sample_tree sample_report sample_run.1.2 sample_run.2
    ltac:(vm_compute; reflexivity) eq_refl).
Defined.

(** Three images, two distinct references, two questions. *)
Example sample_asked : asked sample_run.1.2 = 2%nat.
Proof. vm_compute. reflexivity. Qed.

Lemma split_image_found_witness :
  split_image sample_lines 1 = Some ("ghcr.io", "org/app", "1.2.3").
Proof.
  apply (split_image_found sample_lines 1 "  " "" "ghcr.io" "org/app" "  " "" "1.2.3");
    [reflexivity|reflexivity|reflexivity|reflexivity|left|left|vm_compute; reflexivity
    |vm_compute; reflexivity|reflexivity|reflexivity|vm_compute; reflexivity
    |vm_compute; reflexivity|vm_compute; reflexivity].
Defined.
End PreflightRuns.
