(* ===== verification/Gate.v ===== *)
(** * Gates: programs that collect findings

    Most scripts under hack/ walk rendered manifests, call [fail] for each problem, stop with
    status 2 where they would measure nothing ([measurement_failed]), and end with status 1 when
    there are findings. A gate here returns its findings in the order of the calls with its
    value, or the reason it stopped. *)
From S2P Require Import Prelude PyStr PyVal.

(** Why a gate stopped: a measurement failure of type [U], or an exception nobody catches. *)
Inductive stop (U : Type) := Unmeasured (u : U) | Crashed (e : exn).
Arguments Unmeasured {U} u.
Arguments Crashed {U} e.

Inductive gate (U F A : Type) := Done (fs : list F) (a : A) | Stop (s : stop U).
Arguments Done {U F A} fs a.
Arguments Stop {U F A} s.

Section Gate.
  Context {U F : Type}.

#[global] Instance gate_ret : MRet (gate U F) := λ A a, Done [] a.
#[global] Instance gate_bind : MBind (gate U F) := λ A B f m,
    match m with
    | Done fs a => match f a with Done fs' b => Done (fs ++ fs') b | Stop s => Stop s end
    | Stop s => Stop s
    end.

Definition fail (f : F) : gate U F unit := Done [f] ().
Definition measurement_failed {A} (u : U) : gate U F A := Stop (Unmeasured u).
Definition lift {A} (r : res A) : gate U F A :=
    match r with Ok a => mret a | Raise e => Stop (Crashed e) end.
Definition check (b : bool) (f : F) : gate U F unit := if b then mret () else fail f.

  (** The same for a program that stops at its first problem. *)
Definition require (b : bool) (u : U) : gate U F unit := if b then mret () else measurement_failed u.

Fixpoint for_ {A} (l : list A) (f : A → gate U F unit) : gate U F unit :=
    match l with [] => mret () | x :: l' => f x ≫= λ _, for_ l' f end.

  (** A loop that carries a value. *)
Fixpoint fold_ {A B} (f : B → A → gate U F B) (b : B) (l : list A) : gate U F B :=
    match l with [] => mret b | x :: l' => f b x ≫= λ b', fold_ f b' l' end.

  (** *** What a gate that was not stopped has done *)

Lemma bind_Done {A B} (m : gate U F A) (f : A → gate U F B) fs b :
    m ≫= f = Done fs b ↔ ∃ f1 a f2, m = Done f1 a ∧ f a = Done f2 b ∧ fs = f1 ++ f2.
Proof.
  unfold mbind, gate_bind. split.
  - destruct m as [f1 a|]; [|done]. destruct (f a) as [f2 b'|] eqn:E; [|done].
    intros [= <- <-]. eauto 10.
  - by intros (f1 & a & f2 & -> & -> & ->).
Qed.

  (** No finding at the end means none at any step. *)
Lemma bind_clean {A B} (m : gate U F A) (f : A → gate U F B) b :
    m ≫= f = Done [] b ↔ ∃ a, m = Done [] a ∧ f a = Done [] b.
Proof.
  rewrite bind_Done. split.
  - intros (f1 & a & f2 & H1 & H2 & H3). symmetry in H3. apply app_eq_nil in H3 as [-> ->]. eauto.
  - intros (a & H1 & H2). exists [], a, []. done.
Qed.

Lemma lift_Done {A} (r : res A) fs a : lift r = Done fs a ↔ r = Ok a ∧ fs = [].
Proof. unfold lift. destruct r; simpl; [|naive_solver]. split; [intros [= <- <-]|intros [[= ->] ->]]; done. Qed.

Lemma check_clean b f u : check b f = Done [] u ↔ b = true.
Proof. unfold check. destruct b, u; naive_solver. Qed.

Lemma require_clean b u v : require b u = Done [] v ↔ b = true.
Proof. unfold require. destruct b, v; naive_solver. Qed.

Lemma for_clean {A} (l : list A) f u :
    for_ l f = Done [] u ↔ ∀ x, x ∈ l → f x = Done [] ().
Proof.
  destruct u. induction l as [|x l IH]; simpl.
  - split; [|done]. intros _ x Hx. by apply not_elem_of_nil in Hx.
  - rewrite bind_clean. setoid_rewrite elem_of_cons. split.
    + intros ([] & H1 & H2). rewrite IH in H2. intros y [->|Hy]; auto.
    + intros H. exists (). split; [by apply H; left|]. apply IH. auto.
Qed.

Lemma lift_bind_Done {A B} (r : res A) (f : A → gate U F B) fs b :
    lift r ≫= f = Done fs b ↔ ∃ a, r = Ok a ∧ f a = Done fs b.
Proof.
  rewrite bind_Done. setoid_rewrite lift_Done. split.
  - intros (f1 & a & f2 & [-> ->] & H & ->). eauto.
  - intros (a & -> & H). exists [], a, fs. done.
Qed.
Lemma lift_bind {A B} (a : A) (f : A → gate U F B) : lift (Ok a) ≫= f = f a.
Proof. cbn [lift mret gate_ret mbind gate_bind]. by destruct (f a). Qed.

Lemma fold_clean {A B} (f : B → A → gate U F B) b l b' :
  fold_ f b l = Done [] b' → ∀ x, x ∈ l → ∃ b1 b2, f b1 x = Done [] b2.
Proof.
  revert b. induction l as [|y l IH]; intros b H x Hx; [by apply not_elem_of_nil in Hx|].
  cbn [fold_] in H. apply bind_clean in H as (b1 & H1 & H2).
  apply elem_of_cons in Hx as [->|Hx]; [eauto|]. by eapply IH.
Qed.

(** An invariant of the carried value. *)
Lemma fold_keeps {A B} (P : B → Prop) (f : B → A → gate U F B) l :
  (∀ b x b', x ∈ l → P b → f b x = Done [] b' → P b') →
  ∀ b b', P b → fold_ f b l = Done [] b' → P b'.
Proof.
  induction l as [|x l IH]; intros Hf b b' Hb H; cbn [fold_] in H; [by injection H as <-|].
  apply bind_clean in H as (b1 & H1 & H2). eapply IH; [|eapply Hf; [left|exact Hb|exact H1]|exact H2].
  intros ? y ??. eapply Hf. by right.
Qed.

Lemma fold_quiet {A B} (f : B → A → gate U F B) l :
  (∀ b x fs b', x ∈ l → f b x = Done fs b' → fs = []) →
  ∀ b fs b', fold_ f b l = Done fs b' → fs = [].
Proof.
  induction l as [|y l IH]; intros Hf b fs b' H; cbn [fold_] in H; [by injection H as <- <-|].
  apply bind_Done in H as (f1 & b1 & f2 & H1 & H2 & ->).
  rewrite (Hf b y f1 b1 ltac:(left) H1). eapply IH; [|exact H2].
  intros ? x ???. eapply Hf. by right.
Qed.

Lemma for_quiet {A} (f : A → gate U F unit) l :
  (∀ x fs, x ∈ l → f x = Done fs () → fs = []) → ∀ fs, for_ l f = Done fs () → fs = [].
Proof.
  induction l as [|y l IH]; intros Hf fs H; cbn [for_] in H; [by injection H as <-|].
  apply bind_Done in H as (f1 & [] & f2 & H1 & H2 & ->).
  rewrite (Hf y f1 ltac:(left) H1). eapply IH; [|exact H2].
  intros x ??. eapply Hf. by right.
Qed.
End Gate.

(** How a gate ends: the process's exit status, 1 for an uncaught exception. *)
Inductive verdict (U F A : Type) :=
  | Passed (a : A) | Failed (fs : list F) | NotMeasured (u : U) | Traceback (e : exn).
Arguments Passed {U F A} a.
Arguments Failed {U F A} fs.
Arguments NotMeasured {U F A} u.
Arguments Traceback {U F A} e.

Definition verdict_of {U F A} (g : gate U F A) : verdict U F A :=
  match g with
  | Done [] a => Passed a
  | Done fs _ => Failed fs
  | Stop (Unmeasured u) => NotMeasured u
  | Stop (Crashed e) => Traceback e
  end.

Definition exit_code {U F A} (v : verdict U F A) : Z :=
  match v with Passed _ => 0 | Failed _ => 1 | NotMeasured _ => 2 | Traceback _ => 1 end.

Lemma verdict_Passed {U F A} (g : gate U F A) a : verdict_of g = Passed a ↔ g = Done [] a.
Proof. destruct g as [[|f fs] b|[u|e]]; simpl; naive_solver. Qed.

(** [gate_inv H] opens a gate that ended without findings. *)
Ltac gate_inv H :=
  repeat (lazymatch type of H with
  | lift _ ≫= _ = Done _ _ =>
      let a := fresh "v" in let Ha := fresh "Hv" in
      apply lift_bind_Done in H; destruct H as (a & Ha & H)
  | check _ _ ≫= _ = Done [] _ =>
      let Ha := fresh "Hc" in
      apply bind_clean in H; destruct H as ([] & Ha & H); apply check_clean in Ha
  | _ ≫= _ = Done [] _ =>
      let a := fresh "a" in let Ha := fresh "Ha" in
      apply bind_clean in H; destruct H as (a & Ha & H)
  end).
