(* ===== verification/Udp.v ===== *)
(** * hack/validate-udp-services.py: a port in front of a UDP-only listener declares UDP

    Half A follows each registered UDP-only daemon from its Service port to the container port
    behind it; half B compares every Service port with the container ports it resolves to. The
    rendered charts are the input: what [helm template] gave for each chart, as parsed YAML. *)
From S2P Require Import Prelude PyStr PyVal Gate.
#[local] Open Scope string_scope.
#[local] Open Scope list_scope.

Module Udp.

Record entry := {
  component : string; service : string; port_name : string; kind : string;
  workload : string; container : string }.

(** The registry of daemons that speak only UDP. *)
Definition UDP_ONLY : list entry :=
  [{| component := "gnocchi"; service := "gnocchi-statsd"; port_name := "gn-stats";
      kind := "DaemonSet"; workload := "gnocchi-statsd"; container := "gnocchi-statsd" |}].

Definition SKIP_RENDER : list string := ["openstack"].
Definition WORKLOADS : list string := ["Deployment"; "StatefulSet"; "DaemonSet"].
Definition PROBES : list string := ["livenessProbe"; "readinessProbe"; "startupProbe"].

(** One constructor per [fail], with the values its text shows. *)
Inductive finding :=
  | ServicePortNotUdp (e : entry) (proto : val)
  | TcpOnSameNumber (e : entry) (port proto : val)
  | NoContainerPort (e : entry) (port : val)
  | ContainerPortNotUdp (e : entry) (number proto : val)
  | TargetNotDeclared (e : entry) (target : val)
  | NamedTargetNotUdp (e : entry) (target : val)
  | SelectorMismatch (e : entry)
  | ProbeOnDatagramPort (e : entry) (probe scheme : string) (target : val)
  | ProtocolMismatch (comp svc : string) (port_name proto : val) (wl : string * string)
      (container target : val) (got : list val).

Inductive unmeasured :=
  | NoCharts
  | EmptyRegistry
  | NotRendered (problems : list (string * string))
  | EntryNotRendered (e : entry)
  | NoService (e : entry)
  | NoNamedPort (e : entry) (got : list val)
  | NoWorkload (e : entry)
  | NoContainer (e : entry)
  | NoEntryChecked
  | NoPortInspected.

Definition G := gate unmeasured finding.

(** ** Reading ports *)

(** [isinstance(v, int)]: a bool is an int. *)
Definition is_int (v : val) : bool := match v with VInt _ | VBool _ => true | _ => false end.

(** A declared container port: name, number, protocol, and whether the protocol was written. *)
Record cport := { cp_name : val; cp_number : val; cp_proto : val; cp_declared : bool }.

Definition container_port (p : val) : res (option cport) :=
  if negb (is_dict p) then Ok None else
  let* number := get p "containerPort" in
  if negb (is_int number) then Ok None else
  let* name := get p "name" in
  let* proto := get p "protocol" in
  let* declared := key_in "protocol" p in
  Ok (Some {| cp_name := name; cp_number := number; cp_proto := or_ proto (VStr "TCP");
              cp_declared := declared |}).

Definition container_ports (container : val) : res (list cport) :=
  let* ps := get_iter container "ports" in
  let* l := mapM container_port ps in
  Ok (omap id l).

(** A Service selector against a pod's labels. *)
Definition selects (selector labels : val) : res bool :=
  if negb (truthy selector) then Ok false else
  let* kvs := items selector in
  (fix go kvs := match kvs with
     | [] => Ok true
     | (k, v) :: kvs' =>
         let* w := get labels k in
         if py_eq w v then go kvs' else Ok false
     end) kvs.

Definition is_digits (s : string) : bool :=
  negb (String.eqb s "") && all_chars is_digit s.

Inductive target := Number (v : val) | Name (v : val).

Definition resolve_target (service_port : val) : res target :=
  let* t := get service_port "targetPort" in
  match t with
  | VNone => let* p := getitem service_port "port" in Ok (Number p)
  | VInt _ | VBool _ => Ok (Number t)
  | VStr s =>
      if is_digits s then let* n := py_int s in Ok (Number (VInt n)) else Ok (Name t)
  | _ => Ok (Name t)
  end.

(** The ports a connecting probe tries to reach, with the scheme. *)
Definition probe_targets (probe : val) : res (list (val * string)) :=
  foldM (λ out scheme,
    let* s := get_dict probe scheme in
    let* port := get s "port" in
    Ok (if is_none port then out else out ++ [(port, scheme)]))
    [] ["httpGet"; "tcpSocket"; "grpc"].

(** ** Rendering and indexing *)

(** What [render] returns for the parsed output of helm, or its error. *)
Definition render (output : list val + string) : list val + string :=
  match output with
  | inr err => inr err
  | inl docs =>
      match List.filter is_dict docs with
      | [] => inr "rendered 0 objects"
      | ds => inl ds
      end
  end.

(** The charts that rendered, and what kept the others from it. *)
Fixpoint render_all (charts : list (string * (list val + string)))
    : list (string * list val) * list (string * string) :=
  match charts with
  | [] => ([], [])
  | (name, out) :: rest =>
      let '(ok, bad) := render_all rest in
      if existsb (String.eqb name) SKIP_RENDER then (ok, bad) else
      match render out with
      | inl docs => ((name, docs) :: ok, bad)
      | inr err => (ok, (name, err) :: bad)
      end
  end.

Definition pair_eqb (a b : string * string) : bool :=
  String.eqb a.1 b.1 && String.eqb a.2 b.2.

Fixpoint pget {B} (k : string * string) (d : list ((string * string) * B)) : option B :=
  match d with
  | [] => None
  | (j, v) :: d' => if pair_eqb k j then Some v else pget k d'
  end.

Fixpoint pset {B} (k : string * string) (v : B) (d : list ((string * string) * B)) :=
  match d with
  | [] => [(k, v)]
  | (j, w) :: d' => if pair_eqb k j then (k, v) :: d' else (j, w) :: pset k v d'
  end.

(** The Services by name, and the workloads by kind and name, of a component's objects. *)
Record indexed := {
  services : list (string * val); workloads : list ((string * string) * val) }.

Definition index_doc (ix : indexed) (d : val) : res indexed :=
  let* meta := get_dict d "metadata" in
  let* k := get d "kind" in
  let* n := get meta "name" in
  if negb (truthy n) then Ok ix else
  let is_workload := match k with VStr s => existsb (String.eqb s) WORKLOADS | _ => false end in
  match n with
  | VStr name =>
      Ok (if eq_str k "Service"
          then {| services := dict_set name d (services ix); workloads := workloads ix |}
          else match k with
               | VStr ks => if is_workload
                   then {| services := services ix;
                           workloads := pset (ks, name) d (workloads ix) |}
                   else ix
               | _ => ix
               end)
  | _ => if eq_str k "Service" || is_workload then Raise Unmodelled else Ok ix
  end.

Definition index (docs : list val) : res indexed :=
  foldM index_doc {| services := []; workloads := [] |} docs.

(** ** Half A: one registered daemon *)

Definition get_list (v : val) (k : string) : res val :=
  let* w := get v k in Ok (or_ w (VList [])).

(** [(doc.get("spec") or {})], and the pod template of a workload. *)
Definition spec_of (d : val) : res val := get_dict d "spec".
Definition template_of (wl : val) : res val :=
  let* s := spec_of wl in get_dict s "template".

(** The first port of that name, with the others. *)
Fixpoint split_named (name : string) (ps : list val) : res (option (val * list val)) :=
  match ps with
  | [] => Ok None
  | p :: ps' =>
      let* hit := (if is_dict p then let* n := get p "name" in Ok (eq_str n name) else Ok false) in
      if hit : bool then Ok (Some (p, ps')) else
      let* r := split_named name ps' in
      Ok (match r with Some (q, others) => Some (q, p :: others) | None => None end)
  end.

Definition check_other_port (e : entry) (port : val) (p : val) : G unit :=
  if negb (is_dict p) then mret () else
  let* n := lift (get p "port") in
  if negb (py_eq n port) then mret () else
  let* proto := lift (get p "protocol") in
  check (eq_str (or_ proto (VStr "TCP")) "UDP") (TcpOnSameNumber e port (or_ proto (VStr "TCP"))).

Definition named_containers (name : string) (cs : list val) : res (list val) :=
  foldM (λ acc c, let* n := get c "name" in Ok (if eq_str n name then acc ++ [c] else acc)) [] cs.

Definition check_container_port (e : entry) (c : cport) : G unit :=
  check (eq_str (cp_proto c) "UDP") (ContainerPortNotUdp e (cp_number c) (cp_proto c)).

Definition same_number (port : val) (cports : list cport) : list cport :=
  List.filter (λ c, py_eq (cp_number c) port) cports.

Definition check_target (e : entry) (svc_port port : val) (cports : list cport) : G unit :=
  let* t := lift (resolve_target svc_port) in
  match t with
  | Number n =>
      check (py_eq n port || existsb (λ c, py_eq (cp_number c) n) cports) (TargetNotDeclared e n)
  | Name n =>
      check (existsb (λ c, py_eq (cp_name c) n && eq_str (cp_proto c) "UDP") cports)
        (NamedTargetNotUdp e n)
  end.

(** [target in (port, str(port)) or target in port_names] *)
Definition probe_hits (port : val) (names : list val) (t : val) : res bool :=
  let* s := py_str port in
  if py_eq t port || eq_str t s then Ok true else
  let* t := hashable t in Ok (existsb (py_eq t) names).

Definition check_probe (e : entry) (port : val) (names : list val) (container : val)
    (probe : string) : G unit :=
  let* p := lift (get container probe) in
  if negb (is_dict p) then mret () else
  let* ts := lift (probe_targets p) in
  for_ ts (λ '(t, scheme),
    let* hit := lift (probe_hits port names t) in
    check (negb hit) (ProbeOnDatagramPort e probe scheme t)).

Definition half_a_entry (ixs : list (string * indexed)) (e : entry) : G unit :=
  match assoc (component e) ixs with
  | None => measurement_failed (EntryNotRendered e)
  | Some ix =>
  match assoc (service e) (services ix) with
  | None => measurement_failed (NoService e)
  | Some svc =>
  let* sspec := lift (spec_of svc) in
  let* ports := lift (get_iter sspec "ports") in
  let* named := lift (split_named (port_name e) ports) in
  match named with
  | None =>
      let* got := lift (mapM (λ p, get p "name") ports) in
      measurement_failed (NoNamedPort e got)
  | Some (svc_port, others) =>
  (* 1. the Service port *)
  let* proto := lift (get svc_port "protocol") in
  let* _ := check (eq_str proto "UDP") (ServicePortNotUdp e proto) in
  (* 2. the ports beside it *)
  let* port := lift (get svc_port "port") in
  let* _ := for_ others (check_other_port e port) in
  (* 3. the container port *)
  match pget (kind e, workload e) (workloads ix) with
  | None => measurement_failed (NoWorkload e)
  | Some wl =>
  let* template := lift (template_of wl) in
  let* pod := lift (get_dict template "spec") in
  let* cs := lift (get_iter pod "containers") in
  let* matches := lift (named_containers (container e) cs) in
  match matches with
  | [] => measurement_failed (NoContainer e)
  | c :: _ =>
  let* cports := lift (container_ports c) in
  let same := same_number port cports in
  let* _ := check (negb (Nat.eqb (length same) 0)) (NoContainerPort e port) in
  let* _ := for_ same (check_container_port e) in
  (* 4. the Service port resolves to it *)
  let* _ := check_target e svc_port port cports in
  (* 5. the Service selects the pod *)
  let* selector := lift (get_dict sspec "selector") in
  let* meta := lift (get_default template "metadata" (VDict [])) in
  let* labels := lift (get_dict meta "labels") in
  let* sel := lift (selects selector labels) in
  let* _ := check sel (SelectorMismatch e) in
  (* 6. no probe connects to it *)
  let* names := lift (mapM hashable (List.filter truthy (map cp_name same))) in
  for_ PROBES (check_probe e port names c)
  end end end end end.

(** ** Half B: every Service port of every chart *)

(** The ports a target can mean. *)
Definition candidates (t : target) (cports : list cport) : list cport :=
  match t with
  | Name n => List.filter (λ c, py_eq (cp_name c) n) cports
  | Number n => List.filter (λ c, py_eq (cp_number c) n) cports
  end.

Definition target_val (t : target) : val := match t with Name v | Number v => v end.

Definition check_pair (comp svc : string) (svc_port proto : val) (t : target)
    (wl : string * string) (c : val) : G unit :=
  let* cports := lift (container_ports c) in
  let cands := candidates t cports in
  if Nat.eqb (length cands) 0 then mret () else
  if existsb (λ q, py_eq (cp_proto q) proto) cands then mret () else
  let* pn := lift (get svc_port "name") in
  let* cn := lift (get c "name") in
  fail (ProtocolMismatch comp svc pn proto wl cn (target_val t) (map cp_proto cands)).

Definition check_workload (comp svc : string) (selector svc_port proto : val) (t : target)
    (kw : (string * string) * val) : G unit :=
  let* template := lift (template_of kw.2) in
  let* meta := lift (get_dict template "metadata") in
  let* labels := lift (get_dict meta "labels") in
  let* sel := lift (selects selector labels) in
  if negb sel then mret () else
  let* pod := lift (get_dict template "spec") in
  let* cs := lift (get_iter pod "containers") in
  for_ cs (check_pair comp svc svc_port proto t kw.1).

Definition wl_leb (a b : (string * string) * val) : bool :=
  if String.eqb a.1.1 b.1.1 then str_leb a.1.2 b.1.2 else str_leb a.1.1 b.1.1.
Definition svc_leb (a b : string * val) : bool := str_leb a.1 b.1.
Definition comp_leb (a b : string * indexed) : bool := str_leb a.1 b.1.

(** One port of a selector-backed Service, counted when it is inspected. *)
Definition check_port (comp svc : string) (selector : val) (wls : list ((string * string) * val))
    (n : nat) (svc_port : val) : G nat :=
  if negb (is_dict svc_port) then mret n else
  let* port := lift (get svc_port "port") in
  if negb (is_int port) then mret n else
  let* p := lift (get svc_port "protocol") in
  let proto := or_ p (VStr "TCP") in
  let* t := lift (resolve_target svc_port) in
  let* _ := for_ (isort wl_leb wls) (check_workload comp svc selector svc_port proto t) in
  mret (S n).

Definition check_service (comp : string) (wls : list ((string * string) * val)) (n : nat)
    (sd : string * val) : G nat :=
  let* spec := lift (spec_of sd.2) in
  let* selector := lift (get_dict spec "selector") in
  if negb (truthy selector) then mret n else
  let* ports := lift (get_iter spec "ports") in
  fold_ (check_port comp sd.1 selector wls) n ports.

Definition check_component (n : nat) (ci : string * indexed) : G nat :=
  fold_ (check_service ci.1 (workloads ci.2)) n (isort svc_leb (services ci.2)).

Definition half_b (ixs : list (string * indexed)) : G nat :=
  fold_ check_component 0%nat (isort comp_leb ixs).

(** ** The gate *)

Definition half_a (registry : list entry) (ixs : list (string * indexed)) : G unit :=
  let* _ := for_ registry (half_a_entry ixs) in
  if Nat.eqb (length registry) 0 then measurement_failed NoEntryChecked else mret ().

(** [charts]: each chart's component with what helm gave for it. *)
Definition main (registry : list entry) (charts : list (string * (list val + string)))
    : G (nat * nat) :=
  if Nat.eqb (length charts) 0 then measurement_failed NoCharts else
  if Nat.eqb (length registry) 0 then measurement_failed EmptyRegistry else
  let '(renders, problems) := render_all charts in
  if negb (Nat.eqb (length problems) 0) then measurement_failed (NotRendered problems) else
  let* ixs := lift (mapM (λ '(name, docs), let* ix := index docs in Ok (name, ix)) renders) in
  let* _ := half_a registry ixs in
  let* n := half_b ixs in
  if Nat.eqb n 0 then measurement_failed NoPortInspected else
  mret (length registry, n).

(** ** What a passing run has established *)

(** The API server's default. *)
Definition effective (proto : val) : val := or_ proto (VStr "TCP").

(** A target means a UDP container port by name, or the Service's own or a declared number. *)
Definition resolves (port : val) (cports : list cport) (t : target) : Prop :=
  match t with
  | Number n => py_eq n port = true ∨ ∃ q, q ∈ cports ∧ py_eq (cp_number q) n = true
  | Name n => ∃ q, q ∈ cports ∧ py_eq (cp_name q) n = true ∧ cp_proto q = VStr "UDP"
  end.

(** A daemon is reachable over UDP: its Service port says so, no port beside it puts TCP on the
    number, the pod the Service selects has a container port of that number and all of them are
    UDP, the Service port's target resolves among them, and no probe opens a connection to
    it. *)
Definition reachable (ix : indexed) (e : entry) : Prop :=
  ∃ svc sspec ports svc_port others port wl template pod cs c rest cports selector meta labels,
    assoc (service e) (services ix) = Some svc ∧ spec_of svc = Ok sspec ∧
    get_iter sspec "ports" = Ok ports ∧
    split_named (port_name e) ports = Ok (Some (svc_port, others)) ∧
    get svc_port "protocol" = Ok (VStr "UDP") ∧ get svc_port "port" = Ok port ∧
    (∀ p q proto, p ∈ others → is_dict p = true → get p "port" = Ok q → py_eq q port = true →
       get p "protocol" = Ok proto → effective proto = VStr "UDP") ∧
    pget (kind e, workload e) (workloads ix) = Some wl ∧ template_of wl = Ok template ∧
    get_dict template "spec" = Ok pod ∧ get_iter pod "containers" = Ok cs ∧
    named_containers (container e) cs = Ok (c :: rest) ∧ container_ports c = Ok cports ∧
    same_number port cports ≠ [] ∧
    (∀ q, q ∈ cports → py_eq (cp_number q) port = true → cp_proto q = VStr "UDP") ∧
    (∃ t, resolve_target svc_port = Ok t ∧ resolves port cports t) ∧
    get_dict sspec "selector" = Ok selector ∧
    get_default template "metadata" (VDict []) = Ok meta ∧ get_dict meta "labels" = Ok labels ∧
    selects selector labels = Ok true ∧
    (∀ kd probe ts t scheme, kd ∈ PROBES → get c kd = Ok probe → is_dict probe = true →
       probe_targets probe = Ok ts → (t, scheme) ∈ ts →
       py_eq t port = false ∧
       ∀ q, q ∈ same_number port cports → truthy (cp_name q) = true →
         py_eq t (cp_name q) = false).

Lemma check_other_port_clean e port p q proto :
  check_other_port e port p = Done [] () → is_dict p = true → get p "port" = Ok q →
  py_eq q port = true → get p "protocol" = Ok proto → effective proto = VStr "UDP".
Proof.
  unfold check_other_port. intros H Hd Hq He Hp. rewrite Hd, Hq in H. cbn [negb] in H.
  apply lift_bind_Done in H as (q' & [= <-] & H). rewrite He in H. cbn [negb] in H.
  rewrite Hp in H. apply lift_bind_Done in H as (p' & [= <-] & H). apply check_clean in H.
  by apply eq_str_spec.
Qed.

Lemma check_target_clean e svc_port port cports :
  check_target e svc_port port cports = Done [] () →
  ∃ t, resolve_target svc_port = Ok t ∧ resolves port cports t.
Proof.
  unfold check_target. intros H. apply lift_bind_Done in H as (t & Ht & H).
  exists t. split; [done|]. destruct t as [n|n]; apply check_clean in H; simpl.
  - apply orb_true_iff in H as [H|H]; [by left|right].
    apply existsb_exists in H as (q & Hq & He). exists q. by rewrite list_elem_of_In.
  - apply existsb_exists in H as (q & Hq & He). apply andb_prop in He as [He Hu].
    exists q. rewrite list_elem_of_In. split_and!; [done|done|by apply eq_str_spec].
Qed.

Lemma check_probe_clean e port names c kd probe ts t scheme :
  check_probe e port names c kd = Done [] () → get c kd = Ok probe → is_dict probe = true →
  probe_targets probe = Ok ts → (t, scheme) ∈ ts →
  py_eq t port = false ∧ ∀ n, n ∈ names → py_eq t n = false.
Proof.
  unfold check_probe. intros H Hg Hd Hts Hin. rewrite Hg in H.
  apply lift_bind_Done in H as (p' & [= <-] & H). rewrite Hd in H. cbn [negb] in H.
  rewrite Hts in H. apply lift_bind_Done in H as (ts' & [= <-] & H).
  apply for_clean with (x := (t, scheme)) in H; [|done].
  apply lift_bind_Done in H as (hit & Hh & H). apply check_clean in H.
  apply negb_true_iff in H as ->. unfold probe_hits in Hh.
  apply bind_Ok in Hh as (s & _ & Hh). destruct (py_eq t port); [done|].
  split; [done|]. simpl in Hh. destruct (eq_str t s); [done|].
  apply bind_Ok in Hh as (t' & Ht' & Hh). apply hashable_Ok in Ht' as ->.
  intros n Hn. injection Hh as Hh. destruct (py_eq t n) eqn:E; [|done].
  assert (existsb (py_eq t) names = true); [|congruence].
  apply existsb_exists. exists n. by rewrite <- list_elem_of_In.
Qed.

Lemma half_a_entry_sound ixs e :
  half_a_entry ixs e = Done [] () →
  ∃ ix, assoc (component e) ixs = Some ix ∧ reachable ix e.
Proof.
  unfold half_a_entry. intros H.
  destruct (assoc (component e) ixs) as [ix|] eqn:Eix; [|done]. exists ix. split; [done|].
  destruct (assoc (service e) (services ix)) as [svc|] eqn:Esvc; [|done]. gate_inv H.
  destruct v1 as [[svc_port others]|]; [|gate_inv H; done]. gate_inv H.
  destruct (pget (kind e, workload e) (workloads ix)) as [wl|] eqn:Ewl; [|done]. gate_inv H.
  destruct v6 as [|c rest]; [done|]. gate_inv H.
  destruct a, a0, a1. apply eq_str_spec in Hc as ->. apply negb_true_iff, Nat.eqb_neq in Hc0.
  assert (∀ q, q ∈ v6 → py_eq (cp_number q) v2 = true → q ∈ same_number v2 v6) as Hsame.
  { intros q Hq He. unfold same_number. apply list_elem_of_In, filter_In.
    by rewrite <- list_elem_of_In. }
  destruct (check_target_clean _ _ _ _ Ha1) as (t & Ht & Hres). subst v10.
  assert (∀ kd probe ts t scheme, kd ∈ PROBES → get c kd = Ok probe → is_dict probe = true →
    probe_targets probe = Ok ts → (t, scheme) ∈ ts → py_eq t v2 = false ∧
    ∀ q, q ∈ same_number v2 v6 → truthy (cp_name q) = true → py_eq t (cp_name q) = false) as Hpr.
  { intros kd probe ts t' scheme Hk Hg Hd Hts Hin.
    rewrite for_clean in H. specialize (H kd Hk). apply mapM_hashable in Hv13.
    destruct (check_probe_clean _ _ _ _ _ _ _ _ _ H Hg Hd Hts Hin) as [H1 H2].
    split; [done|]. intros q Hq Htr. apply H2. subst v11.
    apply list_elem_of_In, filter_In. split; [|done]. apply in_map.
    by apply list_elem_of_In. }
  exists svc, v, v0, svc_port, others, v2, wl, v3, v4, v5, c, rest, v6, v7, v8, v9.
  split_and!; try done.
  - intros p q proto Hp. rewrite for_clean in Ha. specialize (Ha p Hp).
    by eapply check_other_port_clean.
  - by destruct (same_number v2 v6).
  - intros q Hq He. rewrite for_clean in Ha0. specialize (Ha0 q (Hsame q Hq He)).
    apply check_clean in Ha0. by apply eq_str_spec.
  - eauto.
Qed.

(** *** Half B *)

(** The pairs half B compares: a port of a selector-backed Service, and a container of a
    workload it selects that declares the port it resolves to. *)
Record pair := { p_proto : val; p_cands : list cport }.

Inductive compared (ixs : list (string * indexed)) : pair → Prop :=
  | compared_intro comp ix svc doc spec selector ports svc_port port p t kw template meta labels
      pod cs c cports :
      (comp, ix) ∈ ixs → (svc, doc) ∈ services ix → spec_of doc = Ok spec →
      get_dict spec "selector" = Ok selector → truthy selector = true →
      get_iter spec "ports" = Ok ports → svc_port ∈ ports → is_dict svc_port = true →
      get svc_port "port" = Ok port → is_int port = true → get svc_port "protocol" = Ok p →
      resolve_target svc_port = Ok t → kw ∈ workloads ix → template_of kw.2 = Ok template →
      get_dict template "metadata" = Ok meta → get_dict meta "labels" = Ok labels →
      selects selector labels = Ok true → get_dict template "spec" = Ok pod →
      get_iter pod "containers" = Ok cs → c ∈ cs → container_ports c = Ok cports →
      candidates t cports ≠ [] →
      compared ixs {| p_proto := effective p; p_cands := candidates t cports |}.

(** One of the candidates speaks the port's protocol. *)
Definition agrees (x : pair) : Prop :=
  ∃ q, q ∈ p_cands x ∧ py_eq (cp_proto q) (p_proto x) = true.

Lemma candidates_length t cports : Nat.eqb (length (candidates t cports)) 0 = false ↔
  candidates t cports ≠ [].
Proof. destruct (candidates t cports); simpl; naive_solver. Qed.

Lemma agrees_existsb cands proto :
  existsb (λ q, py_eq (cp_proto q) proto) cands = true ↔
  agrees {| p_proto := proto; p_cands := cands |}.
Proof.
  rewrite existsb_exists. unfold agrees. simpl. by setoid_rewrite list_elem_of_In.
Qed.

(** Two readings of the same computation. *)
Ltac same :=
  repeat match goal with
  | H1 : ?x = Ok ?a, H2 : ?x = Ok ?b |- _ => rewrite H1 in H2; injection H2 as H2; subst
  end.

Lemma half_b_sound ixs n x : half_b ixs = Done [] n → compared ixs x → agrees x.
Proof.
  unfold half_b. intros H Hx. destruct Hx.
  eapply fold_clean in H as (n1 & n2 & H); [|apply elem_of_isort; eassumption].
  eapply fold_clean in H as (n3 & n4 & H); [|apply elem_of_isort; eassumption].
  unfold check_service in H. gate_inv H. simpl in *. same.
  match goal with E : truthy _ = true |- _ => rewrite E in H end. cbn [negb] in H. gate_inv H.
  same. eapply fold_clean in H as (n5 & n6 & H); [|eassumption].
  unfold check_port in H.
  match goal with E : is_dict _ = true |- _ => rewrite E in H end. cbn [negb] in H. gate_inv H.
  same. match goal with E : is_int _ = true |- _ => rewrite E in H end.
  cbn [negb] in H. gate_inv H. same. destruct a.
  rewrite for_clean in Ha. specialize (Ha kw). rewrite elem_of_isort in Ha.
  specialize (Ha ltac:(assumption)). unfold check_workload in Ha. gate_inv Ha. same.
  cbn [negb] in Ha. gate_inv Ha. same. rewrite for_clean in Ha.
  specialize (Ha c ltac:(assumption)). unfold check_pair in Ha. gate_inv Ha. same.
  rewrite (proj2 (candidates_length _ _)) in Ha by done.
  apply agrees_existsb. unfold effective.
  destruct (existsb _ _) eqn:E; [done|]. gate_inv Ha. done.
Qed.

Lemma half_b_complete ixs fs n :
  half_b ixs = Done fs n → (∀ x, compared ixs x → agrees x) → fs = [].
Proof.
  intros H Ha. revert H. unfold half_b. apply fold_quiet. intros n1 [comp ix] fs1 n2 Hix.
  apply elem_of_isort in Hix. apply fold_quiet. intros n3 [svc doc] fs2 n4 Hsvc H.
  apply elem_of_isort in Hsvc. unfold check_service in H.
  apply lift_bind_Done in H as (spec & Hspec & H).
  apply lift_bind_Done in H as (selector & Hsel & H).
  destruct (truthy selector) eqn:Htr; cbn [negb] in H; [|by injection H as <-].
  apply lift_bind_Done in H as (ports & Hports & H). revert H. apply fold_quiet.
  intros n5 svc_port fs3 n6 Hsp H. unfold check_port in H.
  destruct (is_dict svc_port) eqn:Hd; cbn [negb] in H; [|by injection H as <-].
  apply lift_bind_Done in H as (port & Hport & H).
  destruct (is_int port) eqn:Hint; cbn [negb] in H; [|by injection H as <-].
  apply lift_bind_Done in H as (p & Hp & H). apply lift_bind_Done in H as (t & Ht & H).
  apply bind_Done in H as (f1 & [] & f2 & H & H2 & ->). injection H2 as <- <-. rewrite app_nil_r.
  revert H. apply for_quiet. intros kw fs4 Hkw H. apply elem_of_isort in Hkw.
  unfold check_workload in H. apply lift_bind_Done in H as (template & Htm & H).
  apply lift_bind_Done in H as (meta & Hmeta & H). apply lift_bind_Done in H as (labels & Hl & H).
  apply lift_bind_Done in H as (sel & Hs & H).
  destruct sel; cbn [negb] in H; [|by injection H as <-].
  apply lift_bind_Done in H as (pod & Hpod & H). apply lift_bind_Done in H as (cs & Hcs & H).
  revert H. apply for_quiet. intros c fs5 Hc H. unfold check_pair in H.
  apply lift_bind_Done in H as (cports & Hcp & H).
  destruct (Nat.eqb (length (candidates t cports)) 0) eqn:E; [by injection H as <-|].
  apply candidates_length in E.
  assert (agrees {| p_proto := effective p; p_cands := candidates t cports |}) as Hag.
  { apply Ha. econstructor; eassumption. }
  apply agrees_existsb in Hag. unfold effective in Hag. rewrite Hag in H. by injection H as <-.
Qed.

(** ** The claims *)

(** A gate that passes has followed every registered daemon end to end and found it
    reachable over UDP, and has compared at least one Service port. *)
Theorem passed_reachable registry charts c n :
  verdict_of (main registry charts) = Passed (c, n) →
  c = length registry ∧ (0 < c)%nat ∧ (0 < n)%nat ∧
  ∃ renders ixs, render_all charts = (renders, []) ∧
    mapM (λ '(name, docs), let* ix := index docs in Ok (name, ix)) renders = Ok ixs ∧
    ∀ e, e ∈ registry → ∃ ix, assoc (component e) ixs = Some ix ∧ reachable ix e.
Proof.
  rewrite verdict_Passed. unfold main. intros H.
  destruct (length charts =? 0)%nat; [done|].
  destruct (Nat.eqb_spec (length registry) 0); [done|].
  destruct (render_all charts) as [renders problems].
  destruct problems as [|pr problems]; [|done]. cbn [length Nat.eqb negb] in H. gate_inv H.
  destruct (Nat.eqb_spec a0 0); [done|]. injection H as <- <-.
  split_and!; [done|lia|lia|]. exists renders, v. split_and!; [done|done|].
  intros e He. apply half_a_entry_sound. unfold half_a in Ha. gate_inv Ha.
  rewrite for_clean in Ha1. auto.
Qed.

(** Half B reports something exactly when some port of a selector-backed Service resolves
    to declared ports of a container it selects none of which speaks its protocol. *)
Theorem half_b_exact ixs fs n :
  half_b ixs = Done fs n → (fs = [] ↔ ∀ x, compared ixs x → agrees x).
Proof.
  intros H. split; [intros -> x; by apply half_b_sound with n|by apply half_b_complete with n].
Qed.

(** *** A rendered gnocchi *)

Definition sample_service (protocol : list (string * val)) : val :=
  VDict [("kind", VStr "Service"); ("metadata", VDict [("name", VStr "gnocchi-statsd")]);
    ("spec", VDict [("selector", VDict [("app", VStr "statsd")]);
      ("ports", VList [VDict ([("name", VStr "gn-stats"); ("port", VInt 8125)] ++ protocol)])])].
Definition sample_workload (protocol : list (string * val)) : val :=
  VDict [("kind", VStr "DaemonSet"); ("metadata", VDict [("name", VStr "gnocchi-statsd")]);
    ("spec", VDict [("template", VDict [
      ("metadata", VDict [("labels", VDict [("app", VStr "statsd"); ("tier", VStr "db")])]);
      ("spec", VDict [("containers", VList [VDict [("name", VStr "gnocchi-statsd");
        ("ports", VList [VDict ([("containerPort", VInt 8125)] ++ protocol)])]])])])])].
Definition udp : list (string * val) := [("protocol", VStr "UDP")].
Definition sample_charts (svc wl : list (string * val)) : list (string * (list val + string)) :=
  [("gnocchi", inl [sample_service svc; sample_workload wl; VNone]); ("openstack", inr "skipped")].

Example both_reverted_fails :
  verdict_of (main UDP_ONLY (sample_charts [] []))
  = Failed [ServicePortNotUdp (nth 0 UDP_ONLY {| component := ""; service := ""; port_name := "";
              kind := ""; workload := ""; container := "" |}) VNone;
            ContainerPortNotUdp (nth 0 UDP_ONLY {| component := ""; service := ""; port_name := "";
              kind := ""; workload := ""; container := "" |}) (VInt 8125) (VStr "TCP")].
Proof. vm_compute. reflexivity. Qed.

Lemma passed_reachable_witness :
  verdict_of (main UDP_ONLY (sample_charts udp udp)) = Passed (1%nat, 1%nat) ∧
  ∃ renders ixs, render_all (sample_charts udp udp) = (renders, []) ∧
    mapM (λ '(name, docs), let* ix := index docs in Ok (name, ix)) renders = Ok ixs ∧
    ∀ e, e ∈ UDP_ONLY → ∃ ix, assoc (component e) ixs = Some ix ∧ reachable ix e.
Proof.
  assert (verdict_of (main UDP_ONLY (sample_charts udp udp)) = Passed (1%nat, 1%nat)) as H
    by (vm_compute; reflexivity).
  split; [exact H|].
  destruct (passed_reachable UDP_ONLY (sample_charts udp udp) 1 1 H) as (_ & _ & _ & Hr).
  exact Hr.
Defined.

Definition reverted : list (string * indexed) :=
  [("gnocchi", {| services := [("gnocchi-statsd", sample_service [])];
                  workloads := [(("DaemonSet", "gnocchi-statsd"), sample_workload udp)] |})].

Lemma half_b_exact_witness :
  half_b reverted = Done [ProtocolMismatch "gnocchi" "gnocchi-statsd" (VStr "gn-stats")
    (VStr "TCP") ("DaemonSet", "gnocchi-statsd") (VStr "gnocchi-statsd") (VInt 8125)
    [VStr "UDP"]] 1 ∧
  ¬ ∀ x, compared reverted x → agrees x.
Proof.
  split; [vm_compute; reflexivity|]. intros Ha.
  apply (half_b_exact reverted [ProtocolMismatch "gnocchi" "gnocchi-statsd" (VStr "gn-stats")
    (VStr "TCP") ("DaemonSet", "gnocchi-statsd") (VStr "gnocchi-statsd") (VInt 8125)
    [VStr "UDP"]] 1) in Ha; [discriminate Ha|vm_compute; reflexivity].
Defined.
End Udp.
