(* ===== verification/ConfigClosure.v ===== *)
(** * hack/validate-component-config-closure.py: a component waits only inside its closure

    Each component's rendered chart is searched for what it waits for (kubernetes-entrypoint's
    environment) and for the backends its oslo configuration names; both must be provided by a
    component it transitively depends on, unless the gap is declared. The rendered charts and the
    parsed YAML files are the input. *)
From S2P Require Import Prelude PyStr PyVal PyRe Base64 Gate.
#[local] Open Scope string_scope.
#[local] Open Scope list_scope.

Module ConfigClosure.

(** ** The tables and patterns *)

Definition PROVIDED_BY : list (string * string) :=
  [("mysql", "mariadb"); ("mysql+pymysql", "mariadb"); ("mariadb", "mariadb"); ("swift", "swift");
   ("memcache", "memcached"); ("memcached", "memcached"); ("rabbit", "rabbitmq");
   ("rabbitmq", "rabbitmq"); ("amqp", "rabbitmq"); ("redis", "redis"); ("rediss", "redis")].

Definition NO_COMPONENT_PROVIDES : list string :=
  ["postgres"; "postgresql"; "postgresql+psycopg2"; "ceph"; "rbd"; "s3"; "cassandra"; "influxdb";
   "elasticsearch"; "opensearch"; "etcd"; "mongodb"].

Definition NEEDS_NO_SERVER : list string :=
  ["file"; "dummy"; "fake"; "noop"; "memory"; "sqlite"; "local"].

Definition mem (x : string) (l : list string) : bool := existsb (String.eqb x) l.

Definition is_backend (t : string) : bool :=
  mem t PROVIDED_BY.*1 || mem t NO_COMPONENT_PROVIDES || mem t NEEDS_NO_SERVER.

Definition compiled (s : string) : re := the (compile (dq s)) Eps.

Definition DRIVER_LINE : re := Eval vm_compute in
  compiled "^\s*driver\s*=\s*([A-Za-z0-9_+-]+)\s*$".
Definition URL_LINE : re := Eval vm_compute in
  compiled "^\s*(?:[a-z0-9_]*_)?(?:url|uri|connection)\s*=\s*([A-Za-z0-9+_.-]+)://".
Definition TRANSPORT_LINE : re := Eval vm_compute in
  compiled "^\s*transport_url\s*=\s*([A-Za-z0-9+_.-]+)://".
Definition NOTIFICATION_DRIVER_LINE : re := Eval vm_compute in
  compiled "^\s*driver\s*=\s*([A-Za-z0-9_+,-]+)\s*$".

Definition CONF_SUFFIXES : list string := [".conf"; ".ini"].
Definition is_conf (k : string) : bool := existsb (λ x, endswith x k) CONF_SUFFIXES.

(** The pod spec of a rendered object, where its kind has one. *)
Definition POD_SPEC_AT : list (string * list string) :=
  [("Deployment", ["spec"; "template"; "spec"]); ("DaemonSet", ["spec"; "template"; "spec"]);
   ("StatefulSet", ["spec"; "template"; "spec"]); ("Job", ["spec"; "template"; "spec"]);
   ("CronJob", ["spec"; "jobTemplate"; "spec"; "template"; "spec"]); ("Pod", ["spec"])].

Inductive unmeasured :=
  | UnreadableUmbrella | NoComponents | NotRendered (name : string) (err : string)
  | NothingRendered | NoService | IncompleteGap (missing : list string)
  | NoPodSpec (comp : string) | NothingChecked.

(** Where a wait or a reference is: kind and name of the object, and the configuration key. *)
Definition place : Type := val * val * option string.

Inductive finding :=
  | EmptyService (comp : string) (at_ : place) (value : string)
  | UnknownService (comp : string) (at_ : place) (svc : string)
  | OutsideService (comp : string) (at_ : place) (svc : string) (owners own : list string)
  | UnknownJob (comp : string) (at_ : place) (job : string)
  | NoProvider (comp : string) (at_ : place) (token kind : string)
  | OutsideBackend (comp : string) (at_ : place) (token kind provider : string) (own : list string)
  | Stale (gaps : list (val * val)).

Definition G := gate unmeasured finding.

(** ** The declared dependency closure *)

Definition as_key (v : val) : res string :=
  match v with
  | VStr s => Ok s
  | VList _ | VDict _ => Raise TypeError
  | _ => Raise Unmodelled
  end.

(** [comps.get(n, {}).get("deps") or []] *)
Definition deps_of (comps : list (string * val)) (n : string) : res (list string) :=
  let* ds := get_iter (default (VDict []) (assoc n comps)) "deps" in mapM as_key ds.

(** The stack, its top first. *)
Fixpoint closure_loop (fuel : nat) (comps : list (string * val)) (seen stack : list string)
    : res (list string) :=
  match stack with
  | [] => Ok seen
  | n :: stack' =>
      match fuel with
      | O => Raise Unmodelled
      | S fuel =>
          if mem n seen then closure_loop fuel comps seen stack'
          else let* ds := deps_of comps n in
               closure_loop fuel comps (seen ++ [n]) (rev ds ++ stack')
      end
  end.

(** Every component's dependencies are pushed at most once. *)
Definition pushes (comps : list (string * val)) : nat :=
  list_sum (map (λ c, match deps_of comps c.1 with Ok ds => length ds | Raise _ => O end) comps).

Definition closure (comps : list (string * val)) (name : string) : res (list string) :=
  closure_loop (S (pushes comps)) comps [] [name].

(** ** Configuration files *)

(** Whether a file's notification driver makes oslo.messaging build a transport. *)
Fixpoint notifications_in (section : option string) (lines : list string) : bool :=
  match lines with
  | [] => false
  | line :: lines' =>
      let stripped := strip line in
      if startswith "[" stripped && endswith "]" stripped
      then notifications_in (Some (substring 1 (String.length stripped - 2) stripped)) lines'
      else if negb (match section with
                    | Some s => String.eqb s "oslo_messaging_notifications" | None => false end)
      then notifications_in section lines'
      else match re_match no_flags NOTIFICATION_DRIVER_LINE line with
           | Some m => negb (mem (lower (group' m 1)) NEEDS_NO_SERVER)
           | None => notifications_in section lines'
           end
  end.
Definition notifications_live (text : string) : bool := notifications_in None (splitlines text).

(** The file one entry of a Secret or ConfigMap carries, if it is one; a value that cannot be
    decoded is passed over. *)
Definition secret_conf (kv : string * val) : option (string * string) :=
  if is_conf kv.1
  then match kv.2 with VStr s => option_map (pair kv.1) (b64decode_text s) | _ => None end
  else None.
Definition configmap_conf (kv : string * val) : option (string * string) :=
  if is_conf kv.1 then match kv.2 with VStr s => Some (kv.1, s) | _ => None end else None.

Definition entries_of (doc : val) : res (list (string * val)) :=
  let* data := get_dict doc "data" in items data.

(** The oslo-style files of a rendered object. *)
Definition oslo_confs (doc : val) : res (list (string * string)) :=
  let* k := get doc "kind" in
  if eq_str k "Secret" then let* kvs := entries_of doc in Ok (omap (M:=list) secret_conf kvs)
  else if eq_str k "ConfigMap" then let* kvs := entries_of doc in Ok (omap (M:=list) configmap_conf kvs)
  else Ok [].

(** The token a line names, and what names it. *)
Definition reference (line : string) : option (string * string) :=
  match re_match no_flags DRIVER_LINE line with
  | Some m => Some (lower (group' m 1), "driver")
  | None =>
      match re_match no_flags URL_LINE line with
      | Some m => Some (lower (group' m 1), "URL scheme")
      | None => None
      end
  end.

(** ** The checks *)

(** What the loops carry: the counters, the waivers used, the tokens ignored. *)
Record acc := {
  waits : nat; backends : nat; used : list (string * string); ignored : list string }.

Definition see_wait (a : acc) : acc :=
  {| waits := S (waits a); backends := backends a; used := used a; ignored := ignored a |}.
Definition see_backend (a : acc) : acc :=
  {| waits := waits a; backends := S (backends a); used := used a; ignored := ignored a |}.
Definition use_waiver (w : string * string) (a : acc) : acc :=
  {| waits := waits a; backends := backends a; used := used a ++ [w]; ignored := ignored a |}.
Definition ignore (t : string) (a : acc) : acc :=
  {| waits := waits a; backends := backends a; used := used a; ignored := ignored a ++ [t] |}.

Definition is_waived (waived : list (val * val)) (comp ref : string) : bool :=
  existsb (λ w, eq_str w.1 comp && eq_str w.2 ref) waived.

Section Checks.
  Context (waived : list (val * val)) (served_by : list (val * string)).

Definition report (comp ref : string) (f : finding) (a : acc) : G acc :=
    if is_waived waived comp ref then mret (use_waiver (comp, ref) a)
    else let* _ := fail f in mret a.

  (** The components that render a Service of this name. *)
Definition owners_of (svc : string) : list string :=
    map snd (List.filter (λ o, eq_str o.1 svc) served_by).

Definition last_part (item : string) : string := List.last (split_on ":" item) "".

  (** What one component's checks read: its name, its closure, its Jobs. *)
Record scope := { sc_name : string; sc_own : list string; sc_jobs : list val }.

Definition check_wait (sc : scope) (at_ : place) (value : string) (a : acc) (item : string) : G acc :=
    let svc := last_part item in
    let a := see_wait a in
    if String.eqb svc "" then report (sc_name sc) "service:<empty>" (EmptyService (sc_name sc) at_ value) a else
    let owners := owners_of svc in
    if Nat.eqb (length owners) 0
    then report (sc_name sc) ("service:" ++ svc) (UnknownService (sc_name sc) at_ svc) a
    else if negb (existsb (λ o, mem o (sc_own sc)) owners)
    then report (sc_name sc) ("service:" ++ svc)
           (OutsideService (sc_name sc) at_ svc (sorted_set owners) (sorted_set (sc_own sc))) a
    else mret a.

Definition check_job (sc : scope) (at_ : place) (a : acc) (job : string) : G acc :=
    if String.eqb job "" || py_in (VStr job) (sc_jobs sc) then mret a
    else report (sc_name sc) ("job:" ++ job) (UnknownJob (sc_name sc) at_ job) a.

Definition comma_items (value : string) : list string := map strip (split_on "," value).

Definition check_env (sc : scope) (at_ : place) (a : acc) (env : val) : G acc :=
    let* v := lift (get env "value") in
    let value := or_ v (VStr "") in
    let* n := lift (get env "name") in
    if eq_str n "DEPENDENCY_SERVICE" then
      match value with
      | VStr s =>
          if String.eqb (strip s) "" then mret a
          else fold_ (check_wait sc at_ s) a (comma_items s)
      | _ => lift (Raise AttributeError)
      end
    else if eq_str n "DEPENDENCY_JOBS" then
      match value with
      | VStr s => fold_ (check_job sc at_) a (comma_items s)
      | _ => lift (Raise AttributeError)
      end
    else mret a.

Definition place_of (doc : val) (key : option string) : res place :=
    let* k := getitem doc "kind" in
    let* n := getpath doc ["metadata"; "name"] in
    Ok (k, n, key).

Definition check_container (sc : scope) (at_ : place) (a : acc) (c : val) : G acc :=
    let* envs := lift (get_iter c "env") in
    fold_ (check_env sc at_) a envs.

  (** The path to the pod spec of a kind. *)
Definition spec_path (k : val) : option (list string) :=
    match k with VStr s => assoc s POD_SPEC_AT | _ => None end.

Definition check_pod (sc : scope) (a : acc) (doc : val) : G acc :=
    let* k := lift (get doc "kind") in
    let* k := lift (hashable k) in
    match spec_path k with
    | None => mret a
    | Some ks =>
        match getpath doc ks with
        | Raise _ =>
            let* _ := lift (getpath doc ["metadata"; "name"]) in
            measurement_failed (NoPodSpec (sc_name sc))
        | Ok spec =>
            let* at_ := lift (place_of doc None) in
            let* cs := lift (get_iter spec "initContainers") in
            fold_ (check_container sc at_) a cs
        end
    end.

Definition check_line (sc : scope) (at_ : place) (live : bool) (a : acc) (line : string) : G acc :=
    if matches no_flags TRANSPORT_LINE line && negb live then mret a else
    match reference line with
    | None => mret a
    | Some (token, kind) =>
        if negb (is_backend token) then mret (ignore token a) else
        let a := see_backend a in
        if mem token NEEDS_NO_SERVER then mret a
        else if mem token NO_COMPONENT_PROVIDES
        then report (sc_name sc) ("backend:" ++ token) (NoProvider (sc_name sc) at_ token kind) a
        else
          let* provider := lift (match assoc token PROVIDED_BY with
                                 | Some p => Ok p | None => Raise (KeyError token) end) in
          if mem provider (sc_own sc) then mret a
          else report (sc_name sc) ("backend:" ++ token)
                 (OutsideBackend (sc_name sc) at_ token kind provider (sorted_set (sc_own sc))) a
    end.

Definition check_conf (sc : scope) (doc : val) (a : acc) (conf : string * string) : G acc :=
    let* at_ := lift (place_of doc (Some conf.1)) in
    fold_ (check_line sc at_ (notifications_live conf.2)) a (splitlines conf.2).

Definition check_doc_confs (sc : scope) (a : acc) (doc : val) : G acc :=
    let* confs := lift (oslo_confs doc) in
    fold_ (check_conf sc doc) a confs.

Definition job_names (docs : list val) : res (list val) :=
    foldM (λ l d,
      let* k := get d "kind" in
      if eq_str k "Job"
      then let* n := getpath d ["metadata"; "name"] in let* n := hashable n in Ok (l ++ [n])
      else Ok l) [] docs.

Definition check_component (comps : list (string * val)) (a : acc) (r : string * list val) : G acc :=
    let* own := lift (closure comps r.1) in
    let* jobs := lift (job_names r.2) in
    let sc := {| sc_name := r.1; sc_own := own; sc_jobs := jobs |} in
    let* a := fold_ (check_pod sc) a r.2 in
    fold_ (check_doc_confs sc) a r.2.
End Checks.

(** ** The gate *)

Definition read_components (umbrella : val) : res (list (string * val)) :=
  let* l := get_iter (or_ umbrella (VDict [])) "components" in
  foldM (λ d c, let* n := getitem c "name" in let* k := as_key n in Ok (dict_set k c d)) [] l.

(** What rendering one chart gave: its truthy documents, or why not. *)
Definition render (output : list val + string) : list val + string :=
  match output with
  | inr err => inr err
  | inl docs => match List.filter truthy docs with [] => inr "rendered 0 objects" | ds => inl ds end
  end.

Definition render_all (chart : string → list val + string) (comps : list (string * val))
    : G (list (string * list val)) :=
  fold_ (λ rs name,
    if String.eqb name "openstack" then mret rs else
    match render (chart name) with
    | inr err => measurement_failed (NotRendered name err)
    | inl docs => mret (rs ++ [(name, docs)])
    end) [] (sorted_strs comps.*1).

Definition services (renders : list (string * list val)) : res (list (val * string)) :=
  foldM (λ l r, foldM (λ l doc,
      let* k := get doc "kind" in
      if eq_str k "Service"
      then let* n := getpath doc ["metadata"; "name"] in let* n := hashable n in Ok (l ++ [(n, r.1)])
      else Ok l) l r.2) [] renders.

Definition GAP_KEYS : list string := ["component"; "reference"; "why"; "tracking"].

(** The waivers of the gaps file, if there is one. *)
Definition read_gaps (file : option val) : G (list (val * val)) :=
  match file with
  | None => mret []
  | Some v =>
      let* gaps := lift (get_iter (or_ v (VDict [])) "gaps") in
      let* _ := for_ gaps (λ g,
        let* missing := lift (foldM (λ ms k,
          let* x := get g k in Ok (if truthy x then ms else ms ++ [k])) [] GAP_KEYS) in
        match missing with [] => mret () | _ => measurement_failed (IncompleteGap missing) end) in
      lift (mapM (λ g,
        let* c := getitem g "component" in let* c := hashable c in
        let* r := getitem g "reference" in let* r := hashable r in Ok (c, r)) gaps)
  end.

Definition stale (waived : list (val * val)) (used : list (string * string)) : list (val * val) :=
  List.filter (λ w, negb (existsb (λ u, eq_str w.1 u.1 && eq_str w.2 u.2) used)) waived.

Definition main (umbrella : val) (chart : string → list val + string) (gaps_file : option val)
    : G acc :=
  match read_components umbrella with
  | Raise _ => measurement_failed UnreadableUmbrella
  | Ok [] => measurement_failed NoComponents
  | Ok comps =>
      let* renders := render_all chart comps in
      if Nat.eqb (length renders) 0 then measurement_failed NothingRendered else
      let* served_by := lift (services renders) in
      if Nat.eqb (length served_by) 0 then measurement_failed NoService else
      let* waived := read_gaps gaps_file in
      let* a := fold_ (check_component waived served_by comps)
                  {| waits := 0; backends := 0; used := []; ignored := [] |} renders in
      if Nat.eqb (waits a) 0 && Nat.eqb (backends a) 0 then measurement_failed NothingChecked else
      match stale waived (used a) with
      | [] => mret a
      | ws => let* _ := fail (Stale ws) in mret a
      end
  end.
End ConfigClosure.
