(* ===== verification/ConfigClosureFacts.v ===== *)
(** * What a passing run of hack/validate-component-config-closure.py establishes

    [closure_reachable]: the worklist computes reachability along the declared dependencies.
    [passed_closed]: every wait and backend reference of every component resolves inside its
    closure, or is a declared gap. *)
From stdpp Require Import relations.
From S2P Require Import Prelude PyStr PyVal PyRe Base64 Gate ConfigClosure.
#[local] Open Scope string_scope.
#[local] Open Scope list_scope.

Module ConfigClosureFacts.
Import ConfigClosure.

Lemma mem_spec x l : mem x l = true ↔ x ∈ l.
Proof.
  unfold mem. rewrite existsb_exists. setoid_rewrite String.eqb_eq. split.
  - intros (y & Hy & <-). by apply list_elem_of_In.
  - intros H. exists x. by rewrite <- list_elem_of_In.
Qed.

Lemma elem_of_rev {A} (x : A) l : x ∈ rev l ↔ x ∈ l.
Proof. rewrite !list_elem_of_In. symmetry. apply in_rev. Qed.

(** ** The closure *)

Section Closure.
  Context (comps : list (string * val)).

  (** A declared dependency. *)
Definition dep (x y : string) : Prop := ∃ ds, deps_of comps x = Ok ds ∧ y ∈ ds.

Lemma closure_loop_spec fuel : ∀ seen stack own,
    closure_loop fuel comps seen stack = Ok own →
    (∀ x y, x ∈ seen → dep x y → y ∈ seen ∨ y ∈ stack) →
    (∀ x, x ∈ seen ∨ x ∈ stack → x ∈ own) ∧
    (∀ x y, x ∈ own → dep x y → y ∈ own) ∧
    (∀ x, x ∈ own → x ∈ seen ∨ ∃ s, s ∈ stack ∧ rtc dep s x).
Proof.
  induction fuel as [|fuel IH]; intros seen [|n stack] own; simpl; try done.
  1-2: intros [= <-] Hc; repeat split; [by intros x [?|?%elem_of_nil]| |by left];
    intros x y Hx Hd; by destruct (Hc x y Hx Hd) as [?|?%elem_of_nil].
  destruct (mem n seen) eqn:Hn.
  - apply mem_spec in Hn. intros H Hc. destruct (IH _ _ _ H) as (H1 & H2 & H3).
    { intros x y Hx Hd. destruct (Hc x y Hx Hd) as [?|[->|?]%elem_of_cons]; auto. }
    split; [|split; [done|]].
    + intros x [Hx|[->|Hx]%elem_of_cons]; apply H1; auto.
    + intros x Hx. destruct (H3 x Hx) as [?|(s & ? & ?)]; [by left|]. right. exists s.
      split; [by right|done].
  - intros H Hc. apply bind_Ok in H as (ds & Hds & H). destruct (IH _ _ _ H) as (H1 & H2 & H3).
    { intros x y. rewrite elem_of_app, list_elem_of_singleton. intros [Hx| ->] Hd.
      - destruct (Hc x y Hx Hd) as [?|[->|?]%elem_of_cons]; rewrite !elem_of_app, ?list_elem_of_singleton; auto.
      - destruct Hd as (ds' & Hds' & Hy). rewrite Hds in Hds'. injection Hds' as <-.
        rewrite elem_of_app, elem_of_app, elem_of_rev. auto. }
    split; [|split; [done|]].
    + intros x [Hx|[->|Hx]%elem_of_cons]; apply H1; rewrite !elem_of_app, ?list_elem_of_singleton; auto.
    + intros x Hx. destruct (H3 x Hx) as [Hs|(s & Hs & Hr)].
      * apply elem_of_app in Hs as [?|Hs%list_elem_of_singleton]; [by left|]. subst x. right.
        exists n. split; [by left|done].
      * right. apply elem_of_app in Hs as [Hs|Hs].
        -- exists n. split; [by left|]. eapply rtc_l; [|exact Hr]. exists ds.
           split; [done|]. by apply elem_of_rev.
        -- exists s. split; [by right|done].
Qed.

(** What is still to be pushed. *)
Definition weight (c : string) : nat :=
    match deps_of comps c with Ok ds => length ds | Raise _ => O end.
Definition unseen (seen : list string) : nat :=
    list_sum (map (λ c, if mem c.1 seen then O else weight c.1) comps).

Lemma unseen_expand n seen :
    mem n seen = false → Nat.le (Nat.add (unseen (seen ++ [n])) (weight n)) (unseen seen).
Proof.
  intros Hn. unfold unseen.
  assert (weight n ≠ O → ∃ c, c ∈ comps ∧ c.1 = n) as Hin.
  { unfold weight, deps_of. destruct (PyVal.assoc n comps) as [c|] eqn:E; [|done].
    intros _. exists (n, c). split; [by apply assoc_elem_of|done]. }
  assert (∀ c, mem c (seen ++ [n]) = mem c seen || String.eqb c n) as Hmem.
  { intros c. unfold mem. rewrite existsb_app. simpl. by rewrite orb_false_r. }
  clear -Hn Hin Hmem.
  assert (∀ l : list (string * val),
    (list_sum (map (λ c, if mem c.1 (seen ++ [n]) then O else weight c.1) l)
     + (if existsb (λ c, String.eqb c.1 n) l then weight n else O)
     <= list_sum (map (λ c, if mem c.1 seen then O else weight c.1) l))%nat) as H.
  { induction l as [|c l IH]; simpl; [lia|]. rewrite Hmem.
    destruct (String.eqb_spec c.1 n) as [->|]; simpl.
    - rewrite orb_true_r, Hn. destruct (existsb _ l); lia.
    - rewrite orb_false_r. lia. }
  specialize (H comps). destruct (existsb _ comps) eqn:E; [exact H|].
  destruct (decide (weight n = O)) as [->|Hw]; [lia|]. destruct (Hin Hw) as (c & Hc & <-).
  exfalso. apply not_true_iff_false in E. apply E, existsb_exists. exists c.
  split; [by apply list_elem_of_In|apply String.eqb_refl].
Qed.

Lemma closure_loop_total (Hok : ∀ n, ∃ ds, deps_of comps n = Ok ds) fuel : ∀ seen stack,
    (length stack + unseen seen <= fuel)%nat → ∃ own, closure_loop fuel comps seen stack = Ok own.
Proof.
  induction fuel as [|fuel IH]; intros seen [|n stack]; simpl; eauto; [lia|]. intros Hf.
  destruct (mem n seen) eqn:Hn; [apply IH; lia|]. destruct (Hok n) as [ds Hds]. rewrite Hds. simpl.
  apply IH. rewrite length_app, length_rev. pose proof (unseen_expand n seen Hn) as H.
  unfold weight in H. rewrite Hds in H. lia.
Qed.

Lemma closure_spec name own :
    closure comps name = Ok own → ∀ x, x ∈ own ↔ rtc dep name x.
Proof.
  intros H. apply closure_loop_spec in H as (H1 & H2 & H3); [|by intros x y ?%elem_of_nil].
  intros x. split.
  - intros Hx. destruct (H3 x Hx) as [?%elem_of_nil|(s & Hs & Hr)]; [done|].
    by apply list_elem_of_singleton in Hs as ->.
  - intros Hr. assert (name ∈ own) as Hn by (apply H1; right; by left).
    clear H1 H3. induction Hr as [|y z w Hyz _ IH]; [done|]. by apply IH, (H2 y).
Qed.
End Closure.

(** ** Clean runs *)

Lemma fold_clean_snoc {A B} (f : B → A → G B) (P : list A → B → Prop) l :
  (∀ d x b b', P d b → f b x = Done [] b' → P (d ++ [x]) b') →
  ∀ d b b', P d b → fold_ f b l = Done [] b' → P (d ++ l) b'.
Proof.
  intros Hf. induction l as [|x l IH]; intros d b b' HP H; cbn [fold_] in H.
  - injection H as <-. by rewrite app_nil_r.
  - apply bind_clean in H as (b1 & H1 & H2). specialize (IH (d ++ [x]) b1 b').
    rewrite <- app_assoc in IH. apply IH; [by eapply Hf|done].
Qed.

Section Clean.
  Context (umbrella : val) (chart : string → list val + string) (comps : list (string * val)).

Definition rendered (name : string) (docs : list val) : Prop :=
    name ∈ comps.*1 ∧ name ≠ "openstack" ∧ render (chart name) = inl docs.

Lemma render_all_clean rs : render_all chart comps = Done [] rs → ∀ n d, (n, d) ∈ rs ↔ rendered n d.
Proof.
  unfold render_all, rendered. intros H n d.
  assert ((n, d) ∈ rs ↔ n ∈ [] ++ sorted_strs comps.*1 ∧ n ≠ "openstack" ∧ render (chart n) = inl d) as Hi.
  { revert H. apply (fold_clean_snoc _ (λ l rs, (n, d) ∈ rs ↔ n ∈ l ∧ n ≠ "openstack" ∧ render (chart n) = inl d));
      [|rewrite elem_of_nil; by split; [|intros [?%elem_of_nil _]]].
    intros l x b b' IH Hx. rewrite elem_of_app, list_elem_of_singleton.
    destruct (String.eqb_spec x "openstack") as [->|Hne]; [injection Hx as <-; rewrite IH; naive_solver|].
    destruct (render (chart x)) as [docs|] eqn:E; [|done]. injection Hx as <-.
    rewrite elem_of_app, list_elem_of_singleton, IH. split.
    - intros [?|[= -> ->]]; naive_solver.
    - intros ([?| ->] & ? & Hr); [left; naive_solver|]. right. rewrite E in Hr. by injection Hr as ->. }
  rewrite Hi. simpl. by rewrite elem_of_sorted_strs.
Qed.

  (** A component whose chart renders a Service of that name. *)
Definition serves (rs : list (string * list val)) (owner svc : string) : Prop :=
    ∃ docs doc, (owner, docs) ∈ rs ∧ doc ∈ docs ∧ get doc "kind" = Ok (VStr "Service") ∧
      getpath doc ["metadata"; "name"] = Ok (VStr svc).

Lemma services_serve rs l owner svc :
    services rs = Ok l → (VStr svc, owner) ∈ l → serves rs owner svc.
Proof.
  intros H. revert owner svc. revert H. unfold services.
  apply (foldM_invariant_in (λ l, ∀ owner svc, (VStr svc, owner) ∈ l → serves rs owner svc));
    [|by intros ? ? ?%elem_of_nil].
  intros l1 [o docs] l2 Hr Hl1. simpl.
  apply (foldM_invariant_in (λ l, ∀ owner svc, (VStr svc, owner) ∈ l → serves rs owner svc)); [|done].
  intros l3 doc l4 Hd Hl3 H. res_inv H. destruct (eq_str a "Service") eqn:Ek; [|by injection H as <-].
  apply eq_str_spec in Ek as ->. apply bind_Ok in H as (nm & Hn & H).
  apply bind_Ok in H as (nm' & Hn' & H). apply hashable_Ok in Hn' as ->. injection H as <-.
  intros owner svc. rewrite elem_of_app, list_elem_of_singleton. intros [?|[= <- <-]]; [by apply Hl3|].
  exists docs, doc. auto.
Qed.
End Clean.

(** ** What a component's checks read *)

(** An init container of a workload among the documents sets this variable to this text. *)
Definition env_value (docs : list val) (var text : string) : Prop :=
  ∃ doc k ks spec cs c envs env v,
    doc ∈ docs ∧ get doc "kind" = Ok k ∧ spec_path k = Some ks ∧ getpath doc ks = Ok spec ∧
    get_iter spec "initContainers" = Ok cs ∧ c ∈ cs ∧ get_iter c "env" = Ok envs ∧ env ∈ envs ∧
    get env "name" = Ok (VStr var) ∧ get env "value" = Ok v ∧ or_ v (VStr "") = VStr text.

(** A line of a configuration file among the documents names this token, and is not a transport
    URL that nothing will dial. *)
Definition names_backend (docs : list val) (token : string) : Prop :=
  ∃ doc confs conf line kind,
    doc ∈ docs ∧ oslo_confs doc = Ok confs ∧ conf ∈ confs ∧ line ∈ splitlines conf.2 ∧
    (matches no_flags TRANSPORT_LINE line = true → notifications_live conf.2 = true) ∧
    reference line = Some (token, kind).

Section Component.
  Context (waived : list (val * val)) (served_by : list (val * string)).

Definition excused (sc : scope) (ref : string) : Prop := is_waived waived (sc_name sc) ref = true.

Lemma report_clean comp ref f a a' :
    report waived comp ref f a = Done [] a' → is_waived waived comp ref = true.
Proof. unfold report. by destruct (is_waived waived comp ref). Qed.

(** The wait names a Service of a component in the closure. *)
Definition wait_ok (sc : scope) (item : string) : Prop :=
    last_part item ≠ "" ∧ ∃ o, o ∈ owners_of served_by (last_part item) ∧ o ∈ sc_own sc.

Definition wait_ref (item : string) : string :=
    if String.eqb (last_part item) "" then "service:<empty>" else ("service:" ++ last_part item)%string.

Lemma check_wait_clean sc at_ value a item a' :
    check_wait waived served_by sc at_ value a item = Done [] a' →
    excused sc (wait_ref item) ∨ wait_ok sc item.
Proof.
  unfold check_wait, wait_ref, wait_ok, excused.
  destruct (String.eqb_spec (last_part item) "") as [_|Hne]; [intros H%report_clean; by left|].
  destruct (Nat.eqb _ 0); [intros H%report_clean; by left|].
  destruct (existsb _ _) eqn:E; simpl; [|intros H%report_clean; by left].
  intros _. right. split; [done|]. apply existsb_exists in E as (o & Ho & Hm). exists o.
  by rewrite mem_spec in Hm; rewrite list_elem_of_In.
Qed.

Lemma check_job_clean sc at_ a job a' :
    check_job waived sc at_ a job = Done [] a' →
    job = "" ∨ py_in (VStr job) (sc_jobs sc) = true ∨ excused sc ("job:" ++ job).
Proof.
  unfold check_job. destruct (String.eqb_spec job "") as [|_]; [by left|].
  destruct (py_in _ _); [auto|]. simpl. intros H%report_clean. auto.
Qed.

Lemma check_env_clean sc at_ a env a' v text :
    check_env waived served_by sc at_ a env = Done [] a' →
    get env "value" = Ok v → or_ v (VStr "") = VStr text →
    (get env "name" = Ok (VStr "DEPENDENCY_SERVICE") → strip text ≠ "" →
     ∀ item, item ∈ comma_items text → excused sc (wait_ref item) ∨ wait_ok sc item) ∧
    (get env "name" = Ok (VStr "DEPENDENCY_JOBS") →
     ∀ job, job ∈ comma_items text →
       job = "" ∨ py_in (VStr job) (sc_jobs sc) = true ∨ excused sc ("job:" ++ job)).
Proof.
  unfold check_env. intros H Hv Hor. rewrite Hv in H. gate_inv H. injection Hv0 as <-.
  rewrite Hor in H. split; intros Hn; rewrite Hn in Hv1; injection Hv1 as <-; simpl in H.
  - intros Hs item Hi. apply String.eqb_neq in Hs. rewrite Hs in H.
    destruct (fold_clean _ _ _ _ H item Hi) as (a1 & a2 & Hw). by apply check_wait_clean in Hw.
  - intros job Hj. destruct (fold_clean _ _ _ _ H job Hj) as (a1 & a2 & Hw).
    by apply check_job_clean in Hw.
Qed.

(** The backend needs no server, or a component of the closure provides it. *)
Definition backend_ok (sc : scope) (token : string) : Prop :=
    token ∈ NEEDS_NO_SERVER ∨ ∃ p, PyVal.assoc token PROVIDED_BY = Some p ∧ p ∈ sc_own sc.

Lemma check_line_clean sc at_ live a line a' token kind :
    check_line waived sc at_ live a line = Done [] a' →
    (matches no_flags TRANSPORT_LINE line = true → live = true) →
    reference line = Some (token, kind) → is_backend token = true →
    excused sc ("backend:" ++ token) ∨ backend_ok sc token.
Proof.
  unfold check_line, backend_ok. intros H Hlive Href Hb.
  destruct (matches no_flags TRANSPORT_LINE line && negb live) eqn:E.
  { apply andb_true_iff in E as [E1 E2]. rewrite (Hlive E1) in E2. done. }
  rewrite Href, Hb in H. cbn [negb] in H. destruct (mem token NEEDS_NO_SERVER) eqn:En.
  { right. left. by apply mem_spec. }
  destruct (mem token NO_COMPONENT_PROVIDES); [left; by apply report_clean in H|].
  gate_inv H. destruct (PyVal.assoc token PROVIDED_BY) as [p|]; [|done]. injection Hv as ->.
  destruct (mem v (sc_own sc)) eqn:Em; [|left; by apply report_clean in H].
  right. right. exists v. by rewrite mem_spec in Em.
Qed.

Lemma check_component_clean comps name docs a a' :
    check_component waived served_by comps a (name, docs) = Done [] a' →
    ∃ sc, sc_name sc = name ∧ closure comps name = Ok (sc_own sc) ∧ job_names docs = Ok (sc_jobs sc) ∧
      (∀ text item, env_value docs "DEPENDENCY_SERVICE" text → strip text ≠ "" →
         item ∈ comma_items text → excused sc (wait_ref item) ∨ wait_ok sc item) ∧
      (∀ text job, env_value docs "DEPENDENCY_JOBS" text → job ∈ comma_items text →
         job = "" ∨ py_in (VStr job) (sc_jobs sc) = true ∨ excused sc ("job:" ++ job)) ∧
      (∀ token, names_backend docs token → is_backend token = true →
         excused sc ("backend:" ++ token) ∨ backend_ok sc token).
Proof.
  unfold check_component. cbn [fst snd]. intros H. gate_inv H.
  set (sc := {| sc_name := name; sc_own := v; sc_jobs := v0 |}) in *. exists sc.
  assert (∀ var text, env_value docs var text → ∃ a1 a2 env w at_,
    check_env waived served_by sc at_ a1 env = Done [] a2 ∧ get env "name" = Ok (VStr var) ∧
    get env "value" = Ok w ∧ or_ w (VStr "") = VStr text) as Henv.
  { intros var text (doc & k & ks & spec & cs & c & envs & env & w & Hd & Hk & Hks & Hspec & Hcs & Hc & Henvs & He & Hn & Hw & Hor).
    destruct (fold_clean _ _ _ _ Ha doc Hd) as (b1 & b2 & Hp). unfold check_pod in Hp.
    rewrite Hk in Hp. gate_inv Hp. injection Hv1 as <-. apply hashable_Ok in Hv2 as ->.
    rewrite Hks, Hspec in Hp. gate_inv Hp. rewrite Hcs in Hv2. injection Hv2 as <-.
    destruct (fold_clean _ _ _ _ Hp c Hc) as (b3 & b4 & Hcc). unfold check_container in Hcc.
    rewrite Henvs in Hcc. gate_inv Hcc. injection Hv2 as <-.
    destruct (fold_clean _ _ _ _ Hcc env He) as (b5 & b6 & Hce). eauto 10. }
  repeat split; [done|done| | |].
  - intros text item Ht Hs Hi. destruct (Henv _ _ Ht) as (a1 & a2 & env & w & at_ & Hce & Hn & Hw & Hor).
    by apply (proj1 (check_env_clean _ _ _ _ _ _ _ Hce Hw Hor)).
  - intros text job Ht Hj. destruct (Henv _ _ Ht) as (a1 & a2 & env & w & at_ & Hce & Hn & Hw & Hor).
    by apply (proj2 (check_env_clean _ _ _ _ _ _ _ Hce Hw Hor)).
  - intros token (doc & confs & conf & line & kind & Hd & Hcf & Hc & Hl & Hlive & Href) Hb.
    destruct (fold_clean _ _ _ _ H doc Hd) as (b1 & b2 & Hp). unfold check_doc_confs in Hp.
    rewrite Hcf in Hp. gate_inv Hp. injection Hv1 as <-.
    destruct (fold_clean _ _ _ _ Hp conf Hc) as (b3 & b4 & Hcc). unfold check_conf in Hcc.
    gate_inv Hcc. destruct (fold_clean _ _ _ _ Hcc line Hl) as (b5 & b6 & Hcl).
    by apply (check_line_clean _ _ _ _ _ _ _ _ Hcl Hlive Href Hb).
Qed.
End Component.

(** An object of that kind and name. *)
Definition declares (docs : list val) (kind name : string) : Prop :=
  ∃ doc, doc ∈ docs ∧ get doc "kind" = Ok (VStr kind) ∧
    getpath doc ["metadata"; "name"] = Ok (VStr name).

Lemma job_names_declare docs js job :
  job_names docs = Ok js → py_in (VStr job) js = true → declares docs "Job" job.
Proof.
  intros H Hin. assert (VStr job ∈ js) as Hj.
  { apply existsb_exists in Hin as (w & Hw & He). apply list_elem_of_In in Hw.
    destruct w; try done. by apply String.eqb_eq in He as <-. }
  revert job Hin Hj. revert H. unfold job_names.
  apply (foldM_invariant_in (λ l, ∀ job, py_in (VStr job) js = true → VStr job ∈ l → declares docs "Job" job));
    [|by intros ? _ ?%elem_of_nil].
  intros l1 d l2 Hd IH H. apply bind_Ok in H as (k & Hk & H).
  destruct (eq_str k "Job") eqn:Ek; [|by injection H as <-]. apply eq_str_spec in Ek as ->.
  apply bind_Ok in H as (nm & Hn & H). apply bind_Ok in H as (nm' & Hn' & H).
  apply hashable_Ok in Hn' as ->. injection H as <-. intros job Hin.
  rewrite elem_of_app, list_elem_of_singleton. intros [?|Hj]; [by apply IH|]. subst nm.
  exists d. auto.
Qed.

(** ** The properties *)

(** Everything component [name] waits for or names is in its closure, unless waived: each awaited
    Service is rendered by a component it reaches along declared dependencies, each awaited Job by
    its own chart, and each backend with a server is provided by a component it reaches. *)
Definition closed (chart : string → list val + string) (comps : list (string * val))
    (waived : list (val * val)) (name : string) (docs : list val) : Prop :=
  (∀ text item, env_value docs "DEPENDENCY_SERVICE" text → strip text ≠ "" → item ∈ comma_items text →
     is_waived waived name (wait_ref item) = true ∨
     last_part item ≠ "" ∧ ∃ owner odocs, rtc (dep comps) name owner ∧ rendered chart comps owner odocs ∧
       declares odocs "Service" (last_part item)) ∧
  (∀ text job, env_value docs "DEPENDENCY_JOBS" text → job ∈ comma_items text → job ≠ "" →
     is_waived waived name ("job:" ++ job) = true ∨ declares docs "Job" job) ∧
  (∀ token, names_backend docs token → is_backend token = true → token ∉ NEEDS_NO_SERVER →
     is_waived waived name ("backend:" ++ token) = true ∨
     ∃ provider, PyVal.assoc token PROVIDED_BY = Some provider ∧ rtc (dep comps) name provider).

(** The dependency closure of a component is exactly what it reaches along the declared
    dependencies, itself included, and its worklist always empties. *)
Theorem closure_reachable comps name :
  (∀ n, ∃ ds, deps_of comps n = Ok ds) →
  ∃ own, closure comps name = Ok own ∧ ∀ x, x ∈ own ↔ rtc (dep comps) name x.
Proof.
  intros Hok. destruct (closure_loop_total comps Hok (S (pushes comps)) [] [name]) as [own Hown].
  { unfold unseen, pushes, weight. simpl. apply le_n. }
  exists own. split; [exact Hown|]. by apply closure_spec.
Qed.

(** C12: when the gate passes, every component whose chart was rendered is closed: what it waits
    for and the backends it names resolve inside its declared dependency closure, or are gaps
    declared with a reason and a tracking issue. *)
Theorem passed_closed umbrella chart gaps_file a :
  main umbrella chart gaps_file = Done [] a →
  ∃ comps waived, read_components umbrella = Ok comps ∧ read_gaps gaps_file = Done [] waived ∧
    ∀ name docs, rendered chart comps name docs → closed chart comps waived name docs.
Proof.
  unfold main. destruct (read_components umbrella) as [comps|]; [|done].
  destruct comps as [|c comps]; [done|]. set (cs := c :: comps). intros H.
  gate_inv H. rename a0 into rs. destruct (Nat.eqb (length rs) 0); [done|]. gate_inv H.
  rename v into served. destruct (Nat.eqb (length served) 0); [done|]. gate_inv H.
  rename a0 into waived. exists cs, waived. split; [done|]. split; [done|].
  intros name docs Hr. pose proof (render_all_clean chart cs rs Ha) as Hrs.
  destruct (fold_clean _ _ _ _ Ha1 (name, docs)) as (b1 & b2 & Hc); [by apply Hrs|].
  apply check_component_clean in Hc as (sc & <- & Hown & Hjobs & H1 & H2 & H3).
  pose proof (closure_spec _ _ _ Hown) as Hreach. split; [|split].
  - intros text item Ht Hs Hi. destruct (H1 text item Ht Hs Hi) as [?|(Hne & o & Ho & Hin)]; [by left|].
    right. split; [done|]. apply list_elem_of_fmap in Ho as ([n o'] & -> & Ho).
    apply list_elem_of_In, filter_In in Ho as [Ho He]. apply eq_str_spec in He. simpl in He. subst n.
    apply list_elem_of_In in Ho. apply (services_serve rs served) in Ho as (od & doc & Hod & Hdoc & Hk & Hn); [|done].
    exists o', od. split; [by apply Hreach|]. split; [by apply Hrs|]. by exists doc.
  - intros text job Ht Hj Hne. destruct (H2 text job Ht Hj) as [?|[?|?]]; [done|right|by left].
    by eapply job_names_declare.
  - intros token Ht Hb Hs. destruct (H3 token Ht Hb) as [?|[?|(p & Hp & Hin)]]; [by left|done|].
    right. exists p. split; [done|]. by apply Hreach.
Qed.

(** ** A concrete installation *)

Definition comp_ (name : string) (deps : list string) : val :=
  VDict [("name", VStr name); ("deps", VList (VStr <$> deps))].
Definition meta (name : string) : string * val := ("metadata", VDict [("name", VStr name)]).
Definition service_ (name : string) : val := VDict [("kind", VStr "Service"); meta name].
Definition job_ (name services jobs : string) : val :=
  VDict [("kind", VStr "Job"); meta name;
    ("spec", VDict [("template", VDict [("spec", VDict [("initContainers", VList [VDict [("env", VList
      [VDict [("name", VStr "DEPENDENCY_SERVICE"); ("value", VStr services)];
       VDict [("name", VStr "DEPENDENCY_JOBS"); ("value", VStr jobs)]])]])])])])].
Definition config_ (text : string) : val :=
  VDict [("kind", VStr "ConfigMap"); meta "etc"; ("data", VDict [("glance.conf", VStr text)])].

Definition sample_umbrella : val :=
  VDict [("components", VList [comp_ "mariadb" []; comp_ "keystone" ["mariadb"]; comp_ "glance" ["keystone"]])].
Definition sample_chart (wait : string) (name : string) : list val + string :=
  if String.eqb name "glance"
  then inl [job_ "glance-db" "" ""; job_ "glance-api" wait "glance-db";
            config_ ("[database]" ++ newline ++ "connection = mysql+pymysql://x")]
  else inl [service_ name].

Definition sample_acc : acc := {| waits := 2; backends := 1; used := []; ignored := [] |}.

Lemma closure_reachable_witness :
  let comps := [("mariadb", comp_ "mariadb" []); ("glance", comp_ "glance" ["mariadb"; "glance"])] in
  closure comps "glance" = Ok ["glance"; "mariadb"] ∧
  ∃ own, closure comps "glance" = Ok own ∧ ∀ x, x ∈ own ↔ rtc (dep comps) "glance" x.
Proof.
  split; [reflexivity|].
  apply (closure_reachable [("mariadb", comp_ "mariadb" []); ("glance", comp_ "glance" ["mariadb"; "glance"])] "glance").
  intros n. unfold deps_of. simpl. destruct (String.eqb n "mariadb"); [by eexists|].
  destruct (String.eqb n "glance"); by eexists.
Defined.

Lemma passed_closed_witness :
  main sample_umbrella (sample_chart "a:mariadb, a:keystone") None = Done [] sample_acc ∧
  ∃ comps waived, read_components sample_umbrella = Ok comps ∧ read_gaps None = Done [] waived ∧
    ∀ name docs, rendered (sample_chart "a:mariadb, a:keystone") comps name docs →
      closed (sample_chart "a:mariadb, a:keystone") comps waived name docs.
Proof.
  split; [vm_compute; reflexivity|].
  exact (passed_closed sample_umbrella (sample_chart "a:mariadb, a:keystone") None sample_acc
    ltac:(vm_compute; reflexivity)).
Defined.

(** A wait nobody serves, one outside the closure, and a stale waiver are reported. *)
Example sample_findings :
  (match main sample_umbrella (sample_chart "a:postgresql,,") None with
   | Done fs _ => length fs | Stop _ => O end,
   match main sample_umbrella (sample_chart "a:mariadb")
           (Some (VDict [("gaps", VList [VDict [("component", VStr "glance"); ("reference", VStr "job:x");
                                                ("why", VStr "y"); ("tracking", VStr "z")]])])) with
   | Done [Stale ws] _ => length ws | _ => O end) = (3%nat, 1%nat).
Proof. vm_compute. reflexivity. Qed.
End ConfigClosureFacts.
