(* ===== verification/Redis.v ===== *)
(** * hack/validate-redis-readiness.py: readiness proves redis serves, liveness that it is alive

    The gate reads the probes of the rendered chart, checks their shape, time budget and port,
    and runs the scripts against a stub redis in eight states. The chart's rendered documents and
    the parsed values files are the input; running a script in a state is a parameter, since the
    script is shell code of the chart. *)
From S2P Require Import Prelude PyStr PyVal PyRe Gate.
#[local] Open Scope string_scope.
#[local] Open Scope list_scope.

Module Redis.

Definition CONTAINER : string := "redis".
Definition WORKLOAD : string * string := ("Deployment", "redis").
Definition TIMEOUT_CALL : re := Eval vm_compute in the (compile "\btimeout\s+([0-9]+)\b") Eps.

Inductive unmeasured :=
  | NoProbeValues | HelmFailed (err : string) | NothingRendered | NoWorkload | NoContainer
  | NoService | NoProbeRead | NoEndpoint.

Inductive finding :=
  | NoProbe (kind : string)
  | TcpSocket (kind : string)
  | HttpGet (kind : string)
  | NotShell (kind : string) (command : val)
  | StartupProbe (kind name container : val)
  | NoTimeout (kind : string)
  | NoIntegerTimeout (kind : string)
  | OverBudget (kind : string) (spent allowed : Z)
  | NoHostService (host : val)
  | ZaqarPort (host : val) (ports : list val) (port : val)
  | NetworkPort (host : val) (ports : list val) (port : val)
  | WrongPort (kind : string) (port : val)
  | WrongVerdict (mode kind : string) (passed : bool).

Definition G := gate unmeasured finding.

(** ** Reading the values and the rendered objects *)

(** The port of the values, which must declare the probes' options too. *)
Definition network_port (values : val) : G val :=
  let v := or_ values (VDict []) in
  match getpath v ["pod"; "probes"; "redis"; "redis"], getpath v ["network"; "port"] with
  | Ok _, Ok p => mret p
  | _, _ => measurement_failed NoProbeValues
  end.

Definition find_workload (docs : list val) : res (option val) :=
  foldM (λ w d,
    let* k := get d "kind" in
    let* md := get_default d "metadata" (VDict []) in
    let* n := get md "name" in
    Ok (if eq_str k WORKLOAD.1 && eq_str n WORKLOAD.2 then Some d else w)) None docs.

Definition find_container (workload : val) : res (option val) :=
  let* cs := getpath workload ["spec"; "template"; "spec"; "containers"] in
  let* cs := py_iter cs in
  foldM (λ w c, let* n := getitem c "name" in Ok (if eq_str n CONTAINER then Some c else w)) None cs.

(** The Services by name. *)
Definition find_services (docs : list val) : res (list (val * val)) :=
  foldM (λ s d,
    let* k := get d "kind" in
    if eq_str k "Service"
    then let* n := getpath d ["metadata"; "name"] in let* n := hashable n in Ok (vset n d s)
    else Ok s) [] docs.

(** ** 1. Shape *)

(** A probe the gate can run: its script and the probe. *)
Definition scripts : Type := list (string * (val * val)).

Definition probe_command (probe : val) : res val :=
  let* e := get_dict probe "exec" in
  let* c := get e "command" in
  Ok (or_ c (VList [])).

(** [len(command) < 3 or command[0] != "/bin/sh" or command[1] != "-c"] *)
Definition not_shell (command : val) : res bool :=
  let* n := py_len command in
  if Nat.ltb n 3 then Ok true else
  let* c0 := getidx command 0 in
  if negb (eq_str c0 "/bin/sh") then Ok true else
  let* c1 := getidx command 1 in
  Ok (negb (eq_str c1 "-c")).

Definition read_probe (container : val) (ss : scripts) (kind : string) : G scripts :=
  let* probe := lift (get container kind) in
  if negb (truthy probe) then let* _ := fail (NoProbe kind) in mret ss else
  let* tcp := lift (key_in "tcpSocket" probe) in
  if tcp : bool then let* _ := fail (TcpSocket kind) in mret ss else
  let* http := lift (key_in "httpGet" probe) in
  if http : bool then let* _ := fail (HttpGet kind) in mret ss else
  let* command := lift (probe_command probe) in
  let* bad := lift (not_shell command) in
  if bad : bool then let* _ := fail (NotShell kind command) in mret ss else
  let* script := lift (getidx command 2) in
  mret (ss ++ [(kind, (script, probe))]).

Definition pod_of (d k : val) : res val :=
  if eq_str k "Pod" then getitem d "spec" else getpath d ["spec"; "template"; "spec"].

Definition check_startup (d k c : val) : G unit :=
  let* p := lift (get c "startupProbe") in
  if negb (truthy p) then mret () else
  let* kd := lift (getitem d "kind") in
  let* n := lift (getpath d ["metadata"; "name"]) in
  let* cn := lift (getitem c "name") in
  fail (StartupProbe kd n cn).

Definition check_doc (d : val) : G unit :=
  let* k := lift (get d "kind") in
  if negb (existsb (eq_str k) ["Deployment"; "DaemonSet"; "StatefulSet"; "Pod"]) then mret () else
  let* pod := lift (pod_of d k) in
  let* cs := lift (get_iter pod "containers") in
  for_ cs (check_startup d k).

Definition shape (container : val) (docs : list val) : G scripts :=
  let* ss := fold_ (read_probe container) [] ["readinessProbe"; "livenessProbe"] in
  let* _ := for_ docs check_doc in
  mret ss.

(** ** 2. Budget *)

Definition text_of (v : val) : res string := match v with VStr s => Ok s | _ => Raise TypeError end.

Definition budgets (script : string) : res (list Z) :=
  mapM (λ m, py_int (group' m 1)) (finditer no_flags TIMEOUT_CALL script).

(** [isinstance(v, int)], with its value. *)
Definition int_of (v : val) : option Z :=
  match v with VInt z => Some z | VBool b => Some (Z.b2z b) | _ => None end.

Definition total (l : list Z) : Z := foldr Z.add 0%Z l.

Definition check_budget (s : string * (val * val)) : G unit :=
  let* script := lift (text_of s.2.1) in
  let* bs := lift (budgets script) in
  match bs with
  | [] => fail (NoTimeout s.1)
  | _ =>
      let* allowed := lift (get s.2.2 "timeoutSeconds") in
      match int_of allowed with
      | None => fail (NoIntegerTimeout s.1)
      | Some a => check (negb (a <=? total bs)%Z) (OverBudget s.1 (total bs) a)
      end
  end.

Definition script_leb (a b : string * (val * val)) : bool := str_leb a.1 b.1.

(** ** 3. Port *)

(** The endpoint zaqar dials. *)
Definition endpoint (zaqar : val) : res (val * val) :=
  let* es := get_dict (or_ zaqar (VDict [])) "endpoints" in
  let* ms := get_dict es "message_store" in
  let* hosts := get_dict ms "hosts" in
  let* host := get hosts "default" in
  let* ports := get_dict ms "port" in
  let* redis := get_dict ports "redis" in
  let* port := get redis "default" in
  Ok (host, port).

Definition check_service (services : list (val * val)) (host zport nport : val) : G unit :=
  let* host := lift (hashable host) in
  match vget host services with
  | None => fail (NoHostService host)
  | Some svc =>
      let* spec := lift (getitem svc "spec") in
      let* ps := lift (get_iter spec "ports") in
      let* ports := lift (mapM (λ p, get p "port") ps) in
      let* _ := check (py_in zport ports) (ZaqarPort host ports zport) in
      check (py_in nport ports) (NetworkPort host ports nport)
  end.

(** The pattern [-p PORT], the port in quotes or not and no digit after it. *)
Definition port_pattern (port : val) : res re :=
  let* p := py_str port in
  match compile (dq "-p\s+[`']?" ++ p ++ dq "[`']?(?!\d)") with
  | Some r => Ok r
  | None => Raise ValueError
  end.

(** Showing the script's first line fails on an empty script. *)
Definition check_port (nport : val) (s : string * (val * val)) : G unit :=
  let* r := lift (port_pattern nport) in
  let* script := lift (text_of s.2.1) in
  if searches no_flags r script then mret () else
  let* _ := lift (match splitlines script with [] => Raise IndexError | l :: _ => Ok l end) in
  fail (WrongPort s.1 nport).

(** ** 4. Behaviour *)

(** Each state of redis, with the verdicts the readiness and the liveness probe must give. *)
Definition EXPECTED : list (string * (bool * bool)) :=
  [("healthy", (true, true)); ("loading", (false, true)); ("misconf", (false, true));
   ("masterdown", (false, true)); ("oom", (false, true)); ("badreadback", (false, true));
   ("gone", (false, false)); ("wedged", (false, false))].

Section Run.
  (** The exit status of a script when redis is in a state. *)
Context (run : string → string → Z).

Definition check_mode (ready live : string) (row : string * (bool * bool)) : G unit :=
    for_ [("readinessProbe", ready, row.2.1); ("livenessProbe", live, row.2.2)]
      (λ '(kind, script, want),
        let passed := (run (script ++ newline)%string row.1 =? 0)%Z in
        check (Bool.eqb passed want) (WrongVerdict row.1 kind passed)).

(** The scripts of the two probes, once both were read. *)
Definition both (ss : scripts) : res (string * string) :=
    match assoc "readinessProbe" ss, assoc "livenessProbe" ss with
    | Some r, Some l => let* rs := text_of r.1 in let* ls := text_of l.1 in Ok (rs, ls)
    | _, _ => Raise (KeyError "readinessProbe")
    end.

(** Parts 2 to 4, for the scripts of both probes. *)
Definition measure (services : list (val * val)) (nport zaqar : val) (ss : scripts) : G unit :=
    let sorted := isort script_leb ss in
    let* _ := for_ sorted check_budget in
    let* (host, zport) := lift (endpoint zaqar) in
    if negb (truthy host) || negb (truthy zport) then measurement_failed NoEndpoint else
    let* _ := check_service services host zport nport in
    let* _ := for_ sorted (check_port nport) in
    let* (ready, live) := lift (both ss) in
    for_ EXPECTED (check_mode ready live).

(** Findings about the shape end the run when a probe could not be read. *)
Definition main (values : val) (rendered : list val + string) (zaqar : val) : G unit :=
    let* nport := network_port values in
    match rendered with
    | inr err => measurement_failed (HelmFailed err)
    | inl all =>
        let docs := List.filter truthy all in
        if Nat.eqb (length docs) 0 then measurement_failed NothingRendered else
        let* w := lift (find_workload docs) in
        match w with
        | None => measurement_failed NoWorkload
        | Some workload =>
        let* c := lift (find_container workload) in
        match c with
        | None => measurement_failed NoContainer
        | Some container =>
        let* services := lift (find_services docs) in
        if Nat.eqb (length services) 0 then measurement_failed NoService else
        match shape container docs with
        | Done fs ss =>
            if negb (Nat.eqb (length ss) 2)
            then match fs with [] => measurement_failed NoProbeRead | _ => Done fs () end
            else let* _ := Done fs () in measure services nport zaqar ss
        | Stop s => Stop s
        end
        end
        end
    end.
End Run.

(** ** What a passing run has established *)

(** The probe of that kind runs a script in a shell and opens nothing itself. *)
Definition runs_script (container : val) (kind : string) (probe script : val) : Prop :=
  get container kind = Ok probe ∧ truthy probe = true ∧
  key_in "tcpSocket" probe = Ok false ∧ key_in "httpGet" probe = Ok false ∧
  ∃ command, probe_command probe = Ok command ∧ not_shell command = Ok false ∧
    getidx command 2 = Ok script.

(** The script bounds each call it makes, and the bounds fit in the kubelet's. *)
Definition budgeted (probe : val) (script : string) : Prop :=
  ∃ bs allowed a, budgets script = Ok bs ∧ bs ≠ [] ∧ get probe "timeoutSeconds" = Ok allowed ∧
    int_of allowed = Some a ∧ (total bs < a)%Z.

Definition reaches (nport : val) (script : string) : Prop :=
  ∃ r, port_pattern nport = Ok r ∧ searches no_flags r script = true.

Definition no_startup_probe (docs : list val) : Prop :=
  ∀ d k pod cs c p, d ∈ docs → get d "kind" = Ok k →
    existsb (eq_str k) ["Deployment"; "DaemonSet"; "StatefulSet"; "Pod"] = true →
    pod_of d k = Ok pod → get_iter pod "containers" = Ok cs → c ∈ cs →
    get c "startupProbe" = Ok p → truthy p = false.

(** The Service zaqar dials publishes the port it dials and the port redis listens on. *)
Definition dialled (docs : list val) (nport zaqar : val) : Prop :=
  ∃ host zport services svc spec ps ports,
    endpoint zaqar = Ok (host, zport) ∧ truthy host = true ∧ truthy zport = true ∧
    find_services docs = Ok services ∧ vget host services = Some svc ∧
    getitem svc "spec" = Ok spec ∧ get_iter spec "ports" = Ok ps ∧
    mapM (λ p, get p "port") ps = Ok ports ∧ py_in zport ports = true ∧ py_in nport ports = true.

(** Readiness holds in the healthy state only; liveness fails in the two states a restart
    repairs and in no other. *)
Definition verdicts (run : string → string → Z) (ready live : string) : Prop :=
  ∀ mode, mode ∈ EXPECTED.*1 →
    (run (ready ++ newline)%string mode = 0%Z ↔ mode = "healthy") ∧
    (run (live ++ newline)%string mode = 0%Z ↔ mode ≠ "gone" ∧ mode ≠ "wedged").

Lemma read_probe_clean container ss kind ss' :
  read_probe container ss kind = Done [] ss' →
  ∃ probe script, runs_script container kind probe script ∧ ss' = ss ++ [(kind, (script, probe))].
Proof.
  unfold read_probe, runs_script. intros H. gate_inv H.
  destruct (truthy v) eqn:Et; [|done]. cbn [negb] in H.
  gate_inv H. destruct v0; [done|]. gate_inv H. destruct v0; [done|]. gate_inv H.
  destruct v1; [done|]. gate_inv H. injection H as <-. eauto 15.
Qed.

Lemma shape_clean container docs ss :
  shape container docs = Done [] ss →
  no_startup_probe docs ∧
  ∃ rp rs lp ls, runs_script container "readinessProbe" rp rs ∧
    runs_script container "livenessProbe" lp ls ∧
    ss = [("readinessProbe", (rs, rp)); ("livenessProbe", (ls, lp))].
Proof.
  unfold shape. intros H. gate_inv H. injection H as <-. split.
  - intros d k pod cs c p Hd Hk Hin Hpod Hcs Hc Hp. rewrite for_clean in Ha0. specialize (Ha0 d Hd).
    unfold check_doc in Ha0. gate_inv Ha0. rewrite Hk in Hv. injection Hv as <-. rewrite Hin in Ha0.
    cbn [negb] in Ha0. gate_inv Ha0. rewrite Hpod in Hv. injection Hv as <-.
    rewrite Hcs in Hv0. injection Hv0 as <-. rewrite for_clean in Ha0. specialize (Ha0 c Hc).
    unfold check_startup in Ha0. gate_inv Ha0. rewrite Hp in Hv. injection Hv as <-.
    destruct (truthy p); [|done]. cbn [negb] in Ha0. by gate_inv Ha0.
  - cbn [fold_] in Ha. apply bind_clean in Ha as (s1 & Hs1 & Ha).
    apply bind_clean in Ha as (s2 & Hs2 & Ha). injection Ha as <-.
    apply read_probe_clean in Hs1 as (rp & rs & Hr & ->).
    apply read_probe_clean in Hs2 as (lp & ls & Hl & ->). eauto 10.
Qed.

Lemma check_budget_clean kind script probe :
  check_budget (kind, (script, probe)) = Done [] () →
  ∃ t, script = VStr t ∧ budgeted probe t.
Proof.
  unfold check_budget, budgeted. cbn [fst snd]. intros H. gate_inv H.
  destruct script as [| | | |t| |]; try done. injection Hv as <-. exists t. split; [done|].
  destruct v0 as [|b bs]; [done|]. gate_inv H. destruct (int_of v) as [a|] eqn:Ea; [|done].
  apply check_clean, negb_true_iff, Z.leb_gt in H. exists (b :: bs), v, a. done.
Qed.

Lemma check_port_clean nport kind t probe :
  check_port nport (kind, (VStr t, probe)) = Done [] () → reaches nport t.
Proof.
  unfold check_port, reaches. cbn [fst snd]. intros H. gate_inv H. injection Hv0 as <-.
  destruct (searches no_flags v t) eqn:E; [eauto|]. by gate_inv H.
Qed.

Lemma check_modes_clean run ready live :
  for_ EXPECTED (check_mode run ready live) = Done [] () → verdicts run ready live.
Proof.
  rewrite for_clean. intros H mode Hm. apply list_elem_of_fmap in Hm as ([m [r l]] & -> & Hrow).
  specialize (H _ Hrow). unfold check_mode in H. rewrite for_clean in H. cbn [fst snd] in *.
  assert (Hr := H ("readinessProbe", ready, r) ltac:(left)).
  assert (Hl := H ("livenessProbe", live, l) ltac:(right; left)).
  apply check_clean, eqb_prop in Hr, Hl. rewrite <- !Z.eqb_eq, Hr, Hl. clear -Hrow.
  unfold EXPECTED in Hrow. rewrite !elem_of_cons in Hrow.
  repeat destruct Hrow as [[= -> -> ->]|Hrow]; [naive_solver..|by apply elem_of_nil in Hrow].
Qed.

Lemma sorted_two rs rp ls lp :
  isort script_leb [("readinessProbe", (rs, rp)); ("livenessProbe", (ls, lp))]
  = [("livenessProbe", (ls, lp)); ("readinessProbe", (rs, rp))].
Proof. reflexivity. Qed.

Lemma measure_clean run services nport zaqar docs rs rp ls lp :
  find_services docs = Ok services →
  measure run services nport zaqar [("readinessProbe", (rs, rp)); ("livenessProbe", (ls, lp))] = Done [] () →
  ∃ ready live, rs = VStr ready ∧ ls = VStr live ∧ budgeted rp ready ∧ budgeted lp live ∧
    reaches nport ready ∧ reaches nport live ∧ dialled docs nport zaqar ∧ verdicts run ready live.
Proof.
  intros Hsv. unfold measure. rewrite sorted_two. intros H. gate_inv H.
  rename a into u. destruct u. rewrite for_clean in Ha.
  destruct (check_budget_clean _ _ _ (Ha (_, (rs, rp)) ltac:(right; left))) as (ready & -> & Hbr).
  destruct (check_budget_clean _ _ _ (Ha (_, (ls, lp)) ltac:(left))) as (live & -> & Hbl).
  destruct v as [host zport].
  destruct (truthy host) eqn:Eh; [|done]. destruct (truthy zport) eqn:Ez; [|done].
  cbn [negb orb] in H. gate_inv H. rename a into u, a0 into u'. destruct u, u'.
  rewrite for_clean in Ha1. injection Hv0 as <-.
  exists ready, live. do 4 (split; [done|]).
  split; [by apply (check_port_clean _ "readinessProbe" _ rp), Ha1; right; left|].
  split; [by apply (check_port_clean _ "livenessProbe" _ lp), Ha1; left|].
  split; [|by apply check_modes_clean].
  unfold check_service in Ha0. gate_inv Ha0. apply hashable_Ok in Hv0 as ->.
  destruct (vget host services) as [svc|] eqn:Es; [|done]. gate_inv Ha0.
  apply check_clean in Ha0. unfold dialled. eauto 20.
Qed.

(** C15: a passing gate has found, in the rendered chart, a redis container whose two probes are
    shell scripts with a time budget that fits the kubelet's, that reach the port redis is started
    on; readiness succeeds in the healthy state alone and liveness fails exactly in the two states a
    restart repairs; no container has a startup probe; and the Service zaqar dials publishes both
    ports. *)
Theorem redis_passed run values all zaqar :
  main run values (inl all) zaqar = Done [] () →
  ∃ nport workload container rp ready lp live,
    let docs := List.filter truthy all in
    network_port values = Done [] nport ∧ find_workload docs = Ok (Some workload) ∧
    find_container workload = Ok (Some container) ∧
    runs_script container "readinessProbe" rp (VStr ready) ∧
    runs_script container "livenessProbe" lp (VStr live) ∧
    budgeted rp ready ∧ budgeted lp live ∧ reaches nport ready ∧ reaches nport live ∧
    verdicts run ready live ∧ no_startup_probe docs ∧ dialled docs nport zaqar.
Proof.
  unfold main. intros H. gate_inv H. rename a into nport. set (docs := List.filter truthy all) in *.
  destruct (Nat.eqb (length docs) 0); [done|]. gate_inv H. destruct v as [workload|]; [|done].
  gate_inv H. destruct v as [container|]; [|done]. gate_inv H.
  destruct (Nat.eqb (length v) 0); [done|].
  destruct (shape container docs) as [fs ss|] eqn:Esh; [|done].
  destruct (Nat.eqb (length ss) 2); simpl negb in H; cbn iota in H; [|by destruct fs].
  apply bind_clean in H as (u & Hu & H). injection Hu as -> _.
  apply shape_clean in Esh as (Hst & rp & rs & lp & ls & Hr & Hl & ->).
  apply (measure_clean _ _ _ _ docs) in H as (ready & live & -> & -> & ?); [|done].
  exists nport, workload, container, rp, ready, lp, live. naive_solver.
Qed.

(** ** A concrete chart *)

Definition shell_probe (script : string) (seconds : Z) : val :=
  VDict [("exec", VDict [("command", VList [VStr "/bin/sh"; VStr "-c"; VStr script])]);
         ("timeoutSeconds", VInt seconds)].
Definition ready_script : string := "timeout 2 redis-cli -p 6379 SET k v && timeout 2 redis-cli -p 6379 GET k".
Definition live_script : string := "timeout 3 redis-cli -p 6379 PING".

Definition sample_docs (ready live : string) : list val :=
  [VDict [("kind", VStr "Deployment"); ("metadata", VDict [("name", VStr "redis")]);
     ("spec", VDict [("template", VDict [("spec", VDict [("containers", VList [VDict
        [("name", VStr "redis"); ("readinessProbe", shell_probe ready 5);
         ("livenessProbe", shell_probe live 5)]])])])])];
   VDict [("kind", VStr "Service"); ("metadata", VDict [("name", VStr "redis")]);
     ("spec", VDict [("ports", VList [VDict [("port", VInt 6379)]])])]].
Definition sample_values : val :=
  VDict [("pod", VDict [("probes", VDict [("redis", VDict [("redis", VDict [])])])]);
         ("network", VDict [("port", VInt 6379)])].
Definition sample_zaqar : val :=
  VDict [("endpoints", VDict [("message_store", VDict
    [("hosts", VDict [("default", VStr "redis")]);
     ("port", VDict [("redis", VDict [("default", VInt 6379)])])])])].

(** A script that writes fails wherever redis refuses a write, the other where it does not reply. *)
Definition stub_run (script mode : string) : Z :=
  if contains "SET" script then (if String.eqb mode "healthy" then 0 else 1)
  else if String.eqb mode "gone" || String.eqb mode "wedged" then 1 else 0.

Lemma redis_passed_witness :
  main stub_run sample_values (inl (sample_docs ready_script live_script)) sample_zaqar = Done [] () ∧
  ∃ nport workload container rp ready lp live,
    let docs := List.filter truthy (sample_docs ready_script live_script) in
    network_port sample_values = Done [] nport ∧ find_workload docs = Ok (Some workload) ∧
    find_container workload = Ok (Some container) ∧
    runs_script container "readinessProbe" rp (VStr ready) ∧
    runs_script container "livenessProbe" lp (VStr live) ∧
    budgeted rp ready ∧ budgeted lp live ∧ reaches nport ready ∧ reaches nport live ∧
    verdicts stub_run ready live ∧ no_startup_probe docs ∧ dialled docs nport sample_zaqar.
Proof.
  split; [vm_compute; reflexivity|].
  exact (redis_passed stub_run sample_values (sample_docs ready_script live_script) sample_zaqar
    ltac:(vm_compute; reflexivity)).
Defined.

(** A readiness probe that only pings passes in five states it must fail in. *)
Example ping_readiness :
  match main stub_run sample_values (inl (sample_docs live_script live_script)) sample_zaqar with
  | Done fs () => length fs | Stop _ => O end = 5%nat.
Proof. vm_compute. reflexivity. Qed.

(** An empty script is found without a time bound, and then stops the gate with an exception
    instead of a report. *)
Example empty_script :
  main stub_run sample_values (inl (sample_docs "" live_script)) sample_zaqar
  = Stop (Crashed IndexError).
Proof. vm_compute. reflexivity. Qed.
End Redis.
