(* ===== verification/Manifests.v ===== *)
(** * Rendered manifests: what the gates on one chart's probes read

    The objects of a kind and name, the containers of a workload, and loops whose test may raise. *)
From S2P Require Import Prelude PyStr PyVal.
#[local] Open Scope string_scope.
#[local] Open Scope list_scope.

(** [[x for x in l if f(x)]] and [any(f(x) for x in l)] *)
Fixpoint filter_res {A} (f : A → res bool) (l : list A) : res (list A) :=
  match l with
  | [] => Ok []
  | x :: l' => let* b := f x in let* k := filter_res f l' in Ok (if b : bool then x :: k else k)
  end.
Fixpoint any_res {A} (f : A → res bool) (l : list A) : res bool :=
  match l with
  | [] => Ok false
  | x :: l' => let* b := f x in if b : bool then Ok true else any_res f l'
  end.

(** [d.get("kind") == kind and d["metadata"]["name"] == name] *)
Definition is_named (kind name : string) (d : val) : res bool :=
  let* k := get d "kind" in
  if eq_str k kind then let* n := getpath d ["metadata"; "name"] in Ok (eq_str n name) else Ok false.

Definition pod_containers (doc : val) : res (list val) :=
  let* cs := getpath doc ["spec"; "template"; "spec"; "containers"] in py_iter cs.

Fixpoint first_named (name : string) (cs : list val) : res (option val) :=
  match cs with
  | [] => Ok None
  | c :: cs' =>
      let* n := getitem c "name" in
      if eq_str n name then Ok (Some c) else first_named name cs'
  end.

(** [a + b] of two lists, or two strings that are iterated. *)
Definition concat_vals (a b : val) : res (list val) :=
  match a, b with
  | VList l, VList k => Ok (l ++ k)
  | VStr s, VStr t => Ok (chars (s +:+ t))
  | _, _ => Raise TypeError
  end.

Lemma filter_res_elem {A} (f : A → res bool) l k :
  filter_res f l = Ok k → ∀ x, x ∈ k ↔ x ∈ l ∧ f x = Ok true.
Proof.
  revert k. induction l as [|y l IH]; intros k H x; cbn [filter_res] in H.
  - injection H as <-. split; [by intros ?%elem_of_nil|by intros [?%elem_of_nil _]].
  - apply bind_Ok in H as (b & Hb & H). apply bind_Ok in H as (k' & Hk & H). injection H as <-.
    specialize (IH k' Hk x). rewrite elem_of_cons. destruct b; [rewrite elem_of_cons|]; rewrite IH.
    + split; [intros [->|[? ?]]; auto|intros [[->|?] ?]; auto].
    + split; [intros [? ?]; auto|intros [[->|?] Hf]; [congruence|auto]].
Qed.

Lemma any_res_false {A} (f : A → res bool) l :
  any_res f l = Ok false → ∀ x, x ∈ l → f x = Ok false.
Proof.
  induction l as [|y l IH]; intros H x Hx; cbn [any_res] in H; [by apply elem_of_nil in Hx|].
  apply bind_Ok in H as ([] & Hb & H); [done|].
  apply elem_of_cons in Hx as [->|Hx]; [done|]. by apply IH.
Qed.

Lemma any_res_true {A} (f : A → res bool) l :
  any_res f l = Ok true → ∃ x, x ∈ l ∧ f x = Ok true.
Proof.
  induction l as [|y l IH]; intros H; cbn [any_res] in H; [done|].
  apply bind_Ok in H as ([] & Hb & H).
  - exists y. split; [left|done].
  - destruct (IH H) as (x & Hx & Hf). exists x. split; [by right|done].
Qed.
