(* ===== verification/PyAst.v ===== *)
(** * Python syntax trees, as the ast module builds them

    Some gates parse Python text and walk the tree. Parsing is the ast module's, a parameter of
    those gates; the tree and [ast.walk] are here. A constructor keeps what the gates read of its
    class; the operators of a comparison apart, nodes that have no part (contexts, operators) are
    left out of the children, since no gate asks for one. *)
From S2P Require Import Prelude PyStr PyVal.
From stdpp Require Import relations.
#[local] Open Scope string_scope.
#[local] Open Scope list_scope.

(** The value of a Constant; bytes, an ellipsis and complex numbers are [COther], with whether it
    equals 0. *)
Inductive const := CVal (v : val) | COther (zero : bool).

Inductive cmpop := OpLt | OpLtE | OpOther.

Inductive node :=
  | Call (func : node) (args : list node) (keywords : list node)
  | Attribute (value : node) (attr : string)
  | Name (id : string)
  | Constant (value : const)
  | Tuple (elts : list node)
  | Compare (left : node) (ops : list cmpop) (comparators : list node)
  | ExprStmt (value : node)
  | RaiseStmt (parts : list node)
  | IfStmt (test : node) (body : list node) (orelse : list node)
  | TryStmt (body : list node) (handlers : list node) (orelse : list node) (finalbody : list node)
  | ExceptHandler (type : option node) (body : list node) (lineno : Z)
  | ImportStmt (names : list node)
  | ImportFrom (names : list node)
  | FunctionDef (name : string) (signature : list node) (body : list node)
  | ModuleTree (body : list node)
  | Other (parts : list node).

(** [ast.iter_child_nodes(n)] *)
Definition children (n : node) : list node :=
  match n with
  | Call f args kws => f :: args ++ kws
  | Attribute v _ => [v]
  | Name _ | Constant _ => []
  | Tuple es => es
  | Compare l _ cs => l :: cs
  | ExprStmt v => [v]
  | IfStmt t b o => t :: b ++ o
  | TryStmt b h o f => b ++ h ++ o ++ f
  | ExceptHandler t b _ => option_list t ++ b
  | FunctionDef _ s b => s ++ b
  | RaiseStmt ps | ImportStmt ps | ImportFrom ps | ModuleTree ps | Other ps => ps
  end.

Fixpoint node_size (n : node) : nat :=
  S match n with
    | Call f args kws => node_size f + (sum_list_with node_size args + sum_list_with node_size kws)
    | Attribute v _ => node_size v
    | Name _ | Constant _ => 0
    | Tuple es => sum_list_with node_size es
    | Compare l _ cs => node_size l + sum_list_with node_size cs
    | ExprStmt v => node_size v
    | IfStmt t b o => node_size t + (sum_list_with node_size b + sum_list_with node_size o)
    | TryStmt b h o f =>
        sum_list_with node_size b + (sum_list_with node_size h + (sum_list_with node_size o + sum_list_with node_size f))
    | ExceptHandler t b _ => match t with Some t => node_size t | None => 0 end + sum_list_with node_size b
    | FunctionDef _ s b => sum_list_with node_size s + sum_list_with node_size b
    | RaiseStmt ps | ImportStmt ps | ImportFrom ps | ModuleTree ps | Other ps => sum_list_with node_size ps
    end.

(** [ast.walk]: the children of each node join the end of the queue. *)
Fixpoint walk_queue (fuel : nat) (todo : list node) : list node :=
  match fuel, todo with
  | S fuel, n :: todo => n :: walk_queue fuel (todo ++ children n)
  | _, _ => []
  end.
Definition walk (n : node) : list node := walk_queue (node_size n) [n].

(** [getattr(n, "attr", None) == s or getattr(n, "id", None) == s] *)
Definition attr_of (n : node) : option string := match n with Attribute _ a => Some a | _ => None end.
Definition id_of (n : node) : option string := match n with Name i => Some i | _ => None end.
Definition called (s : string) (func : node) : bool :=
  bool_decide (attr_of func = Some s) || bool_decide (id_of func = Some s).

Definition is_call_of (s : string) (n : node) : bool :=
  match n with Call f _ _ => called s f | _ => false end.

(** ** What a walk visits *)

Definition child (n m : node) : Prop := m ∈ children n.
(** [m] is [n] or below it. *)
Notation within := (rtc child).

Lemma size_children n : node_size n = S (sum_list_with node_size (children n)).
Proof.
  destruct n; cbn [node_size children sum_list_with]; rewrite ?sum_list_with_app; try lia.
  destruct type; cbn; lia.
Qed.

Lemma walk_queue_elem fuel : ∀ todo, (sum_list_with node_size todo ≤ fuel)%nat →
  ∀ m, m ∈ walk_queue fuel todo ↔ ∃ n, n ∈ todo ∧ within n m.
Proof.
  induction fuel as [|fuel IH]; intros [|n todo] Hf m; cbn [walk_queue].
  - split; [by intros ?%elem_of_nil|by intros (? & ?%elem_of_nil & _)].
  - cbn [sum_list_with] in Hf. rewrite size_children in Hf. lia.
  - split; [by intros ?%elem_of_nil|by intros (? & ?%elem_of_nil & _)].
  - cbn [sum_list_with] in Hf. rewrite size_children in Hf.
    rewrite elem_of_cons, IH by (rewrite sum_list_with_app; lia). setoid_rewrite elem_of_app.
    setoid_rewrite elem_of_cons. split.
    + intros [->|(k & [Hk|Hk] & Hm)].
      * exists n. split; [by left|constructor].
      * exists k. auto.
      * exists n. split; [by left|]. by eapply rtc_l.
    + intros (k & [->|Hk] & Hm); [|right; eauto].
      inversion Hm as [|? y ? Hy Hym]; subst; [by left|]. right. exists y. split; [by right|done].
Qed.

(** A walk visits the node and everything below it. *)
Lemma walk_elem n m : m ∈ walk n ↔ within n m.
Proof.
  unfold walk. rewrite walk_queue_elem by (cbn [sum_list_with]; lia). split.
  - by intros (k & ->%list_elem_of_singleton & H).
  - intros H. exists n. split; [by apply list_elem_of_singleton|done].
Qed.

Lemma existsb_walk (p : node → bool) n :
  existsb p (walk n) = true ↔ ∃ m, within n m ∧ p m = true.
Proof.
  rewrite existsb_exists. setoid_rewrite <- list_elem_of_In. by setoid_rewrite walk_elem.
Qed.
