(* ===== verification/Glance.v ===== *)
(** * hack/validate-glance-readiness.py: readiness needs a writable store with room, restarts do not

    The gate stops at its first problem. The chart's parsed values and its rendering are the input,
    and the syntax tree of a Python text is a parameter. *)
From S2P Require Import Prelude PyStr PyVal Json PyAst Gate Manifests.
#[local] Open Scope string_scope.
#[local] Open Scope list_scope.

Module Glance.

(** What ends a run: status 2 for the first three, status 1 for the others. *)
Inductive problem :=
  | NoChart
  | ValuesDeclareNothing
  | NothingRendered
  | HelmFailed (err : string)
  | NoDeployment
  | NoContainer
  | NoReadiness
  | StoreUnchecked
  | HealthUnchecked
  | ScriptSyntax
  | Unmeasured (needle : string)
  | RestartOnStore (kind : string)
  | NothingChowns (inits : list val).

Notation G := (gate problem Empty_set).
Definition fail {A} (p : problem) : G A := measurement_failed p.

Definition status {A} (v : verdict problem Empty_set A) : Z :=
  match v with
  | Passed _ => 0
  | NotMeasured NoChart | NotMeasured ValuesDeclareNothing | NotMeasured NothingRendered => 2
  | _ => 1
  end.

(** ** What the chart declares *)

(** [((values.get(a) or {}).get(b) or {}).get(c, {}).get(d)] *)
Definition declared (values : val) (a b c d : string) : res val :=
  let* v := get_dict values a in
  let* v := get_dict v b in
  let* v := get_default v c (VDict []) in get v d.

Definition health_of (values : val) : res val :=
  declared values "endpoints" "image" "path" "healthcheck".
Definition store_of (values : val) : res val :=
  declared values "conf" "glance" "file" "filesystem_store_datadir".

(** [needle in text]: only a string is looked for in a string. *)
Definition mentioned (needle : val) (text : string) : res bool :=
  let* s := as_str needle in Ok (contains s text).

(** ** The readiness script, by its syntax tree *)

(** [probe_src[-1] if probe_src else ""] *)
Definition last_of (command : val) : res val :=
  if negb (truthy command) then Ok (VStr "") else
  match command with
  | VList l => match last l with Some v => Ok v | None => Raise IndexError end
  | VStr s => match last (chars s) with Some v => Ok v | None => Raise IndexError end
  | _ => Raise TypeError
  end.

Definition probe_src (ro : val) : res val :=
  let* e := get_dict ro "exec" in
  let* c := get e "command" in last_of (or_ c (VList [])).

Definition calls_statvfs (tree : node) : bool := existsb (is_call_of "statvfs") (walk tree).
Definition reads_bavail (tree : node) : bool :=
  existsb (λ n, match n with Attribute _ a => String.eqb a "f_bavail" | _ => false end) (walk tree).

Definition is_less (o : cmpop) : bool := match o with OpLt | OpLtE => true | OpOther => false end.

(** An If on a comparison with [<] or [<=], with a call of exit somewhere in it. *)
Definition guard (n : node) : bool :=
  match n with
  | IfStmt (Compare _ ops _) _ _ => existsb is_less ops && existsb (is_call_of "exit") (walk n)
  | _ => false
  end.
Definition guards_exit (tree : node) : bool := existsb guard (walk tree).

(** ** The gate *)

Section Parse.
  (** [ast.parse]: [None] for a SyntaxError. *)
  Context (ast_parse : string → option node).

Definition check_script (ro : val) : G unit :=
    let* src := lift (probe_src ro) in
    let* src := lift (as_str src) in
    match ast_parse src with
    | None => fail ScriptSyntax
    | Some tree =>
        let* _ := require (calls_statvfs tree) (Unmeasured "a call to os.statvfs") in
        let* _ := require (reads_bavail tree) (Unmeasured "a read of f_bavail") in
        require (guards_exit tree) (Unmeasured "a `< floor` comparison that exits")
    end.

Definition check_readiness (store health c : val) : G unit :=
    let* ro := lift (get c "readinessProbe") in
    let* _ := require (truthy ro) NoReadiness in
    let* st := lift (mentioned store (json_dumps ro)) in
    let* _ := require st StoreUnchecked in
    let* he := lift (mentioned health (json_dumps ro)) in
    let* _ := require he HealthUnchecked in
    check_script ro.

(** [probe and ("statvfs" in text or store_dir in text)] *)
Definition on_store (store probe : val) : res bool :=
    if negb (truthy probe) then Ok false else
    if contains "statvfs" (json_dumps probe) then Ok true else mentioned store (json_dumps probe).

Definition check_restart (store c : val) (kind : string) : G unit :=
    let* probe := lift (get c kind) in
    let* b := lift (on_store store probe) in
    require (negb b) (RestartOnStore kind).

(** [command[:1] == ["chown"] and store_dir in command] *)
Definition chowns (store ic : val) : res bool :=
    let* c := get ic "command" in
    match or_ c (VList []) with
    | VList l => Ok (py_eq (VList (take 1 l)) (VList [VStr "chown"]) && py_in store l)
    | VStr _ => Ok false
    | _ => Raise TypeError
    end.

Definition check_inits (store pod : val) : G val :=
    let* inits := lift (get_iter pod "initContainers") in
    let* perms := lift (filter_res (chowns store) inits) in
    match perms with
    | [] => let* names := lift (mapM (λ ic, get ic "name") inits) in fail (NothingChowns names)
    | ic :: _ => lift (get ic "name")
    end.

(** [c["name"] == "glance-api"] *)
Definition is_api (c : val) : res bool := let* n := getitem c "name" in Ok (eq_str n "glance-api").

(** The name of the init container that restores the ownership. *)
Definition main (values : option val) (rendered : list val + string) : G val :=
    match values with
    | None => fail NoChart
    | Some values =>
        let* store := lift (store_of values) in
        let* health := lift (health_of values) in
        let* _ := require (truthy store && truthy health) ValuesDeclareNothing in
        match rendered with
        | inr err => fail (HelmFailed err)
        | inl all =>
            let docs := List.filter truthy all in
            let* _ := require (negb (Nat.eqb (length docs) 0)) NothingRendered in
            let* deploys := lift (filter_res (is_named "Deployment" "glance-api") docs) in
            match deploys with
            | [] => fail NoDeployment
            | d :: _ =>
                let* pod := lift (getpath d ["spec"; "template"; "spec"]) in
                let* cs := lift (getitem pod "containers") in
                let* cs := lift (py_iter cs) in
                let* api := lift (filter_res is_api cs) in
                match api with
                | [] => fail NoContainer
                | c :: _ =>
                    let* _ := check_readiness store health c in
                    let* _ := for_ ["livenessProbe"; "startupProbe"] (check_restart store c) in
                    check_inits store pod
                end
            end
        end
    end.
End Parse.

(** ** What a passing run has established *)

(** The script calls statvfs, reads f_bavail, and has an If on a less-than comparison within which
    something calls exit. *)
Definition measures (tree : node) : Prop :=
  (∃ f args kws, within tree (Call f args kws) ∧ called "statvfs" f = true) ∧
  (∃ v, within tree (Attribute v "f_bavail")) ∧
  ∃ l ops cs body orelse f args kws,
    let n := IfStmt (Compare l ops cs) body orelse in
    within tree n ∧ (∃ o, o ∈ ops ∧ is_less o = true) ∧
    within n (Call f args kws) ∧ called "exit" f = true.

Definition ready_on_store (ast_parse : string → option node) (store health : string) (c : val) : Prop :=
  ∃ ro src tree, get c "readinessProbe" = Ok ro ∧ truthy ro = true ∧
    contains store (json_dumps ro) = true ∧ contains health (json_dumps ro) = true ∧
    probe_src ro = Ok (VStr src) ∧ ast_parse src = Some tree ∧ measures tree.

Definition never_restarts_on_store (store : string) (c : val) : Prop :=
  ∀ kind, kind ∈ ["livenessProbe"; "startupProbe"] →
    ∃ probe, get c kind = Ok probe ∧
      (truthy probe = true → contains "statvfs" (json_dumps probe) = false ∧
                             contains store (json_dumps probe) = false).

Lemma is_call_walk s tree :
  existsb (is_call_of s) (walk tree) = true ↔
  ∃ f args kws, within tree (Call f args kws) ∧ called s f = true.
Proof.
  rewrite existsb_walk. split.
  - intros (m & Hm & Hc). destruct m; try done. by eexists _, _, _.
  - intros (f & args & kws & Hw & Hc). by exists (Call f args kws).
Qed.

Lemma measures_spec tree :
  calls_statvfs tree = true ∧ reads_bavail tree = true ∧ guards_exit tree = true ↔ measures tree.
Proof.
  unfold calls_statvfs, reads_bavail, guards_exit, measures. rewrite is_call_walk, !existsb_walk.
  apply and_iff_compat_l, ZifyClasses.and_morph; split.
  - intros (m & Hm & Ha). destruct m; try done. apply String.eqb_eq in Ha as ->. eauto.
  - intros (v & Hv). by exists (Attribute v "f_bavail").
  - intros (m & Hm & Hg). destruct m as [| | | | | | | |test body orelse| | | | | | |]; try done.
    destruct test as [| | | | |l ops cs| | | | | | | | | |]; try done. cbn [guard] in Hg. apply andb_prop in Hg as [Ho Hc].
    apply is_call_walk in Hc as (f & args & kws & Hw & Hc). apply existsb_exists in Ho as (o & Ho & Hl).
    apply list_elem_of_In in Ho. exists l, ops, cs, body, orelse, f, args, kws. eauto 10.
  - intros (l & ops & cs & body & orelse & f & args & kws & Hw & (o & Ho & Hl) & Hc & Hf).
    eexists. split; [exact Hw|]. cbn [guard]. apply andb_true_intro. split.
    + apply existsb_exists. exists o. by rewrite <- list_elem_of_In.
    + apply is_call_walk. eauto.
Qed.

Lemma mentioned_Ok v text b : mentioned v text = Ok b ↔ ∃ s, v = VStr s ∧ b = contains s text.
Proof. destruct v; cbn; naive_solver. Qed.

Section Passed.
  Context (ast_parse : string → option node).

Lemma glance_script_clean ro u :
  check_script ast_parse ro = Done [] u ↔
  ∃ src tree, probe_src ro = Ok (VStr src) ∧ ast_parse src = Some tree ∧ measures tree.
Proof.
  unfold check_script. rewrite lift_bind_Done. setoid_rewrite lift_bind_Done. split.
  - intros (v & Hv & src & Hs & H). destruct v; try done. injection Hs as ->. exists src.
    destruct (ast_parse src) as [tree|] eqn:E; [|done]. exists tree. do 2 (split; [done|]).
    apply bind_clean in H as ([] & H1 & H). apply bind_clean in H as ([] & H2 & H).
    apply measures_spec. by rewrite !require_clean in *.
  - intros (src & tree & Hv & Ht & (H1 & H2 & H3)%measures_spec). exists (VStr src). split; [done|].
    exists src. split; [done|]. rewrite Ht, H1, H2, H3. by destruct u.
Qed.

Lemma glance_readiness_clean store health c :
  check_readiness ast_parse store health c = Done [] () →
  ∃ s h, store = VStr s ∧ health = VStr h ∧ ready_on_store ast_parse s h c.
Proof.
  unfold check_readiness. intros H. apply lift_bind_Done in H as (ro & Hro & H).
  apply bind_clean in H as ([] & H1 & H). apply lift_bind_Done in H as (st & Hst & H).
  apply bind_clean in H as ([] & H2 & H). apply lift_bind_Done in H as (he & Hhe & H).
  apply bind_clean in H as ([] & H3 & H). apply require_clean in H1, H2, H3.
  apply mentioned_Ok in Hst as (s & -> & ->). apply mentioned_Ok in Hhe as (h & -> & ->).
  apply glance_script_clean in H as (src & tree & Hs & Ht & Hm). exists s, h.
  do 2 (split; [done|]). exists ro, src, tree. eauto 10.
Qed.

Lemma check_restart_clean s c kind :
  check_restart (VStr s) c kind = Done [] () →
  ∃ probe, get c kind = Ok probe ∧
    (truthy probe = true → contains "statvfs" (json_dumps probe) = false ∧
                           contains s (json_dumps probe) = false).
Proof.
  unfold check_restart. intros H. apply lift_bind_Done in H as (probe & Hp & H).
  apply lift_bind_Done in H as (b & Hb & H). apply require_clean, negb_true_iff in H as ->.
  exists probe. split; [done|]. intros Ht. unfold on_store in Hb. rewrite Ht in Hb. cbn [negb] in Hb.
  destruct (contains "statvfs" _); [done|]. split; [done|].
  apply mentioned_Ok in Hb as (s' & [= <-] & Hb). done.
Qed.

Lemma check_inits_clean store pod name :
  check_inits store pod = Done [] name →
  ∃ inits ic, get_iter pod "initContainers" = Ok inits ∧ ic ∈ inits ∧ chowns store ic = Ok true ∧
    get ic "name" = Ok name.
Proof.
  unfold check_inits. intros H. apply lift_bind_Done in H as (inits & Hin & H).
  apply lift_bind_Done in H as ([|ic perms] & Hp & H); [by apply lift_bind_Done in H as (? & _ & ?)|].
  apply lift_Done in H as [H _].
  destruct (proj1 (filter_res_elem _ _ _ Hp ic) ltac:(left)) as [Hic Hc]. eauto 10.
Qed.

(** A gate that passes has read the store and the health path from the chart's values, and has
    found a glance-api container whose readiness names both and runs a script that calls statvfs,
    reads f_bavail and calls exit under a less-than comparison; whose liveness and startup probes
    neither name the store nor call for statvfs; and an init container that chowns the store. *)
Theorem glance_passed values rendered name :
  main ast_parse (Some values) (inl rendered) = Done [] name →
  ∃ store health d pod cs c inits ic,
    store_of values = Ok (VStr store) ∧ store ≠ "" ∧
    health_of values = Ok (VStr health) ∧ health ≠ "" ∧
    d ∈ rendered ∧ is_named "Deployment" "glance-api" d = Ok true ∧
    getpath d ["spec"; "template"; "spec"] = Ok pod ∧
    (let* v := getitem pod "containers" in py_iter v) = Ok cs ∧ c ∈ cs ∧ is_api c = Ok true ∧
    ready_on_store ast_parse store health c ∧ never_restarts_on_store store c ∧
    get_iter pod "initContainers" = Ok inits ∧ ic ∈ inits ∧ chowns (VStr store) ic = Ok true ∧
    get ic "name" = Ok name.
Proof.
  unfold main. intros H. apply lift_bind_Done in H as (st & Hst & H).
  apply lift_bind_Done in H as (he & Hhe & H). apply bind_clean in H as ([] & Ht & H).
  apply require_clean, andb_prop in Ht as [Hs1 Hh1]. apply bind_clean in H as ([] & _ & H).
  apply lift_bind_Done in H as ([|d ds] & Hds & H); [done|].
  apply lift_bind_Done in H as (pod & Hpod & H). apply lift_bind_Done in H as (csv & Hcs & H).
  apply lift_bind_Done in H as (cs & Hit & H). apply lift_bind_Done in H as ([|c api] & Hapi & H); [done|].
  apply bind_clean in H as ([] & Hr & H). apply bind_clean in H as ([] & Hl & H). rewrite for_clean in Hl.
  apply glance_readiness_clean in Hr as (s & h & -> & -> & Hr).
  apply check_inits_clean in H as (inits & ic & Hin & Hic & Hc & Hn).
  destruct (proj1 (filter_res_elem _ _ _ Hds d) ltac:(left)) as [Hd Hnm].
  destruct (proj1 (filter_res_elem _ _ _ Hapi c) ltac:(left)) as [Hcin Hca].
  apply list_elem_of_In, filter_In in Hd as [Hd%list_elem_of_In _].
  assert (Hnr : never_restarts_on_store s c) by (intros kind Hk; by apply check_restart_clean, Hl).
  exists s, h, d, pod, cs, c, inits, ic.
  repeat (split; [first [done | by intros -> | rewrite Hcs; exact Hit]|]). done.
Qed.
End Passed.

(** ** A chart *)

Definition sample_values : val :=
  VDict [("conf", VDict [("glance", VDict [("file", VDict [("filesystem_store_datadir", VStr "/var/lib/glance/images")])])]);
         ("endpoints", VDict [("image", VDict [("path", VDict [("healthcheck", VStr "/healthcheck")])])])].
Definition sample_exec (script : string) : val :=
  VDict [("exec", VDict [("command", VList [VStr "python3"; VStr "-c"; VStr script])])].
Definition sample_docs (script liveness : string) (inits : list val) : list val :=
  [VNone; VDict [("kind", VStr "Deployment"); ("metadata", VDict [("name", VStr "glance-api")]);
     ("spec", VDict [("template", VDict [("spec", VDict [
        ("initContainers", VList inits);
        ("containers", VList [VDict [("name", VStr "glance-api");
           ("readinessProbe", sample_exec script);
           ("livenessProbe", VDict [("httpGet", VDict [("path", VStr liveness)])])]])])])])]].
Definition perms : val :=
  VDict [("name", VStr "glance-perms");
         ("command", VList [VStr "chown"; VStr "-R"; VStr "glance:"; VStr "/var/lib/glance/images"])].

(** A script, and one that only says what it would do. *)
Definition good_script : string :=
  "get('/healthcheck'); s = os.statvfs('/var/lib/glance/images')
if s.f_bavail < floor: sys.exit(1)".
Definition comment_script : string :=
  "get('/healthcheck')  # os.statvfs('/var/lib/glance/images').f_bavail < floor: sys.exit(1)".

(** What ast.parse gives for the two. *)
Definition call_of (f : node) (args : list node) : node := Call f args [].
Definition get_health : node := ExprStmt (call_of (Name "get") [Constant (CVal (VStr "/healthcheck"))]).
Definition sample_parse (s : string) : option node :=
  if String.eqb s good_script then Some (ModuleTree [get_health;
    Other [Name "s"; call_of (Attribute (Name "os") "statvfs") [Constant (CVal (VStr "/var/lib/glance/images"))]];
    IfStmt (Compare (Attribute (Name "s") "f_bavail") [OpLt] [Name "floor"])
      [ExprStmt (call_of (Attribute (Name "sys") "exit") [Constant (CVal (VInt 1))])] []])
  else if String.eqb s comment_script then Some (ModuleTree [get_health])
  else None.

Lemma glance_passed_witness :
  main sample_parse (Some sample_values) (inl (sample_docs good_script "/healthcheck" [perms])) =
    Done [] (VStr "glance-perms") ∧
  main sample_parse (Some sample_values) (inl (sample_docs comment_script "/healthcheck" [perms])) =
    fail (Unmeasured "a call to os.statvfs") ∧
  main sample_parse (Some sample_values) (inl (sample_docs good_script "/var/lib/glance/images" [perms])) =
    fail (RestartOnStore "livenessProbe") ∧
  main sample_parse (Some sample_values) (inl (sample_docs good_script "/healthcheck" [])) =
    fail (NothingChowns []) ∧
  ∃ store c, c ∈ [VDict [("name", VStr "glance-api"); ("readinessProbe", sample_exec good_script);
                    ("livenessProbe", VDict [("httpGet", VDict [("path", VStr "/healthcheck")])])]] ∧
    never_restarts_on_store store c.
Proof.
  split; [vm_compute; reflexivity|]. split; [vm_compute; reflexivity|].
  split; [vm_compute; reflexivity|]. split; [vm_compute; reflexivity|].
  destruct (glance_passed sample_parse sample_values (sample_docs good_script "/healthcheck" [perms])
    (VStr "glance-perms") ltac:(vm_compute; reflexivity))
    as (store & health & d & pod & cs & c & inits & ic & _ & _ & _ & _ & Hd & Hn & Hp & Hcs & Hc & _ & _ & Hr & _).
  exists store, c. split; [|exact Hr].
  apply elem_of_cons in Hd as [->|Hd]; [discriminate|]. apply elem_of_cons in Hd as [->|Hd]; [|by apply elem_of_nil in Hd].
  injection Hp as <-. injection Hcs as <-. exact Hc.
Defined.

(** Where the call of exit stands within the If is not asked: one in its else branch is enough. *)
Example exit_in_else :
  guards_exit (ModuleTree [IfStmt (Compare (Name "free") [OpLt] [Name "floor"])
    [Other []] [ExprStmt (call_of (Name "exit") [Constant (CVal (VInt 0))])]]) = true.
Proof. reflexivity. Qed.
End Glance.
