(* ===== verification/GateAudit.v ===== *)
(** * hack/validate-gates-cannot-skip.py: a gate whose parser is missing exits with a status

    Every handler of a failed import in a gate must end the process with a non-zero status. The
    gate decides it on the statements of the handler; here it is compared with what these
    statements do. The files of hack/ with their texts are the input, and the syntax tree of a text
    is a parameter. *)
From S2P Require Import Prelude PyStr PyVal PyEq PyAst Gate.
#[local] Open Scope string_scope.
#[local] Open Scope list_scope.

Module GateAudit.

Inductive stopped := NoHack | NoGates | NoHandlers.
Inductive problem := DoesNotParse (g : string) | CanSkip (g : string) (lineno : Z).
Notation G := (gate stopped problem).

(** ** The handlers of a failed import *)

Definition CATCHES : list string := ["ImportError"; "ModuleNotFoundError"; "Exception"].

Definition handles_importerror (type : option node) : bool :=
  match type with
  | None => true
  | Some t =>
      let names := match t with
                   | Name i => [i]
                   | Tuple es => omap id_of es
                   | _ => []
                   end in
      existsb (λ n, bool_decide (n ∈ CATCHES)) names
  end.

(** ** Does a body certainly exit? *)

Definition exits_nonzero_call (n : node) (terminators : list string) : bool :=
  match n with ExprStmt (Call (Name f) _ _) => bool_decide (f ∈ terminators) | _ => false end.

(** [getattr(f, "attr", None) or getattr(f, "id", None)] *)
Definition func_name (f : node) : option string :=
  match attr_of f with
  | Some a => if String.eqb a "" then id_of f else Some a
  | None => id_of f
  end.

(** The argument of exit: a string that is not empty, or a constant that is neither 0 nor None; a
    computed one is taken to be meant. *)
Definition exit_argument (args : list node) : bool :=
  match args with
  | [] => false
  | Constant (CVal (VStr s)) :: _ => negb (String.eqb s "")
  | Constant (CVal v) :: _ => negb (py_eq v (VInt 0) || py_eq v VNone)
  | Constant (COther zero) :: _ => negb zero
  | _ => true
  end.

Definition is_exit (n : node) : option (list node) :=
  match n with
  | ExprStmt (Call f args _) => if bool_decide (func_name f = Some "exit") then Some args else None
  | _ => None
  end.
Definition is_raise (n : node) : bool := match n with RaiseStmt _ => true | _ => false end.

Fixpoint terminates_nonzero (body : list node) (terminators : list string) : bool :=
  match body with
  | [] => false
  | n :: body' =>
      if exits_nonzero_call n terminators then true
      else if is_raise n then true
      else match is_exit n with
           | Some args => exit_argument args
           | None => terminates_nonzero body' terminators
           end
  end.

(** ** The gate *)

Definition is_gate (f : string) : bool := startswith "validate-" f && endswith ".py" f.

Definition tree_body (tree : node) : list node := match tree with ModuleTree b => b | _ => [] end.

(** The module's functions with their bodies. *)
Definition functions (tree : node) : list (string * list node) :=
  omap (λ n, match n with FunctionDef f _ b => Some (f, b) | _ => None end) (tree_body tree).
Definition terminators (tree : node) : list string :=
  map fst (List.filter (λ fb, terminates_nonzero fb.2 []) (functions tree)).

Definition is_import (n : node) : bool :=
  match n with ImportStmt _ | ImportFrom _ => true | _ => false end.

(** The handlers of a failed import at a node: the bodies and their lines. *)
Definition guards_at (n : node) : list (list node * Z) :=
  match n with
  | TryStmt body handlers _ _ =>
      if existsb is_import body
      then omap (λ h, match h with
                      | ExceptHandler t b l => if handles_importerror t then Some (b, l) else None
                      | _ => None
                      end) handlers
      else []
  | _ => []
  end.
Definition guards (tree : node) : list (list node * Z) := concat (map guards_at (walk tree)).

Section Audit.
  Context (ast_parse : string → option node).

Definition check_gate (count : nat) (g : string * string) : G nat :=
    match ast_parse g.2 with
    | None => let* _ := fail (DoesNotParse g.1) in mret count
    | Some tree =>
        let* _ := for_ (guards tree) (λ h,
          check (terminates_nonzero h.1 (terminators tree)) (CanSkip g.1 h.2)) in
        mret (count + length (guards tree))%nat
    end.

Definition name_leb (a b : string * string) : bool := str_leb a.1 b.1.

(** The handlers and the gates that were inspected. *)
Definition main (hack : option (list (string * string))) : G (nat * nat) :=
    match hack with
    | None => measurement_failed NoHack
    | Some files =>
        let gates := isort name_leb (List.filter (λ f, is_gate f.1) files) in
        let* _ := require (negb (Nat.eqb (length gates) 0)) NoGates in
        let* handlers := fold_ check_gate 0%nat gates in
        let* _ := require (negb (Nat.eqb handlers 0)) NoHandlers in
        mret (handlers, length gates)
    end.
End Audit.

(** Every way to stop is a failure, a measurement failure included. *)
Definition status {A} (v : verdict stopped problem A) : Z := match v with Passed _ => 0 | _ => 1 end.

(** ** What the statements of a body do *)

(** A body ends by falling through, by an exception that is not SystemExit, or by an exit. *)
Inductive outcome := Falls | Raises | Exits (status : Z).

Definition ends_nonzero (o : outcome) : Prop :=
  match o with Falls => False | Raises => True | Exits z => z ≠ 0%Z end.

(** What an expression that is called or raised stands for when the module runs: a function of the
    module with its body, a function that ends the process with its argument (sys.exit, exit,
    quit), one that only returns or raises (print), SystemExit, another exception class; or
    anything. *)
Inductive meaning := Runs (body : list node) | ExitFunction | Returns | ExitClass | ErrorClass | Anything.

(** The exit status of [sys.exit(value)] on POSIX: an integer's low byte, 0 for None, 1 for
    anything else. *)
Definition const_status (c : const) : Z :=
  match c with
  | CVal VNone => 0
  | CVal (VBool b) => Z.b2z b
  | CVal (VInt z) => z mod 256
  | _ => 1
  end.

(** An exit has the status of its argument, any if that is computed or named. *)
Definition may_exit (args keywords : list node) (z : Z) : Prop :=
  match args, keywords with
  | [], [] => z = 0%Z
  | Constant c :: _, [] => z = const_status c
  | _, _ => True
  end.

(** What a statement does: [Unknown] is one that may do anything. *)
Inductive action := Exit (args keywords : list node) | Raise_ | Run (body : list node) | Return_ | Unknown.

Section Exec.
  (** What expressions mean in the module, and which ones are values: evaluating these may raise,
      and does not end the process. *)
  Context (means : node → meaning) (safe : node → bool).

Definition call_action (f : node) (args keywords : list node) : action :=
    if forallb safe (args ++ keywords) then
      match means f with
      | Runs b => Run b | ExitFunction => Exit args keywords | Returns => Return_ | _ => Unknown
      end
    else Unknown.

(** The class that is raised with its arguments, and the cause. *)
Definition raise_action (class : node) (args keywords cause : list node) : action :=
    if forallb safe (args ++ keywords ++ cause) then
      match means class with ExitClass => Exit args keywords | ErrorClass => Raise_ | _ => Unknown end
    else Unknown.

(** A [raise] alone raises the failed import again. *)
Definition action_of (n : node) : action :=
    match n with
    | ExprStmt (Call f args keywords) => call_action f args keywords
    | RaiseStmt [] => Raise_
    | RaiseStmt (Call c args keywords :: cause) => raise_action c args keywords cause
    | RaiseStmt (c :: cause) => raise_action c [] [] cause
    | _ => Unknown
    end.

Inductive exec : list node → outcome → Prop :=
    | exec_nil : exec [] Falls
    | exec_stop n body o : stmt n o → o ≠ Falls → exec (n :: body) o
    | exec_next n body o : stmt n Falls → exec body o → exec (n :: body) o
  with stmt : node → outcome → Prop :=
    | stmt_raises n : stmt n Raises
    | stmt_exits n args keywords z :
        action_of n = Exit args keywords → may_exit args keywords z → stmt n (Exits z)
    | stmt_returns n : action_of n = Return_ → stmt n Falls
    | stmt_runs n body o : action_of n = Run body → exec body o → stmt n o
    | stmt_unknown n o : action_of n = Unknown → stmt n o.
End Exec.
Scheme exec_ind2 := Minimality for exec Sort Prop
  with stmt_ind2 := Minimality for stmt Sort Prop.
Combined Scheme exec_stmt_ind from exec_ind2, stmt_ind2.

(** ** Where the verdict is right *)

(** An exit whose argument is a constant, the low byte of which says what it says. *)
Definition literal_exit (args keywords : list node) : bool :=
  match args, keywords with
  | Constant (CVal (VInt z)) :: _, [] => (z =? 0)%Z || negb (z mod 256 =? 0)%Z
  | Constant _ :: _, [] | [], [] => true
  | _, _ => false
  end.

Section Simple.
  Context (means : node → meaning) (safe : node → bool).

  (** A statement that does what its text shows: what is called exit is an exit and nothing else is,
      what is called of the module is known to exit, and what is raised is an exception that is not
      SystemExit, or is that with a status. *)
Definition simple (terminators : list string) (n : node) : bool :=
    match action_of means safe n, n with
    | Exit args keywords, ExprStmt _ =>
        match is_exit n with Some _ => literal_exit args keywords | None => false end
    | Return_, ExprStmt _ =>
        negb (exits_nonzero_call n terminators) && match is_exit n with None => true | Some _ => false end
    | Run _, ExprStmt _ =>
        exits_nonzero_call n terminators && match is_exit n with None => true | Some _ => false end
    | Raise_, RaiseStmt _ => true
    | Exit args keywords, RaiseStmt _ => exit_argument args && literal_exit args keywords
    | _, _ => false
    end.

(** A module in which each function has one definition and keeps it, and those that exit are made of
    such statements. *)
Record plain_module (tree : node) : Prop := {
    pm_once : NoDup (functions tree).*1;
    pm_means : ∀ f b, assoc f (functions tree) = Some b → means (Name f) = Runs b;
    pm_simple : ∀ f b, (f, b) ∈ functions tree → terminates_nonzero b [] = true →
      forallb (simple []) b = true;
  }.

Lemma exit_nonzero args keywords z :
  exit_argument args = true → literal_exit args keywords = true → may_exit args keywords z → z ≠ 0%Z.
Proof.
  destruct args as [|a args]; [done|]. destruct a as [| | |c| | | | | | | | | | | |]; try done.
  destruct keywords; [|by intros _; cbn; destruct c as [[]|]]. cbn [exit_argument literal_exit may_exit].
  destruct c as [[| [] | i | | | | ]|]; intros He Hl ->; cbn in *; try lia; try done.
Qed.

Lemma terminator_body tree f :
  NoDup (functions tree).*1 → f ∈ terminators tree →
  ∃ b, assoc f (functions tree) = Some b ∧ (f, b) ∈ functions tree ∧ terminates_nonzero b [] = true.
Proof.
  intros Hnd Hf. unfold terminators in Hf. apply list_elem_of_fmap in Hf as ([g b] & -> & Hb).
  apply list_elem_of_In, filter_In in Hb as [Hb%list_elem_of_In Ht]. exists b. split; [|done].
  by apply assoc_Some_NoDup.
Qed.

(** What a statement that the gate takes to exit does; one that it passes over falls through, or
    ends the body with a status. *)
Definition as_judged (ts : list string) (n : node) (o : outcome) : Prop :=
  (exits_nonzero_call n ts = true → ends_nonzero o) ∧ (is_raise n = true → ends_nonzero o) ∧
  (∀ args, is_exit n = Some args → exit_argument args = true → ends_nonzero o) ∧
  (is_exit n = None → o = Falls ∨ ends_nonzero o).

Lemma as_judged_ends ts n o : ends_nonzero o → as_judged ts n o.
Proof. unfold as_judged. auto 10. Qed.

Lemma body_stops ts n body o :
  as_judged ts n o → o ≠ Falls → terminates_nonzero (n :: body) ts = true → ends_nonzero o.
Proof.
  intros (H1 & H2 & H3 & H4) Ho Ht. cbn [terminates_nonzero] in Ht.
  destruct (exits_nonzero_call n ts); [by apply H1|]. destruct (is_raise n); [by apply H2|].
  destruct (is_exit n) as [args|]; [by eapply H3|]. destruct (H4 eq_refl); [congruence|done].
Qed.

Lemma body_goes_on ts n body :
  as_judged ts n Falls → terminates_nonzero (n :: body) ts = true → terminates_nonzero body ts = true.
Proof.
  intros (H1 & H2 & H3 & _) Ht. cbn [terminates_nonzero] in Ht.
  destruct (exits_nonzero_call n ts); [by destruct (H1 eq_refl)|].
  destruct (is_raise n); [by destruct (H2 eq_refl)|].
  destruct (is_exit n) as [args|]; [by destruct (H3 args eq_refl Ht)|done].
Qed.

(** The arguments of an exit are those that are seen. *)
Lemma exit_args f args kws args' keywords seen :
  is_exit (ExprStmt (Call f args kws)) = Some seen →
  action_of means safe (ExprStmt (Call f args kws)) = Exit args' keywords → args' = seen ∧ keywords = kws.
Proof.
  cbn [is_exit action_of]. unfold call_action. case_bool_decide; [|done]. intros [= <-].
  destruct (forallb _ _); [|done]. destruct (means f); try done. by intros [= <- <-].
Qed.

Section Sound.
  Context (tree : node) (Hplain : plain_module tree).
  Notation ours ts := (ts = [] ∨ ts = terminators tree).

(** An exit is one that is judged, and it is judged right. *)
Lemma exit_judged ts n args keywords z :
  ours ts → action_of means safe n = Exit args keywords → may_exit args keywords z →
  simple ts n = true → as_judged ts n (Exits z).
Proof.
  intros Hts Ha Hm Hs. unfold simple in Hs. rewrite Ha in Hs.
  destruct n as [| | | | | |v|parts| | | | | | | |]; try done.
  2: { apply andb_prop in Hs as [He Hl]. apply as_judged_ends. by eapply exit_nonzero. }
  destruct v as [f args' kws| | | | | | | | | | | | | | |]; try done.
  destruct (is_exit _) as [seen|] eqn:Hx; [|done].
  destruct (exit_args _ _ _ _ _ _ Hx Ha) as [-> ->].
  split; [|split; [done|split; [|congruence]]].
  - intros Hc. exfalso. cbn [exits_nonzero_call] in Hc.
    destruct f as [| |i| | | | | | | | | | | | |]; try done. apply bool_decide_eq_true in Hc.
    destruct Hts as [->| ->]; [by apply elem_of_nil in Hc|].
    destruct (terminator_body _ _ (pm_once _ Hplain) Hc) as (b & Hb & _).
    apply (pm_means _ Hplain) in Hb. cbn [action_of] in Ha. unfold call_action in Ha. rewrite Hb in Ha.
    by destruct (forallb _ _).
  - intros a Ha' He. rewrite Hx in Ha'. injection Ha' as <-. by eapply exit_nonzero.
Qed.

(** What is run is a function that exits. *)
Lemma run_known ts n b :
  ours ts → action_of means safe n = Run b → simple ts n = true →
  terminates_nonzero b [] = true ∧ forallb (simple []) b = true.
Proof.
  intros Hts Ha Hs. unfold simple in Hs. rewrite Ha in Hs.
  destruct n as [| | | | | |v|parts| | | | | | | |]; try done. apply andb_prop in Hs as [Hc _].
  destruct v as [f args kws| | | | | | | | | | | | | | |]; try done. cbn [exits_nonzero_call] in Hc.
  destruct f as [| |i| | | | | | | | | | | | |]; try done. apply bool_decide_eq_true in Hc.
  destruct Hts as [->| ->]; [by apply elem_of_nil in Hc|].
  destruct (terminator_body _ _ (pm_once _ Hplain) Hc) as (b' & Hb & Hin & Ht).
  apply (pm_means _ Hplain) in Hb as Hm. cbn [action_of] in Ha. unfold call_action in Ha. rewrite Hm in Ha.
  destruct (forallb _ _); [|done]. injection Ha as <-. split; [done|]. by eapply (pm_simple _ Hplain).
Qed.

Lemma return_judged ts n :
  action_of means safe n = Return_ → simple ts n = true → as_judged ts n Falls.
Proof.
  intros Ha Hs. unfold simple in Hs. rewrite Ha in Hs.
  destruct n as [| | | | | |v|parts| | | | | | | |]; try done. apply andb_prop in Hs as [Hc%negb_true_iff Hx].
  split; [congruence|]. split; [done|]. destruct (is_exit _); [done|]. split; [done|by left].
Qed.

Lemma exec_ends :
  (∀ body o, exec means safe body o → ∀ ts, ours ts →
     forallb (simple ts) body = true → terminates_nonzero body ts = true → ends_nonzero o) ∧
  (∀ n o, stmt means safe n o → ∀ ts, ours ts → simple ts n = true → as_judged ts n o).
Proof.
  apply exec_stmt_ind.
  - done.
  - intros n body o _ IH Ho ts Hts [Hs Hss]%andb_prop. eapply body_stops; [by apply IH|done].
  - intros n body o _ IH _ IHb ts Hts [Hs Hss]%andb_prop Ht. apply (IHb ts Hts Hss).
    eapply body_goes_on; [by apply IH|exact Ht].
  - intros n ts _ _. by apply as_judged_ends.
  - intros n args keywords z Ha Hm ts Hts Hs. by eapply exit_judged.
  - intros n Ha ts _ Hs. by apply return_judged.
  - intros n b o Ha _ IH ts Hts Hs. apply as_judged_ends.
    destruct (run_known _ _ _ Hts Ha Hs) as [Ht Hsb]. by eapply (IH []); [left| |].
  - intros n o Ha ts _ Hs. exfalso. unfold simple in Hs. rewrite Ha in Hs. by destruct n.
Qed.
End Sound.
End Simple.

(** ** A gate that passes *)

(** The exception types of a handler that a failed import reaches: none, or such a name alone or in
    a tuple. *)
Definition catches (type : option node) : Prop :=
  let wide i := i = "ImportError" ∨ i = "ModuleNotFoundError" ∨ i = "Exception" in
  match type with
  | None => True
  | Some (Name i) => wide i
  | Some (Tuple es) => ∃ i, Name i ∈ es ∧ wide i
  | Some _ => False
  end.

Lemma catches_handled type : catches type → handles_importerror type = true.
Proof.
  assert (∀ i, i = "ImportError" ∨ i = "ModuleNotFoundError" ∨ i = "Exception" →
    bool_decide (i ∈ CATCHES) = true) as Hi.
  { intros i Hi. apply bool_decide_eq_true. unfold CATCHES. set_unfold. tauto. }
  destruct type as [[| |i| |es| | | | | | | | | | |]|]; try done.
  - intros H. cbn. by rewrite Hi.
  - intros (i & Hin & H). cbn. apply existsb_exists. exists i. split; [|by apply Hi].
    apply list_elem_of_In, list_elem_of_omap. by exists (Name i).
Qed.

Section Passed.
  Context (ast_parse : string → option node).

Lemma check_gates_clean gates : ∀ k n,
  fold_ (check_gate ast_parse) k gates = Done [] n →
  (k ≤ n)%nat ∧ ∀ g, g ∈ gates → ∃ tree, ast_parse g.2 = Some tree ∧
    ∀ h, h ∈ guards tree → terminates_nonzero h.1 (terminators tree) = true.
Proof.
  induction gates as [|g gates IH]; intros k n H; cbn [fold_] in H.
  - injection H as <-. split; [done|]. by intros g ?%elem_of_nil.
  - apply bind_clean in H as (k' & Hg & H). destruct (IH _ _ H) as [Hle Hall]. unfold check_gate in Hg.
    destruct (ast_parse g.2) as [tree|] eqn:E; [|by apply bind_clean in Hg as ([] & ? & _)].
    apply bind_clean in Hg as ([] & Hf & [= <-]). rewrite for_clean in Hf. split; [lia|].
    intros g' [->|Hin]%elem_of_cons; [|by apply Hall]. exists tree. split; [done|].
    intros h Hh. specialize (Hf h Hh). by apply check_clean in Hf.
Qed.

(** C31: when the audit passes there is a gate, every gate's text parses, and at every handler of a
    failed import below a gate's tree the statements are judged to exit with a status; and
    whatever the names in the module mean and whatever an expression that is no value does, where
    the module is plain and these statements are [simple] under that meaning (a call is of an
    exit that is spelled so and has a literal status, of a function that only returns or raises, or of a
    helper that the gate knows; a raise is of an exception other than SystemExit, or of that with
    a literal status), no execution of them falls through or ends with status 0. *)
Theorem audit_passed files handlers n :
  main ast_parse (Some files) = Done [] (handlers, n) →
  handlers ≠ 0%nat ∧ n ≠ 0%nat ∧
  ∀ g text, (g, text) ∈ files → startswith "validate-" g = true → endswith ".py" g = true →
  ∃ tree, ast_parse text = Some tree ∧
    ∀ body hs els fin type b lineno names,
      within tree (TryStmt body hs els fin) → ImportStmt names ∈ body ∨ ImportFrom names ∈ body →
      ExceptHandler type b lineno ∈ hs → catches type →
      terminates_nonzero b (terminators tree) = true ∧
      (∀ means safe, plain_module means safe tree →
         forallb (simple means safe (terminators tree)) b = true →
         ∀ o, exec means safe b o → ends_nonzero o).
Proof.
  unfold main. intros H. apply bind_clean in H as ([] & Hn & H). apply bind_clean in H as (k & Hk & H).
  apply bind_clean in H as ([] & Hh & [= <- <-]). apply require_clean, negb_true_iff, Nat.eqb_neq in Hn, Hh.
  do 2 (split; [done|]). intros g text Hg Hpre Hsuf.
  assert (is_gate g = true) as Hgate by (unfold is_gate; by rewrite Hpre, Hsuf). apply check_gates_clean in Hk as [_ Hall].
  destruct (Hall (g, text)) as (tree & Ht & Hgs).
  { rewrite elem_of_isort. apply list_elem_of_In, filter_In. by rewrite <- list_elem_of_In. }
  exists tree. split; [done|]. intros body hs els fin type b lineno names Hw Himp Hin Hc%catches_handled.
  assert (existsb is_import body = true) as Hi.
  { apply existsb_exists. destruct Himp as [H|H]; (eexists; split; [by apply list_elem_of_In, H|done]). }
  assert (Hb : terminates_nonzero b (terminators tree) = true).
  { apply (Hgs (b, lineno)). unfold guards. apply list_elem_of_In, in_concat.
    exists (guards_at (TryStmt body hs els fin)). rewrite <- !list_elem_of_In. split.
    - apply list_elem_of_fmap. eexists. split; [done|]. by apply walk_elem.
    - cbn [guards_at]. rewrite Hi. apply list_elem_of_omap. eexists. split; [exact Hin|]. cbn beta iota. by rewrite Hc. }
  split; [done|]. intros means safe Hp Hs o Ho.
  eapply (proj1 (exec_ends means safe tree Hp)); [exact Ho|by right|exact Hs|exact Hb].
Qed.
End Passed.

(** ** Modules *)

Definition call_of (f : node) (args : list node) : node := ExprStmt (Call f args []).
Definition sys_exit (c : const) : node := call_of (Attribute (Name "sys") "exit") [Constant c].
Definition print_it : node := call_of (Name "print") [Constant (CVal (VStr "PyYAML unavailable"))].

(** A module that imports yaml, with a helper that exits. *)
Definition sample_module (helper handler : list node) : node :=
  ModuleTree [FunctionDef "measurement_failed" [Other [Name "msg"]] helper;
    TryStmt [ImportStmt [Other []]] [ExceptHandler (Some (Name "ImportError")) handler 12] [] []].
Definition exits_2 : list node := [print_it; sys_exit (CVal (VInt 2))].
Definition calls_helper : list node := [call_of (Name "measurement_failed") []].

(** The texts of the sample gates and their trees. *)
Definition sample_parse (s : string) : option node :=
  if String.eqb s "good" then Some (sample_module exits_2 calls_helper)
  else if String.eqb s "skips" then Some (sample_module exits_2 [print_it; sys_exit (CVal (VInt 0))])
  else None.
Definition sample_files (text : string) : list (string * string) :=
  [("revendor.py", "not a gate"); ("validate-x.py", text)].

(** Python's meanings of what the samples use: constants are values. *)
Definition py_means (helper : list node) (f : node) : meaning :=
  match f with
  | Name i =>
      if String.eqb i "measurement_failed" then Runs helper
      else if String.eqb i "print" then Returns
      else if bool_decide (i ∈ ["exit"; "quit"]) then ExitFunction
      else if String.eqb i "SystemExit" then ExitClass
      else if String.eqb i "ImportError" then ErrorClass else Anything
  | Attribute (Name m) a =>
      if bool_decide ((m, a) ∈ [("sys", "exit"); ("os", "_exit")]) then ExitFunction else Anything
  | _ => Anything
  end.
Definition is_constant (n : node) : bool := match n with Constant _ => true | _ => false end.

Lemma module_plain : plain_module (py_means exits_2) is_constant (sample_module exits_2 calls_helper).
Proof.
  split.
  - by repeat constructor; intros ?%elem_of_nil.
  - intros f b. change (functions _) with [("measurement_failed", exits_2)]. simpl.
    by destruct (String.eqb_spec f "measurement_failed") as [->|]; [intros [= <-]|].
  - intros f b [[= -> ->]|?%elem_of_nil]%elem_of_cons; done.
Qed.

Lemma audit_passed_witness :
  main sample_parse (Some (sample_files "skips")) = Done [CanSkip "validate-x.py" 12] (1, 1)%nat ∧
  main sample_parse (Some (sample_files "unclosed")) = measurement_failed NoHandlers ∧
  main sample_parse (Some (sample_files "good")) = Done [] (1, 1)%nat ∧
  ∀ o, exec (py_means exits_2) is_constant calls_helper o → ends_nonzero o.
Proof.
  split; [vm_compute; reflexivity|]. split; [vm_compute; reflexivity|]. split; [vm_compute; reflexivity|].
  destruct (audit_passed sample_parse (sample_files "good") 1 1 ltac:(vm_compute; reflexivity))
    as (_ & _ & H).
  destruct (H "validate-x.py" "good") as (tree & Ht & Hg); [by right; left|done|done|].
  injection Ht as <-.
  refine (proj2 (Hg _ _ _ _ _ _ _ _ _ _ _ _) _ _ module_plain _).
  - eapply rtc_l; [|constructor]. right. left.
  - left. left.
  - left.
  - by left.
  - reflexivity.
Defined.

(** What the verdict is not right about: an integer with low byte 0, a raise of SystemExit, a helper
    of the module that exits with 0 before the statement that is looked for, and there too quit,
    os._exit, or sys.exit among the arguments of another call. *)
Definition exit_0 : node := sys_exit (CVal (VInt 0)).
Definition exit_2 : node := sys_exit (CVal (VInt 2)).
Definition accepted_exits : list (list node) :=
  [ [sys_exit (CVal (VInt 256))];
    [RaiseStmt [Call (Name "SystemExit") [Constant (CVal (VInt 0))] []]];
    [call_of (Name "measurement_failed") []; exit_2];
    [call_of (Name "quit") []; exit_2];
    [call_of (Attribute (Name "os") "_exit") [Constant (CVal (VInt 0))]; exit_2];
    [call_of (Name "print") [Call (Attribute (Name "sys") "exit") [Constant (CVal (VInt 0))] []]; exit_2] ].

Example exits_with_0 : Forall (λ b,
  terminates_nonzero b (terminators (sample_module [exit_0] b)) = true ∧
  exec (py_means [exit_0]) is_constant b (Exits 0)) accepted_exits.
Proof.
  repeat (apply List.Forall_cons; [split; [reflexivity|eapply exec_stop; [|done]]|]); [..|constructor].
  - by eapply stmt_exits.
  - by eapply stmt_exits.
  - eapply stmt_runs; [reflexivity|]. eapply exec_stop; [by eapply stmt_exits|done].
  - by eapply stmt_exits.
  - by eapply stmt_exits.
  - by apply stmt_unknown.
Qed.
End GateAudit.
