(* ===== verification/Gnocchi.v ===== *)
(** * hack/validate-gnocchi-readiness.py: readiness checks the backends, nothing that restarts does

    The rendered chart and the parsed values are the input; running the shipped checker with no
    check asked of it is a parameter, since the checker is a script of the chart. *)
From S2P Require Import Prelude PyStr PyVal Base64 Gate Manifests.
#[local] Open Scope string_scope.
#[local] Open Scope list_scope.

Module Gnocchi.

Definition PROBE_PATH : string := "/tmp/gnocchi-probe.py".
Definition PROBE_KEY : string := "gnocchi-probe.py".
Definition BIN_CONFIGMAP : string := "gnocchi-bin".
Definition BACKEND_FLAGS : list string := ["--indexer"; "--storage"; "--coordination"].
Definition UWSGI_STATS_PORT : Z := 1717.

(** A container, the workload it is in, and the flags its readiness must carry. *)
Record expected := { e_container : string; e_kind : string; e_workload : string; e_flags : list string }.
Definition EXPECTED : list expected :=
  [{| e_container := "gnocchi-api"; e_kind := "Deployment"; e_workload := "gnocchi-api";
      e_flags := ["--http"; "--indexer"; "--storage"; "--coordination"] |};
   {| e_container := "gnocchi-metricd"; e_kind := "DaemonSet"; e_workload := "gnocchi-metricd";
      e_flags := ["--indexer"; "--storage"; "--coordination"] |};
   {| e_container := "gnocchi-statsd"; e_kind := "DaemonSet"; e_workload := "gnocchi-statsd";
      e_flags := ["--indexer"; "--storage"] |}].

Inductive unmeasured :=
  | NothingToCompare | HelmFailed (err : string) | NothingRendered | NoWorkload | NoneInspected.

Inductive finding :=
  | NoContainer (e : expected)
  | NoReadiness (e : expected)
  | TcpReadiness (e : expected)
  | NotTheProbe (e : expected)
  | MissingFlags (e : expected) (missing : list string) (command : list string)
  | BadDeadline (e : expected)
  | LateDeadline (e : expected) (deadline : Z) (timeout : val)
  | NoDeadline (e : expected)
  | NotMounted (e : expected)
  | RestartChecks (e : expected) (probe : string) (used : list string)
  | StartupOnly (e : expected)
  | NoLiveness
  | NoStartup
  | StartupPath (startup liveness : val)
  | WideBudget
  | LivenessNotHttp
  | LivenessPath (got want : val)
  | StatsPort (kind name container : val) (probe : string)
  | NoScript
  | ChecksNothing
  | FlagGone (flag : string)
  | NoPaste
  | NoComposite (auth_mode : string)
  | NoHealthcheck
  | NoController (controller : string).

Definition G := gate unmeasured finding.

(** ** Reading the values and the rendered objects *)

Definition read_values (values : val) : G (val * val) :=
  let v := or_ values (VDict []) in
  let* conf := lift (get_dict v "conf") in
  let* es := lift (get_dict v "endpoints") in
  let* metric := lift (get_dict es "metric") in
  let* path := lift (get_default metric "path" (VDict [])) in
  let* health_path := lift (get path "healthcheck") in
  let* g := lift (get_dict conf "gnocchi") in
  let* api := lift (get_dict g "api") in
  let* auth_mode := lift (get api "auth_mode") in
  if negb (truthy health_path) || negb (truthy auth_mode) then measurement_failed NothingToCompare
  else mret (health_path, auth_mode).

(** The workloads by kind and name; a key is the pair of the two. *)
Definition workloads_of (docs : list val) : res (list (val * val)) :=
  foldM (λ ws d,
    let* k := get d "kind" in
    if existsb (eq_str k) ["Deployment"; "DaemonSet"; "StatefulSet"] then
      let* n := getpath d ["metadata"; "name"] in
      let* n := hashable n in
      Ok (vset (VList [k; n]) d ws)
    else Ok ws) [] docs.

Definition container (workloads : list (val * val)) (e : expected) : res (option val) :=
  match vget (VList [VStr (e_kind e); VStr (e_workload e)]) workloads with
  | None => Ok None
  | Some doc => let* cs := pod_containers doc in first_named (e_container e) cs
  end.

Definition probe_command (probe : val) : res (list val) :=
  let* ex := get_dict (or_ probe (VDict [])) "exec" in get_iter ex "command".

(** [f in command] *)
Definition carries (command : list val) (f : string) : bool := py_in (VStr f) command.

(** The element after the first one that equals [f]. *)
Fixpoint after_flag (f : string) (command : list val) : option val :=
  match command with
  | [] => None
  | w :: rest => if eq_str w f then head rest else after_flag f rest
  end.

(** ** 1. Readiness *)

Definition check_flags (e : expected) (command : list val) : G unit :=
  match List.filter (λ f, negb (carries command f)) (e_flags e) with
  | [] => mret ()
  | missing => let* words := lift (mapM as_str command) in fail (MissingFlags e missing words)
  end.

(** The number after --deadline, [None] where reading it raises what the code catches. *)
Definition read_deadline (command : list val) : res (option Z) :=
  match after_flag "--deadline" command with
  | None => Ok None
  | Some v =>
      match py_int_val v with
      | Ok d => Ok (Some d)
      | Raise ValueError => Ok None
      | Raise x => Raise x
      end
  end.

Definition check_deadline (e : expected) (readiness : val) (command : list val) : G unit :=
  if negb (carries command "--deadline") then fail (NoDeadline e) else
  let* d := lift (read_deadline command) in
  match d with
  | None => fail (BadDeadline e)
  | Some d =>
      let* timeout := lift (get_default readiness "timeoutSeconds" (VInt 1)) in
      let* late := lift (le_int timeout d) in
      check (negb late) (LateDeadline e d timeout)
  end.

Definition mounts_probe (m : val) : res bool :=
  let* p := get m "mountPath" in
  if eq_str p PROBE_PATH then let* s := get m "subPath" in Ok (eq_str s PROBE_KEY) else Ok false.

Definition check_mounts (e : expected) (c : val) : G unit :=
  let* ms := lift (get_iter c "volumeMounts") in
  let* bs := lift (mapM mounts_probe ms) in
  check (existsb id bs) (NotMounted e).

Definition check_readiness (e : expected) (c : val) : G unit :=
  let* readiness := lift (get c "readinessProbe") in
  if negb (truthy readiness) then fail (NoReadiness e) else
  let* tcp := lift (key_in "tcpSocket" readiness) in
  if tcp : bool then fail (TcpReadiness e) else
  let* command := lift (probe_command readiness) in
  if negb (carries command PROBE_PATH) then fail (NotTheProbe e) else
  let* _ := check_flags e command in
  let* _ := check_deadline e readiness command in
  check_mounts e c.

(** Counts the containers that were found. *)
Definition check_expected (ws : list (val * val)) (checked : nat) (e : expected) : G nat :=
  let* c := lift (container ws e) in
  match c with
  | None => let* _ := fail (NoContainer e) in mret checked
  | Some c => let* _ := check_readiness e c in mret (S checked)
  end.

(** ** 2. Probes that restart the container *)

Definition check_restart (e : expected) (c : val) (kind : string) : G unit :=
  let* probe := lift (get c kind) in
  if negb (truthy probe) then mret () else
  let* command := lift (probe_command probe) in
  match List.filter (carries command) BACKEND_FLAGS with
  | [] => mret ()
  | used => fail (RestartChecks e kind used)
  end.

Definition check_restarts (ws : list (val * val)) (e : expected) : G unit :=
  let* c := lift (container ws e) in
  match c with
  | None => mret ()
  | Some c =>
      let* _ := for_ ["livenessProbe"; "startupProbe"] (check_restart e c) in
      let* s := lift (get c "startupProbe") in
      if negb (truthy s) then mret () else
      let* r := lift (get c "readinessProbe") in
      check (truthy r) (StartupOnly e)
  end.

(** ** 3. The API's liveness, and uwsgi's stats port *)

(** [probe.get("httpGet", {}).get("path")] *)
Definition http_path (probe : val) : res val :=
  let* h := get_default probe "httpGet" (VDict []) in get h "path".

Definition wide_budget (liveness : val) : res bool :=
  let l := or_ liveness (VDict []) in
  let* delay := get_default l "initialDelaySeconds" (VInt 0) in
  let* wide := gt_int delay 120 in
  if wide : bool then Ok true else
  let* threshold := get_default l "failureThreshold" (VInt 3) in
  gt_int threshold 3.

Definition check_api (health_path api : val) : G unit :=
  let* liveness := lift (get api "livenessProbe") in
  let* _ := check (truthy liveness) NoLiveness in
  let* startup := lift (get api "startupProbe") in
  if negb (truthy startup) then fail NoStartup else
  let* sp := lift (http_path startup) in
  let* lp := lift (http_path (or_ liveness (VDict []))) in
  if negb (py_eq sp lp) then fail (StartupPath sp lp) else
  let* wide := lift (wide_budget liveness) in
  if wide : bool then fail WideBudget else
  let* http := lift (key_in "httpGet" liveness) in
  if negb http then fail LivenessNotHttp else
  let* h := lift (getitem liveness "httpGet") in
  let* p := lift (get h "path") in
  check (py_eq p health_path) (LivenessPath p health_path).

Definition PROBES : list string := ["livenessProbe"; "readinessProbe"; "startupProbe"].
Definition on_stats_port (port : val) : bool :=
  py_in port [VInt UWSGI_STATS_PORT; VStr (str_of_Z UWSGI_STATS_PORT)].

Definition probe_port (probe : val) (scheme : string) : res val :=
  let* s := get_dict probe scheme in get s "port".

Definition check_stats (d c : val) (kind scheme : string) : G unit :=
  let* probe := lift (get_dict c kind) in
  let* port := lift (probe_port probe scheme) in
  if negb (on_stats_port port) then mret () else
  let* k := lift (getitem d "kind") in
  let* n := lift (getpath d ["metadata"; "name"]) in
  let* cn := lift (getitem c "name") in
  fail (StatsPort k n cn kind).

Definition check_ports (w : val * val) : G unit :=
  let* cs := lift (pod_containers w.2) in
  for_ cs (λ c, for_ PROBES (λ kind, for_ ["httpGet"; "tcpSocket"] (check_stats w.2 c kind))).

(** ** 4. The shipped checker *)

(** The entry of the last ConfigMap of that name. *)
Definition find_script (docs : list val) : res val :=
  foldM (λ script d,
    let* b := is_named "ConfigMap" BIN_CONFIGMAP d in
    if b : bool then let* data := get_dict d "data" in get data PROBE_KEY else Ok script) VNone docs.

(** The last one that is not empty, decoded. *)
Definition find_paste (docs : list val) : res (option string) :=
  foldM (λ paste d,
    let* b := is_named "Secret" "gnocchi-etc" d in
    if b : bool then
      let* data := get_dict d "data" in
      let* raw := get data "api-paste.ini" in
      if negb (truthy raw) then Ok paste else
      let* s := as_str raw in
      match b64decode_text s with Some t => Ok (Some t) | None => Raise ValueError end
    else Ok paste) None docs.

(** ** 5. The paste pipeline *)

Definition CONTROLLERS : list string :=
  ["gnocchi.rest.api.VersionsController"; "gnocchi.rest.api.V1Controller"].

Definition check_paste (health_path auth_mode : val) (paste : option string) : G unit :=
  match paste with
  | None => fail NoPaste
  | Some paste =>
      let* auth := lift (py_str auth_mode) in
      let* _ := check (contains ("[composite:gnocchi+" ++ auth ++ "]") paste) (NoComposite auth) in
      let* health := lift (py_str health_path) in
      let* _ := check (contains (health ++ " = healthcheck") paste) NoHealthcheck in
      for_ CONTROLLERS (λ c, check (contains c paste) (NoController c))
  end.

Section Run.
  (** The exit status of the checker when it is run with a configuration file and no check. *)
Context (run : string → res Z).

Definition check_script (script : val) : G unit :=
    if negb (truthy script) then fail NoScript else
    let* text := lift (as_str script) in
    let* status := lift (run text) in
    let* _ := check (negb (status =? 0)%Z) ChecksNothing in
    for_ (BACKEND_FLAGS ++ ["--http"]) (λ flag, check (contains flag text) (FlagGone flag)).

Definition main (values : val) (rendered : list val + string) : G nat :=
    let* (health_path, auth_mode) := read_values values in
    match rendered with
    | inr err => measurement_failed (HelmFailed err)
    | inl all =>
        let docs := List.filter truthy all in
        if Nat.eqb (length docs) 0 then measurement_failed NothingRendered else
        let* ws := lift (workloads_of docs) in
        if Nat.eqb (length ws) 0 then measurement_failed NoWorkload else
        let* checked := fold_ (check_expected ws) 0%nat EXPECTED in
        if Nat.eqb checked 0 then measurement_failed NoneInspected else
        let* _ := for_ EXPECTED (check_restarts ws) in
        let* api := lift (container ws {| e_container := "gnocchi-api"; e_kind := "Deployment";
                                          e_workload := "gnocchi-api"; e_flags := [] |}) in
        let* _ := match api with None => mret () | Some api => check_api health_path api end in
        let* _ := for_ ws check_ports in
        let* script := lift (find_script docs) in
        let* _ := check_script script in
        let* paste := lift (find_paste docs) in
        let* _ := check_paste health_path auth_mode paste in
        mret checked
    end.
End Run.

(** ** What a passing run has established *)

(** Readiness runs the mounted checker, asks for every backend the container cannot work without,
    and the checker gives up before the kubelet does. *)
Definition backed_readiness (e : expected) (c : val) : Prop :=
  ∃ readiness command d timeout ms,
    get c "readinessProbe" = Ok readiness ∧ truthy readiness = true ∧
    key_in "tcpSocket" readiness = Ok false ∧ probe_command readiness = Ok command ∧
    carries command PROBE_PATH = true ∧ (∀ f, f ∈ e_flags e → carries command f = true) ∧
    read_deadline command = Ok (Some d) ∧
    get_default readiness "timeoutSeconds" (VInt 1) = Ok timeout ∧ le_int timeout d = Ok false ∧
    get_iter c "volumeMounts" = Ok ms ∧ (∃ m, m ∈ ms ∧ mounts_probe m = Ok true).

(** No probe that restarts the container asks for a backend. *)
Definition restarts_alone (c : val) : Prop :=
  ∀ kind probe, kind ∈ ["livenessProbe"; "startupProbe"] → get c kind = Ok probe →
    truthy probe = true → ∃ command, probe_command probe = Ok command ∧
      ∀ f, f ∈ BACKEND_FLAGS → carries command f = false.

(** The API is restarted by a request for the health path, which a startup probe holds off. *)
Definition api_probes (health_path api : val) : Prop :=
  ∃ liveness startup h p sp,
    get api "livenessProbe" = Ok liveness ∧ truthy liveness = true ∧
    get api "startupProbe" = Ok startup ∧ truthy startup = true ∧
    getitem liveness "httpGet" = Ok h ∧ get h "path" = Ok p ∧ py_eq p health_path = true ∧
    http_path startup = Ok sp ∧ py_eq sp p = true ∧ wide_budget liveness = Ok false.

Definition off_stats_port (ws : list (val * val)) : Prop :=
  ∀ w cs c kind scheme probe port, w ∈ ws → pod_containers w.2 = Ok cs → c ∈ cs → kind ∈ PROBES →
    scheme ∈ ["httpGet"; "tcpSocket"] → get_dict c kind = Ok probe →
    probe_port probe scheme = Ok port → on_stats_port port = false.

Definition pipeline (health_path auth_mode : val) (paste : string) : Prop :=
  ∃ auth health, py_str auth_mode = Ok auth ∧ py_str health_path = Ok health ∧
    contains ("[composite:gnocchi+" ++ auth ++ "]") paste = true ∧
    contains (health ++ " = healthcheck") paste = true ∧
    ∀ c, c ∈ CONTROLLERS → contains c paste = true.

Lemma check_readiness_clean e c : check_readiness e c = Done [] () → backed_readiness e c.
Proof.
  unfold check_readiness. intros H. gate_inv H.
  destruct (truthy v) eqn:Et; [|done]. cbn [negb] in H. gate_inv H. destruct v0; [done|]. gate_inv H.
  destruct (carries v0 PROBE_PATH) eqn:Ep; [|done]. cbn [negb] in H.
  apply bind_clean in H as ([] & Hf & H). apply bind_clean in H as ([] & Hd & H).
  unfold check_flags in Hf. destruct (List.filter _ _) eqn:Ef; [|by gate_inv Hf].
  unfold check_deadline in Hd. destruct (carries v0 "--deadline"); [|done]. cbn [negb] in Hd.
  apply lift_bind_Done in Hd as ([d|] & Hd1 & Hd); [|done].
  apply lift_bind_Done in Hd as (timeout & Ht & Hd). apply lift_bind_Done in Hd as ([] & Hl & Hd); [done|].
  unfold check_mounts in H. apply lift_bind_Done in H as (ms & Hms & H).
  apply lift_bind_Done in H as (bs & Hbs & H). apply check_clean, existsb_exists in H as ([] & Hb & Hid); [|done].
  apply list_elem_of_In in Hb. destruct (mapM_elem _ _ _ _ Hbs Hb) as (m & Hm & Hmp).
  unfold backed_readiness. exists v, v0, d, timeout, ms. repeat (split; [done|]). split; [|eauto 10].
  intros f Hin. apply (filter_none _ _ Ef) in Hin. by apply negb_false_iff in Hin.
Qed.

Lemma check_restarts_clean ws e c :
  container ws e = Ok (Some c) → check_restarts ws e = Done [] () → restarts_alone c.
Proof.
  intros Hc H. unfold check_restarts in H. rewrite Hc in H. cbn [lift] in H.
  apply bind_clean in H as (c' & [= <-] & H). apply bind_clean in H as ([] & H & _).
  rewrite for_clean in H. intros kind probe Hk Hp Ht. specialize (H kind Hk). unfold check_restart in H.
  rewrite Hp in H. apply bind_clean in H as (p & [= <-] & H). rewrite Ht in H. cbn [negb] in H.
  apply lift_bind_Done in H as (command & Hcmd & H). exists command. split; [done|].
  destruct (List.filter _ _) eqn:E; [|done]. by apply filter_none.
Qed.

Lemma check_api_clean health_path api : check_api health_path api = Done [] () → api_probes health_path api.
Proof.
  unfold check_api. intros H. apply lift_bind_Done in H as (l & Hl & H).
  apply bind_clean in H as ([] & Htl & H). apply check_clean in Htl.
  assert (Hor : or_ l (VDict []) = l) by (unfold or_; by rewrite Htl). rewrite Hor in H.
  apply lift_bind_Done in H as (s & Hs & H). destruct (truthy s) eqn:Hts; [|done]. cbn [negb] in H.
  apply lift_bind_Done in H as (sp & Hsp & H). apply lift_bind_Done in H as (lp & Hlp & H).
  destruct (py_eq sp lp) eqn:Eq; [|done]. cbn [negb] in H.
  apply lift_bind_Done in H as ([] & Hw & H); [done|].
  apply lift_bind_Done in H as ([] & Hk & H); [|done]. cbn [negb] in H.
  apply lift_bind_Done in H as (h & Hh & H). apply lift_bind_Done in H as (p & Hp & H).
  apply check_clean in H. exists l, s, h, p, sp. repeat (split; [done|]). split; [|done].
  unfold http_path in Hlp. destruct l; try done. cbn in Hh, Hlp. destruct (assoc "httpGet" d); [|done].
  injection Hh as ->. cbn in Hlp. rewrite Hp in Hlp. by injection Hlp as <-.
Qed.

Lemma check_ports_clean ws : for_ ws check_ports = Done [] () → off_stats_port ws.
Proof.
  rewrite for_clean. intros H w cs c kind scheme probe port Hw Hcs Hc Hk Hs Hp Hport.
  specialize (H w Hw). unfold check_ports in H. rewrite Hcs in H.
  apply bind_clean in H as (cs' & [= <-] & H).
  rewrite for_clean in H. specialize (H c Hc). rewrite for_clean in H. specialize (H kind Hk).
  rewrite for_clean in H. specialize (H scheme Hs). unfold check_stats in H. rewrite Hp in H.
  apply bind_clean in H as (p & [= <-] & H). rewrite Hport in H. apply bind_clean in H as (q & [= <-] & H).
  destruct (on_stats_port port); [|done]. cbn [negb] in H. by gate_inv H.
Qed.

Lemma check_script_clean run script :
  check_script run script = Done [] () →
  ∃ text, script = VStr text ∧ (∀ z, run text = Ok z → z ≠ 0%Z) ∧
    ∀ f, f ∈ BACKEND_FLAGS ++ ["--http"] → contains f text = true.
Proof.
  unfold check_script. destruct (truthy script); [|done]. cbn [negb]. intros H.
  apply lift_bind_Done in H as (text & Ht & H). apply lift_bind_Done in H as (status & Hs & H).
  apply bind_clean in H as ([] & Hc & H). apply check_clean, negb_true_iff, Z.eqb_neq in Hc.
  exists text. split; [destruct script; try done; by injection Ht as ->|]. split; [congruence|].
  rewrite for_clean in H. intros f Hf. specialize (H f Hf). by apply check_clean in H.
Qed.

Lemma check_paste_clean health_path auth_mode paste :
  check_paste health_path auth_mode paste = Done [] () →
  ∃ t, paste = Some t ∧ pipeline health_path auth_mode t.
Proof.
  destruct paste as [t|]; [|done]. cbn [check_paste]. intros H.
  apply lift_bind_Done in H as (auth & Ha & H). apply bind_clean in H as ([] & H1 & H).
  apply lift_bind_Done in H as (health & Hh & H). apply bind_clean in H as ([] & H2 & H).
  apply check_clean in H1, H2. exists t. split; [done|]. exists auth, health.
  do 4 (split; [done|]). intros c Hc. rewrite for_clean in H. specialize (H c Hc). by apply check_clean in H.
Qed.

(** A gate that passes has found every container of the table with a readiness probe that
    asks the mounted checker for each backend it needs and ends before the kubelet's timeout, no
    liveness or startup probe that asks for a backend, an API restarted only by the health path,
    no probe on uwsgi's stats port, a checker that refuses to pass when it is asked for nothing,
    and the composite and controllers that gnocchi loads. *)
Theorem gnocchi_passed run values rendered n :
  main run values (inl rendered) = Done [] n →
  ∃ health_path auth_mode ws script paste,
    let docs := List.filter truthy rendered in
    read_values values = Done [] (health_path, auth_mode) ∧ workloads_of docs = Ok ws ∧
    (∀ e, e ∈ EXPECTED → ∃ c, container ws e = Ok (Some c) ∧ backed_readiness e c ∧ restarts_alone c) ∧
    (∃ api, container ws {| e_container := "gnocchi-api"; e_kind := "Deployment";
                            e_workload := "gnocchi-api"; e_flags := [] |} = Ok (Some api) ∧
            api_probes health_path api) ∧
    off_stats_port ws ∧
    find_script docs = Ok (VStr script) ∧ (∀ z, run script = Ok z → z ≠ 0%Z) ∧
    (∀ f, f ∈ BACKEND_FLAGS ++ ["--http"] → contains f script = true) ∧
    find_paste docs = Ok (Some paste) ∧ pipeline health_path auth_mode paste.
Proof.
  unfold main. intros H. apply bind_clean in H as ([health auth] & Hv & H).
  destruct (Nat.eqb _ 0); [done|]. apply lift_bind_Done in H as (ws & Hws & H).
  destruct (Nat.eqb _ 0); [done|]. apply bind_clean in H as (checked & Hx & H).
  destruct (Nat.eqb _ 0); [done|]. apply bind_clean in H as ([] & Hr & H).
  apply lift_bind_Done in H as (api & Ha & H). apply bind_clean in H as ([] & Hapi & H).
  apply bind_clean in H as ([] & Hports & H). apply lift_bind_Done in H as (script & Hs & H).
  apply bind_clean in H as ([] & Hcs & H). apply lift_bind_Done in H as (paste & Hp & H).
  apply bind_clean in H as ([] & Hcp & _).
  destruct (check_script_clean _ _ Hcs) as (text & -> & Hrun & Hflags).
  destruct (check_paste_clean _ _ _ Hcp) as (t & -> & Hpipe).
  exists health, auth, ws, text, t. cbn zeta. split; [done|]. split; [done|].
  assert (Hall : ∀ e, e ∈ EXPECTED → ∃ c, container ws e = Ok (Some c) ∧ backed_readiness e c ∧ restarts_alone c).
  { intros e He. destruct (fold_clean _ _ _ _ Hx e He) as (b1 & b2 & Hb). unfold check_expected in Hb.
    apply lift_bind_Done in Hb as ([c|] & Hc & Hb); [|done]. exists c. split; [done|].
    apply bind_clean in Hb as ([] & Hb & _). split; [by apply check_readiness_clean|].
    rewrite for_clean in Hr. eapply check_restarts_clean; [done|]. by apply Hr. }
  split; [exact Hall|]. split; [|by repeat (split; [by apply check_ports_clean||done|])].
  destruct (Hall _ ltac:(left)) as (c & Hc & _).
  change (container ws (Build_expected "gnocchi-api" "Deployment" "gnocchi-api" []) = Ok (Some c)) in Hc.
  rewrite Hc in Ha. injection Ha as <-. exists c. split; [done|]. by apply check_api_clean.
Qed.

(** ** A chart that passes *)

Definition sample_probe (flags : list string) : val :=
  VDict [("exec", VDict [("command",
            VList (map VStr (["python3"; PROBE_PATH] ++ flags ++ ["--deadline"; "20"])))]);
         ("timeoutSeconds", VInt 25)].
Definition sample_get (path : string) : val :=
  VDict [("httpGet", VDict [("path", VStr path); ("port", VInt 8041)])].
Definition sample_container (e : expected) (probes : list (string * val)) : val :=
  VDict ([("name", VStr (e_container e));
          ("volumeMounts", VList [VDict [("mountPath", VStr PROBE_PATH); ("subPath", VStr PROBE_KEY)]]);
          ("readinessProbe", sample_probe (e_flags e))] ++ probes).
Definition sample_workload (probes : list (string * val)) (e : expected) : val :=
  VDict [("kind", VStr (e_kind e)); ("metadata", VDict [("name", VStr (e_workload e))]);
         ("spec", VDict [("template", VDict [("spec", VDict [("containers",
            VList [sample_container e (if String.eqb (e_container e) "gnocchi-api" then probes else [])])])])])].

Definition sample_script : string := "argparse: --indexer --storage --coordination --http; sys.exit(2)".
(** The pipeline, as the Secret carries it. *)
Definition sample_paste : string := "W2NvbXBvc2l0ZTpnbm9jY2hpK2tleXN0b25lXQovaGVhbHRoY2hlY2sgPSBoZWFsdGhjaGVjawpbYXBwOmdub2NjaG
l2ZXJzaW9uc10Kcm9vdCA9IGdub2NjaGkucmVzdC5hcGkuVmVyc2lvbnNDb250cm9sbGVyClthcHA6Z25vY2NoaXYx
XQpyb290ID0gZ25vY2NoaS5yZXN0LmFwaS5WMUNvbnRyb2xsZXIK".

Definition sample_docs (probes : list (string * val)) : list val :=
  map (sample_workload probes) EXPECTED ++
  [VDict [("kind", VStr "ConfigMap"); ("metadata", VDict [("name", VStr BIN_CONFIGMAP)]);
          ("data", VDict [(PROBE_KEY, VStr sample_script)])];
   VDict [("kind", VStr "Secret"); ("metadata", VDict [("name", VStr "gnocchi-etc")]);
          ("data", VDict [("api-paste.ini", VStr sample_paste)])]].
Definition sample_values : val :=
  VDict [("conf", VDict [("gnocchi", VDict [("api", VDict [("auth_mode", VStr "keystone")])])]);
         ("endpoints", VDict [("metric", VDict [("path", VDict [("healthcheck", VStr "/healthcheck")])])])].
Definition sample_api : list (string * val) :=
  [("livenessProbe", sample_get "/healthcheck"); ("startupProbe", sample_get "/healthcheck")].

Definition refuses (script : string) : res Z := Ok (if contains "sys.exit(2)" script then 2 else 0)%Z.

Lemma gnocchi_passed_witness :
  main refuses sample_values (inl (sample_docs sample_api)) = Done [] 3%nat ∧
  ∃ health_path auth_mode ws script paste,
    let docs := List.filter truthy (sample_docs sample_api) in
    read_values sample_values = Done [] (health_path, auth_mode) ∧ workloads_of docs = Ok ws ∧
    (∀ e, e ∈ EXPECTED → ∃ c, container ws e = Ok (Some c) ∧ backed_readiness e c ∧ restarts_alone c) ∧
    (∃ api, container ws {| e_container := "gnocchi-api"; e_kind := "Deployment";
                            e_workload := "gnocchi-api"; e_flags := [] |} = Ok (Some api) ∧
            api_probes health_path api) ∧
    off_stats_port ws ∧
    find_script docs = Ok (VStr script) ∧ (∀ z, refuses script = Ok z → z ≠ 0%Z) ∧
    (∀ f, f ∈ BACKEND_FLAGS ++ ["--http"] → contains f script = true) ∧
    find_paste docs = Ok (Some paste) ∧ pipeline health_path auth_mode paste.
Proof.
  split; [vm_compute; reflexivity|].
  exact (gnocchi_passed refuses sample_values (sample_docs sample_api) 3%nat ltac:(vm_compute; reflexivity)).
Defined.

(** An API with a startup probe that runs a command and no liveness probe: the missing probe is a
    finding, and then the gate stops with an exception instead of reporting it. *)
Example no_liveness :
  main refuses sample_values (inl (sample_docs [("startupProbe", sample_probe [])]))
  = Stop (Crashed TypeError).
Proof. vm_compute. reflexivity. Qed.

(** A startup probe is accepted where readiness is kept. *)
Example startup_accepted :
  match main refuses sample_values (inl (sample_docs [("startupProbe", sample_get "/healthcheck")])) with
  | Done fs _ => fs = [NoLiveness; StartupPath (VStr "/healthcheck") VNone] | Stop _ => False end.
Proof. vm_compute. reflexivity. Qed.
End Gnocchi.
