(* ===== verification/Keystone.v ===== *)
(** * hack/validate-keystone-readiness.py: readiness needs the fernet keys and the database

    The gate stops at its first problem, so a run ends with one problem or passes. The rendered
    chart is the input. *)
From S2P Require Import Prelude PyStr PyVal Json PyText Gate Manifests.
#[local] Open Scope string_scope.
#[local] Open Scope list_scope.

Module Keystone.

Definition KEY_DIR : string := "/etc/keystone/fernet-keys".

(** What ends a run: status 2 for [NothingRendered], status 1 for the others. *)
Inductive problem :=
  | NothingRendered
  | HelmFailed (err : string)
  | NoDeployment
  | NoReadiness
  | KeysUnchecked
  | Unreferenced (needle : string)
  | LivenessDatabase
  | LivenessKeys
  | NoEnsure (inits : list val)
  | WideRoles (wide : list (val * list string)).

(** No finding is collected: the first problem stops the run. *)
Definition G := gate problem Empty_set.
Definition fail {A} (p : problem) : G A := measurement_failed p.

Definition status (v : verdict problem Empty_set val) : Z :=
  match v with Passed _ => 0 | NotMeasured NothingRendered => 2 | _ => 1 end.

(** What the text of the readiness probe must mention. *)
Definition NEEDLES : list string := ["socket"; "create_connection"; "keystone.conf"; "keystone.conf.d"].

Definition check_probes (c : val) : G unit :=
  let* ro := lift (get c "readinessProbe") in
  let* _ := require (truthy ro) NoReadiness in
  let* _ := require (contains KEY_DIR (json_dumps ro)) KeysUnchecked in
  let* _ := for_ NEEDLES (λ needle, require (contains needle (json_dumps ro)) (Unreferenced needle)) in
  let* lv := lift (get c "livenessProbe") in
  let* _ := require (negb (truthy lv && (contains "create_connection" (json_dumps lv)
                                         || contains "socket" (json_dumps lv)))) LivenessDatabase in
  require (negb (truthy lv && contains KEY_DIR (json_dumps lv))) LivenessKeys.

(** An init container whose command runs fernet_setup. *)
Definition runs_setup (ic : val) : res bool :=
  let* command := get_iter ic "command" in
  let* words := mapM as_str command in
  Ok (contains "fernet_setup" (String.concat " " words)).

Definition check_inits (pod : val) : G val :=
  let* inits := lift (get_iter pod "initContainers") in
  let* ensure := lift (filter_res runs_setup inits) in
  match ensure with
  | [] => let* names := lift (mapM (λ ic, get ic "name") inits) in fail (NoEnsure names)
  | ic :: _ => lift (get ic "name")
  end.

(** ** What the pod's service account may do *)

Definition is_account (sa s : val) : res bool :=
  let* k := get s "kind" in
  if eq_str k "ServiceAccount" then let* n := get s "name" in Ok (py_eq n sa) else Ok false.

(** A binding of the role to the account. *)
Definition binds (role sa rb : val) : res bool :=
  let* k := get rb "kind" in
  if negb (eq_str k "RoleBinding") then Ok false else
  let* ref := get_default rb "roleRef" (VDict []) in
  let* n := get ref "name" in
  let* name := getpath role ["metadata"; "name"] in
  if negb (py_eq n name) then Ok false else
  let* ss := get_iter rb "subjects" in any_res (is_account sa) ss.

Definition WRITES : list string := ["create"; "delete"; "deletecollection"; "patch"; "update"; "*"].

(** The verbs of a rule that writes Secrets of any name. *)
Definition wide_rule (rule : val) : res (option (list string)) :=
  let* rs := get rule "resources" in
  let* secrets := key_in "secrets" (or_ rs (VList [])) in
  if negb secrets then Ok None else
  let* verbs := get_iter rule "verbs" in
  let* verbs := mapM hashable verbs in
  if negb (existsb (λ w, py_in (VStr w) verbs) WRITES) then Ok None else
  let* names := get rule "resourceNames" in
  if truthy names then Ok None else
  let* vs := mapM as_str verbs in
  Ok (Some (sorted_set vs)).

(** Every binding is looked at, whatever the earlier ones said. *)
Definition is_bound (docs : list val) (role sa : val) : res bool :=
  let* bs := mapM (binds role sa) docs in Ok (existsb id bs).

Definition wide_of (docs : list val) (sa doc : val) : res (list (val * list string)) :=
  let* k := get doc "kind" in
  if negb (eq_str k "Role") then Ok [] else
  let* bound := is_bound docs doc sa in
  if negb bound then Ok [] else
  let* rules := get_iter doc "rules" in
  foldM (λ wide rule,
    let* w := wide_rule rule in
    match w with
    | None => Ok wide
    | Some verbs => let* n := getpath doc ["metadata"; "name"] in Ok (wide ++ [(n, verbs)])
    end) [] rules.

Definition check_roles (docs : list val) (pod : val) : G unit :=
  let* sa := lift (get pod "serviceAccountName") in
  let* wide := lift (mapM (wide_of docs sa) docs) in
  match concat wide with [] => mret () | l => fail (WideRoles l) end.

(** The name of the init container that restores the keys. *)
Definition main (rendered : list val + string) : G val :=
  match rendered with
  | inr err => fail (HelmFailed err)
  | inl all =>
      let docs := List.filter truthy all in
      if Nat.eqb (length docs) 0 then fail NothingRendered else
      let* deploys := lift (filter_res (is_named "Deployment" "keystone-api") docs) in
      match deploys with
      | [] => fail NoDeployment
      | d :: _ =>
          let* pod := lift (getpath d ["spec"; "template"; "spec"]) in
          let* cs := lift (getitem pod "containers") in
          let* c := lift (getidx cs 0) in
          let* _ := check_probes c in
          let* ensure := check_inits pod in
          let* _ := check_roles docs pod in
          mret ensure
      end
  end.

(** ** What a passing run has established *)

(** Readiness mentions the keys and what a connection to the database needs; liveness neither. *)
Definition probes_split (c : val) : Prop :=
  ∃ ro lv, get c "readinessProbe" = Ok ro ∧ truthy ro = true ∧
    (∀ w, w ∈ KEY_DIR :: NEEDLES → contains w (json_dumps ro) = true) ∧
    get c "livenessProbe" = Ok lv ∧
    (truthy lv = true → ∀ w, w ∈ [KEY_DIR; "create_connection"; "socket"] →
       contains w (json_dumps lv) = false).

Definition writes_secrets (rule : val) : Prop :=
  ∃ rs verbs w, get rule "resources" = Ok rs ∧ key_in "secrets" (or_ rs (VList [])) = Ok true ∧
    get_iter rule "verbs" = Ok verbs ∧ w ∈ WRITES ∧ py_in (VStr w) verbs = true.

(** A Role bound to the account writes the Secrets it names only. *)
Definition scoped (docs : list val) (sa : val) : Prop :=
  ∀ role rb rules rule, role ∈ docs → get role "kind" = Ok (VStr "Role") →
    rb ∈ docs → binds role sa rb = Ok true →
    get_iter role "rules" = Ok rules → rule ∈ rules → writes_secrets rule →
    ∃ names, get rule "resourceNames" = Ok names ∧ truthy names = true.

Lemma check_probes_clean c : check_probes c = Done [] () → probes_split c.
Proof.
  unfold check_probes. intros H. apply lift_bind_Done in H as (ro & Hro & H).
  apply bind_clean in H as ([] & H1 & H). apply bind_clean in H as ([] & H2 & H).
  apply bind_clean in H as ([] & H3 & H). apply lift_bind_Done in H as (lv & Hlv & H).
  apply bind_clean in H as ([] & H4 & H). rewrite for_clean in H3.
  apply require_clean in H1, H2, H4, H. apply negb_true_iff in H4, H.
  exists ro, lv. do 2 (split; [done|]). split.
  { intros w [->|Hw]%elem_of_cons; [done|]. specialize (H3 w Hw). by apply require_clean in H3. }
  split; [done|]. intros Ht. rewrite Ht in H4, H. cbn [andb] in H4, H. apply orb_false_iff in H4 as [H4 H5].
  intros w Hw. repeat (apply elem_of_cons in Hw as [->|Hw]; [done|]). by apply elem_of_nil in Hw.
Qed.

(** The loop over a role's rules collects nothing only if no rule is wide. *)
Lemma wide_loop_nil (f : res val) rules acc :
  foldM (λ wide rule, let* w := wide_rule rule in
    match w with
    | None => Ok wide
    | Some verbs => let* n := f in Ok (wide ++ [(n, verbs)])
    end) acc rules = Ok [] → acc = [] ∧ ∀ rule, rule ∈ rules → wide_rule rule = Ok None.
Proof.
  revert acc. induction rules as [|r rules IH]; intros acc H; cbn [foldM] in H.
  - injection H as ->. split; [done|]. by intros ? ?%elem_of_nil.
  - apply bind_Ok in H as (acc' & Ha & H). destruct (IH acc' H) as [-> Hr].
    apply bind_Ok in Ha as ([verbs|] & Hw & Ha).
    + apply bind_Ok in Ha as (n & _ & Ha). injection Ha as Ha. by apply app_eq_nil in Ha as [_ ?].
    + injection Ha as ->. split; [done|]. intros rule [->|Hin]%elem_of_cons; auto.
Qed.

Lemma wide_rule_none rule :
  wide_rule rule = Ok None → writes_secrets rule →
  ∃ names, get rule "resourceNames" = Ok names ∧ truthy names = true.
Proof.
  intros H (rs & verbs & w & Hrs & Hs & Hv & Hw & Hin). unfold wide_rule in H.
  rewrite Hrs in H. cbn [mbind res_bind] in H. rewrite Hs in H. cbn [mbind res_bind negb] in H.
  rewrite Hv in H. cbn [mbind res_bind] in H. apply bind_Ok in H as (vs & Hvs & H).
  apply mapM_hashable in Hvs as ->.
  replace (existsb (λ w, py_in (VStr w) verbs) WRITES) with true in H.
  2: { symmetry. apply existsb_exists. exists w. split; [by apply list_elem_of_In|done]. }
  cbn [negb] in H. apply bind_Ok in H as (names & Hn & H). exists names. split; [done|].
  destruct (truthy names); [done|]. by apply bind_Ok in H as (? & _ & ?).
Qed.

Lemma check_roles_clean docs pod :
  check_roles docs pod = Done [] () →
  ∃ sa, get pod "serviceAccountName" = Ok sa ∧ scoped docs sa.
Proof.
  unfold check_roles. intros H. apply lift_bind_Done in H as (sa & Hsa & H).
  apply lift_bind_Done in H as (wide & Hw & H). destruct (concat wide) eqn:E; [|done].
  exists sa. split; [done|]. intros role rb rules rule Hrole Hk Hrb Hb Hrules Hrule.
  apply wide_rule_none. destruct (mapM_covers _ _ _ _ Hw Hrole) as (l & Hl & Hwide).
  assert (l = []) as ->.
  { destruct l as [|x l]; [done|]. assert (Hx : In x (concat wide)).
    { apply in_concat. exists (x :: l). split; [by apply list_elem_of_In|by left]. } by rewrite E in Hx. }
  unfold wide_of in Hwide. rewrite Hk in Hwide. cbn [mbind res_bind eq_str] in Hwide.
  rewrite String.eqb_refl in Hwide. cbn [negb] in Hwide. apply bind_Ok in Hwide as (bound & Hbd & Hwide).
  assert (bound = true) as ->.
  { unfold is_bound in Hbd. apply bind_Ok in Hbd as (bs & Hbs & [= <-]). apply existsb_exists.
    destruct (mapM_covers _ _ _ _ Hbs Hrb) as (b & Hb' & Hbb). rewrite Hb in Hbb. injection Hbb as <-.
    exists true. split; [by apply list_elem_of_In|done]. }
  cbn [negb] in Hwide. rewrite Hrules in Hwide. cbn [mbind res_bind] in Hwide.
  destruct (wide_loop_nil _ _ _ Hwide) as [_ Hr]. by apply Hr.
Qed.

(** A gate that passes has a keystone-api pod whose readiness mentions the fernet keys and
    what a connection to the database needs, whose liveness mentions neither, whose init
    container of that name restores the keys, and whose service account writes only the Secrets
    its Roles name. *)
Theorem keystone_passed rendered name :
  main (inl rendered) = Done [] name →
  ∃ d pod cs c inits ic sa,
    let docs := List.filter truthy rendered in
    d ∈ docs ∧ is_named "Deployment" "keystone-api" d = Ok true ∧
    getpath d ["spec"; "template"; "spec"] = Ok pod ∧ getitem pod "containers" = Ok cs ∧
    getidx cs 0 = Ok c ∧ probes_split c ∧
    get_iter pod "initContainers" = Ok inits ∧ ic ∈ inits ∧ runs_setup ic = Ok true ∧
    get ic "name" = Ok name ∧
    get pod "serviceAccountName" = Ok sa ∧ scoped docs sa.
Proof.
  unfold main. intros H. destruct (Nat.eqb _ 0); [done|].
  apply lift_bind_Done in H as (ds & Hds & H). destruct ds as [|d ds]; [done|].
  apply lift_bind_Done in H as (pod & Hpod & H). apply lift_bind_Done in H as (cs & Hcs & H).
  apply lift_bind_Done in H as (c & Hc & H). apply bind_clean in H as ([] & Hp & H).
  apply bind_clean in H as (n & Hi & H). apply bind_clean in H as ([] & Hr & [= <-]).
  destruct (check_roles_clean _ _ Hr) as (sa & Hsa & Hscoped).
  unfold check_inits in Hi. apply lift_bind_Done in Hi as (inits & Hin & Hi).
  apply lift_bind_Done in Hi as ([|ic ens] & He & Hi); [by apply lift_bind_Done in Hi as (? & _ & ?)|].
  apply lift_Done in Hi as [Hi _].
  destruct (proj1 (filter_res_elem _ _ _ He ic) ltac:(left)) as [Hic Hset].
  destruct (proj1 (filter_res_elem _ _ _ Hds d) ltac:(left)) as [Hd Hnm].
  exists d, pod, cs, c, inits, ic, sa. repeat (split; [by auto using check_probes_clean|]). done.
Qed.

(** ** Charts *)

Definition sample_exec (script : string) : val :=
  VDict [("exec", VDict [("command", VList [VStr "python3"; VStr "-c"; VStr script])])].
Definition sample_pod (script : string) (resources : list string) (names : list string) : list val :=
  [VDict [("kind", VStr "Deployment"); ("metadata", VDict [("name", VStr "keystone-api")]);
     ("spec", VDict [("template", VDict [("spec", VDict [
        ("serviceAccountName", VStr "keystone-api");
        ("initContainers", VList [VDict [("name", VStr "ensure-keys");
           ("command", VList [VStr "keystone-manage"; VStr "fernet_setup"])]]);
        ("containers", VList [VDict [("readinessProbe", sample_exec script);
           ("livenessProbe", VDict [("httpGet", VDict [("path", VStr "/healthcheck")])])]])])])])];
   VDict [("kind", VStr "Role"); ("metadata", VDict [("name", VStr "keystone-keys")]);
     ("rules", VList [VDict [("resources", VList (map VStr resources)); ("verbs", VList [VStr "update"]);
        ("resourceNames", VList (map VStr names))]])];
   VDict [("kind", VStr "RoleBinding"); ("roleRef", VDict [("name", VStr "keystone-keys")]);
     ("subjects", VList [VDict [("kind", VStr "ServiceAccount"); ("name", VStr "keystone-api")]])]].

Definition good_script : string :=
  "import os, socket; os.listdir('/etc/keystone/fernet-keys'); read('keystone.conf', 'keystone.conf.d'); socket.create_connection(t)".

Lemma keystone_passed_witness :
  main (inl (sample_pod good_script ["secrets"] ["keystone-fernet-keys"])) = Done [] (VStr "ensure-keys") ∧
  main (inl (sample_pod good_script ["secrets"] [])) =
    fail (WideRoles [(VStr "keystone-keys", ["update"])]) ∧
  ∃ d pod cs c inits ic sa,
    let docs := List.filter truthy (sample_pod good_script ["secrets"] ["keystone-fernet-keys"]) in
    d ∈ docs ∧ is_named "Deployment" "keystone-api" d = Ok true ∧
    getpath d ["spec"; "template"; "spec"] = Ok pod ∧ getitem pod "containers" = Ok cs ∧
    getidx cs 0 = Ok c ∧ probes_split c ∧
    get_iter pod "initContainers" = Ok inits ∧ ic ∈ inits ∧ runs_setup ic = Ok true ∧
    get ic "name" = Ok (VStr "ensure-keys") ∧
    get pod "serviceAccountName" = Ok sa ∧ scoped docs sa.
Proof.
  split; [vm_compute; reflexivity|]. split; [vm_compute; reflexivity|].
  apply keystone_passed. vm_compute. reflexivity.
Defined.

(** The test of the database check is on the probe's text: a comment that names what the check
    looks for is enough, and a mention of keystone.conf.d is one of keystone.conf. *)
Example comment_passes :
  main (inl (sample_pod "True # no socket.create_connection from keystone.conf.d, nor /etc/keystone/fernet-keys"
               ["secrets"] ["keystone-fernet-keys"])) = Done [] (VStr "ensure-keys").
Proof. vm_compute. reflexivity. Qed.

(** A rule on every resource is not read as one on Secrets. *)
Example every_resource :
  main (inl (sample_pod good_script ["*"] [])) = Done [] (VStr "ensure-keys").
Proof. vm_compute. reflexivity. Qed.
End Keystone.
