(* ===== verification/Horizon.v ===== *)
(** * hack/validate-horizon-liveness.py: no probe that restarts horizon enters Django

    The gate stops at its first problem. The rendered chart is the input: the settings and the
    site configuration are read from its Secret. *)
From S2P Require Import Prelude PyStr PyVal PyRe Base64 Gate Manifests.
#[local] Open Scope string_scope.
#[local] Open Scope list_scope.

Module Horizon.

Definition CACHES : re := Eval vm_compute in the (compile "^CACHES\s*=\s*\{(.*?)^\}") Eps.
Definition BACKEND : re := Eval vm_compute in the (compile "'BACKEND':\s*'([^']+)'") Eps.
Definition ALIAS : re := Eval vm_compute in the (compile "^\s*Alias\s+(\S+)\s+(\S+)") Eps.

Inductive problem :=
  | HelmFailed (err : string)
  | NothingRendered
  | NoSecret
  | NoCacheBackend
  | NotMemcached (backend : string)
  | NoAlias
  | NoDeployment
  | NoContainer
  | NoLiveness
  | EntersDjango (kind prefix : string) (probe : val).

(** Status 2: nothing was measured. *)
Definition unmeasured (p : problem) : bool :=
  match p with NothingRendered | NoSecret | NoCacheBackend | NoAlias => true | _ => false end.

Definition G := gate problem Empty_set.
Definition fail {A} (p : problem) : G A := measurement_failed p.

Definition status {A} (v : verdict problem Empty_set A) : Z :=
  match v with Passed _ => 0 | NotMeasured p => if unmeasured p then 2 else 1 | _ => 1 end.

(** [base64.b64decode(data[k]).decode()] *)
Definition decoded (data : val) (k : string) : res string :=
  let* raw := getitem data k in
  let* s := as_str raw in
  match b64decode_text s with Some t => Ok t | None => Raise ValueError end.

Definition cache_backend (local_settings : string) : option string :=
  match search MS CACHES local_settings with
  | None => None
  | Some caches => option_map (λ m, group' m 1) (search no_flags BACKEND (group' caches 1))
  end.

(** What Apache serves itself, with one slash at the end. *)
Definition static_prefix (apache_conf : string) : option string :=
  option_map (λ m, (rstrip_char "/" (group' m 1) ++ "/")%string) (search M_ ALIAS apache_conf).

(** [not path or not path.startswith(prefix)] *)
Definition outside (prefix : string) (path : val) : res bool :=
  if negb (truthy path) then Ok true else
  match path with VStr s => Ok (negb (startswith prefix s)) | _ => Raise AttributeError end.

Definition check_probe (prefix : string) (c : val) (kind : string) : G unit :=
  let* probe := lift (get c kind) in
  if negb (truthy probe) then mret () else
  let* tcp := lift (key_in "tcpSocket" probe) in
  if tcp : bool then mret () else
  let* h := lift (get_dict probe "httpGet") in
  let* path := lift (get h "path") in
  let* out := lift (outside prefix path) in
  require (negb out) (EntersDjango kind prefix probe).

(** [[c for c in pod["containers"] if c["name"] == name]] *)
Definition named (name : string) (c : val) : res bool :=
  let* n := getitem c "name" in Ok (eq_str n name).

(** The prefix and the backend that a passing run reports. *)
Definition main (rendered : list val + string) : G (string * string) :=
  match rendered with
  | inr err => fail (HelmFailed err)
  | inl all =>
      let docs := List.filter truthy all in
      let* _ := require (negb (Nat.eqb (length docs) 0)) NothingRendered in
      let* etc := lift (filter_res (is_named "Secret" "horizon-etc") docs) in
      match etc with
      | [] => fail NoSecret
      | secret :: _ =>
      let* data := lift (getitem secret "data") in
      let* local_settings := lift (decoded data "local_settings") in
      let* apache_conf := lift (decoded data "horizon.conf") in
      match cache_backend local_settings with
      | None => fail NoCacheBackend
      | Some backend =>
      let* _ := require (contains "memcached" backend) (NotMemcached backend) in
      match static_prefix apache_conf with
      | None => fail NoAlias
      | Some prefix =>
      let* deploys := lift (filter_res (is_named "Deployment" "horizon") docs) in
      match deploys with
      | [] => fail NoDeployment
      | d :: _ =>
      let* cs := lift (pod_containers d) in
      let* srv := lift (filter_res (named "horizon") cs) in
      match srv with
      | [] => fail NoContainer
      | c :: _ =>
      let* live := lift (get c "livenessProbe") in
      let* _ := require (truthy live) NoLiveness in
      let* _ := for_ ["livenessProbe"; "startupProbe"] (check_probe prefix c) in
      mret (prefix, backend)
      end
      end
      end
      end
      end
  end.

(** ** What a passing run has established *)

(** A probe of a kind that restarts the container opens a socket only, or asks for a path that
    Apache serves. *)
Definition stays_static (prefix : string) (c : val) (kind : string) : Prop :=
  ∀ probe, get c kind = Ok probe → truthy probe = true →
    key_in "tcpSocket" probe = Ok true ∨
    ∃ h p, get_dict probe "httpGet" = Ok h ∧ get h "path" = Ok (VStr p) ∧ startswith prefix p = true.

Lemma stays_static_clean prefix c kind :
  check_probe prefix c kind = Done [] () → stays_static prefix c kind.
Proof.
  unfold check_probe. intros H probe Hp Ht. rewrite Hp in H.
  apply lift_bind_Done in H as (p & [= <-] & H). rewrite Ht in H. cbn [negb] in H.
  apply lift_bind_Done in H as ([] & Htcp & H); [by left|right].
  apply lift_bind_Done in H as (h & Hh & H). apply lift_bind_Done in H as (path & Hpath & H).
  apply lift_bind_Done in H as (out & Hout & H). apply require_clean, negb_true_iff in H as ->.
  unfold outside in Hout. destruct (truthy path); [|done]. cbn [negb] in Hout.
  destruct path; try done. injection Hout as Hout%negb_false_iff. eauto.
Qed.

(** When the gate passes, the default cache is still memcached, horizon has a liveness
    probe, and its liveness and startup probes open a socket or ask for a path under the prefix
    that Apache serves without Django. *)
Theorem horizon_passed rendered prefix backend :
  main (inl rendered) = Done [] (prefix, backend) →
  ∃ secret data settings conf d cs c live,
    let docs := List.filter truthy rendered in
    secret ∈ docs ∧ is_named "Secret" "horizon-etc" secret = Ok true ∧
    getitem secret "data" = Ok data ∧
    decoded data "local_settings" = Ok settings ∧ decoded data "horizon.conf" = Ok conf ∧
    cache_backend settings = Some backend ∧ contains "memcached" backend = true ∧
    static_prefix conf = Some prefix ∧
    d ∈ docs ∧ is_named "Deployment" "horizon" d = Ok true ∧
    pod_containers d = Ok cs ∧ c ∈ cs ∧ named "horizon" c = Ok true ∧
    get c "livenessProbe" = Ok live ∧ truthy live = true ∧
    stays_static prefix c "livenessProbe" ∧ stays_static prefix c "startupProbe".
Proof.
  unfold main. intros H. apply bind_clean in H as ([] & _ & H).
  apply lift_bind_Done in H as ([|secret etc] & Hetc & H); [done|].
  apply lift_bind_Done in H as (data & Hdata & H). apply lift_bind_Done in H as (settings & Hset & H).
  apply lift_bind_Done in H as (conf & Hconf & H).
  destruct (cache_backend settings) as [b|] eqn:Eb; [|done].
  apply bind_clean in H as ([] & Hm & H). apply require_clean in Hm.
  destruct (static_prefix conf) as [p|] eqn:Ep; [|done].
  apply lift_bind_Done in H as ([|d ds] & Hds & H); [done|]. apply lift_bind_Done in H as (cs & Hcs & H).
  apply lift_bind_Done in H as ([|c srv] & Hsrv & H); [done|].
  apply lift_bind_Done in H as (live & Hl & H). apply bind_clean in H as ([] & Ht & H).
  apply require_clean in Ht. apply bind_clean in H as ([] & Hf & [= -> ->]). rewrite for_clean in Hf.
  destruct (proj1 (filter_res_elem _ _ _ Hetc secret) ltac:(left)).
  destruct (proj1 (filter_res_elem _ _ _ Hds d) ltac:(left)).
  destruct (proj1 (filter_res_elem _ _ _ Hsrv c) ltac:(left)).
  exists secret, data, settings, conf, d, cs, c, live. cbn zeta. do 15 (split; [done|]).
  split; apply stays_static_clean, Hf; set_solver.
Qed.

(** ** Charts *)

(** The settings with a memcached cache and with a local one, and the site configuration, as the
    Secret carries them. *)
Definition memcached_settings : string := "REVCVUcgPSBGYWxzZQpDQUNIRVMgPSB7CiAgICAnZGVmYXVsdCc6IHsKICAgICAgICAnQkFDS0VORCc6ICdkamFuZ28u
Y29yZS5jYWNoZS5iYWNrZW5kcy5tZW1jYWNoZWQuUHlNZW1jYWNoZUNhY2hlJywKICAgIH0KfQpTRVNTSU9OX0VOR0lO
RSA9ICd4Jwo=".
Definition local_settings : string := "REVCVUcgPSBGYWxzZQpDQUNIRVMgPSB7CiAgICAnZGVmYXVsdCc6IHsKICAgICAgICAnQkFDS0VORCc6ICdkamFuZ28u
Y29yZS5jYWNoZS5iYWNrZW5kcy5sb2NtZW0uTG9jTWVtQ2FjaGUnLAogICAgfQp9ClNFU1NJT05fRU5HSU5FID0gJ3gn
Cg==".
Definition site : string := "PFZpcnR1YWxIb3N0ICo6ODA+CiAgV1NHSVNjcmlwdEFsaWFzIC8gL3Zhci93d3cvaG9yaXpvbi53c2dpCiAgQWxpYXMg
L3N0YXRpYyAvdmFyL3d3dy9zdGF0aWMKPC9WaXJ0dWFsSG9zdD4K".

Definition sample_docs (settings path : string) : list val :=
  [VDict [("kind", VStr "Secret"); ("metadata", VDict [("name", VStr "horizon-etc")]);
     ("data", VDict [("local_settings", VStr settings); ("horizon.conf", VStr site)])];
   VDict [("kind", VStr "Deployment"); ("metadata", VDict [("name", VStr "horizon")]);
     ("spec", VDict [("template", VDict [("spec", VDict [("containers", VList [VDict
        [("name", VStr "horizon");
         ("livenessProbe", VDict [("httpGet", VDict [("path", VStr path)])]);
         ("startupProbe", VDict [("tcpSocket", VDict [("port", VInt 80)])])]])])])])]].

Definition favicon : string := "/static/dashboard/img/favicon.ico".

Lemma horizon_passed_witness :
  main (inl (sample_docs memcached_settings favicon)) =
    Done [] ("/static/", "django.core.cache.backends.memcached.PyMemcacheCache") ∧
  (∃ p, main (inl (sample_docs memcached_settings "/")) = fail (EntersDjango "livenessProbe" "/static/" p)) ∧
  main (inl (sample_docs local_settings favicon)) =
    fail (NotMemcached "django.core.cache.backends.locmem.LocMemCache") ∧
  ∃ secret data settings conf d cs c live,
    let docs := List.filter truthy (sample_docs memcached_settings favicon) in
    secret ∈ docs ∧ is_named "Secret" "horizon-etc" secret = Ok true ∧
    getitem secret "data" = Ok data ∧
    decoded data "local_settings" = Ok settings ∧ decoded data "horizon.conf" = Ok conf ∧
    cache_backend settings = Some "django.core.cache.backends.memcached.PyMemcacheCache" ∧
    contains "memcached" "django.core.cache.backends.memcached.PyMemcacheCache" = true ∧
    static_prefix conf = Some "/static/" ∧
    d ∈ docs ∧ is_named "Deployment" "horizon" d = Ok true ∧
    pod_containers d = Ok cs ∧ c ∈ cs ∧ named "horizon" c = Ok true ∧
    get c "livenessProbe" = Ok live ∧ truthy live = true ∧
    stays_static "/static/" c "livenessProbe" ∧ stays_static "/static/" c "startupProbe".
Proof.
  split; [vm_compute; reflexivity|]. split; [eexists; vm_compute; reflexivity|].
  split; [vm_compute; reflexivity|]. apply horizon_passed. vm_compute. reflexivity.
Defined.
End Horizon.
