(* ===== verification/ConfigRefs.v ===== *)
(** * hack/validate-config-file-refs.py: a config file that a start script names is delivered

    Every chart is rendered; each path that a start script passes to a configuration flag, or that
    a mounted uwsgi ini names, must come from a mount, be written by a script of the pod, or be
    waived. The parsed output of helm for each chart and the parsed waivers are the input. *)
From S2P Require Import Prelude PyStr PyVal PyRe PyText Base64 Gate Manifests.
#[local] Open Scope string_scope.
#[local] Open Scope list_scope.

Module ConfigRefs.

Definition FLAG_RE : re := Eval vm_compute in
  the (compile (dq "--(?:config-file|config-dir|log-config-append)[=\s]+[\`']?(/[^\s\`'\\]+)")) Eps.
Definition WSGI_RE : re := Eval vm_compute in the (compile "^\s*wsgi-file\s*=\s*(\S+)\s*$") Eps.

Inductive problem :=
  | RenderFailed (chart err : string)
  | Undelivered (chart : string) (kind name container : val) (path : string).

(** The other ways to end with status 1. *)
Inductive stopped :=
  | NoWaivers | NoReason (chart : string) (path : val) | NoCharts | NothingChecked (ps : list problem).

Definition G := gate stopped problem.

(** ** Reading the rendered objects *)

(** The text of every ConfigMap and Secret by name; what does not decode is left out. *)
Definition payload : Type := list (string * val).
Definition payload_of (secret : bool) (data : list (string * val)) : payload :=
  if secret then
    omap (λ '(k, v), match v with
      | VStr s => match b64decode_text s with Some t => Some (k, VStr t) | None => None end
      | _ => None end) data
  else data.

(** Bodies are kept as mappings, so that the mapping of names can hold them. *)
Definition payloads (docs : list val) : res (list (val * val)) :=
  foldM (λ out d,
    if negb (is_dict d) then Ok out else
    let* k := get d "kind" in
    if negb (existsb (eq_str k) ["ConfigMap"; "Secret"]) then Ok out else
    let* md := get_default d "metadata" (VDict []) in
    let* name := get md "name" in
    let* data := get_dict d "data" in
    let* data := items data in
    let* name := hashable name in
    Ok (vset name (VDict (payload_of (eq_str k "Secret") data)) out)) [] docs.

(** [v.get(k1, {}).get(k2, {})...] *)
Fixpoint get_chain (v : val) (ks : list string) : res val :=
  match ks with
  | [] => Ok v
  | [k] => get v k
  | k :: ks' => let* w := get_default v k (VDict []) in get_chain w ks'
  end.

Definition SPEC_AT : list (string * list string) :=
  [("Deployment", ["spec"; "template"; "spec"]); ("StatefulSet", ["spec"; "template"; "spec"]);
   ("DaemonSet", ["spec"; "template"; "spec"]); ("ReplicaSet", ["spec"; "template"; "spec"]);
   ("Job", ["spec"; "template"; "spec"]);
   ("CronJob", ["spec"; "jobTemplate"; "spec"; "template"; "spec"]); ("Pod", ["spec"])].

Definition all_containers (spec : val) : res (list val) :=
  let* i := get spec "initContainers" in
  let* c := get spec "containers" in
  concat_vals (or_ i (VList [])) (or_ c (VList [])).

Record item := { w_kind : val; w_name : val; w_spec : val; w_container : val }.

Definition workload (d : val) : res (list item) :=
  if negb (is_dict d) then Ok [] else
  let* kind := get d "kind" in
  match List.find (λ '(k, _), eq_str kind k) SPEC_AT with
  | None => Ok []
  | Some (_, path) =>
      let* spec := get_chain d path in
      if negb (truthy spec) then Ok [] else
      let* md := get_default d "metadata" (VDict []) in
      let* name := get_default md "name" (VStr "?") in
      let* cs := all_containers spec in
      Ok (map (λ c, {| w_kind := kind; w_name := name; w_spec := spec; w_container := c |}) cs)
  end.

Definition workloads (docs : list val) : res (list item) :=
  let* l := mapM workload docs in Ok (concat l).

(** ** What a container can read *)

(** The paths that are known to exist, and the directories with unknown contents. *)
Record delivery := { files : list string; opaque : list string }.

(** Where a mount's files come from: its path, the name of its ConfigMap or Secret, its keys. *)
Record source := { s_path : string; s_name : val; s_keys : list val }.

Definition volumes (spec : val) : res (list (val * val)) :=
  let* vs := get_iter spec "volumes" in
  foldM (λ vols v, let* n := get v "name" in let* n := hashable n in Ok (vset n v vols)) [] vs.

Definition rstrip_val (v : val) : res string :=
  match or_ v (VStr "") with VStr s => Ok (rstrip_char "/" s) | _ => Raise AttributeError end.

Definition item_keys (items : val) : res (list val) :=
  let* l := py_iter items in
  let* ks := mapM (λ i, get i "key") l in mapM hashable (List.filter truthy ks).

Definition source_of (vols cms : list (val * val)) (m : val) (path : string) : res source :=
  let* n := get m "name" in
  let* n := hashable n in
  let v := or_ (default VNone (vget n vols)) (VDict []) in
  let* cm := get v "configMap" in
  let* src := (if truthy cm then Ok cm else let* s := get v "secret" in Ok (or_ s (VDict []))) in
  let* name := get src "name" in
  let* name := (if truthy name then Ok name else get src "secretName") in
  let* keys := (if negb (truthy name) then Ok [] else
                let* name := hashable name in py_iter (default (VDict []) (vget name cms))) in
  let* its := get src "items" in
  let* keys := (if truthy its then item_keys its else Ok keys) in
  Ok {| s_path := path; s_name := name; s_keys := keys |}.

(** The paths of a mount of a known source. *)
Definition mounted (m : val) (s : source) : res (list string) :=
  let* sub := get m "subPath" in
  if truthy sub then
    let* sub := hashable sub in Ok (if py_in sub (s_keys s) then [s_path s] else [])
  else
    let* ks := mapM as_str (s_keys s) in Ok (map (λ k, s_path s ++ "/" ++ k)%string ks).

Definition deliver (vols cms : list (val * val)) (dl : delivery) (m : val) : res delivery :=
  let* mp := get m "mountPath" in
  let* path := rstrip_val mp in
  if String.eqb path "" then Ok dl else
  let* s := source_of vols cms m path in
  if negb (truthy (s_name s)) then Ok {| files := files dl; opaque := opaque dl ++ [path] |} else
  let* ps := mounted m s in
  Ok {| files := files dl ++ ps; opaque := opaque dl |}.

Definition delivered (spec container : val) (cms : list (val * val)) : res delivery :=
  let* vols := volumes spec in
  let* ms := get_iter container "volumeMounts" in
  foldM (deliver vols cms) {| files := []; opaque := [] |} ms.

Definition mem (x : string) (l : list string) : bool := existsb (String.eqb x) l.

Definition covered (path : string) (d : delivery) : bool :=
  let p := rstrip_char "/" path in mem p (files d) || mem p (opaque d).

(** ** What a container runs *)

Definition basename (token : string) : string := List.last (split_on "/" token) "".

(** The entry of that name in each payload that has one. *)
Definition texts_of (cms : list (val * val)) (key : string) : list val :=
  omap (λ kv, match kv.2 with VDict d => assoc key d | _ => None end) cms.

Definition script_for (container : val) (cms : list (val * val)) : res (list val) :=
  let* cmd := get_iter container "command" in
  Ok (concat (map (λ token, match token with
    | VStr t => if startswith "/" t then texts_of cms (basename t) else []
    | _ => [] end) cmd)).

Definition writes (path line : string) : bool :=
  contains path line && negb (contains "--config-file" line) && negb (contains "--config-dir" line)
  && negb (contains "--log-config-append" line).

Definition text_writes (path : string) (text : val) : res bool :=
  match text with VStr s => Ok (existsb (writes path) (splitlines s)) | _ => Raise AttributeError end.

Definition written_in_pod (path : string) (spec : val) (cms : list (val * val)) : res bool :=
  let* cs := all_containers spec in
  any_res (λ c, let* ts := script_for c cms in any_res (text_writes path) ts) cs.

(** [r.findall(text)], which only strings have. *)
Definition find_in (fl : flags) (r : re) (text : val) : res (list string) :=
  match text with VStr s => Ok (findall fl r s) | _ => Raise TypeError end.

Definition script_refs (container : val) (cms : list (val * val)) : res (list string) :=
  let* ts := script_for container cms in
  let* l := mapM (find_in no_flags FLAG_RE) ts in Ok (concat l).

(** An ini belongs to the container that mounts it. *)
Definition ini_refs (cms : list (val * val)) (m : val) : res (list string) :=
  let* sub := get m "subPath" in
  match or_ sub (VStr "") with
  | VStr s =>
      if endswith ".ini" s
      then let* l := mapM (find_in M_ WSGI_RE) (texts_of cms s) in Ok (concat l) else Ok []
  | _ => Raise AttributeError
  end.

Definition refs_of (container : val) (cms : list (val * val)) : res (list string) :=
  let* a := script_refs container cms in
  let* ms := get_iter container "volumeMounts" in
  let* b := mapM (ini_refs cms) ms in
  Ok (sorted_set (a ++ concat b)).

(** ** The verdict *)

(** The waived paths of each chart; an entry without a reason stops the gate. *)
Definition read_waiver (chart : string) (allowed : list (string * val)) (e : val) : G (list (string * val)) :=
  let* reason := lift (get e "reason") in
  if negb (truthy reason) then let* p := lift (get e "path") in measurement_failed (NoReason chart p) else
  let* p := lift (getitem e "path") in
  let* p := lift (hashable p) in
  mret (allowed ++ [(chart, p)]).

Definition read_waivers (waivers : option val) : G (list (string * val)) :=
  match waivers with
  | None => measurement_failed NoWaivers
  | Some w =>
      let* ws := lift (get_dict (or_ w (VDict [])) "waivers") in
      let* kvs := lift (items ws) in
      fold_ (λ allowed kv,
        let* es := lift (py_iter kv.2) in fold_ (read_waiver kv.1) allowed es) [] kvs
  end.

Definition waived (allowed : list (string * val)) (chart path : string) : bool :=
  existsb (λ '(c, p), String.eqb c chart && eq_str p path) allowed.

(** A reference under a directory with unknown contents counts when a script writes it. *)
Definition in_opaque (d : delivery) (path : string) : bool :=
  existsb (λ dir, startswith (dir ++ "/") path) (opaque d).

Definition check_ref (allowed : list (string * val)) (chart : string) (cms : list (val * val))
    (w : item) (d : delivery) (path : string) : G unit :=
  if covered path d then mret () else
  let* written := lift (if in_opaque d path then written_in_pod path (w_spec w) cms else Ok false) in
  if written : bool then mret () else
  if waived allowed chart path then mret () else
  let* name := lift (get (w_container w) "name") in
  fail (Undelivered chart (w_kind w) (w_name w) name path).

(** The number of references of a container. *)
Definition check_container (allowed : list (string * val)) (chart : string) (cms : list (val * val))
    (n : nat) (w : item) : G nat :=
  let* d := lift (delivered (w_spec w) (w_container w) cms) in
  let* refs := lift (refs_of (w_container w) cms) in
  let* _ := for_ refs (check_ref allowed chart cms w d) in
  mret (n + length refs).

Definition check_chart (allowed : list (string * val)) (n : nat)
    (chart : string * (list val + string)) : G nat :=
  match chart.2 with
  | inr err => let* _ := fail (RenderFailed chart.1 err) in mret n
  | inl docs =>
      let* cms := lift (payloads docs) in
      let* ws := lift (workloads docs) in
      fold_ (check_container allowed chart.1 cms) n ws
  end.

Definition check_all (waivers : option val) (charts : list (string * (list val + string))) : G nat :=
  let* allowed := read_waivers waivers in
  if Nat.eqb (length charts) 0 then measurement_failed NoCharts else
  fold_ (check_chart allowed) 0%nat charts.

(** A scan that found nothing to check fails, whatever else it found. *)
Definition main (waivers : option val) (charts : list (string * (list val + string))) : G nat :=
  match check_all waivers charts with
  | Done ps 0%nat => measurement_failed (NothingChecked ps)
  | g => g
  end.

(** ** What a passing run has established *)

(** The container mounts the file itself, or the directory that is named. *)
Definition mounts_file (spec container : val) (cms : list (val * val)) (path : string) : Prop :=
  ∃ vols ms m mp dir,
    volumes spec = Ok vols ∧ get_iter container "volumeMounts" = Ok ms ∧ m ∈ ms ∧
    get m "mountPath" = Ok mp ∧ rstrip_val mp = Ok dir ∧ dir ≠ "" ∧
    ∃ s, source_of vols cms m dir = Ok s ∧
      ((truthy (s_name s) = false ∧ dir = path) ∨
       (truthy (s_name s) = true ∧ ∃ ps, mounted m s = Ok ps ∧ path ∈ ps)).

Definition accounted (allowed : list (string * val)) (chart : string) (cms : list (val * val))
    (w : item) (path : string) : Prop :=
  mounts_file (w_spec w) (w_container w) cms (rstrip_char "/" path) ∨
  written_in_pod path (w_spec w) cms = Ok true ∨
  waived allowed chart path = true.

Lemma mem_elem x l : mem x l = true ↔ x ∈ l.
Proof.
  unfold mem. rewrite existsb_exists, list_elem_of_In. split.
  - by intros (y & Hy & <-%String.eqb_eq).
  - intros H. exists x. by rewrite String.eqb_refl.
Qed.

(** Everything that is delivered comes from a mount. *)
Lemma delivered_mounts spec container cms d path :
  delivered spec container cms = Ok d → path ∈ files d ∨ path ∈ opaque d →
  mounts_file spec container cms path.
Proof.
  unfold delivered. intros H. apply bind_Ok in H as (vols & Hv & H). apply bind_Ok in H as (ms & Hm & H).
  revert path. refine (foldM_invariant_in (λ d, ∀ path, path ∈ files d ∨ path ∈ opaque d →
    mounts_file spec container cms path) _ _ _ _ _ _ H).
  - intros dl m dl' Hin IH Hd. unfold deliver in Hd. apply bind_Ok in Hd as (mp & Hmp & Hd).
    apply bind_Ok in Hd as (dir & Hdir & Hd). destruct (String.eqb_spec dir "") as [->|Hne].
    { injection Hd as <-. exact IH. }
    apply bind_Ok in Hd as (s & Hs & Hd). destruct (truthy (s_name s)) eqn:Et; cbn [negb] in Hd.
    + apply bind_Ok in Hd as (ps & Hps & [= <-]). cbn [files opaque].
      intros path [[Hf|Hf]%elem_of_app|Ho]; [by apply IH; left| |by apply IH; right].
      exists vols, ms, m, mp, dir. do 6 (split; [done|]). exists s. split; [done|]. right. eauto.
    + injection Hd as <-. cbn [files opaque].
      intros path [Hf|[Ho|Ho]%elem_of_app]; [by apply IH; left|by apply IH; right|].
      apply list_elem_of_singleton in Ho as ->.
      exists vols, ms, m, mp, dir. do 6 (split; [done|]). exists s. split; [done|]. by left.
  - cbn. intros path [[]%elem_of_nil|[]%elem_of_nil].
Qed.

Lemma check_ref_clean allowed chart cms w d path :
  delivered (w_spec w) (w_container w) cms = Ok d →
  check_ref allowed chart cms w d path = Done [] () → accounted allowed chart cms w path.
Proof.
  intros Hd H. unfold check_ref in H. destruct (covered path d) eqn:Ec.
  { left. eapply delivered_mounts; [done|]. unfold covered in Ec.
    by apply orb_true_iff in Ec as [Ec%mem_elem|Ec%mem_elem]; [left|right]. }
  apply lift_bind_Done in H as ([] & Hw & H).
  - right. left. by destruct (in_opaque d path).
  - right. right. destruct (waived allowed chart path); [done|].
    by apply lift_bind_Done in H as (? & _ & ?).
Qed.

(** Every waiver in force has an entry with a reason. *)
Definition reasoned (w : val) (chart : string) (p : val) : Prop :=
  ∃ ws kvs es e reason, get_dict (or_ w (VDict [])) "waivers" = Ok ws ∧ items ws = Ok kvs ∧
    (∃ entries, (chart, entries) ∈ kvs ∧ py_iter entries = Ok es) ∧ e ∈ es ∧
    getitem e "path" = Ok p ∧ get e "reason" = Ok reason ∧ truthy reason = true.

Lemma read_waivers_reasoned waivers allowed :
  read_waivers waivers = Done [] allowed →
  ∃ w, waivers = Some w ∧ ∀ chart p, (chart, p) ∈ allowed → reasoned w chart p.
Proof.
  unfold read_waivers. destruct waivers as [w|]; [|done]. intros H. exists w. split; [done|].
  apply lift_bind_Done in H as (ws & Hws & H). apply lift_bind_Done in H as (kvs & Hkvs & H).
  revert H. apply (fold_keeps (λ a, ∀ chart p, (chart, p) ∈ a → reasoned w chart p)).
  2: { by intros ?? ?%elem_of_nil. }
  intros a kv a' Hin Ha H. apply lift_bind_Done in H as (es & Hes & H). revert H.
  apply (fold_keeps (λ a, ∀ chart p, (chart, p) ∈ a → reasoned w chart p)); [|exact Ha].
  intros b e b' He Hb H. unfold read_waiver in H.
  apply lift_bind_Done in H as (reason & Hr & H). destruct (truthy reason) eqn:Et; cbn [negb] in H.
  2: { by apply lift_bind_Done in H as (? & _ & ?). }
  apply lift_bind_Done in H as (p & Hp & H). apply lift_bind_Done in H as (p' & Hp' & [= <-]).
  apply hashable_Ok in Hp' as ->. intros chart q [Hq|Hq]%elem_of_app; [by apply Hb|].
  apply list_elem_of_singleton in Hq as [= -> ->]. destruct kv as [chart entries].
  exists ws, kvs, es, e, reason. eauto 10.
Qed.

(** A gate that passes has checked at least one reference, and every path that a start
    script or a mounted uwsgi ini of any chart names is mounted in its container from a source
    that has it, lies in a directory with unknown contents that the container mounts itself, is
    written by a script of the pod, or is waived with a reason. *)
Theorem config_refs_passed waivers charts n :
  main waivers charts = Done [] n →
  (0 < n)%nat ∧ ∃ w allowed, waivers = Some w ∧ read_waivers waivers = Done [] allowed ∧
    (∀ chart p, (chart, p) ∈ allowed → reasoned w chart p) ∧ charts ≠ [] ∧
    ∀ name out, (name, out) ∈ charts → ∃ docs cms ws,
      out = inl docs ∧ payloads docs = Ok cms ∧ workloads docs = Ok ws ∧
      ∀ i, i ∈ ws → ∃ refs, refs_of (w_container i) cms = Ok refs ∧
        ∀ path, path ∈ refs → accounted allowed name cms i path.
Proof.
  unfold main. destruct (check_all waivers charts) as [ps k|] eqn:E; [|done].
  destruct k as [|k]; [done|]. intros [= -> <-]. split; [lia|].
  unfold check_all in E. apply bind_clean in E as (allowed & Ha & H).
  destruct (read_waivers_reasoned _ _ Ha) as (w & Hw & Hr). exists w, allowed.
  do 3 (split; [done|]). split; [by destruct charts|].
  destruct (Nat.eqb _ 0); [done|]. intros name out Hin.
  destruct (fold_clean _ _ _ _ H _ Hin) as (b1 & b2 & Hc). unfold check_chart in Hc. cbn [fst snd] in Hc.
  destruct out as [docs|err]; [|done]. apply lift_bind_Done in Hc as (cms & Hcms & Hc).
  apply lift_bind_Done in Hc as (ws & Hws & Hc). exists docs, cms, ws. do 3 (split; [done|]).
  intros i Hi. destruct (fold_clean _ _ _ _ Hc i Hi) as (b3 & b4 & Hx). unfold check_container in Hx.
  apply lift_bind_Done in Hx as (d & Hd & Hx). apply lift_bind_Done in Hx as (refs & Hrefs & Hx).
  apply bind_clean in Hx as ([] & Hx & _). exists refs. split; [done|]. intros path Hp.
  rewrite for_clean in Hx. eapply check_ref_clean; [done|]. by apply Hx.
Qed.

(** The status of the process. *)
Definition status (v : verdict stopped problem nat) : Z := match v with Passed _ => 0 | _ => 1 end.

(** ** Charts *)

Definition sample_chart (script : string) (mounts : list val) : list val :=
  [VDict [("kind", VStr "ConfigMap"); ("metadata", VDict [("name", VStr "cyborg-bin")]);
          ("data", VDict [("cyborg-api.sh", VStr script)])];
   VDict [("kind", VStr "Secret"); ("metadata", VDict [("name", VStr "cyborg-etc")]);
          ("data", VDict [("cyborg.conf", VStr "W0RFRkFVTFRd")])];
   VDict [("kind", VStr "Deployment"); ("metadata", VDict [("name", VStr "cyborg-api")]);
     ("spec", VDict [("template", VDict [("spec", VDict [
        ("volumes", VList [
           VDict [("name", VStr "pod-tmp"); ("emptyDir", VDict [])];
           VDict [("name", VStr "etc"); ("secret", VDict [("secretName", VStr "cyborg-etc")])]]);
        ("containers", VList [VDict [("name", VStr "cyborg-api");
           ("command", VList [VStr "/tmp/cyborg-api.sh"; VStr "start"]);
           ("volumeMounts", VList (VDict [("name", VStr "pod-tmp"); ("mountPath", VStr "/tmp")] :: mounts))]])])])])]].

Definition etc_mount : val :=
  VDict [("name", VStr "etc"); ("mountPath", VStr "/etc/cyborg/cyborg.conf"); ("subPath", VStr "cyborg.conf")].
Definition api_script : string := "exec cyborg-api --config-file /etc/cyborg/cyborg.conf".
Definition logging_script : string :=
  "exec cyborg-api --config-file /etc/cyborg/cyborg.conf --log-config-append /tmp/logging-cyborg.conf".

Lemma config_refs_passed_witness :
  main (Some VNone) [("cyborg", inl (sample_chart api_script [etc_mount]))] = Done [] 1%nat ∧
  main (Some VNone) [("cyborg", inl (sample_chart logging_script [etc_mount]))] =
    Done [Undelivered "cyborg" (VStr "Deployment") (VStr "cyborg-api") (VStr "cyborg-api")
            "/tmp/logging-cyborg.conf"] 2%nat ∧
  ((0 < 1)%nat ∧ ∃ w allowed, Some VNone = Some w ∧ read_waivers (Some VNone) = Done [] allowed ∧
    (∀ chart p, (chart, p) ∈ allowed → reasoned w chart p) ∧
    [("cyborg", @inl _ string (sample_chart api_script [etc_mount]))] ≠ [] ∧
    ∀ name out, (name, out) ∈ [("cyborg", @inl _ string (sample_chart api_script [etc_mount]))] →
      ∃ docs cms ws,
      out = inl docs ∧ payloads docs = Ok cms ∧ workloads docs = Ok ws ∧
      ∀ i, i ∈ ws → ∃ refs, refs_of (w_container i) cms = Ok refs ∧
        ∀ path, path ∈ refs → accounted allowed name cms i path).
Proof.
  split; [vm_compute; reflexivity|]. split; [vm_compute; reflexivity|].
  apply config_refs_passed. vm_compute. reflexivity.
Defined.

(** The script that reads the file counts as one that writes it when the path is on a line of its
    own, away from the flag. *)
Definition folded_script : string :=
  "exec cyborg-api --config-file /etc/cyborg/cyborg.conf --log-config-append
  /tmp/logging-cyborg.conf".
Example own_script :
  main (Some VNone) [("cyborg", inl (sample_chart folded_script [etc_mount]))] = Done [] 2%nat.
Proof. vm_compute. reflexivity. Qed.
End ConfigRefs.
