(* ===== verification/UwsgiWorker.v ===== *)
(** * hack/validate-uwsgi-probe-traverses-worker.py: a uwsgi container has no bare tcpSocket probe

    A container is served by uwsgi when its command mentions the name of a script of the chart's
    ConfigMaps that runs uwsgi. The parsed output of helm for each chart is the input. *)
From S2P Require Import Prelude PyStr PyVal Gate Manifests ConfigRefs.
#[local] Open Scope string_scope.
#[local] Open Scope list_scope.

Module UwsgiWorker.

Definition WORKLOADS : list string := ["Deployment"; "StatefulSet"; "DaemonSet"].
Definition PROBES : list string := ["readinessProbe"; "livenessProbe"; "startupProbe"].

Inductive stopped := NoBlueprints | NoCharts | NothingRendered | NothingServed.
(** A probe of a container of a workload, on a port. *)
Inductive problem := TcpSocket (chart : string) (workload container : val) (probe : string) (port : val).
Notation G := (gate stopped problem).

(** ** The scripts that run uwsgi *)

Definition runs_uwsgi (kv : string * val) : bool :=
  match kv.2 with VStr s => contains "exec uwsgi" s | _ => false end.

Definition scripts_of (x : val) : res (list string) :=
  let* kind := get x "kind" in
  if negb (eq_str kind "ConfigMap") then Ok [] else
  let* data := get_dict x "data" in
  let* kvs := items data in
  Ok (map (λ kv, ConfigRefs.basename kv.1) (List.filter runs_uwsgi kvs)).

Definition uwsgi_scripts (docs : list val) : res (list string) :=
  let* l := mapM scripts_of docs in Ok (concat l).

(** ** The probes of what they serve *)

(** [" ".join(container.get("command") or [])] *)
Definition command_text (container : val) : res string :=
  let* c := get_iter container "command" in
  let* ws := mapM as_str c in Ok (String.concat " " ws).

Definition check_probe (chart : string) (x container : val) (pk : string) : G unit :=
  let* probe := lift (get_dict container pk) in
  let* tcp := lift (key_in "tcpSocket" probe) in
  if negb tcp then mret () else
  let* w := lift (getpath x ["metadata"; "name"]) in
  let* c := lift (getitem container "name") in
  let* sock := lift (getitem probe "tcpSocket") in
  let* port := lift (get sock "port") in
  fail (TcpSocket chart w c pk port).

(** How many served containers there were before, and with this one. *)
Definition check_container (chart : string) (scripts : list string) (x : val) (served : nat)
    (container : val) : G nat :=
  let* cmd := lift (command_text container) in
  if negb (existsb (λ s, contains s cmd) scripts) then mret served else
  let* _ := for_ PROBES (check_probe chart x container) in
  mret (S served).

Definition check_doc (chart : string) (scripts : list string) (served : nat) (x : val) : G nat :=
  let* kind := lift (get x "kind") in
  if negb (existsb (eq_str kind) WORKLOADS) then mret served else
  let* spec := lift (getpath x ["spec"; "template"; "spec"]) in
  let* cs := lift (get_iter spec "containers") in
  fold_ (check_container chart scripts x) served cs.

(** The counts of served containers and rendered charts; a chart that does not render is passed
    over. *)
Definition check_chart (st : nat * nat) (chart : string * option (list val)) : G (nat * nat) :=
  match chart.2 with
  | None => mret st
  | Some all =>
      let docs := List.filter is_dict all in
      let* scripts := lift (uwsgi_scripts docs) in
      match scripts with
      | [] => mret (st.1, S st.2)
      | _ =>
          let* served := fold_ (check_doc chart.1 scripts) st.1 docs in
          mret (served, S st.2)
      end
  end.

Definition main (charts : option (list (string * option (list val)))) : G (nat * nat) :=
  match charts with
  | None => measurement_failed NoBlueprints
  | Some charts =>
      let* _ := require (negb (Nat.eqb (length charts) 0)) NoCharts in
      let* (served, rendered) := fold_ check_chart (0, 0)%nat charts in
      let* _ := require (negb (Nat.eqb rendered 0)) NothingRendered in
      let* _ := require (negb (Nat.eqb served 0)) NothingServed in
      mret (served, rendered)
  end.

(** Every way to stop is a failure. *)
Definition status {A} (v : verdict stopped problem A) : Z := match v with Passed _ => 0 | _ => 1 end.

(** ** What a passing run has established *)

(** A ConfigMap of the chart has a script of that name that runs uwsgi. *)
Definition uwsgi_script (docs : list val) (name : string) : Prop :=
  ∃ x data kvs key text, x ∈ docs ∧ is_dict x = true ∧ get x "kind" = Ok (VStr "ConfigMap") ∧
    get_dict x "data" = Ok data ∧ items data = Ok kvs ∧ (key, VStr text) ∈ kvs ∧
    contains "exec uwsgi" text = true ∧ name = ConfigRefs.basename key.

(** A container of a workload of the chart. *)
Definition deploys (docs : list val) (container : val) : Prop :=
  ∃ x kind spec cs, x ∈ docs ∧ is_dict x = true ∧ get x "kind" = Ok (VStr kind) ∧ kind ∈ WORKLOADS ∧
    getpath x ["spec"; "template"; "spec"] = Ok spec ∧ get_iter spec "containers" = Ok cs ∧
    container ∈ cs.

(** No probe of it is on a bare socket. *)
Definition no_tcp_probe (container : val) : Prop :=
  ∀ pk, pk ∈ PROBES → ∃ probe, get_dict container pk = Ok probe ∧ key_in "tcpSocket" probe = Ok false.

Lemma check_probe_no_tcp chart x container pk u :
  check_probe chart x container pk = Done [] u →
  ∃ probe, get_dict container pk = Ok probe ∧ key_in "tcpSocket" probe = Ok false.
Proof.
  unfold check_probe. intros H. apply lift_bind_Done in H as (probe & Hp & H).
  apply lift_bind_Done in H as (b & Hb & H). exists probe. split; [done|]. destruct b; [|done].
  cbn [negb] in H. do 4 (apply lift_bind_Done in H as (? & _ & H)). done.
Qed.

Lemma check_container_clean chart scripts x served container served' :
  check_container chart scripts x served container = Done [] served' →
  (served ≤ served')%nat ∧ ∃ cmd, command_text container = Ok cmd ∧
  (∀ s, s ∈ scripts → contains s cmd = true → no_tcp_probe container).
Proof.
  unfold check_container. intros H. apply lift_bind_Done in H as (cmd & Hc & H).
  destruct (existsb _ scripts) eqn:E; cbn [negb] in H.
  - apply bind_clean in H as ([] & Hp & [= <-]). rewrite for_clean in Hp. split; [lia|].
    exists cmd. split; [done|]. intros s _ _ pk Hpk. by eapply check_probe_no_tcp, Hp.
  - injection H as <-. split; [done|]. exists cmd. split; [done|]. intros s Hs Hcm.
    exfalso. apply not_true_iff_false in E. apply E, existsb_exists. exists s.
    by rewrite <- list_elem_of_In.
Qed.

Lemma check_doc_clean chart scripts served x served' container :
  check_doc chart scripts served x = Done [] served' → deploys [x] container →
  ∃ cmd, command_text container = Ok cmd ∧
    ∀ s, s ∈ scripts → contains s cmd = true → no_tcp_probe container.
Proof.
  unfold check_doc. intros H (x' & kind & spec & cs & Hx & _ & Hk & Hw & Hsp & Hcs & Hc).
  apply list_elem_of_singleton in Hx as ->. rewrite Hk, lift_bind in H.
  replace (existsb (eq_str (VStr kind)) WORKLOADS) with true in H.
  2: { symmetry. apply existsb_exists. exists kind. rewrite <- list_elem_of_In. by rewrite eq_str_spec. }
  cbn [negb] in H. rewrite Hsp, lift_bind, Hcs, lift_bind in H.
  destruct (fold_clean _ _ _ _ H _ Hc) as (b1 & b2 & Hb). by apply check_container_clean in Hb as [_ Hb].
Qed.

Lemma uwsgi_scripts_elem docs scripts name :
  uwsgi_scripts (List.filter is_dict docs) = Ok scripts → uwsgi_script docs name → name ∈ scripts.
Proof.
  unfold uwsgi_scripts. intros H (x & data & kvs & key & text & Hx & Hd & Hk & Hdata & Hkvs & Hin & Ht & ->).
  apply bind_Ok in H as (l & Hl & [= <-]).
  assert (Hx' : x ∈ List.filter is_dict docs).
  { apply list_elem_of_In, filter_In. by rewrite <- list_elem_of_In. }
  destruct (mapM_covers _ _ _ _ Hl Hx') as (k & Hk' & Hs). unfold scripts_of in Hs.
  rewrite Hk in Hs. cbn [mbind res_bind eq_str] in Hs. rewrite String.eqb_refl in Hs. cbn [negb] in Hs.
  rewrite Hdata in Hs. cbn [mbind res_bind] in Hs. rewrite Hkvs in Hs. injection Hs as <-.
  apply list_elem_of_In, in_concat. eexists. rewrite <- !list_elem_of_In. split; [exact Hk'|].
  apply list_elem_of_fmap. exists (key, VStr text). split; [done|].
  apply list_elem_of_In, filter_In. by rewrite <- list_elem_of_In.
Qed.

(** A gate that passes has rendered a chart and found a container served by uwsgi, and in
    every rendered chart each container of a workload whose command mentions the name of a script
    that runs uwsgi has no probe on a bare socket. *)
Theorem workers_probed charts served rendered :
  main (Some charts) = Done [] (served, rendered) →
  served ≠ 0%nat ∧ rendered ≠ 0%nat ∧
  ∀ chart docs container name, (chart, Some docs) ∈ charts → deploys docs container →
    uwsgi_script docs name → ∃ cmd, command_text container = Ok cmd ∧
      (contains name cmd = true → no_tcp_probe container).
Proof.
  unfold main. intros H. apply bind_clean in H as ([] & _ & H).
  apply bind_clean in H as ([s r] & Hf & H). apply bind_clean in H as ([] & Hr & H).
  apply bind_clean in H as ([] & Hs & [= -> ->]).
  apply require_clean, negb_true_iff, Nat.eqb_neq in Hr, Hs. do 2 (split; [done|]).
  intros chart docs container name Hin Hd Hn.
  destruct (fold_clean _ _ _ _ Hf _ Hin) as (b1 & b2 & Hb). unfold check_chart in Hb. cbn [snd] in Hb.
  apply lift_bind_Done in Hb as (scripts & Hsc & Hb).
  pose proof (uwsgi_scripts_elem _ _ _ Hsc Hn) as Hname.
  destruct scripts as [|s0 scripts]; [by apply elem_of_nil in Hname|].
  apply bind_clean in Hb as (n & Hb & _).
  destruct Hd as (x & kind & spec & cs & Hx & Hxd & Hk & Hw & Hsp & Hcs & Hc).
  assert (Hx' : x ∈ List.filter is_dict docs).
  { apply list_elem_of_In, filter_In. by rewrite <- list_elem_of_In. }
  destruct (fold_clean _ _ _ _ Hb _ Hx') as (c1 & c2 & Hdoc).
  destruct (check_doc_clean _ _ _ _ _ container Hdoc) as (cmd & Hcmd & Hall).
  - exists x, kind, spec, cs. repeat (split; [done || by apply list_elem_of_singleton|]). done.
  - exists cmd. split; [done|]. intros. by eapply Hall.
Qed.

(** ** A chart *)

Definition sample_chart (probe : val) : list val :=
  [VDict [("kind", VStr "ConfigMap");
     ("data", VDict [("bin/cyborg-api.sh", VStr "#!/bin/bash
exec uwsgi --ini /etc/cyborg/uwsgi.ini")])];
   VDict [("kind", VStr "Deployment"); ("metadata", VDict [("name", VStr "cyborg-api")]);
     ("spec", VDict [("template", VDict [("spec", VDict [("containers", VList [
        VDict [("name", VStr "api"); ("command", VList [VStr "/tmp/cyborg-api.sh"; VStr "start"]);
               ("readinessProbe", probe)]])])])])]].

Lemma workers_probed_witness :
  main (Some [("cyborg", Some (sample_chart (VDict [("tcpSocket", VDict [("port", VInt 6666)])])))]) =
    Done [TcpSocket "cyborg" (VStr "cyborg-api") (VStr "api") "readinessProbe" (VInt 6666)] (1, 1)%nat ∧
  main (Some [("cyborg", Some (sample_chart (VDict [("httpGet", VDict [("path", VStr "/v2")])])))]) =
    Done [] (1, 1)%nat ∧
  no_tcp_probe (VDict [("name", VStr "api"); ("command", VList [VStr "/tmp/cyborg-api.sh"; VStr "start"]);
                       ("readinessProbe", VDict [("httpGet", VDict [("path", VStr "/v2")])])]).
Proof.
  split; [vm_compute; reflexivity|]. split; [vm_compute; reflexivity|].
  destruct (workers_probed [("cyborg", Some (sample_chart (VDict [("httpGet", VDict [("path", VStr "/v2")])])))]
    1 1 ltac:(vm_compute; reflexivity)) as (_ & _ & H).
  edestruct (H "cyborg" (sample_chart (VDict [("httpGet", VDict [("path", VStr "/v2")])])) (VDict [("name", VStr "api"); ("command", VList [VStr "/tmp/cyborg-api.sh"; VStr "start"]);
      ("readinessProbe", VDict [("httpGet", VDict [("path", VStr "/v2")])])]) "cyborg-api.sh")
    as (cmd & Hcmd & Hno); [left| | |].
  - eexists _, "Deployment", _, _. split; [right; left|]. repeat (split; [reflexivity || left|]). left.
  - do 5 eexists. split; [left|]. repeat (split; [reflexivity|]). split; [left|]. split; reflexivity.
  - injection Hcmd as <-. exact (Hno eq_refl).
Defined.
End UwsgiWorker.
