(* ===== verification/UwsgiStats.v ===== *)
(** * hack/validate-probe-not-uwsgi-stats.py: no probe targets a uwsgi stats port

    The forbidden ports are read from the values of every chart and from the ini files it renders,
    and every probe of every chart is compared with all of them. The parsed values files and the
    parsed output of helm for each chart are the input. *)
From S2P Require Import Prelude PyStr PyVal PyRe Base64 Gate Manifests.
#[local] Open Scope string_scope.
#[local] Open Scope list_scope.

Module UwsgiStats.

Definition SKIP_RENDER : list string := ["openstack"].
Definition PROBES : list string := ["livenessProbe"; "readinessProbe"; "startupProbe"].
Definition WORKLOADS : list string :=
  ["Deployment"; "StatefulSet"; "DaemonSet"; "Job"; "CronJob"; "Pod"].
Definition STATS_LINE : re := Eval vm_compute in
  the (compile "^\s*stats(?:-server)?\s*[:=]\s*\S*:(\d{1,5})\s*$") Eps.
Definition STATS_VALUE : re := Eval vm_compute in the (compile "\S*:(\d{1,5})") Eps.

Inductive unmeasured :=
  | NoCharts | NotInspected (problems : list (string * string)) | NoStatsPort | NoProbe.

Inductive finding :=
  | Targets (chart : string) (kind name container : val) (probe : string) (port : val) (how : string)
  | Reaches (chart : string) (kind name container : val) (probe : string) (port : Z).

Definition G := gate unmeasured finding.

(** ** The forbidden ports *)

Definition port_of (m : found) : list Z :=
  match py_int (group' m 1) with Ok z => [z] | Raise _ => [] end.

Definition payload_ports (secret : bool) (raw : val) : list Z :=
  match raw with
  | VStr s =>
      match (if secret then b64decode_strict s else Some s) with
      | Some text => concat (map port_of (finditer M_ STATS_LINE text))
      | None => []
      end
  | _ => []
  end.

Definition stats_ports_in_render (docs : list val) : res (list Z) :=
  let* l := mapM (λ d,
    let* k := get d "kind" in
    if negb (existsb (eq_str k) ["ConfigMap"; "Secret"]) then Ok [] else
    let* data := get_dict d "data" in
    let* kvs := items data in
    Ok (concat (map (λ kv, payload_ports (eq_str k "Secret") kv.2) kvs))) docs in
  Ok (concat l).

(** [r.fullmatch(s)] *)
Definition fullmatch (fl : flags) (r : re) (s : string) : option found :=
  option_map (found_at (start s))
    (run fl r (start s) (λ s', if String.eqb (rest s') "" then Some s' else None)).

Definition value_ports (k : string) (v : val) : list Z :=
  match v with
  | VStr s =>
      if String.eqb k "stats" || String.eqb k "stats-server"
      then match fullmatch no_flags STATS_VALUE (strip s) with Some m => port_of m | None => [] end
      else []
  | _ => []
  end.

Fixpoint stats_ports_in_values (node : val) : list Z :=
  match node with
  | VDict d => concat (map (λ kv, value_ports kv.1 kv.2 ++ stats_ports_in_values kv.2) d)
  | VList l => concat (map stats_ports_in_values l)
  | _ => []
  end.

(** ** Probes *)

Definition pod_spec (doc kind : val) : res val :=
  let* spec := get_dict doc "spec" in
  if eq_str kind "Pod" then Ok spec else
  if eq_str kind "CronJob" then
    let* j := get_dict spec "jobTemplate" in
    let* s := get_dict j "spec" in
    let* t := get_dict s "template" in get_dict t "spec"
  else let* t := get_dict spec "template" in get_dict t "spec".

Definition all_containers (pod : val) : res (list val) :=
  let* c := get pod "containers" in
  let* i := get pod "initContainers" in
  concat_vals (or_ c (VList [])) (or_ i (VList [])).

(** The container's ports by name. *)
Definition named_ports (container : val) : res (list (val * val)) :=
  let* ps := get_iter container "ports" in
  foldM (λ named p,
    if negb (is_dict p) then Ok named else
    let* n := get p "name" in
    let* cp := get p "containerPort" in
    if truthy n && truthy cp then let* n := hashable n in Ok (vset n cp named) else Ok named) [] ps.

Definition is_digits (s : string) : bool := negb (String.eqb s "") && all_chars is_digit s.

(** The ports that a probe reaches by itself, with the way it does. *)
Definition probe_ports (probe container : val) : res (list (val * string)) :=
  let* named := named_ports container in
  foldM (λ found scheme,
    let* h := get_dict probe scheme in
    let* port := get h "port" in
    match port with
    | VInt _ | VBool _ => Ok (found ++ [(port, scheme)])
    | VStr s =>
        if is_digits s then let* n := py_int s in Ok (found ++ [(VInt n, scheme)])
        else match vget port named with
             | Some cp => Ok (found ++ [(cp, scheme ++ " via port name " ++ s)%string])
             | None => Ok found
             end
    | _ => Ok found
    end) [] ["httpGet"; "tcpSocket"; "grpc"].

(** The text of the command that a probe runs. *)
Definition probe_text (probe : val) : res string :=
  let* e := get_dict probe "exec" in
  let* args := get_iter e "command" in
  Ok (String.concat newline (omap (λ a, match a with VStr s => Some s | _ => None end) args)).

(** [re.search(rf":{port}(?!\d)", text)] *)
Definition dials (port : Z) (text : string) : bool :=
  match compile (":" ++ str_of_Z port ++ "(?!\d)") with
  | Some r => searches no_flags r text
  | None => false
  end.

(** [port in stats_ports] *)
Definition forbidden (ports : list Z) (port : val) : res bool :=
  let* p := hashable port in Ok (py_in p (map VInt ports)).

Definition check_probe (ports : list Z) (chart : string) (kind name c : val) (n : nat)
    (pk : string) : G nat :=
  let* probe := lift (get c pk) in
  if negb (is_dict probe) then mret n else
  let* found := lift (probe_ports probe c) in
  let* text := lift (probe_text probe) in
  let* _ := for_ found (λ f,
    let* bad := lift (forbidden ports f.1) in
    if bad : bool then let* cn := lift (get c "name") in fail (Targets chart kind name cn pk f.1 f.2)
    else mret ()) in
  let* _ := for_ ports (λ port,
    if dials port text then let* cn := lift (get c "name") in fail (Reaches chart kind name cn pk port)
    else mret ()) in
  mret (S n).

Definition check_doc (ports : list Z) (chart : string) (n : nat) (doc : val) : G nat :=
  let* kind := lift (get doc "kind") in
  if negb (existsb (eq_str kind) WORKLOADS) then mret n else
  let* md := lift (get_dict doc "metadata") in
  let* name := lift (get_default md "name" (VStr "?")) in
  let* pod := lift (pod_spec doc kind) in
  let* cs := lift (all_containers pod) in
  fold_ (λ n c, fold_ (check_probe ports chart kind name c) n PROBES) n cs.

(** ** The gate *)

(** A chart: its parsed values file, the error of parsing it, or none; and what helm printed. *)
Record chart := { ch_name : string; ch_values : option (val + string); ch_output : list val + string }.

Definition render (output : list val + string) : list val + string :=
  match output with
  | inr err => inr err
  | inl docs => match List.filter is_dict docs with [] => inr "rendered 0 objects" | l => inl l end
  end.

(** The rendered charts, the forbidden ports, and what could not be inspected. *)
Record reading := {
  renders : list (string * list val); stats_ports : list Z; measurement : list (string * string) }.

Definition read_chart (r : reading) (c : chart) : res reading :=
  let '(ps, bad) := match ch_values c with
                    | Some (inl v) => (stats_ports_in_values v, [])
                    | Some (inr err) => ([], [(ch_name c, err)])
                    | None => ([], [])
                    end in
  let r := {| renders := renders r; stats_ports := stats_ports r ++ ps;
              measurement := measurement r ++ bad |} in
  if existsb (String.eqb (ch_name c)) SKIP_RENDER then Ok r else
  match render (ch_output c) with
  | inr err => Ok {| renders := renders r; stats_ports := stats_ports r;
                     measurement := measurement r ++ [(ch_name c, err)] |}
  | inl docs =>
      let* qs := stats_ports_in_render docs in
      Ok {| renders := renders r ++ [(ch_name c, docs)]; stats_ports := stats_ports r ++ qs;
            measurement := measurement r |}
  end.

Definition name_leb (a b : string * list val) : bool := str_leb a.1 b.1.

(** The number of probes inspected. *)
Definition main (charts : list chart) : G nat :=
  if Nat.eqb (length charts) 0 then measurement_failed NoCharts else
  let* r := lift (foldM read_chart {| renders := []; stats_ports := []; measurement := [] |} charts) in
  match measurement r with
  | (_ :: _) as bad => measurement_failed (NotInspected bad)
  | [] =>
      let ports := isort Z.leb (remove_dups (stats_ports r)) in
      if Nat.eqb (length ports) 0 then measurement_failed NoStatsPort else
      match fold_ (λ n ch, fold_ (check_doc ports ch.1) n ch.2) 0%nat (isort name_leb (renders r)) with
      | Done _ 0%nat => measurement_failed NoProbe
      | g => g
      end
  end.

(** ** What it is to dial a port *)

Definition starts_digit (s : string) : bool :=
  match s with String c _ => PyStr.is_digit c | EmptyString => false end.

(** The text has a colon, the port, and no digit after it. *)
Definition dialled (port : Z) (text : string) : Prop :=
  ∃ a b, text = (a ++ (":" ++ str_of_Z port) ++ b)%string ∧ starts_digit b = false.

Definition not_digit : re := Ahead false (Set_ false [Digit]).

Lemma run_not_digit s : is_Some (run no_flags not_digit s Some) ↔ negb (starts_digit (rest s)) = true.
Proof.
  unfold not_digit. cbn [run]. unfold step, starts_digit. destruct (rest s) as [|c t]; [by split; eauto|].
  unfold in_set. cbn [existsb in_item fl_i no_flags andb]. rewrite !orb_false_r, xorb_false_l.
  destruct (PyStr.is_digit c); cbn; [by split; [intros [? ?]|]|by split; eauto].
Qed.

(** No digit is a quantifier. *)
Lemma quantify_port r w :
  all_chars is_digit w = true → quantify r (w +:+ "(?!\d)") = (r, w +:+ "(?!\d)").
Proof.
  destruct w as [|d w]; [done|]. cbn [all_chars]. intros [Hd _]%andb_prop.
  apply digit_ten in Hd. cbn in Hd. rewrite append_cons. by repeat (destruct Hd as [<-|Hd]; [reflexivity|]).
Qed.

Lemma parse_port w : all_chars is_digit w = true → ∀ fuel, (String.length w + 5 <= fuel)%nat →
  parse_seq fuel 1 (w +:+ "(?!\d)") = Some (lits w not_digit, 1%nat, "").
Proof.
  induction w as [|c w IH]; intros H fuel Hf.
  - do 5 (destruct fuel as [|fuel]; [cbn in Hf; lia|]). reflexivity.
  - cbn [all_chars] in H. apply andb_prop in H as [Hc Hw]. destruct fuel as [|[|fuel]]; [cbn in Hf; lia..|].
    rewrite append_cons. pose proof (quantify_port (literal c) w Hw) as Hq.
    pose proof (IH Hw (S fuel) ltac:(cbn in Hf; lia)) as IHw.
    apply digit_ten in Hc. cbn in Hc.
    assert (parse_atom (S fuel) 1 (String c (w +:+ "(?!\d)")) = Some (literal c, 1%nat, w +:+ "(?!\d)")).
    { by repeat (destruct Hc as [<-|Hc]; [reflexivity|]). }
    assert (E : parse_seq (S (S fuel)) 1 (String c (w +:+ "(?!\d)")) =
      match parse_atom (S fuel) 1 (String c (w +:+ "(?!\d)")) with
          | Some (a, g1, s1) =>
              let '(q, s2) := quantify a s1 in
              match parse_seq (S fuel) g1 s2 with
              | Some (Eps, g2, s3) => Some (q, g2, s3)
              | Some (b, g2, s3) => Some (Seq q b, g2, s3)
              | None => None
              end
          | None => None
          end).
    { by repeat (destruct Hc as [<-|Hc]; [reflexivity|]). }
    rewrite E, H, Hq, IHw. by destruct w.
Qed.

Lemma parse_colon fuel u :
  parse_alt (S (S (S fuel))) 1 (String ":" u) =
    match (let '(q, s2) := quantify (literal ":") u in
           match parse_seq (S fuel) 1 s2 with
           | Some (Eps, g2, s3) => Some (q, g2, s3)
           | Some (b, g2, s3) => Some (Seq q b, g2, s3)
           | None => None
           end) with
    | Some (a, g1, String "|" s1) =>
        match parse_alt (S (S fuel)) g1 s1 with
        | Some (b, g2, s2) => Some (Alt a b, g2, s2)
        | None => None
        end
    | r => r
    end.
Proof. reflexivity. Qed.

Lemma compile_port port :
  (0 <= port)%Z →
  compile (":" ++ str_of_Z port ++ "(?!\d)") = Some (lits (":" ++ str_of_Z port) not_digit).
Proof.
  intros Hp. pose proof (str_of_nat_chars is_digit port Hp eq_refl) as Hd. unfold compile.
  generalize dependent (str_of_Z port). intros w Hd.
  change (":" ++ w ++ "(?!\d)")%string with (String ":" (w +:+ "(?!\d)")).
  replace (3 * String.length (String ":" (w +:+ "(?!\d)")) + 3)%nat
    with (S (S (S (3 * String.length w + 21)))) by (cbn [String.length]; rewrite length_append; cbn; lia).
  rewrite parse_colon, (quantify_port (literal ":") w Hd), (parse_port w Hd) by lia. by destruct w.
Qed.

(** The search for a port's pattern is that. *)
Lemma dials_exact port text : (0 <= port)%Z → dials port text = true ↔ dialled port text.
Proof.
  intros Hp. unfold dials. rewrite (compile_port port Hp).
  rewrite (searches_scan no_flags _ (λ s, match after_text (":" ++ str_of_Z port) s with
                                          | Some t => negb (starts_digit t) | None => false end)).
  - unfold dialled. split.
    + intros (a & t & -> & H). destruct (after_text _ t) as [b|] eqn:E; [|done].
      apply after_text_spec in E as ->. exists a, b. split; [done|]. by apply negb_true_iff.
    + intros (a & b & -> & H). exists a, ((":" ++ str_of_Z port) ++ b)%string. split; [done|].
      rewrite (proj2 (after_text_spec _ _ _) eq_refl). by rewrite H.
  - intros s. rewrite (run_lits (λ t, negb (starts_digit t)) _ _ run_not_digit).
    split; [by intros (t & -> & H)|]. destruct (after_text _ _); [eauto|done].
Qed.

(** ** What a passing run has established *)

Definition skipped (c : chart) : bool := existsb (String.eqb (ch_name c)) SKIP_RENDER.

(** A port is forbidden when some chart's values or rendered payloads configure it. *)
Definition configures (c : chart) (p : Z) : Prop :=
  (∃ v, ch_values c = Some (inl v) ∧ p ∈ stats_ports_in_values v) ∨
  (skipped c = false ∧ ∃ docs qs, render (ch_output c) = inl docs ∧
     stats_ports_in_render docs = Ok qs ∧ p ∈ qs).
Definition forbidden_port (charts : list chart) (p : Z) : Prop := ∃ c, c ∈ charts ∧ configures c p.

(** A probe reaches none of the ports, neither by itself nor in a command. *)
Definition keeps_off (charts : list chart) (probe container : val) : Prop :=
  ∃ found text, probe_ports probe container = Ok found ∧ probe_text probe = Ok text ∧
    ∀ p, forbidden_port charts p →
      (∀ how, (VInt p, how) ∉ found) ∧ ((0 <= p)%Z → ¬ dialled p text).

Lemma read_chart_spec r c r' :
  read_chart r c = Ok r' →
  (∀ p, p ∈ stats_ports r' ↔ p ∈ stats_ports r ∨ configures c p) ∧
  (∀ x, x ∈ renders r → x ∈ renders r') ∧
  (measurement r' = [] → measurement r = [] ∧
     (skipped c = false → ∃ docs, render (ch_output c) = inl docs ∧ (ch_name c, docs) ∈ renders r')).
Proof.
  unfold read_chart, configures. fold (skipped c). intros H.
  assert (Hv : ∀ p, p ∈ (match ch_values c with
                    | Some (inl v) => (stats_ports_in_values v, [])
                    | Some (inr err) => ([], [(ch_name c, err)])
                    | None => ([], [])
                    end).1 ↔ ∃ v, ch_values c = Some (inl v) ∧ p ∈ stats_ports_in_values v).
  { intros p. destruct (ch_values c) as [[v|e]|]; cbn; [naive_solver| |];
      (split; [by intros ?%elem_of_nil|naive_solver]). }
  destruct (match ch_values c with Some _ => _ | None => _ end) as [ps bad]. cbn [fst] in Hv.
  destruct (skipped c) eqn:Es; cbn [renders stats_ports measurement] in H.
  - injection H as <-. cbn. split; [|split; [done|]].
    + intros p. rewrite elem_of_app, Hv. naive_solver.
    + intros [-> ->]%app_eq_nil. done.
  - destruct (render (ch_output c)) as [docs|err] eqn:Er.
    + apply bind_Ok in H as (qs & Hq & [= <-]). cbn. split; [|split].
      * intros p. rewrite !elem_of_app, Hv. split.
        { intros [[?|?]|?]; [by left|by right; left|right; right; split; [done|]]. by exists docs, qs. }
        intros [?|[?|(_ & ds & ks & [= <-] & Hk & ?)]]; [by left; left|by left; right|right; congruence].
      * intros x Hx. rewrite elem_of_app. by left.
      * intros [-> ->]%app_eq_nil. split; [done|]. intros _. exists docs. split; [done|].
        rewrite elem_of_app. right. by left.
    + injection H as <-. cbn. split; [|split; [done|]].
      * intros p. rewrite elem_of_app, Hv. split; [intros [?|?]; [by left|by right; left]|].
        intros [?|[?|(_ & ? & ? & ? & _)]]; [by left|by right|congruence].
      * by intros [_ ?]%app_eq_nil.
Qed.

Lemma read_charts_spec charts r r' :
  foldM read_chart r charts = Ok r' →
  (∀ p, p ∈ stats_ports r' ↔ p ∈ stats_ports r ∨ forbidden_port charts p) ∧
  (∀ x, x ∈ renders r → x ∈ renders r') ∧
  (measurement r' = [] → measurement r = [] ∧ ∀ c, c ∈ charts → skipped c = false →
     ∃ docs, render (ch_output c) = inl docs ∧ (ch_name c, docs) ∈ renders r').
Proof.
  unfold forbidden_port. revert r. induction charts as [|c charts IH]; intros r H; cbn [foldM] in H.
  - injection H as <-. split; [|split; [done|]].
    + intros p. split; [by left|]. by intros [?|(? & ?%elem_of_nil & _)].
    + intros Hm. split; [done|]. by intros ? ?%elem_of_nil.
  - apply bind_Ok in H as (r1 & H1 & H). apply read_chart_spec in H1 as (Hp & Hr & Hm).
    destruct (IH r1 H) as (Hp' & Hr' & Hm'). split; [|split; [auto|]].
    + intros p. rewrite Hp', Hp. setoid_rewrite elem_of_cons. naive_solver.
    + intros E. destruct (Hm' E) as [E1 Hall]. destruct (Hm E1) as [E0 Hc]. split; [done|].
      intros c' [->|Hin]%elem_of_cons Hs; [|by apply Hall].
      destruct (Hc Hs) as (docs & ? & ?). eauto.
Qed.

Lemma keeps_off_clean charts ports name kind dn c n pk n' probe :
  (∀ p, forbidden_port charts p → p ∈ ports) →
  check_probe ports name kind dn c n pk = Done [] n' →
  get c pk = Ok probe → is_dict probe = true → keeps_off charts probe c.
Proof.
  intros Hports H Hp Hd. unfold check_probe in H. rewrite Hp in H.
  apply lift_bind_Done in H as (p & [= <-] & H). rewrite Hd in H. cbn [negb] in H.
  apply lift_bind_Done in H as (found & Hf & H). apply lift_bind_Done in H as (text & Ht & H).
  apply bind_clean in H as ([] & H1 & H). apply bind_clean in H as ([] & H2 & _).
  rewrite for_clean in H1. rewrite for_clean in H2.
  exists found, text. do 2 (split; [done|]). intros q Hq%Hports. split.
  - intros how Hin. specialize (H1 _ Hin). cbn [fst] in H1.
    apply lift_bind_Done in H1 as (bad & Hbad & H1). unfold forbidden in Hbad. cbn in Hbad.
    injection Hbad as <-. replace (py_in (VInt q) (map VInt ports)) with true in H1.
    + by apply lift_bind_Done in H1 as (? & _ & ?).
    + symmetry. apply existsb_exists. exists (VInt q). split; [|apply Z.eqb_refl].
      apply in_map. by apply list_elem_of_In.
  - intros Hpos Hdial%dials_exact; [|done]. specialize (H2 q Hq). rewrite Hdial in H2.
    by apply lift_bind_Done in H2 as (? & _ & ?).
Qed.

(** A gate that passes has inspected at least one probe and knows at least one stats port,
    and in every chart but the umbrella every probe of every container keeps off every port that
    any chart configures, in its values or in an ini it renders, as a stats port. *)
Theorem stats_ports_avoided charts n :
  main charts = Done [] n →
  (0 < n)%nat ∧ (∃ p, forbidden_port charts p) ∧
  ∀ c, c ∈ charts → skipped c = false → ∃ docs, render (ch_output c) = inl docs ∧
    ∀ doc kind, doc ∈ docs → get doc "kind" = Ok kind → existsb (eq_str kind) WORKLOADS = true →
      ∃ pod cs, pod_spec doc kind = Ok pod ∧ all_containers pod = Ok cs ∧
        ∀ ct pk probe, ct ∈ cs → pk ∈ PROBES → get ct pk = Ok probe → is_dict probe = true →
          keeps_off charts probe ct.
Proof.
  unfold main. destruct (Nat.eqb _ 0); [done|]. intros H.
  apply lift_bind_Done in H as (r & Hr & H). apply read_charts_spec in Hr as (Hp & _ & Hm).
  destruct (measurement r) eqn:Em; [|done]. destruct (Hm eq_refl) as [_ Hall]. clear Hm.
  set (ports := isort Z.leb (remove_dups (stats_ports r))) in *.
  assert (Hports : ∀ p, p ∈ ports ↔ forbidden_port charts p).
  { intros p. unfold ports. rewrite elem_of_isort, elem_of_remove_dups, Hp. cbn.
    split; [intros [[]%elem_of_nil|?]; done|by right]. }
  destruct (Nat.eqb _ 0) eqn:En; [done|].
  destruct (fold_ _ _ _) as [fs k|] eqn:Ef; [|done]. destruct k as [|k]; [by destruct fs|].
  injection H as -> <-. split; [lia|]. split.
  { destruct ports as [|p ps]; [done|]. exists p. apply Hports. by left. }
  intros c Hc Hs. destruct (Hall c Hc Hs) as (docs & Hd & Hin). exists docs. split; [done|].
  intros doc kind Hdoc Hk Hw.
  assert (Hin' : (ch_name c, docs) ∈ isort name_leb (renders r)) by by rewrite elem_of_isort.
  destruct (fold_clean _ _ _ _ Ef _ Hin') as (b1 & b2 & H1). cbn [fst snd] in H1.
  destruct (fold_clean _ _ _ _ H1 doc Hdoc) as (b3 & b4 & H2). unfold check_doc in H2.
  rewrite Hk in H2. apply lift_bind_Done in H2 as (kd & [= <-] & H2). rewrite Hw in H2. cbn [negb] in H2.
  apply lift_bind_Done in H2 as (md & _ & H2). apply lift_bind_Done in H2 as (dn & _ & H2).
  apply lift_bind_Done in H2 as (pod & Hpod & H2). apply lift_bind_Done in H2 as (cs & Hcs & H2).
  exists pod, cs. do 2 (split; [done|]). intros ct pk probe Hct Hpk Hprobe Hdict.
  destruct (fold_clean _ _ _ _ H2 ct Hct) as (b5 & b6 & H3).
  destruct (fold_clean _ _ _ _ H3 pk Hpk) as (b7 & b8 & H4).
  eapply keeps_off_clean; [intros p; apply Hports|done..].
Qed.

(** ** Charts *)

Definition sample_chart (port : val) (command : string) : chart :=
  {| ch_name := "heat";
     ch_values := Some (inl (VDict [("conf", VDict [("uwsgi", VDict [("stats", VStr "0.0.0.0:1718")])])]));
     ch_output := inl [
       VDict [("kind", VStr "ConfigMap"); ("data", VDict [("heat-api-uwsgi.ini", VStr "[uwsgi]
stats = 0.0.0.0:1717
stats-http = true
")])];
       VDict [("kind", VStr "Deployment"); ("metadata", VDict [("name", VStr "heat-api")]);
         ("spec", VDict [("template", VDict [("spec", VDict [("containers", VList [VDict [
            ("name", VStr "heat-api");
            ("ports", VList [VDict [("name", VStr "h-stats"); ("containerPort", VInt 1717)]]);
            ("readinessProbe", VDict [("httpGet", VDict [("port", port)])]);
            ("livenessProbe", VDict [("exec", VDict [("command", VList [VStr "curl"; VStr command])])])]])])])])]] |}.

Definition good_charts : list chart := [sample_chart (VInt 8004) "http://localhost:17170/1717"].

Lemma stats_ports_avoided_witness :
  main good_charts = Done [] 2%nat ∧
  main [sample_chart (VStr "h-stats") "http://localhost:1718/"] =
    Done [Reaches "heat" (VStr "Deployment") (VStr "heat-api") (VStr "heat-api") "livenessProbe" 1718;
          Targets "heat" (VStr "Deployment") (VStr "heat-api") (VStr "heat-api") "readinessProbe"
            (VInt 1717) "httpGet via port name h-stats"] 2%nat ∧
  (0 < 2)%nat ∧ (∃ p, forbidden_port good_charts p) ∧
  ∀ c, c ∈ good_charts → skipped c = false → ∃ docs, render (ch_output c) = inl docs ∧
    ∀ doc kind, doc ∈ docs → get doc "kind" = Ok kind → existsb (eq_str kind) WORKLOADS = true →
      ∃ pod cs, pod_spec doc kind = Ok pod ∧ all_containers pod = Ok cs ∧
        ∀ ct pk probe, ct ∈ cs → pk ∈ PROBES → get ct pk = Ok probe → is_dict probe = true →
          keeps_off good_charts probe ct.
Proof.
  split; [vm_compute; reflexivity|]. split; [vm_compute; reflexivity|].
  apply stats_ports_avoided. vm_compute. reflexivity.
Defined.
End UwsgiStats.
