(* ===== verification/Colocation.v ===== *)
(** * hack/validate-same-node-colocation.py: a same-node dependency is declared for its labels

    Every pod requirement with requireSameNode is read from the rendered charts with the node
    selectors of the two workloads; where they differ, the pair must be declared for exactly those
    selectors, and every declaration must still describe a pair. The parsed output of helm for
    each chart and the parsed declarations are the input. *)
From S2P Require Import Prelude PyStr PyVal Json Gate Manifests.
#[local] Open Scope string_scope.
#[local] Open Scope list_scope.

Module Colocation.

Definition WORKLOADS : list string := ["Deployment"; "StatefulSet"; "DaemonSet"].

Record pair := { p_waiter : val; p_wsel : val; p_target : val; p_tsel : val }.

Inductive problem :=
  | OtherLabels (chart : string) (p : pair)
  | Undeclared (chart : string) (p : pair).

(** The other ways to end with status 1. *)
Inductive stopped :=
  | NoDeclaration | MissingField (k : string) (entry : val) | NotAMapping (k : string) (v : val)
  | NoCharts | NothingRendered.

Definition G := gate stopped problem.

(** ** The pairs of a chart *)

(** A workload's name, labels and node selector. *)
Definition index_entry (x : val) : res (list (val * val * val)) :=
  let* kind := get x "kind" in
  if negb (existsb (eq_str kind) WORKLOADS) then Ok [] else
  let* tpl := getpath x ["spec"; "template"] in
  let* name := getpath x ["metadata"; "name"] in
  let* md := get_default tpl "metadata" (VDict []) in
  let* labels := get_dict md "labels" in
  let* spec := getitem tpl "spec" in
  let* sel := get_dict spec "nodeSelector" in
  Ok [(name, labels, sel)].

(** [want and all(labels.get(k) == v for k, v in want.items())] *)
Definition wanted (want labels : val) : res bool :=
  if negb (truthy want) then Ok false else
  let* kvs := items want in
  let* bad := any_res (λ kv, let* w := get labels kv.1 in Ok (negb (py_eq w kv.2))) kvs in
  Ok (negb bad).

Definition requirement (index : list (val * val * val)) (name sel req : val) : res (list pair) :=
  if negb (is_dict req) then Ok [] else
  let* same := get req "requireSameNode" in
  if negb (truthy same) then Ok [] else
  let* want := get_dict req "labels" in
  let* targets := filter_res (λ e, wanted want e.1.2) index in
  Ok (map (λ e, {| p_waiter := name; p_wsel := sel; p_target := e.1.1; p_tsel := e.2 |}) targets).

Definition UNPARSEABLE : val := VStr "<unparseable DEPENDENCY_POD_JSON>".

(** A value that is not JSON gives a pair with no target. *)
Definition env_pairs (index : list (val * val * val)) (name sel e : val) : res (list pair) :=
  let* n := get e "name" in
  if negb (eq_str n "DEPENDENCY_POD_JSON") then Ok [] else
  let* value := get e "value" in
  if negb (truthy value) then Ok [] else
  match (match value with VStr s => json_loads s | _ => Raise TypeError end) with
  | Raise ValueError | Raise TypeError =>
      Ok [{| p_waiter := name; p_wsel := sel; p_target := UNPARSEABLE; p_tsel := VDict [] |}]
  | Raise x => Raise x
  | Ok (VList reqs) => let* l := mapM (requirement index name sel) reqs in Ok (concat l)
  | Ok _ => Ok []
  end.

Definition doc_pairs (index : list (val * val * val)) (x : val) : res (list pair) :=
  let* kind := get x "kind" in
  if negb (existsb (eq_str kind) WORKLOADS) then Ok [] else
  let* spec := getpath x ["spec"; "template"; "spec"] in
  let* sel := get_dict spec "nodeSelector" in
  let* name := getpath x ["metadata"; "name"] in
  let* inits := get_iter spec "initContainers" in
  let* l := mapM (λ c,
    let* env := get_iter c "env" in
    let* l := mapM (env_pairs index name sel) env in Ok (concat l)) inits in
  Ok (concat l).

Definition pairs_in (docs : list val) : res (list pair) :=
  let* index := mapM index_entry docs in
  let* l := mapM (doc_pairs (concat index)) docs in Ok (concat l).

(** ** The declarations *)

Definition item_leb (a b : string * val) : bool := str_leb a.1 b.1.

(** [tuple(sorted(sel.items()))] as a member of a key. *)
Definition sel_key (sel : val) : res val :=
  let* kvs := items sel in
  let* vs := mapM hashable (kvs.*2) in
  Ok (VList (map (λ kv, VList [VStr kv.1; kv.2]) (isort item_leb kvs))).

Definition key_of (component waiter target wsel tsel : val) : res val :=
  let* ws := sel_key wsel in
  let* ts := sel_key tsel in
  let* a := hashable component in
  let* b := hashable waiter in
  let* c := hashable target in
  Ok (VList [a; b; c; ws; ts]).

(** [k[:3]] *)
Definition first_three (k : val) : val := match k with VList l => VList (take 3 l) | _ => k end.

Definition FIELDS : list string :=
  ["component"; "waiter"; "target"; "waiterSelector"; "targetSelector"; "requiredRelation"; "why"].

Definition declaration (entry : val) : res val :=
  let* component := getitem entry "component" in
  let* waiter := getitem entry "waiter" in
  let* target := getitem entry "target" in
  let* wsel := getitem entry "waiterSelector" in
  let* tsel := getitem entry "targetSelector" in
  key_of component waiter target wsel tsel.

Definition read_entry (declared : list (val * val)) (entry : val) : G (list (val * val)) :=
  let* _ := for_ FIELDS (λ k,
    let* v := lift (get entry k) in
    if truthy v then mret () else measurement_failed (MissingField k entry)) in
  let* _ := for_ ["waiterSelector"; "targetSelector"] (λ k,
    let* v := lift (getitem entry k) in
    if is_dict v then mret () else measurement_failed (NotAMapping k v)) in
  let* key := lift (declaration entry) in
  mret (vset key entry declared).

Definition read_declared (decl : option val) : G (list (val * val)) :=
  match decl with
  | None => measurement_failed NoDeclaration
  | Some d =>
      let* es := lift (get_iter (or_ d (VDict [])) "colocations") in
      fold_ read_entry [] es
  end.

(** ** The gate *)

Definition check_pair (declared : list (val * val)) (chart : string) (p : pair) : G unit :=
  if py_eq (p_wsel p) (p_tsel p) then mret () else
  let* key := lift (key_of (VStr chart) (p_waiter p) (p_target p) (p_wsel p) (p_tsel p)) in
  match vget key declared with
  | Some _ => mret ()
  | None =>
      if existsb (λ kv, py_eq (first_three kv.1) (first_three key)) declared
      then fail (OtherLabels chart p) else fail (Undeclared chart p)
  end.

(** The names that were found, and how many charts rendered; a chart that does not render is
    passed over. *)
Definition check_chart (declared : list (val * val)) (st : list val * nat)
    (chart : string * option (list val)) : G (list val * nat) :=
  match chart.2 with
  | None => mret st
  | Some all =>
      let* ps := lift (pairs_in (List.filter is_dict all)) in
      let* _ := for_ ps (check_pair declared chart.1) in
      mret (st.1 ++ map (λ p, VList [VStr chart.1; p_waiter p; p_target p]) ps, S st.2)
  end.

(** [set(found)] needs hashable names. *)
Definition tuple_hashable (t : val) : res val :=
  match t with VList l => let* _ := mapM hashable l in Ok t | _ => Ok t end.

Definition stale (declared : list (val * val)) (found : list val) : list val :=
  List.filter (λ k, negb (py_in (first_three k) found)) (map fst declared).

(** The line that lists stale declarations unpacks keys of five parts into three names. *)
Definition main (decl : option val) (charts : list (string * option (list val))) : G nat :=
  let* declared := read_declared decl in
  if Nat.eqb (length charts) 0 then measurement_failed NoCharts else
  let* (found, rendered) := fold_ (check_chart declared) ([], 0%nat) charts in
  if Nat.eqb rendered 0 then measurement_failed NothingRendered else
  let* _ := lift (mapM tuple_hashable found) in
  match stale declared found with
  | [] => mret (length found)
  | _ => Stop (Crashed ValueError)
  end.

Definition status {A} (v : verdict stopped problem A) : Z := match v with Passed _ => 0 | _ => 1 end.

(** ** What a passing run has established *)

(** The entry has every field, and its key is that one. *)
Definition describes (e key : val) : Prop :=
  (∀ k, k ∈ FIELDS → ∃ v, get e k = Ok v ∧ truthy v = true) ∧
  ∃ k j, declaration e = Ok k ∧ (j = k ∨ py_eq j k = true) ∧ py_eq j key = true.

Definition entry_ok (kv : val * val) : Prop :=
  (∀ k, k ∈ FIELDS → ∃ v, get kv.2 k = Ok v ∧ truthy v = true) ∧
  ∃ k, declaration kv.2 = Ok k ∧ (kv.1 = k ∨ py_eq kv.1 k = true).

Lemma read_declared_ok decl declared :
  read_declared decl = Done [] declared → ∀ kv, kv ∈ declared → entry_ok kv.
Proof.
  unfold read_declared. destruct decl as [d|]; [|done]. intros H.
  apply lift_bind_Done in H as (es & _ & H). revert H.
  apply (fold_keeps (λ declared, ∀ kv, kv ∈ declared → entry_ok kv)); [|by intros ? ?%elem_of_nil].
  intros b e b' _ Hb H. unfold read_entry in H. apply bind_clean in H as ([] & H1 & H).
  apply bind_clean in H as ([] & _ & H). apply lift_bind_Done in H as (key & Hk & [= <-]).
  intros [j w] [Hin|[-> Hj]]%vset_elem; [by apply Hb|]. split; [|by exists key].
  intros k Hin. rewrite for_clean in H1. specialize (H1 k Hin).
  apply lift_bind_Done in H1 as (v & Hv & H1). exists v. split; [done|]. by destruct (truthy v).
Qed.

(** A pair is satisfiable by construction or declared for its own labels. *)
Definition settled (declared : list (val * val)) (chart : string) (p : pair) : Prop :=
  py_eq (p_wsel p) (p_tsel p) = true ∨
  ∃ key e, key_of (VStr chart) (p_waiter p) (p_target p) (p_wsel p) (p_tsel p) = Ok key ∧
    describes e key.

Lemma check_pair_clean declared chart p :
  (∀ kv, kv ∈ declared → entry_ok kv) → check_pair declared chart p = Done [] () →
  settled declared chart p.
Proof.
  intros Hd H. unfold check_pair in H. destruct (py_eq (p_wsel p) (p_tsel p)) eqn:E; [by left|right].
  apply lift_bind_Done in H as (key & Hk & H). destruct (vget key declared) as [e|] eqn:Eg.
  - apply vget_elem in Eg as (j & Hin & Hj). destruct (Hd _ Hin) as [Hf (k & Hdec & Hjk)].
    exists key, e. split; [done|]. split; [done|]. eauto.
  - by destruct (existsb _ _).
Qed.

(** The names come from the pairs of the charts. *)
Definition found_in (charts : list (string * option (list val))) (t : val) : Prop :=
  ∃ chart all ps p, (chart, Some all) ∈ charts ∧ pairs_in (List.filter is_dict all) = Ok ps ∧ p ∈ ps ∧
    t = VList [VStr chart; p_waiter p; p_target p].

(** When the gate passes, every same-node pair of every rendered chart has equal selectors
    or an entry with every field, for those workloads and exactly those selectors; and every
    entry is for the workloads of some pair. *)
Theorem colocation_passed decl charts n :
  main decl charts = Done [] n →
  ∃ declared, read_declared decl = Done [] declared ∧
    (∃ chart all, (chart, Some all) ∈ charts) ∧
    (∀ chart all, (chart, Some all) ∈ charts →
       ∃ ps, pairs_in (List.filter is_dict all) = Ok ps ∧ ∀ p, p ∈ ps → settled declared chart p) ∧
    (∀ k e, (k, e) ∈ declared → ∃ t, found_in charts t ∧ py_eq t (first_three k) = true).
Proof.
  unfold main. intros H. apply bind_clean in H as (declared & Hdec & H).
  destruct (Nat.eqb _ 0); [done|]. apply bind_clean in H as ([found rendered] & Hf & H).
  destruct (Nat.eqb rendered 0) eqn:En; [done|]. apply lift_bind_Done in H as (hs & _ & H).
  destruct (stale declared found) eqn:Es; [|done]. exists declared. split; [done|].
  assert (Hk : (∀ t, t ∈ found → found_in charts t) ∧
               (rendered ≠ 0%nat → ∃ chart all, (chart, Some all) ∈ charts)).
  { revert Hf. refine (fold_keeps (λ st, (∀ t, t ∈ st.1 → found_in charts t) ∧
      (st.2 ≠ 0%nat → ∃ chart all, (chart, Some all) ∈ charts)) _ charts _ ([], 0%nat) (found, rendered) _).
    - intros [l k] [chart [all|]] [l' k'] Hin [Hl Hk] H1; unfold check_chart in H1; cbn [fst snd] in *.
      + apply lift_bind_Done in H1 as (ps & Hps & H1). apply bind_clean in H1 as ([] & _ & [= <- <-]).
        split; [|eauto]. intros t [Ht|Ht]%elem_of_app; [by apply Hl|].
        apply list_elem_of_In, in_map_iff in Ht as (p & <- & Hp). exists chart, all, ps, p.
        do 2 (split; [done|]). split; [by apply list_elem_of_In|done].
      + by injection H1 as <- <-.
    - split; [by intros ? ?%elem_of_nil|done]. }
  destruct Hk as [Hfound Hr]. split; [apply Hr; by apply Nat.eqb_neq|]. split.
  - intros chart all Hin. destruct (fold_clean _ _ _ _ Hf _ Hin) as (b1 & b2 & H1).
    unfold check_chart in H1. cbn [fst snd] in H1. apply lift_bind_Done in H1 as (ps & Hps & H1).
    apply bind_clean in H1 as ([] & H1 & _). exists ps. split; [done|]. intros p Hp.
    rewrite for_clean in H1. apply check_pair_clean; [by eapply read_declared_ok|by apply H1].
  - intros k e Hin. assert (Hp : py_in (first_three k) found = true).
    { apply negb_false_iff. apply (filter_none _ _ Es). apply list_elem_of_In, in_map_iff.
      exists (k, e). split; [done|]. by apply list_elem_of_In. }
    apply existsb_exists in Hp as (t & Ht & Heq). exists t. split; [|done].
    apply Hfound. by apply list_elem_of_In.
Qed.

(** ** Charts *)

Definition sample_workload (name : string) (sel : list (string * val)) (inits : list val) : val :=
  VDict [("kind", VStr "DaemonSet"); ("metadata", VDict [("name", VStr name)]);
    ("spec", VDict [("template", VDict [
       ("metadata", VDict [("labels", VDict [("application", VStr name)])]);
       ("spec", VDict [("nodeSelector", VDict sel); ("initContainers", VList inits)])])])].
Definition wait (text : string) : val :=
  VDict [("env", VList [VDict [("name", VStr "DEPENDENCY_POD_JSON"); ("value", VStr text)]])].
Definition control : list (string * val) := [("openstack-control-plane", VStr "enabled")].
Definition ovs : list (string * val) := [("openvswitch", VStr "enabled")].
Definition needs_ovs : string :=
  String.concat (String (char 34) "")
    ["[{"; "requireSameNode"; ": true, "; "labels"; ": {"; "application"; ": "; "ovs-agent"; "}}]"].

Definition sample_charts (sel : list (string * val)) (text : string) : list (string * option (list val)) :=
  [("neutron", Some [sample_workload "dhcp" sel [wait text]; sample_workload "ovs-agent" ovs []])].
Definition sample_entry (target : string) : val :=
  VDict [("component", VStr "neutron"); ("waiter", VStr "dhcp"); ("target", VStr target);
         ("waiterSelector", VDict control); ("targetSelector", VDict ovs);
         ("requiredRelation", VStr "control nodes carry openvswitch"); ("why", VStr "#110")].
Definition sample_decl (targets : list string) : option val :=
  Some (VDict [("colocations", VList (map sample_entry targets))]).

Lemma colocation_passed_witness :
  main (sample_decl ["ovs-agent"]) (sample_charts control needs_ovs) = Done [] 1%nat ∧
  ∃ declared, read_declared (sample_decl ["ovs-agent"]) = Done [] declared ∧
    (∃ chart all, (chart, Some all) ∈ sample_charts control needs_ovs) ∧
    (∀ chart all, (chart, Some all) ∈ sample_charts control needs_ovs →
       ∃ ps, pairs_in (List.filter is_dict all) = Ok ps ∧ ∀ p, p ∈ ps → settled declared chart p) ∧
    (∀ k e, (k, e) ∈ declared → ∃ t, found_in (sample_charts control needs_ovs) t ∧
       py_eq t (first_three k) = true).
Proof.
  split; [vm_compute; reflexivity|].
  apply (colocation_passed _ _ 1%nat). vm_compute. reflexivity.
Defined.

(** Other labels are reported, and so is a pair nobody declared. *)
Example other_labels :
  match main (sample_decl ["ovs-agent"]) (sample_charts [("l3", VStr "enabled")] needs_ovs),
        main (sample_decl []) (sample_charts control needs_ovs) with
  | Done [OtherLabels "neutron" _] 1%nat, Done [Undeclared "neutron" _] 1%nat => True
  | _, _ => False
  end.
Proof. vm_compute. exact I. Qed.

(** A declaration that describes no pair is not reported: the gate stops with an exception. *)
Example stale_declaration :
  main (sample_decl ["ovs-agent"; "gone"]) (sample_charts control needs_ovs) = Stop (Crashed ValueError).
Proof. vm_compute. reflexivity. Qed.

(** A requirement that does not parse is reported on a workload with a node selector, and passed
    over on one without. *)
Example unparseable :
  match main (sample_decl []) (sample_charts control "[{"), main (sample_decl []) (sample_charts [] "[{") with
  | Done [Undeclared "neutron" p] 1%nat, Done [] 1%nat => p_target p = UNPARSEABLE
  | _, _ => False
  end.
Proof. vm_compute. reflexivity. Qed.
End Colocation.
