(* ===== verification/DurableState.v ===== *)
(** * hack/validate-durable-state.py: state that exists nowhere else is on a claim

    Each listed StatefulSet, as its chart renders, has a claim template for its state volume, does
    not declare that volume in the pod, and mounts it, and nothing else, at the state path. The
    parsed list is the input; what a chart renders to is a parameter. *)
From S2P Require Import Prelude PyStr PyVal PyEq Gate Manifests.
#[local] Open Scope string_scope.
#[local] Open Scope list_scope.

Module DurableState.

Inductive problem :=
  | NotRendered (name : val)
  | NoClaim (name volume : val)
  | NamesClass (name volume klass : val)
  | InPod (name volume : val) (kind : string)
  | OtherVolume (name container mounted path volume : val)
  | NothingMounted (name path : val).

(** What is printed as a failure, for the component of an entry. *)
Inductive failure := DoesNotRender (component err : string) | Problem (component : string) (p : problem).
Inductive stopped := NothingListed | NoChart (component : string).
Notation G := (gate stopped failure).

(** ** One entry on a rendered chart *)

Definition is_sts (name d : val) : res bool :=
  let* k := get d "kind" in
  if eq_str k "StatefulSet" then let* n := getpath d ["metadata"; "name"] in Ok (py_eq n name) else Ok false.

(** [{c["metadata"]["name"]: c for c in spec.get("volumeClaimTemplates") or []}] *)
Definition add_claim (claims : list (val * val)) (c : val) : res (list (val * val)) :=
  let* n := getpath c ["metadata"; "name"] in
  let* n := hashable n in Ok (vset n c claims).
Definition claims_of (spec : val) : res (list (val * val)) :=
  let* cs := get_iter spec "volumeClaimTemplates" in foldM add_claim [] cs.

Definition check_claim (name volume : val) (claims : list (val * val)) : res (list problem) :=
  let* volume := hashable volume in
  match vget volume claims with
  | None => Ok [NoClaim name volume]
  | Some c =>
      let* s := getitem c "spec" in
      let* klass := get s "storageClassName" in
      Ok (if truthy klass then [NamesClass name volume klass] else [])
  end.

(** The first key of a volume that is not its name. *)
Definition volume_kind (v : val) : res string :=
  let* kvs := py_iter v in
  let* ks := mapM as_str kvs in
  Ok (match List.filter (λ k, negb (String.eqb k "name")) ks with [] => "unknown" | k :: _ => k end).

Definition check_volume (name volume v : val) : res (list problem) :=
  let* n := getitem v "name" in
  if py_eq n volume then let* k := volume_kind v in Ok [InPod name volume k] else Ok [].

(** Is the mount at the state path, and what it says of it. *)
Definition check_mount (name volume path c m : val) : res (nat * list problem) :=
  let* p := get m "mountPath" in
  if negb (py_eq p path) then Ok (0%nat, []) else
  let* n := getitem m "name" in
  if py_eq n volume then Ok (1%nat, []) else
  let* cn := getitem c "name" in Ok (1%nat, [OtherVolume name cn n path volume]).

Definition check_container (name volume path c : val) : res (list (nat * list problem)) :=
  let* ms := get_iter c "volumeMounts" in mapM (check_mount name volume path c) ms.

(** [(pod.get("containers") or []) + (pod.get("initContainers") or [])] *)
Definition all_containers (pod : val) : res (list val) :=
  let* a := get pod "containers" in
  let* b := get pod "initContainers" in concat_vals (or_ a (VList [])) (or_ b (VList [])).

Definition check_mounts (name volume path pod : val) : res (list problem) :=
  let* cs := all_containers pod in
  let* ms := mapM (check_container name volume path) cs in
  let ms := concat ms in
  Ok (concat (map snd ms) ++
      if Nat.eqb (sum_list (map fst ms)) 0 then [NothingMounted name path] else []).

Definition check (entry : val) (docs : list val) : res (list problem) :=
  let* name := getitem entry "statefulset" in
  let* volume := getitem entry "volume" in
  let* path := getitem entry "mountPath" in
  let* sts := filter_res (is_sts name) docs in
  match sts with
  | [] => Ok [NotRendered name]
  | s :: _ =>
      let* spec := getitem s "spec" in
      let* pod := getpath spec ["template"; "spec"] in
      let* claims := claims_of spec in
      let* p1 := check_claim name volume claims in
      let* vs := get_iter pod "volumes" in
      let* p2 := mapM (check_volume name volume) vs in
      let* p3 := check_mounts name volume path pod in
      Ok (p1 ++ concat p2 ++ p3)
  end.

(** ** The gate *)

(** The last line of what helm wrote to its standard error, if it wrote anything. *)
Definition error_line (stderr : string) : res string :=
  if String.eqb stderr "" then Ok "helm template failed" else
  match last (splitlines (strip stderr)) with Some l => Ok l | None => Raise IndexError end.

Section Charts.
  (** The parsed output of helm for a component's chart, or its standard error; [None] where the
      component has no chart. *)
  Context (render : string → option (list val + string)).

Definition check_entry (entry : val) : G unit :=
    let* component := lift (getitem entry "component") in
    let* component := lift (as_str component) in
    match render component with
    | None => measurement_failed (NoChart component)
    | Some (inr stderr) => let* err := lift (error_line stderr) in fail (DoesNotRender component err)
    | Some (inl all) =>
        let* ps := lift (check entry (List.filter truthy all)) in
        for_ ps (λ p, fail (Problem component p))
    end.

Definition main (listing : val) : G nat :=
    let* es := lift (get (or_ listing (VDict [])) "durable") in
    if negb (truthy es) then measurement_failed NothingListed else
    let* es := lift (py_iter es) in
    let* _ := for_ es check_entry in
    mret (length es).
End Charts.

(** ** What a passing run has established *)

(** A mount of the pod at the path, in a container or an init container. *)
Definition mounts (pod : val) (path : string) (m : val) : Prop :=
  ∃ cs c ms, all_containers pod = Ok cs ∧ c ∈ cs ∧ get_iter c "volumeMounts" = Ok ms ∧ m ∈ ms ∧
    get m "mountPath" = Ok (VStr path).

(** The state at the path is on a claim: there is a template for the volume, without a class of its
    own, no volume of the pod has its name, and what is mounted at the path is that volume. *)
Definition on_claim (name volume path : string) (docs : list val) : Prop :=
  ∃ s spec pod, s ∈ docs ∧ is_sts (VStr name) s = Ok true ∧ getitem s "spec" = Ok spec ∧
    getpath spec ["template"; "spec"] = Ok pod ∧
    (∃ cs c sp klass, get_iter spec "volumeClaimTemplates" = Ok cs ∧ c ∈ cs ∧
       getpath c ["metadata"; "name"] = Ok (VStr volume) ∧
       getitem c "spec" = Ok sp ∧ get sp "storageClassName" = Ok klass ∧ truthy klass = false) ∧
    (∃ vs, get_iter pod "volumes" = Ok vs ∧
       ∀ v, v ∈ vs → ∃ n, getitem v "name" = Ok n ∧ n ≠ VStr volume) ∧
    (∀ m, mounts pod path m → getitem m "name" = Ok (VStr volume)) ∧
    (∃ m, mounts pod path m).

(** A claim that is looked up is a template of that name. *)
Lemma claims_elem spec claims :
  claims_of spec = Ok claims → ∃ cs, get_iter spec "volumeClaimTemplates" = Ok cs ∧
    ∀ j c, (j, c) ∈ claims → c ∈ cs ∧ ∃ n, getpath c ["metadata"; "name"] = Ok n ∧ (j = n ∨ py_eq j n = true).
Proof.
  unfold claims_of. intros H. apply bind_Ok in H as (cs & Hcs & H). exists cs. split; [done|]. revert H.
  apply (foldM_invariant_in (λ claims, ∀ j c, (j, c) ∈ claims → c ∈ cs ∧
    ∃ n, getpath c ["metadata"; "name"] = Ok n ∧ (j = n ∨ py_eq j n = true))).
  2: { by intros j c ?%elem_of_nil. }
  intros acc x acc' Hx Hacc H j c Hj. unfold add_claim in H. apply bind_Ok in H as (n & Hn & H).
  apply bind_Ok in H as (n' & Hh & [= <-]). apply hashable_Ok in Hh as ->.
  apply vset_elem in Hj as [Hj|[-> Hj]]; [by apply Hacc|]. eauto.
Qed.

Lemma check_claim_nil name volume spec claims :
  claims_of spec = Ok claims → check_claim name (VStr volume) claims = Ok [] →
  ∃ cs c sp klass, get_iter spec "volumeClaimTemplates" = Ok cs ∧ c ∈ cs ∧
    getpath c ["metadata"; "name"] = Ok (VStr volume) ∧
    getitem c "spec" = Ok sp ∧ get sp "storageClassName" = Ok klass ∧ truthy klass = false.
Proof.
  intros Hcl H. apply claims_elem in Hcl as (cs & Hcs & Hall). unfold check_claim in H.
  cbn [hashable mbind res_bind] in H. destruct (vget (VStr volume) claims) as [c|] eqn:E; [|done].
  apply bind_Ok in H as (sp & Hsp & H). apply bind_Ok in H as (klass & Hk & H).
  apply vget_elem in E as (j & Hj & ->%py_eq_str). destruct (Hall _ _ Hj) as (Hc & n & Hn & Hjn).
  assert (n = VStr volume) as ->.
  { destruct Hjn as [<-|Hjn]; [done|by apply py_eq_str_l]. }
  exists cs, c, sp, klass. repeat (split; [done|]). by destruct (truthy klass).
Qed.

Lemma check_volume_nil name volume v :
  check_volume name (VStr volume) v = Ok [] → ∃ n, getitem v "name" = Ok n ∧ n ≠ VStr volume.
Proof.
  unfold check_volume. intros H. apply bind_Ok in H as (n & Hn & H). exists n. split; [done|].
  intros ->. cbn [py_eq] in H. rewrite String.eqb_refl in H. by apply bind_Ok in H as (? & _ & ?).
Qed.

Lemma check_mount_at name volume path c m k ps :
  check_mount name (VStr volume) (VStr path) c m = Ok (k, ps) →
  (get m "mountPath" = Ok (VStr path) → ps = [] → getitem m "name" = Ok (VStr volume)) ∧
  (k ≠ 0%nat → get m "mountPath" = Ok (VStr path)).
Proof.
  unfold check_mount. intros H. apply bind_Ok in H as (p & Hp & H).
  destruct (py_eq p (VStr path)) eqn:E; cbn [negb] in H.
  - apply py_eq_str in E as ->. apply bind_Ok in H as (n & Hn & H). split; [|done]. intros _ ->.
    destruct (py_eq n (VStr volume)) eqn:E; [by apply py_eq_str in E as <-|].
    by apply bind_Ok in H as (? & _ & ?).
  - injection H as <- <-. split; [|done]. intros Hm. rewrite Hp in Hm. injection Hm as ->.
    cbn [py_eq] in E. by rewrite String.eqb_refl in E.
Qed.

Lemma check_mounts_nil name volume path pod :
  check_mounts name (VStr volume) (VStr path) pod = Ok [] →
  (∀ m, mounts pod path m → getitem m "name" = Ok (VStr volume)) ∧ ∃ m, mounts pod path m.
Proof.
  unfold check_mounts. intros H. apply bind_Ok in H as (cs & Hcs & H).
  apply bind_Ok in H as (l & Hl & H). injection H as H. apply app_eq_nil in H as [Hps Hn]. split.
  - intros m (cs' & c & ms & Hcs' & Hc & Hms & Hm & Hp). rewrite Hcs in Hcs'. injection Hcs' as <-.
    destruct (mapM_covers _ _ _ _ Hl Hc) as (k & Hk & Hr). unfold check_container in Hr.
    rewrite Hms in Hr. cbn [mbind res_bind] in Hr.
    destruct (mapM_covers _ _ _ _ Hr Hm) as ([i ps] & Hi & Hcm).
    apply check_mount_at in Hcm as [Hcm _]. apply Hcm; [done|].
    apply (concat_nil_elem _ Hps). apply list_elem_of_fmap. exists (i, ps). split; [done|].
    apply list_elem_of_In, in_concat. exists k. by rewrite <- !list_elem_of_In.
  - destruct (Nat.eqb_spec (sum_list (map fst (concat l))) 0) as [|Hne]; [done|].
    assert (∃ i ps, (i, ps) ∈ concat l ∧ i ≠ 0%nat) as (i & ps & Hin & Hi).
    { clear -Hne. induction (concat l) as [|[i ps] k IH]; [done|]. cbn in Hne.
      destruct (decide (i = 0%nat)) as [->|Hi]; [|exists i, ps; split; [left|done]].
      destruct (IH Hne) as (j & qs & ? & ?). exists j, qs. split; [by right|done]. }
    apply list_elem_of_In, in_concat in Hin as (k & Hk & Hin). apply list_elem_of_In in Hk, Hin.
    destruct (mapM_elem _ _ _ _ Hl Hk) as (c & Hc & Hr). unfold check_container in Hr.
    apply bind_Ok in Hr as (ms & Hms & Hr). destruct (mapM_elem _ _ _ _ Hr Hin) as (m & Hm & Hcm).
    apply check_mount_at in Hcm as [_ Hp]. exists m, cs, c, ms. auto 10.
Qed.

Lemma check_nil entry docs name volume path :
  getitem entry "statefulset" = Ok (VStr name) → getitem entry "volume" = Ok (VStr volume) →
  getitem entry "mountPath" = Ok (VStr path) → check entry docs = Ok [] → on_claim name volume path docs.
Proof.
  intros Hn Hv Hp H. unfold check in H. rewrite Hn in H. cbn [mbind res_bind] in H. rewrite Hv in H.
  cbn [mbind res_bind] in H. rewrite Hp in H. cbn [mbind res_bind] in H.
  apply bind_Ok in H as ([|s sts] & Hs & H); [done|].
  destruct (proj1 (filter_res_elem _ _ _ Hs s) ltac:(left)) as [Hin Hsts].
  apply bind_Ok in H as (spec & Hspec & H). apply bind_Ok in H as (pod & Hpod & H).
  apply bind_Ok in H as (claims & Hcl & H). apply bind_Ok in H as (p1 & H1 & H).
  apply bind_Ok in H as (vs & Hvs & H). apply bind_Ok in H as (p2 & H2 & H).
  apply bind_Ok in H as (p3 & H3 & H). injection H as H. apply app_eq_nil in H as [-> H].
  apply app_eq_nil in H as [Hp2 ->]. apply check_mounts_nil in H3 as [H3 H4].
  exists s, spec, pod. repeat (split; [done|]). split; [by eapply check_claim_nil|].
  split; [|done]. exists vs. split; [done|]. intros v Hin'.
  destruct (mapM_covers _ _ _ _ H2 Hin') as (ps & Hps & Hcv). rewrite (concat_nil_elem _ Hp2 _ Hps) in Hcv.
  by eapply check_volume_nil.
Qed.

(** A gate that passes has listed something, and for every entry of the list the component's
    chart renders and keeps the state of the entry's path on a claim: the StatefulSet of that name
    has a claim template for the volume that asks for no storage class, its pod declares no volume
    of that name, something is mounted at the path, and everything mounted there is the claim. *)
Theorem durable_passed render listing n :
  main render listing = Done [] n →
  ∃ es l, get (or_ listing (VDict [])) "durable" = Ok es ∧ truthy es = true ∧ py_iter es = Ok l ∧
    n = length l ∧
    ∀ entry name volume path, entry ∈ l →
      getitem entry "statefulset" = Ok (VStr name) → getitem entry "volume" = Ok (VStr volume) →
      getitem entry "mountPath" = Ok (VStr path) →
      ∃ component docs, getitem entry "component" = Ok (VStr component) ∧
        render component = Some (inl docs) ∧ on_claim name volume path (List.filter truthy docs).
Proof.
  unfold main. intros H. apply lift_bind_Done in H as (es & Hes & H).
  destruct (truthy es) eqn:Ht; [|done]. cbn [negb] in H. apply lift_bind_Done in H as (l & Hl & H).
  apply bind_clean in H as ([] & Hf & [= <-]). rewrite for_clean in Hf. exists es, l.
  repeat (split; [done|]). intros entry name volume path Hin Hn Hv Hp. specialize (Hf entry Hin).
  unfold check_entry in Hf. apply lift_bind_Done in Hf as (c & Hc & Hf).
  apply lift_bind_Done in Hf as (component & Hco & Hf). destruct c; try done. injection Hco as ->.
  exists component. destruct (render component) as [[all|stderr]|] eqn:E; [| |done].
  - apply lift_bind_Done in Hf as (ps & Hps & Hf). rewrite for_clean in Hf. exists all.
    repeat (split; [done|]). destruct ps as [|p ps]; [by eapply check_nil|].
    by specialize (Hf p ltac:(left)).
  - by apply lift_bind_Done in Hf as (? & _ & ?).
Qed.

(** ** A chart *)

Definition sample_sts (claims volumes : list val) (mount : string) : list val :=
  [VDict [("kind", VStr "StatefulSet"); ("metadata", VDict [("name", VStr "mariadb-server")]);
     ("spec", VDict [("volumeClaimTemplates", VList claims);
       ("template", VDict [("spec", VDict [("volumes", VList volumes);
          ("containers", VList [VDict [("name", VStr "mariadb");
             ("volumeMounts", VList [VDict [("name", VStr mount); ("mountPath", VStr "/var/lib/mysql")]])]])])])])]].
Definition sample_claim (klass : list (string * val)) : val :=
  VDict [("metadata", VDict [("name", VStr "mysql-data")]); ("spec", VDict klass)].
Definition sample_listing : val :=
  VDict [("durable", VList [VDict [("component", VStr "mariadb"); ("statefulset", VStr "mariadb-server");
    ("volume", VStr "mysql-data"); ("mountPath", VStr "/var/lib/mysql")]])].

(** The shape that lost every database, a class that no cluster has, and the one that is wanted. *)
Definition sample_render (docs : list val) (c : string) : option (list val + string) :=
  if String.eqb c "mariadb" then Some (inl docs) else None.
Definition host_path : list val :=
  [VDict [("name", VStr "mysql-data"); ("hostPath", VDict [("path", VStr "/tmp/mysql-data")])]].

Lemma durable_passed_witness :
  main (sample_render (sample_sts [] host_path "mysql-data")) sample_listing =
    Done (map (Problem "mariadb") [NoClaim (VStr "mariadb-server") (VStr "mysql-data");
            InPod (VStr "mariadb-server") (VStr "mysql-data") "hostPath"]) 1%nat ∧
  main (sample_render (sample_sts [sample_claim [("storageClassName", VStr "general")]] [] "mysql-data")) sample_listing =
    Done [Problem "mariadb" (NamesClass (VStr "mariadb-server") (VStr "mysql-data") (VStr "general"))] 1%nat ∧
  main (sample_render (sample_sts [sample_claim []] [] "mysql-data")) sample_listing = Done [] 1%nat ∧
  on_claim "mariadb-server" "mysql-data" "/var/lib/mysql" (sample_sts [sample_claim []] [] "mysql-data").
Proof.
  split; [vm_compute; reflexivity|]. split; [vm_compute; reflexivity|]. split; [vm_compute; reflexivity|].
  destruct (durable_passed (sample_render (sample_sts [sample_claim []] [] "mysql-data")) sample_listing 1
    ltac:(vm_compute; reflexivity)) as (es & l & Hes & _ & Hl & _ & H).
  injection Hes as <-. injection Hl as <-.
  destruct (H _ "mariadb-server" "mysql-data" "/var/lib/mysql" ltac:(left) eq_refl eq_refl eq_refl)
    as (component & docs & Hc & Hr & Ho).
  injection Hc as <-. injection Hr as <-. exact Ho.
Defined.

(** Helm that fails with blank lines only: the last line of nothing is asked for. *)
Example blank_error :
  verdict_of (main (λ _, Some (inr newline)) sample_listing) = Traceback IndexError.
Proof. reflexivity. Qed.
End DurableState.
