(* ===== verification/ValPaths.v ===== *)
(** * Paths into documents

    What is reached in a document through the keys of its mappings and the indices of its lists. *)
From S2P Require Import Prelude PyStr PyVal.
#[local] Open Scope list_scope.

Inductive step := Key (k : string) | Idx (i : nat).

#[global] Instance step_eq_dec : EqDecision step.
Proof. solve_decision. Defined.

Inductive reaches : val → list step → val → Prop :=
  | reaches_here v : reaches v [] v
  | reaches_key d k v p w : (k, v) ∈ d → reaches v p w → reaches (VDict d) (Key k :: p) w
  | reaches_idx l i v p w : l !! i = Some v → reaches v p w → reaches (VList l) (Idx i :: p) w.

#[export] Hint Constructors reaches : core.

Lemma reaches_nil v w : reaches v [] w ↔ w = v.
Proof. split; [by inversion 1|by intros ->]. Qed.

Lemma reaches_Key d k p w : reaches (VDict d) (Key k :: p) w ↔ ∃ v, (k, v) ∈ d ∧ reaches v p w.
Proof. split; [inversion 1; subst; eauto|intros (v & ? & ?); eauto]. Qed.

Lemma reaches_Idx l i p w : reaches (VList l) (Idx i :: p) w ↔ ∃ v, l !! i = Some v ∧ reaches v p w.
Proof. split; [inversion 1; subst; eauto|intros (v & ? & ?); eauto]. Qed.

Lemma reaches_app v p q w : reaches v (p ++ q) w ↔ ∃ u, reaches v p u ∧ reaches u q w.
Proof.
  split.
  - revert v. induction p as [|s p IH]; intros v H; [by exists v|]. cbn [app] in H.
    inversion H; subst; edestruct IH as (x & ? & ?); eauto.
  - intros (u & H & Hq). induction H; cbn [app]; eauto.
Qed.

(** The values reached by a path from one of the members of a mapping or list. *)
Lemma reaches_member d w : (∃ p, reaches (VDict d) p w) ↔ w = VDict d ∨ ∃ k v, (k, v) ∈ d ∧ ∃ p, reaches v p w.
Proof.
  split.
  - intros (p & H). inversion H; subst; eauto 10.
  - intros [->|(k & v & Hv & p & H)]; eauto.
Qed.
Lemma reaches_item l w : (∃ p, reaches (VList l) p w) ↔ w = VList l ∨ ∃ v, v ∈ l ∧ ∃ p, reaches v p w.
Proof.
  setoid_rewrite list_elem_of_lookup. split.
  - intros (p & H). inversion H; subst; eauto 10.
  - intros [->|(v & (i & Hi) & p & H)]; eauto.
Qed.
