(* ===== verification/CollectImages.v ===== *)
(** * tools/collect-images.py: the images of the containers in rendered manifests

    The parsed documents of each file are the input. *)
From S2P Require Import Prelude PyStr PyVal ValPaths.
#[local] Open Scope string_scope.
#[local] Open Scope list_scope.

Module CollectImages.

(** The image of a mapping that is a container's: it has a name, too. *)
Definition image_of (d : list (string * val)) : option string :=
  match assoc "image" d with
  | Some (VStr s) =>
      if negb (String.eqb (strip s) "") && bool_decide (is_Some (assoc "name" d)) then Some (strip s) else None
  | _ => None
  end.

Definition add_image (d : list (string * val)) (out : gset string) : gset string :=
  match image_of d with Some s => {[s]} ∪ out | None => out end.

Fixpoint walk (node : val) (out : gset string) : gset string :=
  match node with
  | VDict d => foldl (λ out kv, walk kv.2 out) (add_image d out) d
  | VList l => foldl (λ out v, walk v out) out l
  | _ => out
  end.

(** The usage error and the empty result both end the process with status 1. *)
Inductive ending := Usage | NoImages | Printed (images : list string).

Definition main (files : list (list val)) : ending :=
  match files with
  | [] => Usage
  | _ =>
      let found := foldl (λ out docs, foldl (λ out doc, walk doc out) out docs) ∅ files in
      if bool_decide (found = ∅) then NoImages else Printed (sorted_strs (elements found))
  end.

Definition status (e : ending) : Z := match e with Printed _ => 0 | _ => 1 end.

(** ** What is collected *)

Definition container_image (v : val) (s : string) : Prop :=
  ∃ d, v = VDict d ∧ image_of d = Some s.

(** The image of some mapping at any depth. *)
Definition image_in (v : val) (s : string) : Prop := ∃ p w, reaches v p w ∧ container_image w s.

Lemma image_in_dict d s :
  image_in (VDict d) s ↔ image_of d = Some s ∨ ∃ k v, (k, v) ∈ d ∧ image_in v s.
Proof.
  unfold image_in. split.
  - intros (p & w & H & Hw). destruct (proj1 (reaches_member d w)) as [->|(k & v & Hv & q & Hq)]; [by eauto| |].
    + destruct Hw as (d' & [= <-] & Hw). by left.
    + right. eauto 10.
  - intros [H|(k & v & Hv & p & w & H & Hw)].
    + exists [], (VDict d). split; [constructor|]. by exists d.
    + destruct (proj2 (reaches_member d w)) as (q & Hq); eauto 10.
Qed.

Lemma image_in_list l s : image_in (VList l) s ↔ ∃ v, v ∈ l ∧ image_in v s.
Proof.
  unfold image_in. split.
  - intros (p & w & H & Hw). destruct (proj1 (reaches_item l w)) as [->|(v & Hv & q & Hq)]; [by eauto| |eauto 10].
    by destruct Hw as (d' & [=] & _).
  - intros (v & Hv & p & w & H & Hw). destruct (proj2 (reaches_item l w)) as (q & Hq); eauto 10.
Qed.

Lemma image_in_scalar v s : image_in v s → is_dict v || is_list v = true.
Proof. intros (p & w & H & d & -> & _). by inversion H. Qed.

Lemma foldl_elem {A} (f : A → gset string → gset string) (P : A → string → Prop) l : ∀ out s,
  (∀ x, x ∈ l → ∀ out, s ∈ f x out ↔ s ∈ out ∨ P x s) →
  s ∈ foldl (λ out x, f x out) out l ↔ s ∈ out ∨ ∃ x, x ∈ l ∧ P x s.
Proof.
  induction l as [|x l IH]; intros out s Hf; cbn [foldl].
  - split; [by left|]. intros [?|(x & ?%elem_of_nil & _)]; done.
  - rewrite IH by (intros y Hy; apply Hf; by right). rewrite (Hf x) by left. setoid_rewrite elem_of_cons. split.
    + intros [[?|?]|(y & ? & ?)]; eauto 10.
    + intros [?|(y & [->|?] & ?)]; eauto 10.
Qed.

Lemma add_image_elem d out s : s ∈ add_image d out ↔ s ∈ out ∨ image_of d = Some s.
Proof.
  unfold add_image. destruct (image_of d) as [t|].
  - rewrite elem_of_union, elem_of_singleton. split; [intros [->|?]; auto|intros [?|[= ->]]; auto].
  - split; [by left|by intros [?|[=]]].
Qed.

Lemma collected_elem s v : ∀ out, s ∈ walk v out ↔ s ∈ out ∨ image_in v s.
Proof.
  induction v as [|b|z|f|t|l IH|d IH] using val_nested_ind; intros out; cbn [walk].
  1-5: split; [by left|intros [?|H]; [done|by apply image_in_scalar in H]].
  - rewrite image_in_list. apply (foldl_elem walk image_in). by rewrite Forall_forall in IH.
  - rewrite (foldl_elem (λ kv, walk kv.2) (λ kv, image_in kv.2)), image_in_dict, add_image_elem.
    + split.
      * intros [[?|?]|([k v] & Hk & Hv)]; eauto 10.
      * intros [?|[?|(k & v & Hk & Hv)]]; auto. right. by exists (k, v).
    + by rewrite Forall_forall in IH.
Qed.

(** For at least one file, what is printed is in order, without repetition, and is exactly the
    stripped image strings, other than empty ones, of the mappings with a name at any depth of any
    document; the run fails exactly when there is none. *)
Theorem images_exact files :
  files ≠ [] →
  let printed s := ∃ docs doc, docs ∈ files ∧ doc ∈ docs ∧ image_in doc s in
  (main files = NoImages ∧ ∀ s, ¬ printed s) ∨
  ∃ images, main files = Printed images ∧ images ≠ [] ∧ StronglySorted (λ a b, str_leb a b = true) images ∧
    NoDup images ∧ ∀ s, s ∈ images ↔ printed s.
Proof.
  intros Hne printed. unfold main. destruct files as [|f files]; [done|].
  set (found := foldl _ _ _).
  assert (Hf : ∀ s, s ∈ found ↔ printed s).
  { intros s. unfold found.
    rewrite (foldl_elem (λ docs out, foldl (λ out doc, walk doc out) out docs)
      (λ docs s, ∃ doc, doc ∈ docs ∧ image_in doc s)).
    - unfold printed. split; [intros [?%elem_of_empty|(x & ? & y & ? & ?)]; [done|]|intros (x & y & ? & ? & ?); right]; eauto 10.
    - intros docs _ out. apply (foldl_elem walk image_in). intros. apply collected_elem. }
  case_bool_decide as E.
  - left. split; [done|]. intros s Hs%Hf. rewrite E in Hs. by apply elem_of_empty in Hs.
  - right. eexists. split; [done|]. split; [|split; [|split]].
    + unfold sorted_strs. rewrite isort_nil. intros H%elements_empty_inv. by apply E, leibniz_equiv.
    + apply isort_sorted; [apply str_leb_total|apply str_leb_trans].
    + unfold sorted_strs. rewrite isort_Permutation. apply NoDup_elements.
    + intros s. by rewrite elem_of_sorted_strs, elem_of_elements.
Qed.

(** ** Manifests *)

Definition sample_docs : list val :=
  [VDict [("kind", VStr "Deployment"); ("spec", VDict [
     ("containers", VList [VDict [("name", VStr "api"); ("image", VStr " quay.io/airshipit/glance:2026.1 ")];
                           VDict [("name", VStr "log"); ("image", VStr "docker.io/busybox:1.37")]])])];
   VDict [("kind", VStr "ConfigMap"); ("data", VDict [("x", VStr "image: not/this:one")]);
          ("image", VStr "no-name:1")]].

Lemma images_exact_witness :
  main [sample_docs; sample_docs] = Printed ["docker.io/busybox:1.37"; "quay.io/airshipit/glance:2026.1"] ∧
  ¬ (∃ docs doc, docs ∈ [sample_docs; sample_docs] ∧ doc ∈ docs ∧ image_in doc "no-name:1").
Proof.
  split; [vm_compute; reflexivity|].
  destruct (images_exact [sample_docs; sample_docs] ltac:(discriminate)) as [[_ H]|(images & H & _ & _ & _ & Hi)].
  - apply H.
  - rewrite <- Hi. replace (main _) with (Printed ["docker.io/busybox:1.37"; "quay.io/airshipit/glance:2026.1"]) in H
      by (vm_compute; reflexivity).
    injection H as <-. clear. intros H.
    apply elem_of_cons in H as [H|H]; [discriminate|]. apply elem_of_cons in H as [H|H]; [discriminate|].
    by apply elem_of_nil in H.
Defined.
End CollectImages.
