(* ===== verification/SchemaGen.v ===== *)
(** * hack/gen-componentvalues-schema.py: the umbrella's schema types each component's values

    The parsed values and schema of the umbrella are the input, with each component's schema; the
    schema that is written back is the result. *)
From S2P Require Import Prelude PyStr PyVal ValPaths.
#[local] Open Scope string_scope.
#[local] Open Scope list_scope.

Module SchemaGen.

(** [d.pop(k, None)] *)
Definition dict_pop {B} (k : string) (d : list (string * B)) : list (string * B) :=
  List.filter (λ kv, negb (String.eqb kv.1 k)) d.

(** The code changes the document in place; no part of a parsed document is shared. The filter is
    [dict_pop], written out for the recursion. *)
Fixpoint strip_required (node : val) : val :=
  match node with
  | VDict d =>
      VDict ((fix go (d : list (string * val)) :=
                match d with
                | [] => []
                | (k, v) :: d' =>
                    if negb (String.eqb k "required") then (k, strip_required v) :: go d' else go d'
                end) d)
  | VList l => VList (map strip_required l)
  | _ => node
  end.

Section Generate.
  (** The parsed values.schema.json of a component's chart, where it has one. *)
  Context (schemas : string → option val).

Definition description (name ver : string) : string :=
    "Overrides for the " +:+ name +:+ " Composition (chart " +:+ ver +:+ "), deep-merged into its spec.".

Definition typed (name ver : string) (s : val) : res val :=
    match s with
    | VDict d =>
        match strip_required (VDict (dict_pop "title" (dict_pop "$schema" d))) with
        | VDict d' => Ok (VDict (dict_set "description" (VStr (description name ver)) d'))
        | v => Ok v
        end
    | VList _ => Raise TypeError
    | _ => Raise AttributeError
    end.

Definition add_component (ver : string) (props : list (string * val)) (c : val) :
      res (list (string * val)) :=
    let* name := getitem c "name" in
    let* name := py_str name in
    match schemas name with
    | None => Ok props
    | Some s => let* t := typed name ver s in Ok (dict_set name t props)
    end.

Definition props_of (vals : val) : res (list (string * val)) :=
    let* v := getitem vals "chartVersion" in
    let* ver := py_str v in
    let* cs := getitem vals "components" in
    let* cs := py_iter cs in
    foldM (add_component ver) [] cs.

Definition long_description : string :=
    "Per-component Composition spec overrides, STRICTLY TYPED against each component's chart schema (regenerated per release by hack/gen-componentvalues-schema.py). The value at componentValues.<name> becomes that component's Composition spec; components without an entry use chart defaults.".

Definition component_values (props : list (string * val)) : val :=
    VDict [("type", VList [VStr "object"; VStr "null"]);
           ("title", VStr "Per-component spec overrides");
           ("description", VStr long_description);
           ("additionalProperties", VBool false);
           ("properties", VDict props)].

(** [v[k] = w] *)
Definition setitem (v : val) (k : string) (w : val) : res val :=
    match v with VDict d => Ok (VDict (dict_set k w d)) | _ => Raise TypeError end.

Definition main (vals schema : val) : res val :=
    let* props := props_of vals in
    let* ps := getitem schema "properties" in
    let* ps := setitem ps "componentValues" (component_values props) in
    setitem schema "properties" ps.
End Generate.

(** ** Stripping *)

Lemma strip_dict d :
  strip_required (VDict d) = VDict (map (λ kv, (kv.1, strip_required kv.2)) (dict_pop "required" d)).
Proof.
  cbn [strip_required]. f_equal. induction d as [|[k v] d IH]; [done|]. cbn [dict_pop List.filter fst].
  destruct (String.eqb k "required"); cbn [negb map]; rewrite IH; done.
Qed.

Lemma dict_pop_elem {B} k j (v : B) d : (j, v) ∈ dict_pop k d ↔ j ≠ k ∧ (j, v) ∈ d.
Proof.
  unfold dict_pop. rewrite list_elem_of_In, filter_In, <- list_elem_of_In. cbn [fst].
  rewrite negb_true_iff, String.eqb_neq. tauto.
Qed.

(** What a path reaches in a stripped document is the stripped value it reached before, for
    the paths that take no key named required; nothing else is reached. *)
Theorem strip_exact v p w :
  reaches (strip_required v) p w ↔
  Key "required" ∉ p ∧ ∃ u, reaches v p u ∧ w = strip_required u.
Proof.
  revert v. induction p as [|s p IH]; intros v.
  - rewrite reaches_nil. setoid_rewrite reaches_nil. split.
    + intros ->. split; [by intros ?%elem_of_nil|eauto].
    + by intros (_ & u & -> & ->).
  - rewrite not_elem_of_cons. split.
    + intros H. destruct v as [| | | | |l|d].
      1-5: by inversion H.
      * cbn [strip_required] in H. inversion H as [| |l' i u q w' Hi Hr]; subst.
        rewrite list_lookup_fmap in Hi. destruct (l !! i) as [u0|] eqn:E; [|done]. injection Hi as <-.
        apply IH in Hr as (Hp & u & Hu & ->). split; [done|]. exists u. split; [|done]. by econstructor.
      * rewrite strip_dict in H. inversion H as [|d' k u q w' Hk Hr|]; subst.
        apply list_elem_of_fmap in Hk as ([j u0] & [= -> ->] & Hj). apply dict_pop_elem in Hj as [Hne Hj].
        apply IH in Hr as (Hp & u & Hu & ->). split; [split; [congruence|done]|].
        exists u. split; [|done]. by econstructor.
    + intros ([Hs Hp] & u & Hu & ->).
      assert (Hw : ∀ x, reaches x p u → reaches (strip_required x) p (strip_required u)).
      { intros x Hx. apply IH. eauto. }
      inversion Hu as [|d k x q w' Hk Hr|l i x q w' Hi Hr]; subst.
      * rewrite strip_dict. econstructor; [|by apply Hw]. apply list_elem_of_fmap. exists (k, x).
        split; [done|]. apply dict_pop_elem. split; [congruence|done].
      * cbn [strip_required]. econstructor; [|by apply Hw]. by rewrite list_lookup_fmap, Hi.
Qed.

(** ** What is generated *)

Lemma dict_set_again {B} k (v w : B) d : dict_set k w (dict_set k v d) = dict_set k w d.
Proof.
  induction d as [|[j u] d IH]; cbn [dict_set].
  - by rewrite String.eqb_refl.
  - destruct (String.eqb_spec k j) as [->|Hj]; cbn [dict_set]; [by rewrite String.eqb_refl|].
    apply String.eqb_neq in Hj. by rewrite Hj, IH.
Qed.

Lemma assoc_set {B} k (v : B) d : assoc k (dict_set k v d) = Some v.
Proof. by rewrite assoc_dict_set, String.eqb_refl. Qed.

Lemma assoc_set_ne {B} k j (v : B) d : j ≠ k → assoc j (dict_set k v d) = assoc j d.
Proof. intros Hj. rewrite assoc_dict_set. by apply String.eqb_neq in Hj as ->. Qed.

Section Generated.
  Context (schemas : string → option val).

(** The name and version a component is typed at. *)
Definition lists_component (vals : val) (name ver : string) : Prop :=
    ∃ v cs l c n, getitem vals "chartVersion" = Ok v ∧ py_str v = Ok ver ∧
      getitem vals "components" = Ok cs ∧ py_iter cs = Ok l ∧ c ∈ l ∧
      getitem c "name" = Ok n ∧ py_str n = Ok name.

Definition named (l : list val) (name : string) : Prop :=
    ∃ c n, c ∈ l ∧ getitem c "name" = Ok n ∧ py_str n = Ok name.

Lemma add_component_named ver acc c props :
  add_component schemas ver acc c = Ok props →
  ∃ n name, getitem c "name" = Ok n ∧ py_str n = Ok name ∧
    ((schemas name = None ∧ props = acc) ∨
     ∃ s t, schemas name = Some s ∧ typed name ver s = Ok t ∧ props = dict_set name t acc).
Proof.
  unfold add_component. intros H. apply bind_Ok in H as (n & Hn & H).
  apply bind_Ok in H as (name & Hname & H). exists n, name. do 2 (split; [done|]).
  destruct (schemas name) as [s|]; [right|left; by injection H as <-].
  apply bind_Ok in H as (t & Ht & [= <-]). eauto.
Qed.

(** Every property is a listed component's typed schema. *)
Lemma add_components_only ver l : ∀ acc props,
  foldM (add_component schemas ver) acc l = Ok props → ∀ name t, assoc name props = Some t →
  assoc name acc = Some t ∨ named l name ∧ ∃ s, schemas name = Some s ∧ typed name ver s = Ok t.
Proof.
  induction l as [|c l IH]; intros acc props H name t Ht; cbn [foldM] in H.
  - injection H as <-. by left.
  - apply bind_Ok in H as (acc' & Hc & H). destruct (IH _ _ H _ _ Ht) as [Ha|[(c' & n & Hc' & Hn & Hs) Hx]].
    + apply add_component_named in Hc as (n & nm & Hn & Hnm & [[_ ->]|(s & u & Hs & Hu & ->)]); [by left|].
      destruct (decide (name = nm)) as [->|Hne].
      * rewrite assoc_set in Ha. injection Ha as ->. right. split; [|eauto]. exists c, n. split; [left|done].
      * rewrite assoc_set_ne in Ha by done. by left.
    + right. split; [|done]. exists c', n. split; [by right|done].
Qed.

(** Once typed, a component stays so: its type depends on its name alone. *)
Lemma add_components_keep ver l : ∀ acc props,
  foldM (add_component schemas ver) acc l = Ok props → ∀ name s t,
  schemas name = Some s → typed name ver s = Ok t → assoc name acc = Some t → assoc name props = Some t.
Proof.
  induction l as [|c l IH]; intros acc props H name s t Hs Ht Ha; cbn [foldM] in H.
  - by injection H as <-.
  - apply bind_Ok in H as (acc' & Hc & H). eapply IH; [exact H|exact Hs|exact Ht|].
    apply add_component_named in Hc as (n & nm & Hn & Hnm & [[_ ->]|(s' & u & Hs' & Hu & ->)]); [done|].
    destruct (decide (name = nm)) as [->|Hne]; [|by rewrite assoc_set_ne].
    rewrite assoc_set. congruence.
Qed.

Lemma add_components_all ver l : ∀ acc props,
  foldM (add_component schemas ver) acc l = Ok props → ∀ name s,
  named l name → schemas name = Some s → ∃ t, typed name ver s = Ok t ∧ assoc name props = Some t.
Proof.
  induction l as [|c l IH]; intros acc props H name s (c' & n & Hc' & Hn & Hname) Hs; [by apply elem_of_nil in Hc'|].
  cbn [foldM] in H. apply bind_Ok in H as (acc' & Hc & H). apply elem_of_cons in Hc' as [->|Hc'].
  - apply add_component_named in Hc as (n' & nm & Hn' & Hnm & Hcase). rewrite Hn in Hn'. injection Hn' as <-.
    rewrite Hname in Hnm. injection Hnm as <-. destruct Hcase as [[Hno _]|(s' & t & Hs' & Ht & ->)]; [congruence|].
    rewrite Hs in Hs'. injection Hs' as <-. exists t. split; [done|].
    eapply add_components_keep; [exact H|exact Hs|exact Ht|apply assoc_set].
  - eapply IH; [exact H| |exact Hs]. by exists c', n.
Qed.

Lemma reaches_set_str k s d p w :
  reaches (VDict (dict_set k (VStr s) d)) p w → p = [] ∨ p = [Key k] ∨ reaches (VDict d) p w.
Proof.
  intros H. inversion H as [|d' j v q w' Hj Hr|]; subst; [by left|]. right.
  assert (Hin : (j, v) ∈ d ∨ (j, v) = (k, VStr s)).
  { clear -Hj. induction d as [|[i u] d IH]; cbn [dict_set] in Hj.
    - apply list_elem_of_singleton in Hj as ->. by right.
    - destruct (String.eqb k i); apply elem_of_cons in Hj as [->|Hj]; [by right|left; by right|left; left|].
      destruct (IH Hj); [left; by right|by right]. }
  destruct Hin as [Hin|[= -> ->]]; [right; by econstructor|left]. by inversion Hr.
Qed.

Lemma typed_no_required name ver s t p w :
  typed name ver s = Ok t → ¬ reaches t (p ++ [Key "required"]) w.
Proof.
  unfold typed. intros Ht H. destruct s as [| | | | | |d]; try done. rewrite strip_dict in Ht.
  injection Ht as <-. apply reaches_set_str in H as [H|[H|H]].
  - by destruct p.
  - by destruct p as [|? [|]].
  - rewrite <- strip_dict in H. apply strip_exact in H as [Hno _]. apply Hno. set_solver.
Qed.

(** C30: The schema that is generated differs from the one that was read in
    properties.componentValues only; the types there are those of the listed components that have
    a schema, each without its $schema and title and without a key required at any depth, and with
    a description of its own; and generating again gives the same schema. *)
Theorem generated vals schema schema' :
  main schemas vals schema = Ok schema' →
  ∃ d ps props, schema = VDict d ∧ assoc "properties" d = Some (VDict ps) ∧
    schema' = VDict (dict_set "properties" (VDict (dict_set "componentValues" (component_values props) ps)) d) ∧
    (∀ name t, assoc name props = Some t ↔
       ∃ ver s, lists_component vals name ver ∧ schemas name = Some s ∧ typed name ver s = Ok t) ∧
    (∀ name t p w, assoc name props = Some t → ¬ reaches t (p ++ [Key "required"]) w) ∧
    main schemas vals schema' = Ok schema'.
Proof.
  unfold main. intros H. apply bind_Ok in H as (props & Hp & H). apply bind_Ok in H as (ps & Hps & H).
  apply bind_Ok in H as (ps' & Hps' & H). destruct schema as [| | | | | |d]; try done.
  destruct ps as [| | | | | |ps]; try done. cbn [setitem] in H, Hps'. injection Hps' as <-.
  injection H as <-. cbn [getitem] in Hps. destruct (assoc "properties" d) as [ps0|] eqn:E; [|done].
  injection Hps as ->. exists d, ps, props. do 3 (split; [done|]).
  assert (Hspec : ∀ name t, assoc name props = Some t ↔
    ∃ ver s, lists_component vals name ver ∧ schemas name = Some s ∧ typed name ver s = Ok t).
  { unfold props_of in Hp. apply bind_Ok in Hp as (v & Hv & Hp). apply bind_Ok in Hp as (ver & Hver & Hp).
    apply bind_Ok in Hp as (cs & Hcs & Hp). apply bind_Ok in Hp as (l & Hl & Hp). intros name t. split.
    - intros Ht. destruct (add_components_only _ _ _ _ Hp _ _ Ht) as [?|[(c & n & Hc & Hn & Hnm) (s & Hs & Hty)]]; [done|].
      exists ver, s. split; [|done]. exists v, cs, l, c, n. auto 10.
    - intros (ver' & s & (v' & cs' & l' & c & n & Hv' & Hver' & Hcs' & Hl' & Hc & Hn & Hnm) & Hs & Ht).
      rewrite Hv in Hv'. injection Hv' as <-. rewrite Hver in Hver'. injection Hver' as <-.
      rewrite Hcs in Hcs'. injection Hcs' as <-. rewrite Hl in Hl'. injection Hl' as <-.
      destruct (add_components_all _ _ _ _ Hp name s) as (t' & Ht' & Ha); [by exists c, n|done|].
      congruence. }
  split; [done|]. split.
  - intros name t p w Ht. apply Hspec in Ht as (ver & s & _ & _ & Ht). by eapply typed_no_required.
  - rewrite Hp. cbn [mbind res_bind getitem]. rewrite assoc_set. cbn [setitem mbind res_bind].
    by rewrite !dict_set_again.
Qed.
End Generated.

(** ** A component *)

Definition sample_schemas (name : string) : option val :=
  if String.eqb name "nova" then
    Some (VDict [("$schema", VStr "http://json-schema.org/draft-07/schema#"); ("type", VStr "object");
      ("required", VList [VStr "replicas"]);
      ("properties", VDict [("replicas", VDict [("type", VStr "integer")]);
                            ("tls", VDict [("type", VStr "object"); ("required", VList [VStr "secret"])])])])
  else None.
Definition sample_vals : val :=
  VDict [("chartVersion", VStr "0.3.33");
         ("components", VList [VDict [("name", VStr "nova")]; VDict [("name", VStr "own")]])].
Definition sample_schema : val :=
  VDict [("properties", VDict [("componentValues", VStr "stale"); ("profile", VDict [])]); ("type", VStr "object")].
Definition sample_out : val :=
  VDict [("properties", VDict [("componentValues", component_values [("nova",
      VDict [("type", VStr "object");
        ("properties", VDict [("replicas", VDict [("type", VStr "integer")]); ("tls", VDict [("type", VStr "object")])]);
        ("description", VStr (description "nova" "0.3.33"))])]); ("profile", VDict [])]); ("type", VStr "object")].

Lemma generated_witness :
  main sample_schemas sample_vals sample_schema = Ok sample_out ∧
  main sample_schemas sample_vals sample_out = Ok sample_out.
Proof.
  split; [vm_compute; reflexivity|].
  destruct (generated sample_schemas sample_vals sample_schema sample_out ltac:(vm_compute; reflexivity))
    as (d & ps & props & _ & _ & _ & _ & _ & H). exact H.
Defined.

(** A property that is called required is lost: the keyword and the name of a property are told
    apart by their place, which is not looked at. *)
Example property_lost :
  strip_required (VDict [("properties", VDict [("required", VDict [("type", VStr "boolean")])])]) =
  VDict [("properties", VDict [])].
Proof. reflexivity. Qed.
End SchemaGen.
