(* ===== verification/RoleMapping.v ===== *)
(** * hack/validate-rolemapping.py: each mapped role is a role or a capability that is declared

    The parsed values of the umbrella are the input. *)
From S2P Require Import Prelude PyStr PyVal Gate.
#[local] Open Scope string_scope.
#[local] Open Scope list_scope.

Module RoleMapping.

Inductive unmeasured := NoValues | NoMapping | NoRoles.
(** A cmpRole that names nothing. *)
Definition problem := val.
Notation G := (gate unmeasured problem).

(** The names of the capabilities and the roles they aggregate to. *)
Definition add_capability (st : list val * list val) (c : val) : res (list val * list val) :=
  if negb (is_dict c) then Ok st else
  let* n := get c "name" in
  let* names := if truthy n then let* n := hashable n in Ok (st.1 ++ [n]) else Ok st.1 in
  let* rs := get_iter c "aggregateTo" in
  let* rs := mapM hashable rs in
  Ok (names, st.2 ++ rs).

Definition read_capabilities (caps : list val) : res (list val * list val) :=
  foldM add_capability ([], []) caps.

(** The cmpRole of an entry that is not allowed; an entry that is no mapping is passed over. *)
Definition bad_role (allowed : list val) (e : val) : res (list val) :=
  if negb (is_dict e) then Ok [] else
  let* r := get e "cmpRole" in
  let* r := hashable r in
  Ok (if py_in r allowed then [] else [r]).

Definition main (values : option val) : G nat :=
  match values with
  | None => measurement_failed NoValues
  | Some v =>
      let* contract := lift (get_dict (or_ v (VDict [])) "serviceContract") in
      let* mapping := lift (get contract "roleMapping") in
      let* caps := lift (get_iter contract "capabilities") in
      let* _ := require (truthy mapping) NoMapping in
      let* (names, roles) := lift (read_capabilities caps) in
      let* _ := require (negb (Nat.eqb (length roles) 0)) NoRoles in
      let* entries := lift (py_iter mapping) in
      let* bad := lift (mapM (bad_role (roles ++ names)) entries) in
      let* _ := for_ (concat bad) fail in
      mret (length entries)
  end.

(** ** What a passing run has established *)

(** A name or an aggregated role of one of the capabilities. *)
Definition declares (caps : list val) (r : val) : Prop :=
  ∃ c, c ∈ caps ∧ is_dict c = true ∧
    ((get c "name" = Ok r ∧ truthy r = true) ∨ ∃ rs, get_iter c "aggregateTo" = Ok rs ∧ r ∈ rs).

Lemma read_capabilities_declares caps names roles :
  read_capabilities caps = Ok (names, roles) → ∀ r, r ∈ roles ++ names → declares caps r.
Proof.
  intros H. change (∀ r, r ∈ (names, roles).2 ++ (names, roles).1 → declares caps r). revert H.
  unfold read_capabilities.
  apply (foldM_invariant_in (λ st, ∀ r, r ∈ st.2 ++ st.1 → declares caps r)); [|by intros r ?%elem_of_nil].
  intros [ns rs] c st Hc IH H r Hr. unfold add_capability in H. cbn [fst snd] in *.
  destruct (is_dict c) eqn:Hd; cbn [negb] in H; [|injection H as <-; by apply IH].
  apply bind_Ok in H as (n & Hn & H). apply bind_Ok in H as (names' & Hnames & H).
  apply bind_Ok in H as (rs1 & Hrs & H). apply bind_Ok in H as (rs2 & Hh & [= <-]).
  apply mapM_hashable in Hh as ->. cbn [fst snd] in Hr.
  assert (Hn' : r ∈ names' → r ∈ ns ∨ declares caps r).
  { intros Hin. destruct (truthy n) eqn:Ht.
    - apply bind_Ok in Hnames as (n' & Hh & [= <-]). apply hashable_Ok in Hh as ->.
      apply elem_of_app in Hin as [?| ->%list_elem_of_singleton]; [by left|]. right. exists c. auto 10.
    - injection Hnames as <-. by left. }
  rewrite !elem_of_app in Hr. destruct Hr as [[Hr|Hr]|Hr].
  - apply IH, elem_of_app. by left.
  - exists c. eauto 10.
  - destruct (Hn' Hr) as [?|?]; [apply IH, elem_of_app; by right|done].
Qed.

(** When the gate passes, each entry of the role mapping that is a mapping names, up to
    Python's equality, a capability that is declared or a role that one aggregates to. *)
Theorem roles_mapped v n :
  main (Some v) = Done [] n →
  ∃ contract mapping entries caps,
    get_dict (or_ v (VDict [])) "serviceContract" = Ok contract ∧
    get contract "roleMapping" = Ok mapping ∧ truthy mapping = true ∧ py_iter mapping = Ok entries ∧
    n = length entries ∧ get_iter contract "capabilities" = Ok caps ∧
    ∀ e, e ∈ entries → is_dict e = true →
      ∃ r w, get e "cmpRole" = Ok r ∧ declares caps w ∧ py_eq w r = true.
Proof.
  unfold main. intros H. apply lift_bind_Done in H as (contract & Hc & H).
  apply lift_bind_Done in H as (mapping & Hm & H). apply lift_bind_Done in H as (caps & Hcaps & H).
  apply bind_clean in H as ([] & Ht & H). apply require_clean in Ht.
  apply lift_bind_Done in H as ([names roles] & Hr & H). apply bind_clean in H as ([] & _ & H).
  apply lift_bind_Done in H as (entries & He & H). apply lift_bind_Done in H as (bad & Hbad & H).
  apply bind_clean in H as ([] & Hf & [= <-]). rewrite for_clean in Hf.
  assert (Hnil : concat bad = []) by (destruct (concat bad) as [|b bs]; [done|by specialize (Hf b ltac:(left))]).
  exists contract, mapping, entries, caps. repeat (split; [done|]). intros e Hin Hd.
  destruct (mapM_covers _ _ _ _ Hbad Hin) as (l & Hl & Hb). rewrite (concat_nil_elem _ Hnil _ Hl) in Hb.
  unfold bad_role in Hb. rewrite Hd in Hb. cbn [negb] in Hb. apply bind_Ok in Hb as (r & Hrole & Hb).
  apply bind_Ok in Hb as (r' & Hh & Hb). apply hashable_Ok in Hh as ->.
  destruct (py_in r (roles ++ names)) eqn:E; [|done]. unfold py_in in E. apply existsb_exists in E as (w & Hw & E).
  exists r, w. split; [done|]. split; [|done]. apply (read_capabilities_declares _ _ _ Hr).
  by apply list_elem_of_In.
Qed.

Definition sample_values (role : string) : val :=
  VDict [("serviceContract", VDict [
    ("capabilities", VList [VDict [("name", VStr "openstack-view"); ("aggregateTo", VList [VStr "read-only"; VStr "auditor"])]]);
    ("roleMapping", VList [VDict [("cmpRole", VStr "auditor"); ("role", VStr "reader")];
                           VDict [("cmpRole", VStr role); ("role", VStr "admin")]])])].

Lemma roles_mapped_witness :
  main (Some (sample_values "openstack-viewer")) = Done [VStr "openstack-viewer"] 2%nat ∧
  main (Some (sample_values "openstack-view")) = Done [] 2%nat ∧
  ∃ contract mapping entries caps,
    get_dict (or_ (sample_values "openstack-view") (VDict [])) "serviceContract" = Ok contract ∧
    get contract "roleMapping" = Ok mapping ∧ truthy mapping = true ∧ py_iter mapping = Ok entries ∧
    2%nat = length entries ∧ get_iter contract "capabilities" = Ok caps ∧
    ∀ e, e ∈ entries → is_dict e = true →
      ∃ r w, get e "cmpRole" = Ok r ∧ declares caps w ∧ py_eq w r = true.
Proof.
  split; [vm_compute; reflexivity|]. split; [vm_compute; reflexivity|].
  apply roles_mapped. vm_compute. reflexivity.
Defined.
End RoleMapping.
