(* ===== verification/PasteHealth.v ===== *)
(** * hack/validate-paste-healthcheck.py: oslo_middleware's Healthcheck is an app, not a filter

    The parsed values of each chart, or the error that parsing them gave, are the input. *)
From S2P Require Import Prelude PyStr PyVal Gate.
#[local] Open Scope string_scope.
#[local] Open Scope list_scope.

Module PasteHealth.

Definition BAD : string := "Healthcheck.factory".
Definition GOOD : string := "Healthcheck.app_factory".

Inductive stopped := NoBlueprints | NoCharts | NoPaste.
Inductive problem :=
  | DoesNotParse (chart err : string)
  | Misdeclared (chart section key value : string).
Notation G := (gate stopped problem).

Definition misdeclared (value : string) : bool := contains BAD value && negb (contains GOOD value).

Definition check_key (chart section : string) (kv : string * val) : G unit :=
  match kv.2 with
  | VStr s => check (negb (misdeclared s)) (Misdeclared chart section kv.1 s)
  | _ => mret ()
  end.

Definition check_section (chart : string) (sb : string * val) : G unit :=
  match sb.2 with VDict body => for_ body (check_key chart sb.1) | _ => mret () end.

(** conf.paste, where it is declared. *)
Definition paste_of (v : val) : res (option (list (string * val))) :=
  let* conf := get_dict (or_ v (VDict [])) "conf" in
  let* paste := get_dict conf "paste" in
  Ok (match paste with VDict ((_ :: _) as d) => Some d | _ => None end).

(** How many charts declared a pipeline, with this one. *)
Definition check_chart (with_paste : nat) (chart : string * (val + string)) : G nat :=
  match chart.2 with
  | inr err => let* _ := fail (DoesNotParse chart.1 err) in mret with_paste
  | inl v =>
      let* paste := lift (paste_of v) in
      match paste with
      | None => mret with_paste
      | Some d => let* _ := for_ d (check_section chart.1) in mret (S with_paste)
      end
  end.

Definition main (charts : option (list (string * (val + string)))) : G nat :=
  match charts with
  | None => measurement_failed NoBlueprints
  | Some charts =>
      let* _ := require (negb (Nat.eqb (length charts) 0)) NoCharts in
      let* n := fold_ check_chart 0%nat charts in
      let* _ := require (negb (Nat.eqb n 0)) NoPaste in
      mret n
  end.

Definition status {A} (v : verdict stopped problem A) : Z := match v with Passed _ => 0 | _ => 1 end.

(** ** The verdict *)

(** No string of a section of the pipeline has the filter's entry point. *)
Definition well_declared (paste : list (string * val)) : Prop :=
  ∀ section body key value, (section, VDict body) ∈ paste → (key, VStr value) ∈ body →
    misdeclared value = false.

Lemma check_sections_clean chart d u : for_ d (check_section chart) = Done [] u ↔ well_declared d.
Proof.
  rewrite for_clean. unfold well_declared. split.
  - intros H section body key value Hs Hk. specialize (H _ Hs). unfold check_section in H. cbn [snd] in H.
    rewrite for_clean in H. specialize (H _ Hk). unfold check_key in H. cbn [snd] in H.
    by apply check_clean, negb_true_iff in H.
  - intros H [section body] Hs. unfold check_section. cbn [snd].
    destruct body; try done. apply for_clean. intros [key value] Hk. unfold check_key. cbn [snd].
    destruct value; try done. apply check_clean, negb_true_iff. by eapply H.
Qed.

Lemma check_charts_clean charts : ∀ n k,
  fold_ check_chart n charts = Done [] k ↔
  ∃ ps, Forall2 (λ c p, ∃ v, c.2 = inl v ∧ paste_of v = Ok p) charts ps ∧
    (∀ d, Some d ∈ ps → well_declared d) ∧ k = (n + length (omap id ps))%nat.
Proof.
  induction charts as [|c charts IH]; intros n k; cbn [fold_].
  - split.
    + intros [= <-]. exists []. split; [constructor|]. split; [by intros d ?%elem_of_nil|cbn; lia].
    + intros (ps & H%Forall2_nil_inv_l & _ & ->). subst. cbn. by rewrite Nat.add_0_r.
  - rewrite bind_clean. setoid_rewrite IH. split.
    + intros (n' & Hc & ps & Hps & Hw & ->). unfold check_chart in Hc. destruct c as [name [v|err]]; cbn [snd fst] in Hc.
      * apply lift_bind_Done in Hc as (p & Hp & Hc). exists (p :: ps). split; [constructor; eauto|].
        destruct p as [d|].
        -- apply bind_clean in Hc as (u & Hd & [= <-]). apply check_sections_clean in Hd. split; [|cbn; lia].
           intros d' [[= ->]|Hd']%elem_of_cons; [done|by apply Hw].
        -- injection Hc as <-. split; [|cbn; lia]. intros d' [[=]|Hd']%elem_of_cons. by apply Hw.
      * by apply bind_clean in Hc as ([] & ? & _).
    + intros (ps & H & Hw & ->). apply Forall2_cons_inv_l in H as (p & ps' & (v & Hv & Hp) & Hps & ->).
      exists (match p with Some _ => S n | None => n end). split.
      * unfold check_chart. rewrite Hv, Hp, lift_bind. destruct p as [d|]; [|done].
        replace (for_ d (check_section c.1)) with (Done (U := stopped) (F := problem) [] ()); [done|].
        symmetry. apply check_sections_clean, Hw. left.
      * exists ps'. split; [done|]. split; [intros d Hd; apply Hw; by right|]. destruct p; cbn; lia.
Qed.

(** The gate passes exactly when each chart's values parse and can be read, some chart declares
    a pipeline, and no string in a section of one names Healthcheck.factory without naming
    Healthcheck.app_factory; it then tells the number of pipelines. *)
Theorem paste_decided charts n :
  main (Some charts) = Done [] n ↔
  ∃ ps, Forall2 (λ c p, ∃ v, c.2 = inl v ∧ paste_of v = Ok p) charts ps ∧
    (∀ d, Some d ∈ ps → well_declared d) ∧ n = length (omap id ps) ∧ n ≠ 0%nat.
Proof.
  unfold main. rewrite bind_clean. setoid_rewrite bind_clean. setoid_rewrite bind_clean.
  setoid_rewrite require_clean. setoid_rewrite negb_true_iff. setoid_rewrite Nat.eqb_neq. split.
  - intros ([] & Hne & k & Hk & [] & Hk0 & [= <-]). apply check_charts_clean in Hk as (ps & ? & ? & ->). eauto 10.
  - intros (ps & Hps & Hw & -> & Hn). exists (). split.
    { intros Hl. destruct charts; [|done]. apply Forall2_nil_inv_l in Hps. by subst. }
    exists (length (omap id ps)). split; [|by exists ()]. apply check_charts_clean. by exists ps.
Qed.

(** A composite that the library accepts, and the filter that it refuses. *)
Example paste_cases :
  let chart f := [("magnum", inl (VDict [("conf", VDict [("paste",
    VDict [("filter:healthcheck", VDict [("paste.filter_factory", VStr f)])])])]))] in
  main (Some (chart "oslo_middleware:Healthcheck.app_factory")) = Done [] 1%nat ∧
  main (Some (chart "oslo_middleware:Healthcheck.factory")) =
    Done [Misdeclared "magnum" "filter:healthcheck" "paste.filter_factory" "oslo_middleware:Healthcheck.factory"] 1%nat.
Proof. split; vm_compute; reflexivity. Qed.
End PasteHealth.
