(* ===== verification/ServiceWorkers.v ===== *)
(** * hack/validate-service-workers.py: each service section sets workers

    The parsed values of each chart are the input, with the names of its template files. *)
From S2P Require Import Prelude PyStr PyVal PyRe PyText Gate.
#[local] Open Scope string_scope.
#[local] Open Scope list_scope.

Module ServiceWorkers.

Inductive stopped := NoBlueprints | NoCharts | NoSection.
Inductive problem :=
  | BadWorkers (chart project svc : string) (w : val)
  | NoSectionFor (chart project svc file : string).
Notation G := (gate stopped problem).

Definition WORKLOAD_RE : re :=
  Eval vm_compute in the (compile "^(?:deployment|statefulset|daemonset)-(.+)\.yaml$") Eps.

Definition PREFIX : string := "service:".

(** The service a workload's file is named after, without the project's own prefix. *)
Definition service_of (project file : string) : option string :=
  match re_match no_flags WORKLOAD_RE file with
  | Some m =>
      let svc := group' m 1 in
      Some (if startswith (project ++ "-") svc then drop_str (String.length project + 1) svc else svc)
  | None => None
  end.

(** The sections of services that are mappings, by the name after the colon. *)
Definition sections_of (body : list (string * val)) : list (string * list (string * val)) :=
  omap (λ kv, match kv.2 with
              | VDict d => if startswith PREFIX kv.1 then Some (drop_str (String.length PREFIX) kv.1, d) else None
              | _ => None
              end) body.

(** [isinstance(w, int) and not isinstance(w, bool) and w >= 1] *)
Definition good_workers (w : val) : bool := match w with VInt z => (1 <=? z)%Z | _ => false end.

Definition section_leb (a b : string * list (string * val)) : bool := str_leb a.1 b.1.

Definition check_section (chart project : string) (s : string * list (string * val)) : G unit :=
  let w := default VNone (assoc "workers" s.2) in
  check (good_workers w) (BadWorkers chart project s.1 w).

Definition EXEMPT : list string := ["bootstrap"; "test"; "rabbit-init"].

Definition check_file (chart project : string) (body : list (string * val)) (file : string) : G unit :=
  match service_of project file with
  | None => mret ()
  | Some svc =>
      check (bool_decide (svc ∈ (sections_of body).*1) || bool_decide (svc ∈ EXEMPT)
             || bool_decide (is_Some (assoc (PREFIX ++ svc) body))) (NoSectionFor chart project svc file)
  end.

(** How many sections were inspected, with those of this project. *)
Definition check_project (chart : string) (files : option (list string)) (inspected : nat)
    (pb : string * val) : G nat :=
  match pb.2 with
  | VDict body =>
      match sections_of body with
      | [] => mret inspected
      | sections =>
          let* _ := for_ (isort section_leb sections) (check_section chart pb.1) in
          let* _ := for_ (sorted_strs (default [] files)) (check_file chart pb.1 body) in
          mret (inspected + length sections)%nat
      end
  | _ => mret inspected
  end.

(** A chart: its name, its values, and its template files where it has any. *)
Definition chart : Type := string * val * option (list string).

Definition check_chart (inspected : nat) (c : chart) : G nat :=
  let* conf := lift (get_dict (or_ c.1.2 (VDict [])) "conf") in
  let* kvs := lift (items conf) in
  fold_ (check_project c.1.1 c.2) inspected kvs.

Definition main (charts : option (list chart)) : G nat :=
  match charts with
  | None => measurement_failed NoBlueprints
  | Some charts =>
      let* _ := require (negb (Nat.eqb (length charts) 0)) NoCharts in
      let* n := fold_ check_chart 0%nat charts in
      let* _ := require (negb (Nat.eqb n 0)) NoSection in
      mret n
  end.

Definition status {A} (v : verdict stopped problem A) : Z := match v with Passed _ => 0 | _ => 1 end.

(** ** What a passing run has established *)

(** A section of a service, as the chart's values have it. *)
Lemma sections_elem body svc d :
  (svc, d) ∈ sections_of body ↔ ∃ key, (key, VDict d) ∈ body ∧ startswith PREFIX key = true ∧
    svc = drop_str (String.length PREFIX) key.
Proof.
  unfold sections_of. rewrite list_elem_of_omap. split.
  - intros ([key v] & Hk & H). destruct v as [| | | | | |d']; try done. cbn [fst snd] in H.
    destruct (startswith PREFIX key) eqn:E; [|done]. injection H as <- <-. eauto.
  - intros (key & Hk & Hp & ->). exists (key, VDict d). split; [done|]. cbn [fst snd]. by rewrite Hp.
Qed.

Lemma check_project_clean chart files n project body k svc d :
  check_project chart files n (project, VDict body) = Done [] k → (svc, d) ∈ sections_of body →
  (∃ z, assoc "workers" d = Some (VInt z) ∧ (1 <= z)%Z) ∧
  ∀ fs f svc', files = Some fs → f ∈ fs → service_of project f = Some svc' → svc' ∉ EXEMPT →
    svc' ∈ (sections_of body).*1 ∨ is_Some (assoc (PREFIX ++ svc') body).
Proof.
  unfold check_project. cbn [fst snd]. intros H Hs.
  destruct (sections_of body) as [|s0 ss] eqn:E; [by apply elem_of_nil in Hs|].
  apply bind_clean in H as ([] & Hw & H). apply bind_clean in H as ([] & Hf & _).
  rewrite for_clean in Hw. rewrite for_clean in Hf. split.
  - specialize (Hw (svc, d)). rewrite elem_of_isort in Hw. specialize (Hw Hs).
    apply check_clean in Hw. cbn [snd] in Hw. destruct (assoc "workers" d) as [[| |z| | | |]|]; try done.
    exists z. split; [done|]. cbn in Hw. lia.
  - intros fs f svc' -> Hin Hsvc Hex. specialize (Hf f). rewrite elem_of_sorted_strs in Hf. specialize (Hf Hin).
    unfold check_file in Hf. rewrite Hsvc, E in Hf. apply check_clean in Hf.
    apply orb_prop in Hf as [[Hf|Hf]%orb_prop|Hf]; apply bool_decide_eq_true in Hf; [by left|done|by right].
Qed.

(** When the gate passes, in every chart and every project of its conf with a service section
    that is a mapping, each such section sets workers to an integer of at least 1, and each
    workload file of the chart is for a service with a section, or one of the exempt ones. *)
Theorem workers_set charts n :
  main (Some charts) = Done [] n →
  n ≠ 0%nat ∧
  ∀ name v files conf project body key d,
    (name, v, files) ∈ charts → get_dict (or_ v (VDict [])) "conf" = Ok (VDict conf) →
    (project, VDict body) ∈ conf → (key, VDict d) ∈ body → startswith PREFIX key = true →
    (∃ z, assoc "workers" d = Some (VInt z) ∧ (1 <= z)%Z) ∧
    ∀ fs f svc, files = Some fs → f ∈ fs → service_of project f = Some svc → svc ∉ EXEMPT →
      svc ∈ (sections_of body).*1 ∨ is_Some (assoc (PREFIX ++ svc) body).
Proof.
  unfold main. intros H. apply bind_clean in H as ([] & _ & H). apply bind_clean in H as (k & Hk & H).
  apply bind_clean in H as ([] & Hn & [= <-]). apply require_clean, negb_true_iff, Nat.eqb_neq in Hn.
  split; [done|]. intros name v files conf project body key d Hc Hconf Hp Hkey Hpre.
  destruct (fold_clean _ _ _ _ Hk _ Hc) as (b1 & b2 & Hb). unfold check_chart in Hb. cbn [fst snd] in Hb.
  rewrite Hconf, lift_bind in Hb. cbn [items] in Hb. rewrite lift_bind in Hb.
  destruct (fold_clean _ _ _ _ Hb _ Hp) as (c1 & c2 & Hcp).
  eapply check_project_clean; [exact Hcp|]. apply sections_elem. eauto.
Qed.

(** ** A chart *)

Definition sample_chart (worker : val) : chart :=
  ("designate", VDict [("conf", VDict [("designate",
     VDict [("service:api", VDict [("workers", VInt 2)]); ("service:worker", worker)])])],
   Some ["deployment-api.yaml"; "deployment-designate-worker.yaml"; "job-db-sync.yaml"]).

Lemma workers_set_witness :
  main (Some [sample_chart (VDict [])]) = Done [BadWorkers "designate" "designate" "worker" VNone] 2%nat ∧
  main (Some [sample_chart (VDict [("workers", VInt 1)])]) = Done [] 2%nat ∧
  service_of "designate" "deployment-designate-worker.yaml" = Some "worker" ∧
  ∃ z, assoc "workers" [("workers", VInt 1)] = Some (VInt z) ∧ (1 <= z)%Z.
Proof.
  split; [vm_compute; reflexivity|]. split; [vm_compute; reflexivity|]. split; [vm_compute; reflexivity|].
  destruct (workers_set [sample_chart (VDict [("workers", VInt 1)])] 2 ltac:(vm_compute; reflexivity)) as [_ H].
  refine (proj1 (H _ _ _ _ _ _ "service:worker" _ ltac:(left) eq_refl ltac:(left) _ eq_refl)).
  right. left.
Defined.

(** A section that is not a mapping is not inspected, and counts as one for its workload. *)
Example null_section : main (Some [sample_chart VNone]) = Done [] 1%nat.
Proof. vm_compute. reflexivity. Qed.
End ServiceWorkers.
