(* ===== verification/NoPidof.v ===== *)
(** * hack/validate-no-pidof.py: nothing that runs in a container uses pidof

    The files below blueprints/ are the input, in order, with their texts where they can be read. *)
From S2P Require Import Prelude PyStr PyVal PyRe PyText Gate.
#[local] Open Scope string_scope.
#[local] Open Scope list_scope.

Module NoPidof.

(** A file: its path and its text. *)
Record file := { f_path : string; f_text : option string }.

Inductive unmeasured := NothingScanned.
Inductive problem := Pidof (path : string) (line : nat) (text : string).
Notation G := (gate unmeasured problem).

Definition SKIP : list string := ["/helm-toolkit/"; "/charts/helm-toolkit/"].
Definition SUFFIXES : list string := [".yaml"; ".yml"; ".tpl"; ".sh"; ".py"].

(** [path.suffix]: from the last dot of the name, if it is neither first nor last. *)
Definition name_of (path : string) : string := List.last (split_on "/" path) "".
Definition suffix_of (path : string) : string :=
  match rev (split_on "." (name_of path)) with
  | ext :: ((_ :: _) as stem) =>
      if String.eqb ext "" || String.eqb (String.concat "." (rev stem)) "" then "" else "." ++ ext
  | _ => ""
  end.

Definition in_scope (f : file) : bool :=
  negb (existsb (λ s, contains s (f_path f)) SKIP) && bool_decide (suffix_of (f_path f) ∈ SUFFIXES).

Definition COMMENT : re := Eval vm_compute in the (compile "^\s*(#|\{\{-?\s*/\*)") Eps.

(** PIDOF, whose pattern looks behind: the word with neither a word character nor a hyphen on
    either side. *)
Definition part_of_word (c : option ascii) : bool :=
  match c with Some c => is_word c || Ascii.eqb c "-" | None => false end.
Definition first_char (s : string) : option ascii := match s with String c _ => Some c | "" => None end.

Fixpoint pidof_after (prev : option ascii) (s : string) : bool :=
  negb (part_of_word prev)
  && match after_text "pidof" s with Some t => negb (part_of_word (first_char t)) | None => false end
  || match s with String c s' => pidof_after (Some c) s' | "" => false end.
Definition uses_pidof (line : string) : bool := pidof_after None line.

Definition check_line (path : string) (nl : nat * string) : G unit :=
  check (matches no_flags COMMENT nl.2 || negb (uses_pidof nl.2)) (Pidof path nl.1 (take_str 96 (strip nl.2))).

Definition check_file (f : file) : G unit :=
  if negb (in_scope f) then mret () else
  match f_text f with
  | Some text => for_ (enumerate_from 1 (splitlines text)) (check_line (f_path f))
  | None => mret ()
  end.

(** The findings are looked at before the count of files. *)
Definition main (files : list file) : verdict unmeasured problem nat :=
  match verdict_of (for_ files check_file) with
  | Passed _ =>
      let scanned := length (List.filter in_scope files) in
      if Nat.eqb scanned 0 then NotMeasured NothingScanned else Passed scanned
  | Failed fs => Failed fs
  | NotMeasured u => NotMeasured u
  | Traceback e => Traceback e
  end.

(** ** The verdict *)

Fixpoint last_char (prev : option ascii) (s : string) : option ascii :=
  match s with String c s' => last_char (Some c) s' | "" => prev end.

(** The word stands alone somewhere in the line. *)
Definition free_pidof (prev : option ascii) (s : string) : Prop :=
  ∃ a b, s = (a ++ "pidof" ++ b)%string ∧ part_of_word (last_char prev a) = false ∧
    part_of_word (first_char b) = false.

Lemma pidof_after_spec s : ∀ prev, pidof_after prev s = true ↔ free_pidof prev s.
Proof.
  assert (Hhere : ∀ prev s, (negb (part_of_word prev)
      && match after_text "pidof" s with Some t => negb (part_of_word (first_char t)) | None => false end = true) ↔
    ∃ b, s = ("pidof" ++ b)%string ∧ part_of_word prev = false ∧ part_of_word (first_char b) = false).
  { intros prev t. destruct (after_text "pidof" t) as [b|] eqn:E.
    - apply after_text_spec in E as ->. rewrite andb_true_iff, !negb_true_iff. split.
      + intros [? ?]. by exists b.
      + intros (b' & Hb & Hp & Hf). apply append_inj_l in Hb as ->. done.
    - split; [by rewrite andb_false_r|]. intros (b & Hb & _). apply after_text_spec in Hb. congruence. }
  induction s as [|c s IH]; intros prev; cbn [pidof_after]; rewrite orb_true_iff, Hhere.
  - split; [|intros (a & b & H & _); by destruct a].
    intros [(b & H & _)|]; done.
  - rewrite IH. split.
    + intros [(b & H & Hp & Hf)|(a & b & -> & Ha & Hb)].
      * exists "", b. done.
      * exists (String c a), b. done.
    + intros ([|d a] & b & H & Ha & Hb).
      * left. by exists b.
      * right. injection H as <- ->. by exists a, b.
Qed.

Lemma check_file_clean f u :
  check_file f = Done [] u ↔
  (in_scope f = true → ∀ text line, f_text f = Some text → line ∈ splitlines text →
     matches no_flags COMMENT line = true ∨ ¬ free_pidof None line).
Proof.
  unfold check_file. destruct (in_scope f); cbn [negb]; [|by destruct u].
  destruct (f_text f) as [text|]; [|destruct u; split; [|done]; by intros].
  rewrite for_clean. unfold check_line. setoid_rewrite check_clean. split.
  - intros H _ t line [= <-] Hl. apply (enumerate_elem _ 1) in Hl as (i & Hi). specialize (H _ Hi).
    cbn [snd] in H. apply orb_prop in H as [?|H]; [by left|right]. apply negb_true_iff in H.
    rewrite <- pidof_after_spec. unfold uses_pidof in H. congruence.
  - intros H [i line] Hi. cbn [snd]. apply orb_true_iff.
    destruct (H eq_refl text line eq_refl) as [?|Hn]; [apply (enumerate_elem _ 1); eauto|by left|right].
    apply negb_true_iff, not_true_iff_false. unfold uses_pidof. by rewrite pidof_after_spec.
Qed.

(** The gate passes exactly when it has a file in scope and, in each file in scope that can be
    read, every line that is not a comment has no pidof that stands alone as a word; it tells the
    number of files. *)
Theorem pidof_decided files n :
  main files = Passed n ↔
  n = length (List.filter in_scope files) ∧ n ≠ 0%nat ∧
  ∀ f text line, f ∈ files → in_scope f = true → f_text f = Some text → line ∈ splitlines text →
    matches no_flags COMMENT line = true ∨ ¬ free_pidof None line.
Proof.
  unfold main.
  assert (Hf : verdict_of (for_ files check_file) = Passed () ↔
    ∀ f text line, f ∈ files → in_scope f = true → f_text f = Some text → line ∈ splitlines text →
      matches no_flags COMMENT line = true ∨ ¬ free_pidof None line).
  { rewrite verdict_Passed, for_clean. setoid_rewrite check_file_clean. naive_solver. }
  rewrite <- Hf. destruct (verdict_of (for_ files check_file)) as [[]|fs|u|e]; [|naive_solver..].
  destruct (Nat.eqb_spec (length (List.filter in_scope files)) 0) as [E|E].
  - rewrite E. split; [done|]. by intros (-> & ? & _).
  - split; [by intros [= <-]|]. by intros (-> & _ & _).
Qed.

(** The examples of the pattern, and what the gate passes over: a file that cannot be read is
    counted as scanned, and what follows a template comment on its line is not looked at. *)
Example pidof_cases :
  map uses_pidof ["pidof mariadbd"; "$(pidof -s nova)"; "my-pidof x"; "pidofx"; "/bin/pidof"] =
    [true; true; false; false; true] ∧
  main [{| f_path := "blueprints/a/chart/x.sh"; f_text := None |}] = Passed 1%nat ∧
  main [{| f_path := "blueprints/a/chart/x.tpl"; f_text := Some "{{/* start */}} pidof nova" |}] = Passed 1%nat ∧
  main [{| f_path := "blueprints/a/chart/x.tpl"; f_text := Some "# no pidof here
kill $(pidof nova)" |}] = Failed [Pidof "blueprints/a/chart/x.tpl" 2 "kill $(pidof nova)"].
Proof. repeat split; vm_compute; reflexivity. Qed.
End NoPidof.
