(* ===== verification/Divergences.v ===== *)
(** * hack/validate-upstream-divergences.py: the declared divergences from upstream still hold

    The parsed declarations are the input; the text of a component's file is a parameter. *)
From S2P Require Import Prelude PyStr PyVal PyRe PyText Gate.
#[local] Open Scope string_scope.
#[local] Open Scope list_scope.

Module Divergences.

(** [DOTALL] *)
Definition S_ : flags := {| fl_i := false; fl_m := false; fl_s := true |}.
Definition TEMPLATE_COMMENT : re := Eval vm_compute in the (compile "\{\{-?\s*/\*.*?\*/\s*-?\}\}") Eps.

(** [s.split(p)[0]] *)
Definition before (p s : string) : string := match find_str p s with Some n => take_str n s | None => s end.

Definition strip_lines (text suffix : string) : list string :=
  let text := if bool_decide (suffix ∈ [".tpl"; ".yaml"; ".yml"])
              then re_sub S_ TEMPLATE_COMMENT (λ _, "") text else text in
  omap (λ line,
    if startswith "#" (lstrip_by is_space line) then None
    else Some (if bool_decide (suffix ∈ [".yaml"; ".yml"]) then before " #" line else line)) (splitlines text).
Definition strip_comments (text suffix : string) : string := String.concat newline (strip_lines text suffix).

(** ** The gate *)

Inductive unmeasured := NoDeclarations | NothingDeclared.
Inductive problem :=
  | NoFile (component file : string)
  | Contains (component file needle why : string) (issue : val)
  | Lacks (component file needle why : string) (issue : val).
Notation G := (gate unmeasured problem).

Section Files.
  (** The text of a file of a component's chart, where there is one. *)
  Context (text_of : string → string → option string).
  (** [target.suffix] of that file. *)
  Context (suffix_of : string → string).

  (** A finding shows the assertion's reason and the entry's issue. *)
Definition report (f : string → val → problem) (entry a : val) : G unit :=
    let* why := lift (getitem a "why") in
    let* why := lift (as_str why) in
    let* issue := lift (getitem entry "issue") in
    fail (f (String.concat " " (words why)) issue).

  (** [k in a and (a[k] in body) == bad] *)
Definition check_text (k : string) (bad : bool) (f : string → string → val → problem)
      (entry a : val) (body : string) : G unit :=
    let* has := lift (key_in k a) in
    if negb has then mret () else
    let* needle := lift (getitem a k) in
    let* needle := lift (as_str needle) in
    if Bool.eqb (contains needle body) bad then report (f needle) entry a else mret ().

Definition check_assertion (entry : val) (component : string) (checked : nat) (a : val) : G nat :=
    let* file := lift (getitem a "file") in
    let* file := lift (as_str file) in
    match text_of component file with
    | None => let* _ := fail (NoFile component file) in mret checked
    | Some text =>
        let body := strip_comments text (suffix_of file) in
        let* _ := check_text "absent" true (Contains component file) entry a body in
        let* _ := check_text "present" false (Lacks component file) entry a body in
        mret (S checked)
    end.

Definition check_entry (checked : nat) (entry : val) : G nat :=
    let* component := lift (getitem entry "component") in
    let* component := lift (as_str component) in
    let* asserts := lift (get_iter entry "assertions") in
    fold_ (check_assertion entry component) checked asserts.

Definition main (decl : option val) : G (nat * nat) :=
    match decl with
    | None => measurement_failed NoDeclarations
    | Some d =>
        let* entries := lift (get (or_ d (VDict [])) "divergences") in
        let* _ := require (truthy entries) NothingDeclared in
        let* entries := lift (py_iter entries) in
        let* checked := fold_ check_entry 0%nat entries in
        mret (checked, length entries)
    end.
End Files.

Definition status {A} (v : verdict unmeasured problem A) : Z := match v with Passed _ => 0 | _ => 1 end.

(** ** What is compared *)

Lemma before_lacks p s : p ≠ "" → contains p (before p s) = false.
Proof.
  intros Hp. unfold before. destruct (find_str p s) as [n|] eqn:E; [by apply find_str_before|].
  by rewrite find_contains, E.
Qed.

(** What a comparison sees is made of lines that are not comments, cut, in a YAML file, before any
    comment at their end. *)
Lemma stripped_lines text suffix line :
  line ∈ strip_lines text suffix →
  (suffix ∈ [".yaml"; ".yml"] → contains " #" line = false) ∧
  (suffix ∉ [".yaml"; ".yml"] → startswith "#" (lstrip_by is_space line) = false).
Proof.
  unfold strip_lines. intros (l & Hl & H)%list_elem_of_omap.
  destruct (startswith "#" (lstrip_by is_space l)) eqn:E; [done|]. injection H as <-.
  clear Hl. case_bool_decide as Hs; split; intros H; [by apply before_lacks|contradiction|contradiction|exact E].
Qed.

(** ** What a passing run has established *)

Section Passed.
  Context (text_of : string → string → option string) (suffix_of : string → string).

Definition holds (component : string) (a : val) : Prop :=
    ∃ file text, getitem a "file" = Ok (VStr file) ∧ text_of component file = Some text ∧
      let body := strip_comments text (suffix_of file) in
      (∀ needle, getitem a "absent" = Ok (VStr needle) → contains needle body = false) ∧
      (∀ needle, getitem a "present" = Ok (VStr needle) → contains needle body = true).

Lemma check_text_clean k bad f entry a body u needle :
  check_text k bad f entry a body = Done [] u → getitem a k = Ok (VStr needle) →
  contains needle body = negb bad.
Proof.
  unfold check_text. intros H Hn. apply lift_bind_Done in H as (has & Hh & H).
  assert (has = true) as ->.
  { destruct a as [| | | | | |d]; try done. cbn [getitem key_in] in *. destruct (assoc k d); congruence. }
  cbn [negb] in H. rewrite Hn, lift_bind in H. cbn [as_str] in H. rewrite lift_bind in H.
  destruct (contains needle body), bad; try done; cbn [Bool.eqb] in H; unfold report in H;
    do 3 (apply lift_bind_Done in H as (? & _ & H)); done.
Qed.

(** When the gate passes it has a declaration, and for every assertion of every entry the file
    exists, and its text without comments lacks what must be absent and has what must be present. *)
Theorem divergences_hold d checked n :
  main text_of suffix_of (Some d) = Done [] (checked, n) →
  ∃ es entries, get (or_ d (VDict [])) "divergences" = Ok es ∧ truthy es = true ∧
    py_iter es = Ok entries ∧ n = length entries ∧
    ∀ entry asserts a, entry ∈ entries → get_iter entry "assertions" = Ok asserts → a ∈ asserts →
      ∃ component, getitem entry "component" = Ok (VStr component) ∧ holds component a.
Proof.
  unfold main. intros H. apply lift_bind_Done in H as (es & Hes & H).
  apply bind_clean in H as ([] & Ht & H). apply require_clean in Ht.
  apply lift_bind_Done in H as (entries & Hit & H). apply bind_clean in H as (k & Hk & [= <- <-]).
  exists es, entries. repeat (split; [done|]). intros entry asserts a He Ha Hin.
  destruct (fold_clean _ _ _ _ Hk _ He) as (b1 & b2 & Hb). unfold check_entry in Hb.
  apply lift_bind_Done in Hb as (c & Hc & Hb). apply lift_bind_Done in Hb as (component & Hco & Hb).
  destruct c; try done. injection Hco as ->. exists component. split; [done|].
  rewrite Ha, lift_bind in Hb. destruct (fold_clean _ _ _ _ Hb _ Hin) as (c1 & c2 & Hca).
  unfold check_assertion in Hca. apply lift_bind_Done in Hca as (f & Hf & Hca).
  apply lift_bind_Done in Hca as (file & Hfile & Hca). destruct f; try done. injection Hfile as ->.
  destruct (text_of component file) as [text|] eqn:E; [|by apply bind_clean in Hca as ([] & ? & _)].
  apply bind_clean in Hca as ([] & H1 & Hca). apply bind_clean in Hca as ([] & H2 & _).
  exists file, text. do 2 (split; [done|]). split; intros needle Hn.
  - by eapply (check_text_clean "absent" true).
  - by eapply (check_text_clean "present" false).
Qed.
End Passed.

(** ** A divergence *)

Definition sample_decl : val :=
  VDict [("divergences", VList [VDict [("component", VStr "glance"); ("issue", VInt 110);
    ("assertions", VList [VDict [("file", VStr "templates/deployment-api.yaml");
       ("absent", VStr "tcpSocket"); ("present", VStr "httpGet"); ("why", VStr "a probe  must reach a worker")]])]])].
Definition sample_text (s : string) (component file : string) : option string :=
  if String.eqb component "glance" && String.eqb file "templates/deployment-api.yaml" then Some s else None.
Definition sample_suffix (file : string) : string := ".yaml".

Lemma divergences_hold_witness :
  main (sample_text "{{/* not a tcpSocket
*/}}
httpGet: # tcpSocket
  path: /") sample_suffix (Some sample_decl) = Done [] (1, 1)%nat ∧
  main (sample_text "# httpGet") sample_suffix (Some sample_decl) =
    Done [Lacks "glance" "templates/deployment-api.yaml" "httpGet" "a probe must reach a worker" (VInt 110)] (1, 1)%nat ∧
  holds (sample_text "httpGet: {}") sample_suffix "glance"
    (VDict [("file", VStr "templates/deployment-api.yaml"); ("absent", VStr "tcpSocket");
            ("present", VStr "httpGet"); ("why", VStr "a probe  must reach a worker")]).
Proof.
  split; [vm_compute; reflexivity|]. split; [vm_compute; reflexivity|].
  destruct (divergences_hold (sample_text "httpGet: {}") sample_suffix sample_decl 1 1
    ltac:(vm_compute; reflexivity)) as (es & entries & Hes & _ & Hit & _ & H).
  injection Hes as <-. injection Hit as <-.
  destruct (H _ _ _ ltac:(left) eq_refl ltac:(left)) as (c & Hc & Hh). injection Hc as <-. exact Hh.
Defined.

(** Code is rewritten, where a string has the two characters that start a comment. *)
Example cut_string : strip_comments "pattern: 'a #b'" ".yaml" = "pattern: 'a".
Proof. vm_compute. reflexivity. Qed.
End Divergences.
