(* ===== verification/CapabilityRoles.v ===== *)
(** * hack/validate-capability-roles.py: a capability aggregates to roles that exist

    What helm prints for the umbrella chart, or its standard error, is the input; it is read as
    text. *)
From S2P Require Import Prelude PyStr PyVal PyRe PyText Gate.
#[local] Open Scope string_scope.
#[local] Open Scope list_scope.

Module CapabilityRoles.

Definition PREDEFINED : list string :=
  ["read-only"; "tenant-reader"; "auditor"; "operator"; "tenant-admin"; "org-admin"].

Definition LABEL : re := Eval vm_compute in the (compile (dq
  "^\s*rbac\.krateo\.io/aggregate-to-([a-z0-9][a-z0-9-]*):\s*`?true`?\s*$")) Eps.

(** Every way to stop exits with status 1. *)
Inductive stopped := NoChart | HelmFailed (err : string) | NoCapabilityRole.
Inductive problem := Nothing_ (name : string) | NotPredefined (name role : string).
Notation G := (gate stopped problem).

Definition is_capability (doc : string) : bool :=
  contains "kind: ClusterRole" doc && contains "krateo.io/capability:" doc.

(** The text after the first colon of the first line that starts with name:. *)
Definition after_colon (l : string) : string := (partition_at ":" l).2.
Definition name_of (doc : string) : string :=
  match List.filter (λ l, startswith "name:" (strip l)) (splitlines doc) with
  | l :: _ => strip (after_colon l)
  | [] => "<unnamed>"
  end.

Definition label_role (l : string) : option string :=
  match re_match no_flags LABEL l with Some m => Some (group' m 1) | None => None end.
Definition roles_of (doc : string) : list string := omap label_role (splitlines doc).

Definition check_doc (doc : string) : G unit :=
  let name := name_of doc in
  let found := roles_of doc in
  let* _ := check (negb (Nat.eqb (length found) 0)) (Nothing_ name) in
  for_ found (λ r, check (bool_decide (r ∈ PREDEFINED)) (NotPredefined name r)).

Definition main (chart : bool) (rendered : string + string) : G (list (string * list string)) :=
  let* _ := require chart NoChart in
  match rendered with
  | inr err => measurement_failed (HelmFailed err)
  | inl text =>
      let docs := List.filter is_capability (split_str (newline +:+ "---") text) in
      let* _ := require (negb (Nat.eqb (length docs) 0)) NoCapabilityRole in
      let* _ := for_ docs check_doc in
      mret (map (λ doc, (name_of doc, roles_of doc)) docs)
  end.

Definition status {A} (v : verdict stopped problem A) : Z := match v with Passed _ => 0 | _ => 1 end.

(** ** The verdict *)

Lemma role_doc_clean doc u :
  check_doc doc = Done [] u ↔ roles_of doc ≠ [] ∧ ∀ r, r ∈ roles_of doc → r ∈ PREDEFINED.
Proof.
  unfold check_doc. rewrite bind_clean. setoid_rewrite check_clean. setoid_rewrite for_clean.
  setoid_rewrite check_clean. split.
  - intros ([] & Hn & H). apply negb_true_iff, Nat.eqb_neq in Hn. split.
    + intros E. by rewrite E in Hn.
    + intros r Hr. specialize (H r Hr). by apply bool_decide_eq_true in H.
  - intros [Hn H]. exists (). split; [by destruct (roles_of doc)|].
    intros r Hr. apply bool_decide_eq_true. by apply H.
Qed.

(** For a chart that helm renders, the gate passes exactly when the text, cut at the lines that
    start with three dashes, has a piece that is a capability's role, and each such piece has a
    label that aggregates it and none that names a role that is not predefined. The pieces joined
    are the text. *)
Theorem capabilities_decided text :
  let docs := split_str (newline +:+ "---") text in
  String.concat (newline +:+ "---") docs = text ∧
  ((∃ roles, main true (inl text) = Done [] roles) ↔
   (∃ doc, doc ∈ docs ∧ is_capability doc = true) ∧
   ∀ doc, doc ∈ docs → is_capability doc = true →
     roles_of doc ≠ [] ∧ ∀ r, r ∈ roles_of doc → r ∈ PREDEFINED).
Proof.
  intros docs. split; [by apply split_str_spec|]. unfold main. fold docs. setoid_rewrite bind_clean.
  setoid_rewrite require_clean. setoid_rewrite bind_clean. setoid_rewrite bind_clean.
  setoid_rewrite require_clean. setoid_rewrite for_clean. setoid_rewrite role_doc_clean.
  assert (Hd : ∀ doc, doc ∈ List.filter is_capability docs ↔ doc ∈ docs ∧ is_capability doc = true).
  { intros doc. by rewrite list_elem_of_In, filter_In, <- list_elem_of_In. }
  setoid_rewrite Hd. split.
  - intros (roles & [] & _ & [] & Hn & [] & Hall & _). split.
    + destruct (List.filter is_capability docs) as [|doc ds] eqn:E; [done|]. exists doc. apply Hd. left.
    + intros doc H1 H2. by apply Hall.
  - intros [(doc & H1 & H2) Hall]. eexists. exists (). split; [done|]. exists (). split.
    + destruct (List.filter is_capability docs) as [|d ds] eqn:E; [|done].
      assert (H : doc ∈ @nil string) by (apply Hd; done). by apply elem_of_nil in H.
    + exists (). split; [|reflexivity]. intros d [H3 H4]. by apply Hall.
Qed.

(** The shape that shipped: a label naming a role that nobody defines. *)
Definition sample_role (role : string) : string :=
  "---
kind: ConfigMap
---
kind: ClusterRole
metadata:
  name: openstack-view
  labels:
    krateo.io/capability: openstack-view
    rbac.krateo.io/aggregate-to-" +:+ role +:+ dq ": `true`
".
Example capability_cases :
  main true (inl (sample_role "viewer")) = Done [NotPredefined "openstack-view" "viewer"] [("openstack-view", ["viewer"])] ∧
  main true (inl (sample_role "auditor")) = Done [] [("openstack-view", ["auditor"])].
Proof. split; vm_compute; reflexivity. Qed.
End CapabilityRoles.
