(* ===== verification/Multidoc.v ===== *)
(** * hack/validate-umbrella-multidoc.py: the umbrella emits one YAML document per component

    The gate replaces the bodies of the helpers that consult the cluster, renders the chart, and
    reads what comes out. The texts of the chart's files are the input; helm's two outputs for the
    edited texts, and what the text parses to, are parameters. *)
From S2P Require Import Prelude PyStr PyVal PyRe PyText Gate.
#[local] Open Scope string_scope.
#[local] Open Scope list_scope.

Module Multidoc.

Inductive stopped :=
  | NoChart
  | NotDefined (name : string)
  | NoClosing (name : string)
  | NothingEmitted (stderr : list string)
  | NotYaml (glued : list string)
  | TooFew (n : nat)
  | Duplicates (names : list string).
Notation G := (gate stopped Empty_set).
Definition halt {A} (s : stopped) : G A := measurement_failed s.

(** ** Stubbing the helpers *)

Definition STUB : list (string * string) :=
  [("osh.crdExists", "true"); ("osh.depsReady", "true"); ("osh.depsExist", "true")].

Definition define_of (name : string) : string := dq ("{{- define `" ++ name ++ "` -}}").
Definition END : string := "{{- end -}}".
Definition NEXT : string := newline ++ "{{- define ".

(** [src[start:nxt]], where [nxt] is the next define after the first character of [start]. *)
Definition block_at (start : nat) (src : string) : string :=
  let rest := drop_str start src in
  match find_str NEXT (drop_str 1 rest) with
  | Some n => take_str (S n) rest
  | None => rest
  end.

Definition stub_one (src : string) (nv : string * string) : G string :=
  match find_str (define_of nv.1) src with
  | None => halt (NotDefined nv.1)
  | Some start =>
      match rfind_str END (block_at start src) with
      | None => halt (NoClosing nv.1)
      | Some close =>
          mret (take_str start src ++ define_of nv.1 ++ nv.2 ++ END
                ++ drop_str (start + close + String.length END) src)%string
      end
  end.

Definition stub_helpers (src : string) : G string := fold_ stub_one src STUB.

(** ** The render *)

Definition CHART_RE : re := Eval vm_compute in the (compile "^version: CHART_VERSION$") Eps.
Definition VALUES_RE : re := Eval vm_compute in the (compile "^chartVersion: .*$") Eps.

(** [re.sub(pat, rep, body, count=1, flags=re.M)] *)
Definition sub_once (r : re) (rep body : string) : string :=
  sub_from (λ _, rep) (take 1 (finditer M_ r body)) 0 body.

Record chart := { c_chart : string; c_values : string; c_helpers : string; c_templates : list string }.

(** The partials stay, and of the other templates compositions.yaml only. *)
Definition kept_templates (l : list string) : list string :=
  List.filter (λ f, startswith "_" f || String.eqb f "compositions.yaml") l.

Definition edited (c : chart) : G chart :=
  let* h := stub_helpers (c_helpers c) in
  mret {| c_chart := sub_once CHART_RE "version: 0.0.0-gate" (c_chart c);
          c_values := sub_once VALUES_RE (dq "chartVersion: `0.0.0-gate`") (c_values c);
          c_helpers := h; c_templates := kept_templates (c_templates c) |}.

(** ** Reading the documents *)

Definition is_composition (d : val) : bool :=
  match d with
  | VDict e => match assoc "apiVersion" e with
               | Some (VStr s) => startswith "composition.krateo.io/" s
               | _ => false
               end
  | _ => false
  end.

(** [f"{d['kind']}/{d['metadata']['name']}"] *)
Definition doc_name (d : val) : res string :=
  let* k := getitem d "kind" in
  let* k := py_str k in
  let* n := getpath d ["metadata"; "name"] in
  let* n := py_str n in
  Ok (k ++ "/" ++ n)%string.

(** A separator at the end of a line that has something else. *)
Definition glued (text : string) : list string :=
  List.filter (λ ln, endswith "---" (rstrip_by is_space ln) && negb (String.eqb (strip ln) "---")) (splitlines text).

Definition last_lines (stderr : string) : list string :=
  let l := splitlines (strip stderr) in
  let l := match l with [] => ["(no stderr)"] | _ => l end in drop (length l - 3) l.

Section Render.
  (** Standard output and standard error of helm, and the documents of a text. *)
  Context (helm : chart → string * string) (load_all : string → option (list val)).

(** The names and kinds of the documents. *)
Definition main (c : option chart) : G (list string * list string) :=
    match c with
    | None => halt NoChart
    | Some c =>
        let* c := edited c in
        let text := (helm c).1 in
        let* _ := require (contains "apiVersion: composition.krateo.io" text)
          (NothingEmitted (last_lines (helm c).2)) in
        match load_all text with
        | None => halt (NotYaml (take 3 (glued text)))
        | Some all =>
            let docs := List.filter is_composition (List.filter truthy all) in
            let* _ := require (Nat.leb 2 (length docs)) (TooFew (length docs)) in
            let* names := lift (mapM doc_name docs) in
            let* _ := require (bool_decide (NoDup names)) (Duplicates names) in
            let* kinds := lift (mapM (λ d, let* k := get d "kind" in as_str k) docs) in
            mret (names, sorted_strs kinds)
        end
    end.
End Render.

Definition status {A} (v : verdict stopped Empty_set A) : Z := match v with Passed _ => 0 | _ => 1 end.

(** ** What a stub does *)

(** No closing marker starts within the opening one of a helper that is stubbed. *)
Lemma define_before_end name n t :
  name ∈ STUB.*1 → (n < String.length (define_of name))%nat →
  startswith END (drop_str n (define_of name +:+ t)) = false.
Proof.
  intros Hn Hl. repeat (apply elem_of_cons in Hn as [->|Hn]; [|]); [| | |by apply elem_of_nil in Hn];
    do 40 (destruct n as [|n]; [first [reflexivity | cbn in Hl; lia]|]); cbn in Hl; lia.
Qed.

Lemma prefix_of_app (d r x y : string) :
  (d +:+ r)%string = (x +:+ y)%string → (String.length d ≤ String.length x)%nat → ∃ z, x = (d +:+ z)%string.
Proof.
  revert x. induction d as [|c d IH]; intros [|e x] H Hl; cbn [String.length] in Hl; try lia; [by exists ""|by eexists|].
  injection H as <- H. destruct (IH x H ltac:(lia)) as (z & ->). by exists z.
Qed.

(** The text of a helper's block, in front of the next definition or the end of the file. *)
Lemma block_split start a rest :
  String.length a = start → rest ≠ "" →
  ∃ after, rest = (block_at start (a +:+ rest) +:+ after)%string ∧ (after = "" ∨ startswith NEXT after = true).
Proof.
  intros <- Hne. unfold block_at. rewrite drop_app_str.
  destruct (find_str NEXT (drop_str 1 rest)) as [n|] eqn:E.
  - exists (drop_str (S n) rest). split; [symmetry; apply take_drop_str|]. right.
    apply find_str_spec in E. by rewrite drop_drop_str in E.
  - exists "". split; [by rewrite append_nil_r|by left].
Qed.

(** What stubbing one helper does: the text in front of the helper's first definition, the
    opening marker, and everything from the last closing marker of its block on are kept, and what
    was between the two markers is the constant. *)
Theorem stub_exact src name value src' :
  name ∈ STUB.*1 → stub_one src (name, value) = Done [] src' →
  ∃ pre body tail after,
    src = (pre +:+ define_of name +:+ body +:+ END +:+ tail +:+ after)%string ∧
    src' = (pre +:+ define_of name +:+ value +:+ END +:+ tail +:+ after)%string ∧
    contains (define_of name) pre = false ∧ contains END tail = false ∧
    (after = "" ∨ startswith NEXT after = true).
Proof.
  intros Hname. unfold stub_one. cbn [fst snd].
  destruct (find_str (define_of name) src) as [start|] eqn:Es; [|done].
  apply find_str_split in Es as (pre & r & Hsrc & Hlen & Hpre); [|done].
  destruct (rfind_str END (block_at start src)) as [close|] eqn:Ec; [|done]. intros [= <-].
  apply rfind_str_split in Ec as (x & tail & [(Hb & Hclose & Htail)|]); [|done].
  destruct (block_split start pre (define_of name +:+ r)) as (after & Hr & Hafter); [done|done|].
  rewrite <- Hsrc in Hr. rewrite Hb in Hr.
  assert (Hl : (String.length (define_of name) ≤ String.length x)%nat).
  { destruct (decide (String.length x < String.length (define_of name))%nat) as [Hlt|]; [|lia].
    pose proof (define_before_end name (String.length x) r Hname Hlt) as Hno.
    rewrite Hr, !append_assoc, drop_app_str, startswith_app in Hno. done. }
  rewrite !append_assoc in Hr. destruct (prefix_of_app _ _ _ _ Hr Hl) as (body & ->).
  exists pre, body, tail, after. split; [|split; [|split; [done|split; [|done]]]].
  - by rewrite Hsrc, Hr, !append_assoc.
  - assert (E : src = (pre +:+ (define_of name +:+ body) +:+ END +:+ (tail +:+ after))%string)
      by (rewrite Hsrc, Hr; by rewrite !append_assoc).
    rewrite E, <- Hlen, <- Hclose, take_app_str. do 4 f_equal.
    by rewrite <- !drop_drop_str, !drop_app_str.
  - apply not_true_iff_false. intros H. apply not_true_iff_false in Htail. apply Htail.
    change (drop_str 1 (END +:+ tail)) with (drop_str 1 END +:+ tail). by apply contains_app_r.
Qed.

(** ** What a passing run has established *)

(** When the gate passes, the helpers of the chart could be stubbed, helm's text for the edited
    chart parses, and it holds at least two Compositions, no two of which have the same kind and
    name. *)
Theorem multidoc_passed helm load_all c names kinds :
  main helm load_all (Some c) = Done [] (names, kinds) →
  ∃ c' all docs, edited c = Done [] c' ∧ load_all (helm c').1 = Some all ∧
    docs = List.filter is_composition (List.filter truthy all) ∧ (2 ≤ length docs)%nat ∧
    mapM doc_name docs = Ok names ∧ NoDup names.
Proof.
  unfold main. intros H. apply bind_clean in H as (c' & Hc & H). apply bind_clean in H as ([] & _ & H).
  destruct (load_all (helm c').1) as [all|] eqn:E; [|done]. apply bind_clean in H as ([] & Hl & H).
  apply require_clean, Nat.leb_le in Hl. apply lift_bind_Done in H as (ns & Hns & H).
  apply bind_clean in H as ([] & Hd & H). apply require_clean, bool_decide_eq_true in Hd.
  apply lift_bind_Done in H as (ks & _ & [= <- <-]). exists c', all. eexists. eauto 10.
Qed.

(** ** A chart *)

Definition sample_helpers : string := dq
"{{/* gates */}}
{{- define `osh.crdExists` -}}
{{- if lookup `v1` -}}true{{- end -}}
{{- end -}}
{{- define `osh.depsReady` -}}no{{- end -}} {{/* end */}}
{{- define `osh.depsExist` -}}no{{- end -}}
".
Definition sample_chart : chart :=
  {| c_chart := "name: openstack
version: CHART_VERSION"; c_values := "chartVersion: CHART_VERSION # stamped
profile: full"; c_helpers := sample_helpers; c_templates := ["_helpers.tpl"; "compositions.yaml"; "definitions.yaml"] |}.

Definition stubbed_helpers : string := dq
"{{/* gates */}}
{{- define `osh.crdExists` -}}true{{- end -}}
{{- define `osh.depsReady` -}}true{{- end -}} {{/* end */}}
{{- define `osh.depsExist` -}}true{{- end -}}
".

Definition sample_doc (kind name : string) : val :=
  VDict [("apiVersion", VStr "composition.krateo.io/v0-0-0"); ("kind", VStr kind); ("metadata", VDict [("name", VStr name)])].
Definition sample_helm (c : chart) : string * string := ("---
apiVersion: composition.krateo.io/v0-0-0", "").

Lemma stub_exact_witness :
  edited sample_chart = Done [] {| c_chart := "name: openstack
version: 0.0.0-gate"; c_values := dq "chartVersion: `0.0.0-gate`
profile: full"; c_helpers := stubbed_helpers; c_templates := ["_helpers.tpl"; "compositions.yaml"] |} ∧
  ∃ pre body tail after,
    sample_helpers = (pre +:+ define_of "osh.crdExists" +:+ body +:+ END +:+ tail +:+ after)%string ∧
    dq "{{/* gates */}}
{{- define `osh.crdExists` -}}true{{- end -}}
{{- define `osh.depsReady` -}}no{{- end -}} {{/* end */}}
{{- define `osh.depsExist` -}}no{{- end -}}
" = (pre +:+ define_of "osh.crdExists" +:+ "true" +:+ END +:+ tail +:+ after)%string ∧
    contains (define_of "osh.crdExists") pre = false ∧ contains END tail = false ∧
    (after = "" ∨ startswith NEXT after = true).
Proof.
  split; [vm_compute; reflexivity|].
  apply (stub_exact sample_helpers "osh.crdExists" "true"); [left|vm_compute; reflexivity].
Defined.

Lemma multidoc_passed_witness :
  main sample_helm (λ _, Some [sample_doc "Zaqar" "zaqar"; VNone; sample_doc "Keystone" "keystone"]) (Some sample_chart) =
    Done [] (["Zaqar/zaqar"; "Keystone/keystone"], ["Keystone"; "Zaqar"]) ∧
  main sample_helm (λ _, Some [sample_doc "Zaqar" "zaqar"]) (Some sample_chart) = halt (TooFew 1) ∧
  NoDup ["Zaqar/zaqar"; "Keystone/keystone"].
Proof.
  split; [vm_compute; reflexivity|]. split; [vm_compute; reflexivity|].
  destruct (multidoc_passed sample_helm
    (λ _, Some [sample_doc "Zaqar" "zaqar"; VNone; sample_doc "Keystone" "keystone"]) sample_chart
    ["Zaqar/zaqar"; "Keystone/keystone"] ["Keystone"; "Zaqar"] ltac:(vm_compute; reflexivity))
    as (c' & all & docs & _ & _ & _ & _ & _ & H). exact H.
Defined.

(** A separator that the template glued to the line before it. *)
Example glued_line : glued "spec: {}---
kind: Heat
---
kind: Nova" = ["spec: {}---"].
Proof. vm_compute. reflexivity. Qed.
End Multidoc.
