(* ===== verification/SeriesScope.v ===== *)
(** * hack/series-scope.py: which image references move when the series changes

    The command line and the texts of the components' values files are the input; the three tables
    of the report are the result. *)
From S2P Require Import Prelude PyStr PyVal PyRe PyText.
#[local] Open Scope string_scope.
#[local] Open Scope list_scope.

Module SeriesScope.

Definition IMG : re := Eval vm_compute in the (compile
  "(?P<repo>(?:quay\.io|docker\.io)/[a-z0-9][a-z0-9._/-]*):(?P<tag>[A-Za-z0-9][A-Za-z0-9._-]*)") Eps.
Definition SERIES : re := Eval vm_compute in the (compile "^(?P<series>\d{4}\.\d)-(?P<base>ubuntu_[a-z]+)$") Eps.

(** ** The command line: the root and the component *)

Fixpoint after_component (argv : list string) : option string :=
  match argv with
  | [] => None
  | a :: rest => if String.eqb a "--component" then head rest else after_component rest
  end.
Definition parse_args (argv : list string) : string * option string :=
  (default "." (head (List.filter (λ a, negb (startswith "--" a)) argv)), after_component argv).

(** ** The tables *)

Record tables := {
  moves : gmap string (gset string);
  static : gmap string (gset string);
  per_component : gmap string (nat * nat) }.
Definition no_tables : tables := {| moves := ∅; static := ∅; per_component := ∅ |}.

(** The series and the base of a tag that has them. *)
Definition series_of (tag : string) : option string :=
  match re_match no_flags SERIES tag with
  | Some s => Some (group' s 1 ++ "-" ++ group' s 2)%string
  | None => None
  end.

Definition add_to (k x : string) (m : gmap string (gset string)) : gmap string (gset string) :=
  <[k := {[x]} ∪ default ∅ (m !! k)]> m.

Definition add_ref (component : string) (t : tables) (m : found) : tables :=
  let repo := group' m 1 in
  let tag := group' m 2 in
  let (mv, st) := default (0, 0)%nat (per_component t !! component) in
  match series_of tag with
  | Some s => {| moves := add_to repo s (moves t); static := static t;
                 per_component := <[component := (S mv, st)]> (per_component t) |}
  | None => {| moves := moves t; static := add_to repo tag (static t);
               per_component := <[component := (mv, S st)]> (per_component t) |}
  end.

Definition wanted (only : option string) (component : string) : bool :=
  match only with
  | Some o => String.eqb o "" || String.eqb component o
  | None => true
  end.

Definition add_file (only : option string) (t : tables) (f : string * string) : tables :=
  if wanted only f.1 then foldl (add_ref f.1) t (finditer no_flags IMG f.2) else t.

(** The moving and static references of what an identity-core install has. *)
Definition IDENT : list string := ["mariadb"; "memcached"; "keystone"].
Definition identity_scope (t : tables) : nat * nat :=
  let counts := omap (λ c, per_component t !! c) IDENT in
  (sum_list (map fst counts), sum_list (map snd counts)).

Inductive outcome := NoFiles | Report (t : tables) (identity : nat * nat).

(** The components with the texts of their values files, in the order of the paths. *)
Definition main (only : option string) (files : list (string * string)) : outcome :=
  match files with
  | [] => NoFiles
  | _ => let t := foldl (add_file only) no_tables files in Report t (identity_scope t)
  end.
Definition status (o : outcome) : Z := match o with NoFiles => 2 | Report _ _ => 0 end.

(** ** What the tables hold *)

(** The references of a run: component, repository and tag. *)
Definition refs (only : option string) (files : list (string * string)) : list (string * string * string) :=
  concat (map (λ f, if wanted only f.1
                    then map (λ m, (f.1, group' m 1, group' m 2)) (finditer no_flags IMG f.2) else []) files).

Definition add (t : tables) (r : string * string * string) : tables :=
  let '(component, repo, tag) := r in
  let (mv, st) := default (0, 0)%nat (per_component t !! component) in
  match series_of tag with
  | Some s => {| moves := add_to repo s (moves t); static := static t;
                 per_component := <[component := (S mv, st)]> (per_component t) |}
  | None => {| moves := moves t; static := add_to repo tag (static t);
               per_component := <[component := (mv, S st)]> (per_component t) |}
  end.

Lemma tables_refs only files t : foldl (add_file only) t files = foldl add t (refs only files).
Proof.
  revert t. induction files as [|f files IH]; intros t; [done|].
  unfold refs. cbn [foldl map concat]. rewrite foldl_app, <- IH. f_equal. unfold add_file.
  destruct (wanted only f.1); [|done]. generalize (finditer no_flags IMG f.2) as ms. intros ms.
  revert t. induction ms as [|m ms IHm]; intros t; [done|]. cbn [foldl map]. by rewrite IHm.
Qed.

Definition is_series (c : string) (moving : bool) (r : string * string * string) : bool :=
  String.eqb r.1.1 c && Bool.eqb (bool_decide (is_Some (series_of r.2))) moving.

(** The number of references of a component that move, or that do not. *)
Definition count (c : string) (moving : bool) (rs : list (string * string * string)) : nat :=
  length (List.filter (is_series c moving) rs).

Lemma add_to_elem k x m j y :
  y ∈ default ∅ (add_to k x m !! j) ↔ (j = k ∧ y = x) ∨ y ∈ default ∅ (m !! j).
Proof.
  unfold add_to. destruct (decide (j = k)) as [->|Hne].
  - rewrite lookup_insert_eq. unfold default, from_option, id. rewrite elem_of_union, elem_of_singleton. naive_solver.
  - rewrite lookup_insert_ne by done. naive_solver.
Qed.

Lemma add_moves rs : ∀ t repo s,
  s ∈ default ∅ (moves (foldl add t rs) !! repo) ↔
  s ∈ default ∅ (moves t !! repo) ∨ ∃ c tag, (c, repo, tag) ∈ rs ∧ series_of tag = Some s.
Proof.
  induction rs as [|[[c0 r0] t0] rs IH]; intros t repo s; cbn [foldl].
  - split; [by left|]. intros [?|(c & tag & ?%elem_of_nil & _)]; done.
  - rewrite IH. setoid_rewrite elem_of_cons. unfold add.
    destruct (default (0, 0)%nat (per_component t !! c0)) as [mv st].
    destruct (series_of t0) as [s0|] eqn:E; cbn [moves]; [rewrite add_to_elem|]; split.
    + intros [[[-> ->]|?]|(c & tag & ? & ?)]; eauto 10.
    + intros [?|(c & tag & [[= -> -> ->]|?] & Hs)]; [eauto| |eauto 10]. left. left. split; [done|congruence].
    + intros [?|(c & tag & ? & ?)]; eauto 10.
    + intros [?|(c & tag & [[= -> -> ->]|?] & Hs)]; [eauto|congruence|eauto 10].
Qed.

Lemma add_static rs : ∀ t repo tag,
  tag ∈ default ∅ (static (foldl add t rs) !! repo) ↔
  tag ∈ default ∅ (static t !! repo) ∨ ∃ c, (c, repo, tag) ∈ rs ∧ series_of tag = None.
Proof.
  induction rs as [|[[c0 r0] t0] rs IH]; intros t repo tag; cbn [foldl].
  - split; [by left|]. intros [?|(c & ?%elem_of_nil & _)]; done.
  - rewrite IH. setoid_rewrite elem_of_cons. unfold add.
    destruct (default (0, 0)%nat (per_component t !! c0)) as [mv st].
    destruct (series_of t0) as [s0|] eqn:E; cbn [static]; [|rewrite add_to_elem]; split.
    + intros [?|(c & ? & ?)]; eauto 10.
    + intros [?|(c & [[= -> -> ->]|?] & Hs)]; [eauto|congruence|eauto 10].
    + intros [[[-> ->]|?]|(c & ? & ?)]; eauto 10.
    + intros [?|(c & [[= -> -> ->]|?] & Hs)]; [eauto|eauto|eauto 10].
Qed.

Lemma add_counts rs : ∀ t c,
  default (0, 0)%nat (per_component (foldl add t rs) !! c) =
  let (mv, st) := default (0, 0)%nat (per_component t !! c) in
  (mv + count c true rs, st + count c false rs)%nat.
Proof.
  unfold count. induction rs as [|[[c0 r0] t0] rs IH]; intros t c; cbn [foldl List.filter length].
  - destruct (default _ _) as [mv st]. by rewrite !Nat.add_0_r.
  - rewrite IH. clear IH. unfold add, is_series at 3 6. cbn [fst snd].
    destruct (String.eqb_spec c0 c) as [->|Hne].
    + destruct (default (0, 0)%nat (per_component t !! c)) as [mv st].
      destruct (series_of t0) as [s0|]; cbn [per_component]; rewrite lookup_insert_eq; cbn; f_equal; lia.
    + destruct (default (0, 0)%nat (per_component t !! c0)) as [mv0 st0].
      destruct (series_of t0) as [s0|]; cbn [per_component]; by rewrite lookup_insert_ne.
Qed.

(** The report lists, under each repository, exactly the series of the references that have
    one and exactly the tags of those that have none; each component's two counts are the numbers
    of its references of the two kinds; and only the wanted components' files are read. *)
Theorem scope_exact only files t identity :
  main only files = Report t identity →
  let rs := refs only files in
  (∀ repo s, s ∈ default ∅ (moves t !! repo) ↔ ∃ c tag, (c, repo, tag) ∈ rs ∧ series_of tag = Some s) ∧
  (∀ repo tag, tag ∈ default ∅ (static t !! repo) ↔ ∃ c, (c, repo, tag) ∈ rs ∧ series_of tag = None) ∧
  (∀ c, default (0, 0)%nat (per_component t !! c) = (count c true rs, count c false rs)) ∧
  (∀ c repo tag, (c, repo, tag) ∈ rs → wanted only c = true).
Proof.
  intros H. assert (t = foldl (add_file only) no_tables files) as ->.
  { unfold main in H. destruct files; [done|]. by injection H as <- _. }
  clear H.
  rewrite tables_refs.
  cbv zeta. split; [|split; [|split]].
  - intros repo s. rewrite add_moves. change (moves no_tables !! repo) with (@None (gset string)). split.
    + intros [?%elem_of_empty|?]; done.
    + by right.
  - intros repo tag. rewrite add_static. change (static no_tables !! repo) with (@None (gset string)). split.
    + intros [?%elem_of_empty|?]; done.
    + by right.
  - intros c. by rewrite add_counts.
  - intros c repo tag H. apply list_elem_of_In, in_concat in H as (l & Hl & H).
    apply list_elem_of_In, list_elem_of_fmap in Hl as (g & -> & _). apply list_elem_of_In in H.
    destruct (wanted only g.1) eqn:E; [|by apply elem_of_nil in H].
    apply list_elem_of_fmap in H as (m & [= -> _ _] & _). done.
Qed.

(** ** A tree *)

Definition sample_files : list (string * string) :=
  [("keystone", "api: quay.io/airshipit/keystone:2026.1-ubuntu_noble
dep: quay.io/airshipit/kubernetes-entrypoint:v1.0.0"); ("mariadb", "db: quay.io/airshipit/mariadb:ubuntu_noble-20260101")].

Lemma scope_exact_witness :
  refs None sample_files = [("keystone", "quay.io/airshipit/keystone", "2026.1-ubuntu_noble");
    ("keystone", "quay.io/airshipit/kubernetes-entrypoint", "v1.0.0");
    ("mariadb", "quay.io/airshipit/mariadb", "ubuntu_noble-20260101")] ∧
  ∃ t, main None sample_files = Report t (1, 2)%nat ∧
    ∀ c, default (0, 0)%nat (per_component t !! c) =
      (count c true (refs None sample_files), count c false (refs None sample_files)).
Proof.
  split; [vm_compute; reflexivity|]. eexists. split; [vm_compute; reflexivity|].
  refine (proj1 (proj2 (proj2 (scope_exact None sample_files _ (1, 2)%nat _)))). vm_compute. reflexivity.
Defined.

(** The name given to --component is taken for the root where no root is given. *)
Example component_as_root : parse_args ["--component"; "nova"] = ("nova", Some "nova").
Proof. reflexivity. Qed.
End SeriesScope.
