(* ===== verification/ShippedPython.v ===== *)
(** * hack/validate-shipped-python.py: every Python script that is shipped compiles without warnings

    The charts with their script files and what they render to are the input; Python's compiler is
    a parameter. *)
From S2P Require Import Prelude PyStr PyVal Gate.
#[local] Open Scope string_scope.
#[local] Open Scope list_scope.

Module ShippedPython.

(** What compiling a text does: a SyntaxError, or the warnings that were caught, each with whether
    it is a SyntaxWarning. *)
Inductive compiled :=
  | SyntaxErr (line : Z) (msg : string)
  | Warnings (ws : list (bool * (Z * string))).

(** A chart: its scripts under files/, whether it has Python templates under templates/bin, and the
    parsed output of helm where that is not empty. *)
Record chart := {
  c_name : string; c_files : list (string * string); c_templates : bool; c_rendered : option (list val) }.

Inductive unmeasured := NoCharts | NothingCompiled.
Inductive problem :=
  | NotRendered (origin : string)
  | Error (origin name : string) (line : Z) (msg : string)
  | Warning (origin name : string) (line : Z) (msg : string).
Notation G := (gate unmeasured problem).

Section Compile.
  Context (compile : string → string → compiled).

Definition check_script (origin name body : string) : G unit :=
    match compile name body with
    | SyntaxErr line msg => fail (Error origin name line msg)
    | Warnings ws =>
        for_ ws (λ w, check (negb w.1) (Warning origin name w.2.1 w.2.2))
    end.

  (** The scripts of a ConfigMap. *)
Definition script_of (kv : string * val) : option (string * string) :=
    match kv.2 with VStr body => if endswith ".py" kv.1 then Some (kv.1, body) else None | _ => None end.
Definition scripts_of (doc : val) : res (list (string * string)) :=
    if negb (truthy doc) then Ok [] else
    let* kind := get doc "kind" in
    if negb (eq_str kind "ConfigMap") then Ok [] else
    let* data := get_dict doc "data" in
    let* kvs := items data in Ok (omap (M := list) script_of kvs).

Definition check_scripts (origin : string) (l : list (string * string)) : G unit :=
    for_ l (λ nb, check_script origin nb.1 nb.2).

Definition check_doc (origin : string) (checked : nat) (doc : val) : G nat :=
    let* l := lift (scripts_of doc) in
    let* _ := check_scripts origin l in mret (checked + length l)%nat.

  (** How many scripts were compiled and charts rendered. *)
Definition check_chart (st : nat * nat) (c : chart) : G (nat * nat) :=
    let* _ := check_scripts (c_name c) (c_files c) in
    let checked := (st.1 + length (c_files c))%nat in
    if negb (c_templates c) then mret (checked, st.2) else
    match c_rendered c with
    | None => let* _ := fail (NotRendered (c_name c)) in mret (checked, st.2)
    | Some docs => let* checked := fold_ (check_doc (c_name c)) checked docs in mret (checked, S st.2)
    end.

Definition main (charts : list chart) : G (nat * nat) :=
    let* _ := require (negb (Nat.eqb (length charts) 0)) NoCharts in
    let* (checked, rendered) := fold_ check_chart (0, 0)%nat charts in
    let* _ := require (negb (Nat.eqb checked 0)) NothingCompiled in
    mret (checked, rendered).
End Compile.

(** ** What a passing run has established *)

Section Passed.
  Context (compile : string → string → compiled).

(** It compiles, and none of the warnings is a SyntaxWarning. *)
Definition quiet (name body : string) : Prop :=
    ∃ ws, compile name body = Warnings ws ∧ ∀ w, w ∈ ws → w.1 = false.

Lemma check_script_quiet origin name body u :
  check_script compile origin name body = Done [] u ↔ quiet name body.
Proof.
  unfold check_script, quiet. destruct (compile name body) as [line msg|ws].
  - split; [done|]. by intros (ws & ? & _).
  - rewrite for_clean. setoid_rewrite check_clean. setoid_rewrite negb_true_iff.
    split; [eauto|by intros (ws' & [= <-] & H)].
Qed.

Lemma check_scripts_quiet origin l u :
  check_scripts compile origin l = Done [] u ↔ ∀ name body, (name, body) ∈ l → quiet name body.
Proof.
  unfold check_scripts. rewrite for_clean. setoid_rewrite check_script_quiet. split.
  - intros H name body Hin. exact (H _ Hin).
  - intros H [name body] Hin. by apply H.
Qed.

(** When the gate passes it has compiled a script; every script under files/ of a chart
    compiles without a SyntaxWarning; and every chart with Python templates was rendered, and so
    does every script with the suffix .py that a ConfigMap of it holds. *)
Theorem scripts_quiet charts checked rendered :
  main compile charts = Done [] (checked, rendered) →
  checked ≠ 0%nat ∧
  ∀ c, c ∈ charts →
    (∀ name body, (name, body) ∈ c_files c → quiet name body) ∧
    (c_templates c = true → ∃ docs, c_rendered c = Some docs ∧
       ∀ doc data kvs name body, doc ∈ docs → get doc "kind" = Ok (VStr "ConfigMap") →
         get_dict doc "data" = Ok data → items data = Ok kvs → (name, VStr body) ∈ kvs →
         endswith ".py" name = true → quiet name body).
Proof.
  unfold main. intros H. apply bind_clean in H as ([] & _ & H). apply bind_clean in H as ([k r] & Hk & H).
  apply bind_clean in H as ([] & Hn & [= <- <-]). apply require_clean, negb_true_iff, Nat.eqb_neq in Hn.
  split; [done|]. intros c Hc. destruct (fold_clean _ _ _ _ Hk _ Hc) as (b1 & b2 & Hb).
  unfold check_chart in Hb. apply bind_clean in Hb as ([] & Hf & Hb). rewrite check_scripts_quiet in Hf.
  split; [done|]. intros Ht. rewrite Ht in Hb. cbn [negb] in Hb.
  destruct (c_rendered c) as [docs|]; [|by apply bind_clean in Hb as ([] & ? & _)].
  exists docs. split; [done|]. apply bind_clean in Hb as (k' & Hd & _).
  intros doc data kvs name body Hdoc Hkind Hdata Hkvs Hin Hpy.
  destruct (fold_clean _ _ _ _ Hd _ Hdoc) as (c1 & c2 & Hcd). unfold check_doc in Hcd.
  apply lift_bind_Done in Hcd as (l & Hl & Hcd). apply bind_clean in Hcd as ([] & Hs & _).
  rewrite check_scripts_quiet in Hs. apply Hs. clear Hs.
  unfold scripts_of in Hl. destruct (truthy doc) eqn:Htr; cbn [negb] in Hl.
  - rewrite Hkind in Hl. cbn [mbind res_bind eq_str] in Hl. rewrite String.eqb_refl in Hl. cbn [negb] in Hl.
    rewrite Hdata in Hl. cbn [mbind res_bind] in Hl. rewrite Hkvs in Hl. injection Hl as <-.
    apply list_elem_of_omap. exists (name, VStr body). split; [done|]. unfold script_of. cbn [fst snd]. by rewrite Hpy.
  - by destruct doc as [| | | | | |[|]].
Qed.
End Passed.

(** A compiler that warns of an escape in a string. *)
Definition sample_compile (name body : string) : compiled :=
  if contains "'\d" body then Warnings [(true, (1%Z, "invalid escape sequence"))] else Warnings [].
Definition sample_chart (script : string) : chart :=
  {| c_name := "keystone"; c_files := []; c_templates := true;
     c_rendered := Some [VDict [("kind", VStr "ConfigMap"); ("data", VDict [("fernet-manage.py", VStr script)])]] |}.

Lemma scripts_quiet_witness :
  main sample_compile [sample_chart "re.match('\d+', name)"] =
    Done [Warning "keystone" "fernet-manage.py" 1 "invalid escape sequence"] (1, 1)%nat ∧
  main sample_compile [sample_chart "re.match(r'^\d+', name)"] = Done [] (1, 1)%nat ∧
  quiet sample_compile "fernet-manage.py" "re.match(r'^\d+', name)".
Proof.
  split; [vm_compute; reflexivity|]. split; [vm_compute; reflexivity|].
  destruct (scripts_quiet sample_compile [sample_chart "re.match(r'^\d+', name)"] 1 1
    ltac:(vm_compute; reflexivity)) as [_ H].
  destruct (H _ ltac:(left)) as [_ H2]. destruct (H2 eq_refl) as (docs & Hd & H3). injection Hd as <-.
  exact (H3 _ _ _ _ _ ltac:(left) eq_refl eq_refl eq_refl ltac:(left) eq_refl).
Defined.
End ShippedPython.
