(* ===== verification/ValuesSchema.v ===== *)
(** * hack/validate-values-schema.py: each chart's defaults satisfy its own schema

    The directory tree is the input; what helm answers for a chart's two files is a parameter. *)
From stdpp Require Import relations.
From S2P Require Import Prelude PyStr PyVal PyRe Gate.
#[local] Open Scope string_scope.
#[local] Open Scope list_scope.

Module ValuesSchema.

Inductive dir := Dir (files : list string) (subs : list (string * dir)).
Definition files_of (d : dir) : list string := match d with Dir f _ => f end.
Definition subs_of (d : dir) : list (string * dir) := match d with Dir _ s => s end.

Definition SKIP_DIRS : list string := [".git"; "charts"].
Definition AT_LINE : re := Eval vm_compute in the (compile "^\s*-\s+at\s+'") Eps.

(** The chart directories below a path; the order of [os.walk] is lost in the sort. *)
Fixpoint chart_dirs (path : string) (d : dir) : list (string * list string) :=
  match d with
  | Dir files subs =>
      (if bool_decide ("Chart.yaml" ∈ files) then [(path, files)] else []) ++
      concat (map (λ nd, if bool_decide (nd.1 ∈ SKIP_DIRS) then []
                         else chart_dirs (path ++ "/" ++ nd.1)%string nd.2) subs)
  end.

Definition path_leb (a b : string * list string) : bool := str_leb a.1 b.1.
Definition charts (root : string) (d : dir) : list (string * list string) := isort path_leb (chart_dirs root d).

Inductive stopped := NoHelm | NothingChecked.
Inductive problem := Violates (chart detail : string).
Notation G := (gate stopped problem).

Section Helm.
  (** The exit status, standard output and standard error of helm for the harness of a chart. *)
  Context (helm : string → Z * string * string).

Inductive answer := Skip | Pass | Fail_ (detail : string).

Definition validate (c : string * list string) : res answer :=
    if negb (bool_decide ("values.schema.json" ∈ c.2)) || negb (bool_decide ("values.yaml" ∈ c.2)) then Ok Skip else
    let '(code, out, err) := helm c.1 in
    if (code =? 0)%Z then Ok Pass else
    let text := if String.eqb err "" then out else err in
    let detail := String.concat "; " (map strip (List.filter (matches no_flags AT_LINE) (splitlines text))) in
    if negb (String.eqb detail "") then Ok (Fail_ detail) else
    match last (splitlines (strip text)) with Some l => Ok (Fail_ l) | None => Raise IndexError end.

Definition check_chart (checked : nat) (c : string * list string) : G nat :=
    let* a := lift (validate c) in
    match a with
    | Skip => mret checked
    | Pass => mret (S checked)
    | Fail_ detail => let* _ := fail (Violates c.1 detail) in mret (S checked)
    end.

Definition main (has_helm : bool) (root : string) (d : dir) : G nat :=
    let* _ := require has_helm NoHelm in
    let* checked := fold_ check_chart 0%nat (charts root d) in
    let* _ := require (negb (Nat.eqb checked 0)) NothingChecked in
    mret checked.
End Helm.

Definition status {A} (v : verdict stopped problem A) : Z :=
  match v with Passed _ => 0 | NotMeasured NoHelm => 2 | _ => 1 end.

(** ** Which directories are charts *)

(** A directory below, through names that are not skipped. *)
Inductive below : string → dir → string → dir → Prop :=
  | below_here p d : below p d p d
  | below_sub p d name sub q e :
      (name, sub) ∈ subs_of d → name ∉ SKIP_DIRS → below (p ++ "/" ++ name) sub q e → below p d q e.

Fixpoint depth (d : dir) : nat :=
  match d with Dir _ subs => S (list_max (map (λ nd, depth nd.2) subs)) end.

Lemma chart_dirs_spec d : ∀ p q files,
  (q, files) ∈ chart_dirs p d ↔ ∃ e, below p d q e ∧ files = files_of e ∧ "Chart.yaml" ∈ files.
Proof.
  assert (Hd : ∀ n d, (depth d <= n)%nat → ∀ p q files,
    (q, files) ∈ chart_dirs p d ↔ ∃ e, below p d q e ∧ files = files_of e ∧ "Chart.yaml" ∈ files); [|by eapply Hd].
  induction n as [|n IH]; intros [fs subs] Hn p q files; cbn [depth] in Hn; [lia|].
  cbn [chart_dirs]. rewrite elem_of_app.
  assert (Hsub : ∀ name sub, (name, sub) ∈ subs → (depth sub <= n)%nat).
  { intros name sub H. apply le_S_n in Hn. pose proof (proj1 (list_max_le _ _) Hn) as Hall.
    rewrite List.Forall_forall in Hall. apply Hall. apply in_map_iff. exists (name, sub).
    split; [done|by apply list_elem_of_In]. }
  split.
  - intros [H|H].
    + case_bool_decide; [|by apply elem_of_nil in H]. apply list_elem_of_singleton in H as [= -> ->].
      eexists. split; [constructor|done].
    + apply list_elem_of_In, in_concat in H as (l & Hl & H). apply list_elem_of_In, list_elem_of_fmap in Hl as ([name sub] & -> & Hin).
      apply list_elem_of_In in H. cbn [fst snd] in H. case_bool_decide; [by apply elem_of_nil in H|].
      apply IH in H as (e & He & Hf); [|by eapply Hsub]. exists e. split; [|done]. by econstructor.
  - intros (e & He & -> & Hc). inversion He as [|? ? name sub ? ? Hin Hs Hb]; subst.
    + left. cbn [files_of] in *. rewrite bool_decide_eq_true_2 by done. by left.
    + right. apply list_elem_of_In, in_concat. eexists. rewrite <- !list_elem_of_In. split.
      * apply list_elem_of_fmap. exists (name, sub). split; [reflexivity|done].
      * cbn [fst snd]. rewrite bool_decide_eq_false_2 by done. apply IH; [by eapply Hsub|]. by exists e.
Qed.

(** When the gate passes, it checked a chart, and every directory below the root with a
    Chart.yaml, a values file and a schema, on no path through .git or charts, is one whose values
    helm accepts. *)
Theorem defaults_accepted helm has_helm root d n :
  main helm has_helm root d = Done [] n →
  n ≠ 0%nat ∧
  ∀ q e, below root d q e → "Chart.yaml" ∈ files_of e → "values.schema.json" ∈ files_of e →
    "values.yaml" ∈ files_of e → (helm q).1.1 = 0%Z.
Proof.
  unfold main. intros H. apply bind_clean in H as ([] & _ & H). apply bind_clean in H as (k & Hk & H).
  apply bind_clean in H as ([] & Hn & [= <-]). apply require_clean, negb_true_iff, Nat.eqb_neq in Hn.
  split; [done|]. intros q e Hb Hc Hs Hv.
  assert (Hin : (q, files_of e) ∈ charts root d).
  { unfold charts. rewrite elem_of_isort. apply chart_dirs_spec. by exists e. }
  destruct (fold_clean _ _ _ _ Hk _ Hin) as (b1 & b2 & Hcc). unfold check_chart in Hcc.
  apply lift_bind_Done in Hcc as (a & Ha & Hcc). unfold validate in Ha. cbn [fst snd] in Ha.
  rewrite !bool_decide_eq_true_2 in Ha by done. cbn [negb orb] in Ha.
  destruct (helm q) as [[code out] err]. cbn [fst]. destruct (Z.eqb_spec code 0) as [->|Hne]; [done|].
  exfalso. assert (Hf : ∃ detail, a = Fail_ detail).
  { destruct (negb _); [injection Ha as <-; eauto|]. destruct (last _); [injection Ha as <-; eauto|done]. }
  destruct Hf as (detail & ->). by apply bind_clean in Hcc as ([] & ? & _).
Qed.

Definition chart_files : list string := ["Chart.yaml"; "values.yaml"; "values.schema.json"].
Definition sample_tree : dir :=
  Dir ["README.md"] [("blueprints", Dir [] [("keystone", Dir chart_files [("charts", Dir [] [("dep", Dir chart_files [])])]);
                                          ("nova", Dir ["Chart.yaml"; "values.yaml"] [])])].
Definition sample_helm (accepts : bool) (q : string) : Z * string * string :=
  if accepts then (0, "", "")%Z else (1, "", "Error: values don't meet the schema:
  - at '/conf/software/apache2/a2enmod': got null, want array")%Z.

Lemma defaults_accepted_witness :
  main (sample_helm false) true "." sample_tree =
    Done [Violates "./blueprints/keystone" "- at '/conf/software/apache2/a2enmod': got null, want array"] 1%nat ∧
  main (sample_helm true) true "." sample_tree = Done [] 1%nat ∧
  (sample_helm true "./blueprints/keystone").1.1 = 0%Z.
Proof.
  split; [vm_compute; reflexivity|]. split; [vm_compute; reflexivity|].
  refine (proj2 (defaults_accepted (sample_helm true) true "." sample_tree 1 ltac:(vm_compute; reflexivity))
    "./blueprints/keystone" (Dir chart_files [("charts", Dir [] [("dep", Dir chart_files [])])]) _ _ _ _).
  - eapply below_sub; [left| |].
    + intros H. repeat (apply elem_of_cons in H as [H|H]; [discriminate|]). by apply elem_of_nil in H.
    + eapply below_sub; [left| |constructor].
      intros H. repeat (apply elem_of_cons in H as [H|H]; [discriminate|]). by apply elem_of_nil in H.
  - left.
  - right. right. left.
  - right. left.
Defined.
End ValuesSchema.
