(* ===== verification/YamlStyle.v ===== *)
(** * hack/validate-yaml-block-style.py: the repository's own YAML uses block style

    The files with the events of PyYAML's parser, where it can read them, and their texts are the
    input. *)
From S2P Require Import Prelude PyStr PyVal PyRe Gate.
#[local] Open Scope string_scope.
#[local] Open Scope list_scope.

Module YamlStyle.

(** The events the gate tells apart, with the style and the place of a start (the line from 0). *)
Inductive event :=
  | MappingStart (flow : bool) (line column : nat)
  | MappingEnd
  | SequenceStart (flow : bool) (line column : nat)
  | SequenceEnd
  | OtherEvent.

Inductive kind := Mapping | Sequence | Collection.

(** [None] for a file that the parser cannot read. *)
Record file := { f_path : string; f_text : string; f_events : option (list event) }.

Inductive unmeasured := NothingRead.
Inductive problem := FlowStyle (path : string) (line : nat) (text : string) (k : kind).
Notation G := (gate unmeasured problem).

Definition OURS : list string :=
  ["blueprints/openstack"; "blueprints/powerdns"; "examples"; "hack"; ".github"; "kagent"; "tools"].

Definition in_scope (path : string) : bool :=
  existsb (λ p, startswith p path) OURS && negb (contains "helm-toolkit" path || contains "/charts/" path).

(** ** Through the parser *)

Definition is_mapping_end (e : option event) : bool := match e with Some MappingEnd => true | _ => false end.
Definition is_sequence_end (e : option event) : bool := match e with Some SequenceEnd => true | _ => false end.

(** Line, column, kind and emptiness of each collection in flow style. *)
Fixpoint flow_collections (events : list event) : list (nat * nat * kind * bool) :=
  match events with
  | [] => []
  | MappingStart true line column :: es =>
      (S line, column, Mapping, is_mapping_end (head es)) :: flow_collections es
  | SequenceStart true line column :: es =>
      (S line, column, Sequence, is_sequence_end (head es)) :: flow_collections es
  | _ :: es => flow_collections es
  end.

Definition report (path : string) (line : nat) (text : string) (k : kind) : G unit :=
  fail (FlowStyle path line (substring 0 88 (strip text)) k).

Definition check_found (path : string) (lines : list string) (f : nat * nat * kind * bool) : G unit :=
  let '(line, _, k, empty) := f in
  if empty : bool then mret () else report path line (default "" (lines !! (line - 1)%nat)) k.

(** ** Through the text *)

Definition FLOW_TEXT : re :=
  Eval vm_compute in the (compile ":\s*(\{\s*[^\s}]|\[\s*[^\s\]])|^\s*-\s*\{\s*[^\s}]") Eps.

Definition before_hash (line : string) : string := (partition_at "#" line).1.1.

Definition flow_line (line : string) : bool :=
  negb (contains "{{" line || contains "}}" line) && searches no_flags FLOW_TEXT (before_hash line).

(** The lines of a text that is read with universal newlines. *)
Definition lines_of (text : string) : list string := split_on (ascii_of_nat 10) text.

Definition check_text (path text : string) : G unit :=
  for_ (enumerate_from 1 (lines_of text)) (λ nl,
    if flow_line nl.2 then report path nl.1 nl.2 Collection else mret ()).

(** ** The gate *)

Definition check_file (st : nat * nat) (f : file) : G (nat * nat) :=
  if negb (in_scope (f_path f)) then mret st else
  match f_events f with
  | Some events =>
      let* _ := for_ (flow_collections events) (check_found (f_path f) (splitlines (f_text f))) in
      mret (S st.1, st.2)
  | None => let* _ := check_text (f_path f) (f_text f) in mret (st.1, S st.2)
  end.

(** How many files were parsed and scanned. *)
Definition main (files : list file) : G (nat * nat) :=
  let* (parsed, scanned) := fold_ check_file (0, 0)%nat files in
  let* _ := require (negb (Nat.eqb (parsed + scanned) 0)) NothingRead in
  mret (parsed, scanned).

Definition status {A} (v : verdict unmeasured problem A) : Z := match v with Passed _ => 0 | _ => 1 end.

(** ** The verdict *)

(** A collection in flow style starts, and does not end at once. *)
Definition opens_flow (e : event) (next : option event) : Prop :=
  match e with
  | MappingStart true _ _ => next ≠ Some MappingEnd
  | SequenceStart true _ _ => next ≠ Some SequenceEnd
  | _ => False
  end.

Definition block_style (events : list event) : Prop :=
  ∀ before e after, events = before ++ e :: after → ¬ opens_flow e (head after).

Lemma block_style_cons e es : block_style (e :: es) ↔ ¬ opens_flow e (head es) ∧ block_style es.
Proof.
  unfold block_style. split.
  - intros H. split; [by apply (H [])|]. intros before e' after ->. by apply (H (e :: before) e' after).
  - intros [H1 H2] [|b before] e' after [= -> ->]; [done|]. by eapply H2.
Qed.

Lemma check_found_clean path lines l c k empty u :
  check_found path lines (l, c, k, empty) = Done [] u ↔ empty = true.
Proof. unfold check_found. destruct empty, u; cbn; naive_solver. Qed.

Lemma mapping_ends o : is_mapping_end o = true ↔ ¬ o ≠ Some MappingEnd.
Proof. destruct o as [[]|]; cbn; split; intros H; try done; try (intros E; by apply E); exfalso; by apply H. Qed.
Lemma sequence_ends o : is_sequence_end o = true ↔ ¬ o ≠ Some SequenceEnd.
Proof. destruct o as [[]|]; cbn; split; intros H; try done; try (intros E; by apply E); exfalso; by apply H. Qed.

Lemma found_clean path lines events u :
  for_ (flow_collections events) (check_found path lines) = Done [] u ↔ block_style events.
Proof.
  destruct u. induction events as [|e es IH].
  - split; [|done]. intros _ before e after H. by destruct before.
  - rewrite block_style_cons, <- IH. cbn [flow_collections].
    destruct e as [[] l c| |[] l c| |]; cbn [opens_flow]; try tauto;
      cbn [for_]; rewrite bind_clean; setoid_rewrite check_found_clean;
      rewrite <- ?mapping_ends, <- ?sequence_ends; (split; [intros ([] & H1 & H2)|intros [H1 H2]; exists ()]; done).
Qed.

Lemma text_clean path text u :
  check_text path text = Done [] u ↔ ∀ line, line ∈ lines_of text → flow_line line = false.
Proof.
  unfold check_text. rewrite for_clean. split.
  - intros H line Hl. apply (enumerate_elem _ 1) in Hl as (i & Hi). specialize (H _ Hi). cbn [snd] in H.
    by destruct (flow_line line).
  - intros H [i line] Hi. cbn [snd]. rewrite H; [done|]. apply (enumerate_elem _ 1). by exists i.
Qed.

(** The file is in block style, as far as it can be told: by its events, or else line by line. *)
Definition file_ok (f : file) : Prop :=
  match f_events f with
  | Some events => block_style events
  | None => ∀ line, line ∈ lines_of (f_text f) → flow_line line = false
  end.

Definition is_parsed (f : file) : bool := match f_events f with Some _ => true | None => false end.
Definition ours (files : list file) : list file := List.filter (λ f, in_scope (f_path f)) files.

Lemma files_clean files : ∀ p s p' s',
  fold_ check_file (p, s) files = Done [] (p', s') ↔
  (∀ f, f ∈ ours files → file_ok f) ∧
  p' = (p + length (List.filter is_parsed (ours files)))%nat ∧
  s' = (s + length (List.filter (λ f, negb (is_parsed f)) (ours files)))%nat.
Proof.
  induction files as [|f files IH]; intros p s p' s'; cbn [fold_ ours List.filter].
  - cbn. rewrite !Nat.add_0_r. split; [intros [= <- <-]; split; [by intros f ?%elem_of_nil|done]|by intros (_ & -> & ->)].
  - rewrite bind_clean. unfold check_file at 1. fold (ours files). destruct (in_scope (f_path f)); cbn [negb].
    + setoid_rewrite elem_of_cons. cbn [List.filter]. destruct (f_events f) as [events|] eqn:E.
      * replace (is_parsed f) with true by (unfold is_parsed; by rewrite E). cbn [negb length]. split.
        -- intros ([p1 s1] & H1 & H2). apply bind_clean in H1 as ([] & Hf & [= <- <-]).
           apply found_clean in Hf. apply IH in H2 as (Hok & -> & ->). split; [|split; lia].
           intros g [->|Hg]; [unfold file_ok; by rewrite E|by apply Hok].
        -- intros (Hok & -> & ->). exists (S p, s). split; [|apply IH; split; [auto|split; lia]].
           apply bind_clean. exists (). split; [|done]. apply found_clean.
           specialize (Hok f (or_introl eq_refl)). unfold file_ok in Hok. by rewrite E in Hok.
      * replace (is_parsed f) with false by (unfold is_parsed; by rewrite E). cbn [negb length]. split.
        -- intros ([p1 s1] & H1 & H2). apply bind_clean in H1 as ([] & Hf & [= <- <-]).
           rewrite text_clean in Hf. apply IH in H2 as (Hok & -> & ->). split; [|split; lia].
           intros g [->|Hg]; [unfold file_ok; by rewrite E|by apply Hok].
        -- intros (Hok & -> & ->). exists (p, S s). split; [|apply IH; split; [auto|split; lia]].
           apply bind_clean. exists (). split; [|done]. apply text_clean.
           specialize (Hok f (or_introl eq_refl)). unfold file_ok in Hok. by rewrite E in Hok.
    + split; [intros ([p1 s1] & [= <- <-] & H2); by apply IH|]. intros H. exists (p, s). split; [done|by apply IH].
Qed.

(** The gate passes exactly when it has a file of the repository's own to read and each of
    them is in block style: no collection in flow style starts without ending at once, where the
    parser reads the file; no line looks as if one did, where it does not. *)
Theorem style_decided files parsed scanned :
  main files = Done [] (parsed, scanned) ↔
  ours files ≠ [] ∧ (∀ f, f ∈ ours files → file_ok f) ∧
  parsed = length (List.filter is_parsed (ours files)) ∧
  scanned = length (List.filter (λ f, negb (is_parsed f)) (ours files)).
Proof.
  assert (Hl : ∀ l : list file, (length (List.filter is_parsed l) + length (List.filter (λ f, negb (is_parsed f)) l))%nat = length l).
  { intros l. induction l as [|f l IH]; [done|]. cbn [List.filter]. destruct (is_parsed f); cbn [negb length]; lia. }
  unfold main. rewrite bind_clean. split.
  - intros ([p s] & H & Hr). apply files_clean in H as (Hok & -> & ->). apply bind_clean in Hr as ([] & Hn & [= <- <-]).
    apply require_clean, negb_true_iff, Nat.eqb_neq in Hn. cbn [Nat.add] in Hn. rewrite Hl in Hn.
    split; [|done]. intros E. by rewrite E in Hn.
  - intros (Hne & Hok & -> & ->). eexists. split; [apply files_clean; split; [exact Hok|split; reflexivity]|].
    apply bind_clean. exists (). split; [|done]. apply require_clean, negb_true_iff, Nat.eqb_neq.
    cbn [Nat.add]. rewrite Hl. by destruct (ours files).
Qed.

(** One inline entry, with an empty list inside; a block entry with the same; and a template, where
    what a comment says is not looked at. *)
Example style_cases :
  main [{| f_path := "hack/a.yaml"; f_text := "- {name: mariadb, deps: []}"; f_events := Some
    [OtherEvent; SequenceStart false 0 0; MappingStart true 0 2; OtherEvent; OtherEvent; OtherEvent;
     SequenceStart true 0 24; SequenceEnd; MappingEnd; SequenceEnd] |}] =
    Done [FlowStyle "hack/a.yaml" 1 "- {name: mariadb, deps: []}" Mapping] (1, 0)%nat ∧
  main [{| f_path := "hack/a.yaml"; f_text := "- deps: []"; f_events := Some
    [SequenceStart false 0 0; MappingStart false 0 2; OtherEvent; SequenceStart true 0 8; SequenceEnd;
     MappingEnd; SequenceEnd] |}] = Done [] (1, 0)%nat ∧
  main [{| f_path := "blueprints/openstack/x.yaml"; f_text := "a: 1 # {b: 2}
c: {d: 3}
e: {{ .Values.f }}"; f_events := None |}] = Done [FlowStyle "blueprints/openstack/x.yaml" 2 "c: {d: 3}" Collection] (0, 1)%nat.
Proof. repeat split; vm_compute; reflexivity. Qed.
End YamlStyle.
