(* ===== verification/Umbrella.v ===== *)
(** * The umbrella chart: which Compositions a render emits, and at which version

    The templates of blueprints/openstack/chart: the osh.* helpers of _helpers.tpl and the loop of
    compositions.yaml. A helper that answers "true" or the empty string is a [bool]. A render reads
    the cluster it is given and either yields documents or fails; Helm, and Sprig's comparison of
    versions, are parameters. *)
From stdpp Require Import relations.
From S2P Require Import Prelude PyStr PyVal PyRe ComponentDag.
#[local] Open Scope string_scope.
#[local] Open Scope list_scope.

Module Umbrella.

(** ** What a render reads *)

Record version := { v_name : string; v_served : bool }.
Record crd := { crd_group : string; crd_kind : string; crd_versions : list version }.

(** A Composition in the release's namespace; [status] is absent until a controller writes it. *)
Record condition := { co_type : string; co_status : string; co_reason : string }.
Record obj := { annotations : list (string * string); status : option (list condition) }.

Record rule := { apiGroups : list string; resources : list string; verbs : list string }.
Record subject := { s_kind : string; s_name : string }.
Record binding := { ref_kind : string; ref_name : string; subjects : list subject }.

(** The objects by kind and name, the ClusterRole and ClusterRoleBinding named
    osh.nodeReaderName, and the labels of each node. *)
Record cluster := {
  crds : list crd;
  objs : string → string → option obj;
  reader_role : option (list rule);
  reader_binding : option binding;
  node_list : list (list (string * string)) }.

Record component := {
  c_name : string; c_kind : string; c_tier : string; c_deps : list string;
  c_requiresProvisioning : bool }.
Record relaxation := { r_component : string; r_dependency : string }.
Record precondition := { p_key : string; p_value : string; p_components : list string }.

Record values := {
  chartVersion : string;
  namespace : string;
  components : list component;
  enabled : list string;
  profile : string;
  dependencyRelaxations : list relaxation;
  nodeLabelPreconditions : list precondition;
  componentValues : list (string * list (string * val)) }.

(** A lookup of a version nothing serves, a field of an object that has no status, an index out of
    range, or the refusal of the node-label precondition with its message. *)
Inductive render_error :=
  | NoMatches (version kind : string) | NilPointer | OutOfRange | Refused (message : string).

Inductive rendered (A : Type) := Rendered (a : A) | RenderError (e : render_error).
Arguments Rendered {A} a.
Arguments RenderError {A} e.

#[global] Instance rendered_ret : MRet rendered := λ A a, Rendered a.
#[global] Instance rendered_bind : MBind rendered := λ A B f m,
  match m with Rendered a => f a | RenderError e => RenderError e end.

Lemma bind_Rendered {A B} (m : rendered A) (f : A → rendered B) b :
  m ≫= f = Rendered b ↔ ∃ a, m = Rendered a ∧ f a = Rendered b.
Proof. destruct m; naive_solver. Qed.

Ltac render_inv H :=
  repeat (lazymatch type of H with
  | mbind _ _ = Rendered _ =>
      let a := fresh "a" in let Ha := fresh "Ha" in
      apply bind_Rendered in H; destruct H as (a & Ha & H)
  end).

(** ** Text *)

Fixpoint replace_char (c d : ascii) (s : string) : string :=
  match s with
  | EmptyString => EmptyString
  | String e s' => String (if Ascii.eqb e c then d else e) (replace_char c d s')
  end.

Definition has (x : string) (l : list string) : bool := existsb (String.eqb x) l.
Definition compact (l : list string) : list string := List.filter (λ s, negb (String.eqb s "")) l.

(** [uniq] keeps the first of equal entries. *)
Fixpoint uniq_from (seen l : list string) : list string :=
  match l with
  | [] => []
  | x :: l' => if has x seen then uniq_from seen l' else x :: uniq_from (x :: seen) l'
  end.
Definition uniq (l : list string) : list string := uniq_from [] l.

(** ** Versions *)

Definition osh_version (vs : values) : string := "v" ++ replace_char "." "-" (chartVersion vs).
Definition apiVersionAt (v : string) : string := "composition.krateo.io/" ++ v.
Definition originVersionAnnotation : string := "krateo.io/composition-origin-version".
Definition GROUP : string := "composition.krateo.io".

Definition composition_crd (kind : string) (c : crd) : bool :=
  String.eqb (crd_group c) GROUP && String.eqb (crd_kind c) kind.

Definition crdExists (kind version : string) (l : list crd) : bool :=
  existsb (λ c, composition_crd kind c
    && existsb (λ v, String.eqb (v_name v) version && v_served v) (crd_versions c)) l.

(** The pattern [^v[0-9]+-[0-9]+-[0-9]+$]. *)
Definition number (s : string) : bool := negb (String.eqb s "") && all_chars is_digit s.
Definition trim_v (s : string) : string :=
  match s with String c t => if Ascii.eqb c "v" then t else s | EmptyString => s end.
Definition is_release (s : string) : bool :=
  startswith "v" s &&
  match split_on "-" (trim_v s) with [a; b; c] => number a && number b && number c | _ => false end.

Definition dots (s : string) : string := replace_char "-" "." (trim_v s).

Section Helpers.
  (** Sprig's [semverCompare]: whether a version satisfies a constraint. *)
Context (semverCompare : string → string → bool).

Definition newerVersion (a b : string) : bool :=
    is_release a && (negb (is_release b) || semverCompare (">" ++ dots b) (dots a)).

(** The preferred version and the newest other one, as the loop carries them. *)
Definition served_step (current : string) (st : string * string) (v : version) : string * string :=
    if negb (v_served v) then st
    else if String.eqb (v_name v) current then (v_name v, st.2)
    else if String.eqb st.2 "" || newerVersion (v_name v) st.2 then (st.1, v_name v)
    else st.

Definition served_crd (kind current : string) (st : string * string) (c : crd) : string * string :=
    if composition_crd kind c then foldl (served_step current) st (crd_versions c) else st.

Definition servedVersion (kind current : string) (l : list crd) : string :=
    let st := foldl (served_crd kind current) ("", "") l in
    if String.eqb st.1 "" then st.2 else st.1.

Definition pinVersion (current origin kind : string) (l : list crd) : string :=
    if negb (String.eqb origin "") && negb (String.eqb origin current) && crdExists kind origin l
    then origin else current.

Definition resolveVersion (current origin : string) (exists_ : bool) (kind : string)
      (l : list crd) : string :=
    let pinned := pinVersion current origin kind l in
    let served := servedVersion kind current l in
    if exists_ && negb (String.eqb served "") && negb (crdExists kind pinned l)
    then served else pinned.

(** ** Reading objects *)

(** [lookup] of one object, at a version of its kind. *)
Definition lookup (cl : cluster) (version kind name : string) : rendered (option obj) :=
    if crdExists kind version (crds cl) then mret (objs cl kind name)
    else RenderError (NoMatches version kind).

(** The object at a served version; there is none while the kind has no served version. *)
Definition get_object (current : string) (cl : cluster) (kind name : string)
      : rendered (option obj) :=
    let sv := servedVersion kind current (crds cl) in
    if String.eqb sv "" then mret None else lookup cl sv kind name.

Definition osh_exists (current : string) (cl : cluster) (kind name : string) : rendered bool :=
    let* o := get_object current cl kind name in
    mret (match o with Some _ => true | None => false end).

(** [$o.status.conditions] *)
Definition conditions (o : option obj) : rendered (list condition) :=
    match o with
    | None => mret []
    | Some o => match status o with Some cs => mret cs | None => RenderError NilPointer end
    end.

Definition PAUSED : string := "ReconcileGracefullyPaused".

Definition is_ready (c : condition) : bool :=
    String.eqb (co_type c) "Ready" && String.eqb (co_status c) "True"
    && negb (String.eqb (co_reason c) PAUSED).
Definition is_paused (c : condition) : bool :=
    String.eqb (co_type c) "Ready" && String.eqb (co_reason c) PAUSED.

Definition ready (current : string) (cl : cluster) (kind name : string) : rendered bool :=
    let* o := get_object current cl kind name in
    let* cs := conditions o in mret (existsb is_ready cs).

Definition paused (current : string) (cl : cluster) (kind name : string) : rendered bool :=
    let* o := get_object current cl kind name in
    let* cs := conditions o in mret (existsb is_paused cs).

Definition originVersion (current : string) (cl : cluster) (kind name : string) : rendered string :=
    let* o := get_object current cl kind name in
    mret (match o with
          | Some o => default "" (assoc originVersionAnnotation (annotations o))
          | None => "" end).

Definition emitVersion (current : string) (cl : cluster) (kind name : string) (exists_ : bool)
      : rendered string :=
    let* origin := originVersion current cl kind name in
    mret (resolveVersion current origin exists_ kind (crds cl)).

(** ** Dependencies *)

(** The kind of the component of that name: the last one declared. *)
Definition kind_of (comps : list component) (d : string) : string :=
    foldl (λ k c, if String.eqb (c_name c) d then c_kind c else k) "" comps.

Fixpoint all_ (f : string → rendered bool) (l : list string) : rendered bool :=
    match l with
    | [] => mret true
    | d :: l' => let* b := f d in let* b' := all_ f l' in mret (b && b')
    end.

Definition depsReady (vs : values) (cl : cluster) (deps : list string) : rendered bool :=
    all_ (λ d, ready (osh_version vs) cl (kind_of (components vs) d) d) deps.

Definition depsExist (vs : values) (cl : cluster) (deps : list string) : rendered bool :=
    all_ (λ d,
      let kind := kind_of (components vs) d in
      let* e := osh_exists (osh_version vs) cl kind d in
      let* p := paused (osh_version vs) cl kind d in
      mret (e && negb p)) deps.

Definition depsRelaxed (vs : values) (name : string) (deps : list string) : string :=
    String.concat " " (uniq (concat (map (λ d, concat (map (λ r,
      if String.eqb (r_component r) name && String.eqb (r_dependency r) d then [d] else [])
      (dependencyRelaxations vs))) deps))).

(** ** Selection *)

(** One pass over the components: the dependencies of each one selected so far are added. *)
Definition expand (comps : list component) (sel : gset string) : gset string :=
    foldl (λ sel c, if decide (c_name c ∈ sel) then sel ∪ list_to_set (c_deps c) else sel) sel comps.

Definition PASSES : nat := 8.

Definition in_profile (p : string) (c : component) : bool :=
    String.eqb p "full" || (String.eqb p "full-strict" && negb (c_requiresProvisioning c))
    || String.eqb (c_tier c) "identity".

Definition selection (vs : values) : gset string :=
    match enabled vs with
    | [] => list_to_set (map c_name (List.filter (in_profile (profile vs)) (components vs)))
    | es => Nat.iter PASSES (expand (components vs)) (list_to_set es)
    end.

Definition selected (vs : values) : string :=
    String.concat " " (sorted_strs (elements (selection vs))).
Definition sel_list (vs : values) : list string := split_on " " (selected vs).

(** ** Node labels *)

Definition nodeReadGranted (vs : values) (cl : cluster) : bool :=
    match reader_role cl with
    | Some rs => existsb (λ r,
        (has "" (apiGroups r) || has "*" (apiGroups r))
        && (has "nodes" (resources r) || has "*" (resources r))
        && (has "list" (verbs r) || has "*" (verbs r))) rs
    | None => false
    end
    && match reader_binding cl with
       | Some b => String.eqb (ref_name b) "krateo-openstack-node-reader"
           && String.eqb (ref_kind b) "ClusterRole"
           && existsb (λ s, String.eqb (s_kind s) "Group"
                && String.eqb (s_name s) ("system:serviceaccounts:" ++ namespace vs)) (subjects b)
       | None => false
       end.

Definition token (p : precondition) : string := p_key p ++ "=" ++ p_value p.

Definition nodeLabelsWanted (vs : values) (sel : list string) : string :=
    String.concat " " (sorted_strs (uniq (concat (map (λ p,
      concat (map (λ c, if has c sel then [token p] else []) (p_components p)))
      (nodeLabelPreconditions vs))))).

(** Whether some node carries the label; [toString] of a label that is absent is [<nil>]. *)
Definition carried (nodes : list (list (string * string))) (key value : string) : bool :=
    existsb (λ labels, String.eqb (default "<nil>" (assoc key labels)) value) nodes.

Fixpoint missing_tokens (nodes : list (list (string * string))) (ts : list string)
      : rendered (list string) :=
    match ts with
    | [] => mret []
    | t :: ts' =>
        match split_on "=" t with
        | key :: value :: _ =>
            let* ms := missing_tokens nodes ts' in
            mret (if carried nodes key value then ms else t :: ms)
        | _ => RenderError OutOfRange
        end
    end.

Definition nodeLabelsMissing (vs : values) (sel : list string)
      (nodes : list (list (string * string))) : rendered string :=
    let* ms := missing_tokens nodes (compact (split_on " " (nodeLabelsWanted vs sel))) in
    mret (String.concat " " ms).

(** The selected components that want the label. *)
Definition wanted_by (vs : values) (sel : list string) (t : string) : list string :=
    sorted_strs (concat (map (λ p,
      if String.eqb (token p) t then List.filter (λ c, has c sel) (p_components p) else [])
      (nodeLabelPreconditions vs))).

Definition nodeLabelMessage (vs : values) (sel : list string) (missing : string)
      (nodes : list (list (string * string))) : string :=
    let tokens := compact (split_on " " missing) in
    let n (l : nat) := str_of_Z (Z.of_nat l) in
    String.concat newline
      (["";
        ("node labels missing: none of the " ++ n (length nodes) ++ " node(s) this release can see carries "
          ++ n (length tokens) ++ " label(s) that the selected OpenStack components schedule their pods on.")%string;
        ""]
       ++ map (λ t, ("    " ++ t ++ "  <- wanted by: " ++ String.concat ", " (wanted_by vs sel t))%string) tokens
       ++ ["";
        "Label the nodes that should run those components and this render proceeds by itself on the next reconcile, with nothing to re-run:";
        "";
        ("    kubectl label --overwrite nodes --all " ++ String.concat " " tokens)%string;
        "";
        "Label individual nodes instead if only some of them should run OpenStack, or deselect the components listed above through spec.enabled / spec.profile.";
        "";
        dq "Nothing in the charts creates these labels. This render is refused rather than allowed to proceed because the resulting symptom is not reliably visible: a Deployment, StatefulSet or Job leaves a Pending pod saying `node(s) didn't match Pod's node affinity/selector`, which names neither the label nor the chart, while a DaemonSet creates NO POD AT ALL -- desiredNumberScheduled=0, no Pending pod, no event. A 4-node profile=full install whose nodes carried only openstack-control-plane ran 227 pods and had no nova-compute, no libvirt and no openvswitch, with nothing anywhere reporting a problem."]).

(** An empty list of nodes is a measurement that could not be made. *)
Definition requireNodeLabels (vs : values) (sel : list string)
      (nodes : list (list (string * string))) : rendered unit :=
    match nodes with
    | [] => mret ()
    | _ =>
        let* missing := nodeLabelsMissing vs sel nodes in
        if String.eqb missing "" then mret ()
        else RenderError (Refused (nodeLabelMessage vs sel missing nodes))
    end.

(** ** compositions.yaml *)

Record doc := { d_apiVersion : string; d_kind : string; d_name : string; d_spec : list (string * val) }.

(** How the dependencies of a component are gated: on existence, or on readiness. *)
Definition relaxed_of (vs : values) (c : component) : list string :=
    compact (split_on " " (depsRelaxed vs (c_name c) (c_deps c))).
Definition strict_of (vs : values) (c : component) : list string :=
    List.filter (λ d, negb (has d (relaxed_of vs c))) (c_deps c).

(** The document of one selected component, if the gate lets it through. *)
Definition emit (vs : values) (cl : cluster) (c : component) : rendered (list doc) :=
    let current := osh_version vs in
    let* exists_ := osh_exists current cl (c_kind c) (c_name c) in
    let* emitVer := emitVersion current cl (c_kind c) (c_name c) exists_ in
    let crd := crdExists (c_kind c) emitVer (crds cl) in
    let* strictReady := depsReady vs cl (strict_of vs c) in
    let* relaxedExist := depsExist vs cl (relaxed_of vs c) in
    mret (if crd && (strictReady && relaxedExist || exists_)
          then [{| d_apiVersion := apiVersionAt emitVer; d_kind := c_kind c; d_name := c_name c;
                   d_spec := default [] (assoc (c_name c) (componentValues vs)) |}]
          else []).

Fixpoint emit_all (vs : values) (cl : cluster) (sel : list string) (cs : list component)
      : rendered (list doc) :=
    match cs with
    | [] => mret []
    | c :: cs' =>
        let* ds := if has (c_name c) sel then emit vs cl c else mret [] in
        let* ds' := emit_all vs cl sel cs' in mret (ds ++ ds')
    end.

Definition render (vs : values) (cl : cluster) : rendered (list doc) :=
    let sel := sel_list vs in
    let nodes := if nodeReadGranted vs cl then node_list cl else [] in
    let* _ := requireNodeLabels vs sel nodes in
    emit_all vs cl sel (components vs).
End Helpers.
End Umbrella.
