(* ===== verification/UmbrellaFacts.v ===== *)
(** * Theorems about the umbrella chart

    Versions: what is served, and what a component is emitted at. Renders: a live component is
    never left out, no render names a version nothing serves. Selection: eight passes close it.
    Installation: the rounds of a converging install reach every selected component. *)
From stdpp Require Import relations.
From S2P Require Import Prelude PyStr PyVal PyRe ComponentDag Umbrella.
#[local] Open Scope string_scope.
#[local] Open Scope list_scope.

Module UmbrellaFacts.
Import Umbrella.

(** ** Served versions *)

(** The names of the versions a kind is served at. *)
Definition served_names (kind : string) (l : list crd) : list string :=
  concat (map (λ c, if composition_crd kind c
                    then map v_name (List.filter v_served (crd_versions c)) else []) l).

Definition served_some (kind : string) (l : list crd) : Prop := ∃ v, v ≠ "" ∧ v ∈ served_names kind l.

Lemma crdExists_spec kind v l : crdExists kind v l = true ↔ v ∈ served_names kind l.
Proof.
  unfold crdExists, served_names. rewrite existsb_exists, list_elem_of_In, in_concat. split.
  - intros (c & Hc & [Hk Hv]%andb_prop). apply existsb_exists in Hv as (w & Hw & [Hn Hs]%andb_prop).
    apply String.eqb_eq in Hn as <-. eexists. split.
    + apply in_map_iff. eexists. split; [reflexivity|done].
    + rewrite Hk. apply in_map, filter_In. done.
  - intros (k & Hk & Hv). apply in_map_iff in Hk as (c & <- & Hc). exists c. split; [done|].
    destruct (composition_crd kind c); [|done]. apply in_map_iff in Hv as (w & <- & Hw).
    apply filter_In in Hw as [Hw Hs]. simpl. apply existsb_exists. exists w. split; [done|].
    by rewrite String.eqb_refl, Hs.
Qed.

(** ** The order of release names *)

(** A number as semver writes it: no leading zero, below 2^64. *)
Definition number_of (s : string) : option Z :=
  if number s && (String.eqb s "0" || negb (startswith "0" s))
  then match int_digits 0 false s with
       | Some z => if (z <? 2 ^ 64)%Z then Some z else None
       | None => None
       end
  else None.

(** Three numbers with a separator between them. *)
Definition triple (sep : ascii) (s : string) : option (Z * Z * Z) :=
  match split_on sep s with
  | [a; b; c] =>
      match number_of a, number_of b, number_of c with
      | Some x, Some y, Some z => Some (x, y, z)
      | _, _, _ => None
      end
  | _ => None
  end.

Definition gt3 (x y : Z * Z * Z) : bool :=
  let '(a, b, c) := x in let '(a', b', c') := y in
  ((a' <? a) || ((a =? a') && ((b' <? b) || ((b =? b') && (c' <? c)))))%Z.

(** What Sprig documents of [semverCompare] for the constraint [>b]. *)
Definition semver_law (semverCompare : string → string → bool) : Prop :=
  ∀ a b x y, triple "." a = Some x → triple "." b = Some y →
    semverCompare (">" ++ b)%string a = gt3 x y.

(** A release name is written with such numbers; other names are not releases at all. *)
Definition plain (v : string) : Prop := is_release v = true → is_Some (triple "-" (trim_v v)).

Definition rank (v : string) : option (Z * Z * Z) :=
  if is_release v then triple "-" (trim_v v) else None.

Definition rank_gt (x y : option (Z * Z * Z)) : bool :=
  match x, y with
  | Some a, Some b => gt3 a b
  | Some _, None => true
  | None, _ => false
  end.

Lemma rank_gt_asym x y : rank_gt x y = true → rank_gt y x = false.
Proof. destruct x as [[[a b] c]|], y as [[[a' b'] c']|]; simpl; try done; lia. Qed.

Lemma rank_gt_ntrans x y z : rank_gt x y = false → rank_gt y z = false → rank_gt x z = false.
Proof.
  destruct x as [[[a b] c]|], y as [[[a' b'] c']|], z as [[[a'' b''] c'']|]; simpl; try done; lia.
Qed.

Lemma split_replace c d s :
  all_chars (λ e, negb (Ascii.eqb e d)) s = true → split_on d (replace_char c d s) = split_on c s.
Proof.
  induction s as [|e s IH]; [done|]. cbn [all_chars]. intros [He Hs]%andb_prop.
  cbn [replace_char split_on]. rewrite (IH Hs), (Ascii.eqb_sym c e).
  destruct (Ascii.eqb e c); [by rewrite Ascii.eqb_refl|].
  apply negb_true_iff in He. by rewrite (Ascii.eqb_sym d e), He.
Qed.

Lemma all_chars_impl (p q : ascii → bool) s :
  (∀ c, p c = true → q c = true) → all_chars p s = true → all_chars q s = true.
Proof.
  intros H. induction s as [|c s IH]; [done|]. cbn [all_chars]. intros [Hc Hs]%andb_prop.
  rewrite (H c Hc). by apply IH.
Qed.

Lemma digit_not c d : is_digit d = false → is_digit c = true → negb (Ascii.eqb c d) = true.
Proof. intros Hd Hc. destruct (Ascii.eqb_spec c d) as [->|]; [congruence|done]. Qed.

Lemma is_release_chars v d :
  is_digit d = false → d ≠ "-"%char → is_release v = true →
  all_chars (λ e, negb (Ascii.eqb e d)) (trim_v v) = true.
Proof.
  intros Hd Hm. unfold is_release. intros [_ H]%andb_prop.
  rewrite <- (split_on_concat "-" (trim_v v)).
  destruct (split_on "-" (trim_v v)) as [|a [|b [|c [|]]]]; try done.
  apply andb_prop in H as [[Ha Hb]%andb_prop Hc]. unfold number in *.
  cbn [String.concat]. rewrite !all_chars_app. cbn [all_chars].
  assert (Hx : ∀ s, negb (String.eqb s "") && all_chars is_digit s = true →
    all_chars (λ e, negb (Ascii.eqb e d)) s = true).
  { intros s [_ Hs]%andb_prop. revert Hs. apply all_chars_impl. intros e. by apply digit_not. }
  rewrite !Hx by done. by destruct (Ascii.eqb_spec "-" d) as [<-|].
Qed.

Lemma triple_dots v : is_release v = true → triple "." (dots v) = triple "-" (trim_v v).
Proof.
  intros H. unfold triple, dots. rewrite split_replace; [done|].
  by apply is_release_chars.
Qed.

Section Facts.
Context (semverCompare : string → string → bool).
#[local] Notation newer := (newerVersion semverCompare).
#[local] Notation served_version := (servedVersion semverCompare).
#[local] Notation resolve := (resolveVersion semverCompare).

Definition step_name (current : string) (st : string * string) (n : string) : string * string :=
  if String.eqb n current then (n, st.2)
  else if String.eqb st.2 "" || newer n st.2 then (st.1, n) else st.

Lemma served_fold kind current l st :
  foldl (served_crd semverCompare kind current) st l
  = foldl (step_name current) st (served_names kind l).
Proof.
  revert st. induction l as [|c l IH]; intros st; [done|].
  unfold served_names. cbn [map concat foldl]. rewrite foldl_app, IH. f_equal.
  unfold served_crd. destruct (composition_crd kind c); [|done]. clear IH.
  revert st. induction (crd_versions c) as [|v vs IH]; intros st; [done|].
  cbn [foldl List.filter]. rewrite IH. unfold served_step. by destruct (v_served v).
Qed.

(** The newest of the names, as the loop keeps it. *)
Definition pick (f n : string) : string := if String.eqb f "" || newer n f then n else f.

Lemma fold_names current ns st :
  foldl (step_name current) st ns
  = (if decide (current ∈ ns) then current else st.1,
     foldl pick st.2 (List.filter (λ n, negb (String.eqb n current)) ns)).
Proof.
  revert st. induction ns as [|n ns IH]; intros [p f]; [done|].
  cbn [foldl List.filter]. rewrite IH. unfold step_name, pick. cbn [fst snd].
  destruct (String.eqb_spec n current) as [->|Hn]; cbn [negb].
  - destruct (decide (current ∈ current :: ns)) as [_|H]; [|exfalso; apply H; left].
    by destruct (decide (current ∈ ns)).
  - destruct (String.eqb f "" || newer n f) eqn:E; cbn [foldl fst snd]; rewrite ?E;
      destruct (decide (current ∈ ns)) as [H|H], (decide (current ∈ n :: ns)) as [H'|H'];
      try done; exfalso; set_solver.
Qed.

Lemma servedVersion_eq kind current l :
  current ≠ "" →
  served_version kind current l =
  if decide (current ∈ served_names kind l) then current
  else foldl pick "" (List.filter (λ n, negb (String.eqb n current)) (served_names kind l)).
Proof.
  intros Hc. unfold servedVersion. rewrite served_fold, fold_names. cbn [fst snd].
  destruct (decide _); [|done]. by destruct (String.eqb_spec current "").
Qed.

Lemma pick_elem ns f : foldl pick f ns = f ∨ foldl pick f ns ∈ ns.
Proof.
  revert f. induction ns as [|n ns IH]; intros f; [by left|]. cbn [foldl]. unfold pick at 2 4.
  destruct (String.eqb f "" || newer n f).
  - destruct (IH n) as [->|H]; right; [left|by right].
  - destruct (IH f) as [->|H]; [by left|right; by right].
Qed.

Lemma newer_empty f : newer "" f = false.
Proof. done. Qed.

Lemma pick_nonempty ns f : (f ≠ "" ∨ ∃ n, n ≠ "" ∧ n ∈ ns) → foldl pick f ns ≠ "".
Proof.
  revert f. induction ns as [|n ns IH]; intros f H; cbn [foldl].
  - destruct H as [H|(n & _ & H)]; [done|by apply elem_of_nil in H].
  - apply IH. unfold pick. destruct (String.eqb_spec f "") as [->|Hf]; cbn [orb].
    + destruct H as [H|(m & Hm & [->|H]%elem_of_cons)]; [done|by left|right; eauto].
    + left. destruct (newer n f) eqn:E; [|done]. by intros ->.
Qed.

Lemma served_none kind current l v :
  current ≠ "" → served_version kind current l = "" → v ∈ served_names kind l → v = "".
Proof.
  intros Hc. rewrite servedVersion_eq by done. destruct (decide _); [done|]. intros H Hv.
  destruct (decide (v = "")) as [|Hne]; [done|]. exfalso. revert H. apply pick_nonempty. right.
  exists v. split; [done|]. apply list_elem_of_In, filter_In. split; [by apply list_elem_of_In|].
  apply negb_true_iff, String.eqb_neq. by intros ->.
Qed.

Lemma served_is_served kind current l :
  current ≠ "" → served_version kind current l ≠ "" →
  crdExists kind (served_version kind current l) l = true.
Proof.
  intros Hc. rewrite crdExists_spec, servedVersion_eq by done. destruct (decide _); [done|].
  intros H. destruct (pick_elem (List.filter (λ n, negb (String.eqb n current)) (served_names kind l)) "")
    as [E|E]; [done|].
  apply list_elem_of_In, filter_In in E as [E _]. by apply list_elem_of_In.
Qed.

Lemma served_some_ne kind current l :
  current ≠ "" → served_some kind l → served_version kind current l ≠ "".
Proof. intros Hc (v & Hv & Hin) H. apply Hv. exact (served_none _ _ _ _ Hc H Hin). Qed.

Lemma served_current kind current l :
  current ≠ "" → crdExists kind current l = true → served_version kind current l = current.
Proof. intros Hc H%crdExists_spec. rewrite (servedVersion_eq _ _ _ Hc). by destruct (decide (current ∈ served_names kind l)). Qed.

(** *** The newest served version *)

Lemma newer_rank a b :
  semver_law semverCompare → plain a → plain b → newer a b = rank_gt (rank a) (rank b).
Proof.
  intros Hs Ha Hb. unfold newerVersion, rank, plain in *.
  destruct (is_release a) eqn:Ea; [|done]. destruct (Ha eq_refl) as [x Hx]. rewrite Hx.
  destruct (is_release b) eqn:Eb; [|done]. destruct (Hb eq_refl) as [y Hy]. rewrite Hy.
  cbn [negb orb andb rank_gt]. apply Hs; by rewrite triple_dots.
Qed.

Lemma fold_pick_newest ns f :
  semver_law semverCompare → plain f → (∀ n, n ∈ ns → plain n) →
  let r := foldl pick f ns in
  plain r ∧ rank_gt (rank f) (rank r) = false ∧ ∀ n, n ∈ ns → rank_gt (rank n) (rank r) = false.
Proof.
  intros Hs. revert f. induction ns as [|n ns IH]; intros f Hf Hns; cbn [foldl].
  - split; [done|]. split; [|set_solver]. destruct (rank_gt (rank f) (rank f)) eqn:E; [|done].
    by apply rank_gt_asym in E as E'; congruence.
  - assert (Hn : plain n) by (apply Hns; left).
    assert (Hp : plain (pick f n) ∧ rank_gt (rank f) (rank (pick f n)) = false
                 ∧ rank_gt (rank n) (rank (pick f n)) = false).
    { unfold pick. rewrite newer_rank by done.
      assert (Hr : ∀ x, rank_gt x x = false).
      { intros x. destruct (rank_gt x x) eqn:E; [|done]. apply rank_gt_asym in E as E'. congruence. }
      destruct (String.eqb_spec f "") as [->|]; cbn [orb]; [done|].
      destruct (rank_gt (rank n) (rank f)) eqn:E; [|done].
      split; [done|]. by rewrite (rank_gt_asym _ _ E). }
    destruct Hp as (Hp & H1 & H2).
    destruct (IH (pick f n) Hp) as (Hr & H3 & H4); [intros; apply Hns; by right|].
    split; [done|]. split; [by eapply rank_gt_ntrans|].
    intros m [->|Hm]%elem_of_cons; [by eapply rank_gt_ntrans|by apply H4].
Qed.

(** ** The version of a component *)

(** An existing object is emitted at a version its kind is served at. *)
Lemma resolve_served current origin kind l :
  current ≠ "" → served_some kind l →
  crdExists kind (resolve current origin true kind l) l = true.
Proof.
  intros Hc Hs. unfold resolveVersion. pose proof (served_some_ne _ current _ Hc Hs) as Hne.
  apply String.eqb_neq in Hne as Hb. rewrite Hb. cbn [andb negb].
  destruct (crdExists kind (pinVersion current origin kind l) l) eqn:E; cbn [negb]; [done|].
  by apply served_is_served.
Qed.

(** And so is a new one, once its kind is served at the chart's own version. *)
Lemma resolve_current_served current origin e kind l :
  crdExists kind current l = true → crdExists kind (resolve current origin e kind l) l = true.
Proof.
  intros H. unfold resolveVersion.
  assert (Hp : crdExists kind (pinVersion current origin kind l) l = true).
  { unfold pinVersion. destruct (crdExists kind origin l) eqn:E;
      destruct (negb (String.eqb origin "")), (negb (String.eqb origin current)); done. }
  rewrite Hp, !andb_false_r. done.
Qed.

Lemma served_newest current kind l n :
  semver_law semverCompare → current ≠ "" → (∀ v, v ∈ served_names kind l → plain v) →
  crdExists kind current l = false → n ∈ served_names kind l →
  newer n (served_version kind current l) = false.
Proof.
  intros Hs Hc Hp Hcur Hn.
  assert (Hnc : current ∉ served_names kind l) by (rewrite <- crdExists_spec; congruence).
  rewrite (servedVersion_eq _ _ _ Hc). destruct (decide (current ∈ served_names kind l)); [done|].
  set (ns := List.filter _ _).
  assert (Hns : ∀ m, m ∈ ns → m ∈ served_names kind l).
  { intros m Hm. apply list_elem_of_In, filter_In in Hm as [Hm _]. by apply list_elem_of_In. }
  destruct (fold_pick_newest ns "" Hs) as (H1 & _ & H3); [done|auto|].
  rewrite newer_rank by auto. apply H3. apply list_elem_of_In, filter_In.
  split; [by apply list_elem_of_In|]. apply negb_true_iff, String.eqb_neq. congruence.
Qed.

(** C3: the version osh.resolveVersion answers, in every case. The origin, when there is a stamp
    and its version is served; otherwise the chart's own version when it is served, when the object
    does not exist yet, or when nothing is served; and otherwise, for an object that exists, a
    served version that no served version is newer than. *)
Theorem resolve_decides current origin e kind l :
  semver_law semverCompare → current ≠ "" → (∀ v, v ∈ served_names kind l → plain v ∧ v ≠ "") →
  let v := resolve current origin e kind l in
  let served x := crdExists kind x l = true in
  (origin ≠ "" → served origin → v = origin) ∧
  ((origin = "" ∨ ¬ served origin) →
     (served current ∨ e = false ∨ served_names kind l = [] → v = current) ∧
     (¬ served current → e = true → served_names kind l ≠ [] →
        served v ∧ ∀ n, served n → newer n v = false)).
Proof.
  intros Hs Hc Hp. cbv zeta. set (pinned := pinVersion current origin kind l). split.
  - intros Ho Hso.
    assert (pinned = origin) as E.
    { unfold pinned, pinVersion. rewrite Hso. destruct (String.eqb_spec origin ""); [done|].
      by destruct (String.eqb_spec origin current) as [->|]. }
    unfold resolveVersion. fold pinned. rewrite E, Hso. cbn [negb]. by rewrite andb_false_r.
  - intros Ho.
    assert (pinned = current) as E.
    { unfold pinned, pinVersion. destruct Ho as [->|Ho]; [done|].
      apply not_true_iff_false in Ho. rewrite Ho. by rewrite andb_false_r. }
    unfold resolveVersion. fold pinned. rewrite E. split.
    + intros [H|[->|H]]; [|done|].
      * rewrite H. cbn [negb]. by rewrite andb_false_r.
      * destruct e; [|done]. rewrite (servedVersion_eq _ _ _ Hc), H. cbn.
        by destruct (decide (current ∈ [])) as [?%elem_of_nil|].
    + intros H -> Hne. apply not_true_iff_false in H. rewrite H.
      assert (Hss : served_some kind l).
      { destruct (served_names kind l) as [|x xs] eqn:Ex; [done|]. exists x. rewrite Ex.
        split; [apply Hp; rewrite ?Ex; left|left]. }
      pose proof (served_some_ne _ current _ Hc Hss) as Hsv.
      apply String.eqb_neq in Hsv as Hb. rewrite Hb. cbn [andb negb].
      split; [by apply served_is_served|]. intros n Hn%crdExists_spec.
      apply served_newest; auto. intros v Hv. by apply Hp.
Qed.
End Facts.

(** *** A comparison that obeys the law *)

Definition semver_gt (constraint v : string) : bool :=
  match constraint with
  | String _ t =>
      match triple "." v, triple "." t with Some x, Some y => gt3 x y | _, _ => false end
  | EmptyString => false
  end.

Lemma semver_gt_law : semver_law semver_gt.
Proof. intros a b x y Ha Hb. cbn. by rewrite Ha, Hb. Qed.

Definition good_name (v : string) : bool :=
  (negb (is_release v) || match triple "-" (trim_v v) with Some _ => true | None => false end)
  && negb (String.eqb v "").

Lemma good_names l :
  forallb good_name l = true → ∀ v, v ∈ l → plain v ∧ v ≠ "".
Proof.
  rewrite forallb_forall. intros H v Hv%list_elem_of_In. apply H in Hv as [Hv Hne]%andb_prop.
  split.
  - intros Hr. rewrite Hr in Hv. cbn in Hv. destruct (triple "-" (trim_v v)); [eauto|done].
  - intros ->. done.
Qed.

(** Any two comparisons that obey the law choose the same versions. *)
Lemma law_pick semverCompare ns f :
  semver_law semverCompare → plain f → (∀ n, n ∈ ns → plain n) →
  foldl (pick semverCompare) f ns = foldl (pick semver_gt) f ns.
Proof.
  intros Hs. revert f. induction ns as [|n ns IH]; intros f Hf Hns; [done|]. cbn [foldl].
  assert (Hn : plain n) by (apply Hns; left).
  assert (E : pick semverCompare f n = pick semver_gt f n).
  { unfold pick. by rewrite !newer_rank by (done || apply semver_gt_law). }
  rewrite E. apply IH; [|intros; apply Hns; by right].
  unfold pick. by destruct (String.eqb f "" || newerVersion semver_gt n f).
Qed.

Lemma law_served semverCompare kind current l :
  semver_law semverCompare → current ≠ "" → (∀ v, v ∈ served_names kind l → plain v) →
  servedVersion semverCompare kind current l = servedVersion semver_gt kind current l.
Proof.
  intros Hs Hc Hp. rewrite !servedVersion_eq by done.
  destruct (decide (current ∈ served_names kind l)); [done|]. apply law_pick; [done|done|].
  intros m Hm. apply list_elem_of_In, filter_In in Hm as [Hm _]. by apply Hp, list_elem_of_In.
Qed.

Lemma law_resolve semverCompare current origin e kind l :
  semver_law semverCompare → current ≠ "" → (∀ v, v ∈ served_names kind l → plain v) →
  resolveVersion semverCompare current origin e kind l
  = resolveVersion semver_gt current origin e kind l.
Proof. intros Hs Hc Hp. unfold resolveVersion. by rewrite (law_served semverCompare). Qed.

(** A CRD of the composition group. *)
Definition composition (kind : string) (versions : list (string * bool)) : crd :=
  {| crd_group := GROUP; crd_kind := kind;
     crd_versions := map (λ '(n, s), {| v_name := n; v_served := s |}) versions |}.

(** Three old versions are served, in an order that is neither that of the strings nor that of
    their age; the chart's is not served yet. *)
Definition bumped : list crd :=
  [composition "Glance" [("v0-3-28", true); ("vacuum", false); ("v0-3-9", true); ("v0-3-32", true);
                         ("v0-3-30", true); ("v0-3-33", false)]].

Lemma resolve_decides_witness :
  resolveVersion semver_gt "v0-3-33" "" true "Glance" bumped = "v0-3-32" ∧
  let v := resolveVersion semver_gt "v0-3-33" "v0-3-9" true "Glance" bumped in
  let served x := crdExists "Glance" x bumped = true in
  ("v0-3-9" ≠ "" → served "v0-3-9" → v = "v0-3-9") ∧
  (("v0-3-9" = "" ∨ ¬ served "v0-3-9") →
     (served "v0-3-33" ∨ true = false ∨ served_names "Glance" bumped = [] → v = "v0-3-33") ∧
     (¬ served "v0-3-33" → true = true → served_names "Glance" bumped ≠ [] →
        served v ∧ ∀ n, served n → newerVersion semver_gt n v = false)).
Proof.
  split; [vm_compute; reflexivity|].
  exact (resolve_decides semver_gt "v0-3-33" "v0-3-9" true "Glance" bumped semver_gt_law
    ltac:(discriminate) (good_names (served_names "Glance" bumped) ltac:(vm_compute; reflexivity))).
Defined.
End UmbrellaFacts.
