(* ===== verification/UmbrellaRuns.v ===== *)
(** * Renders of the umbrella chart, one after the other

    A render never asks for a version nothing serves and never leaves out a live component; its
    selection is closed under dependencies; repeated renders complete an installation. *)
From stdpp Require Import relations.
From S2P Require Import Prelude PyStr PyVal PyRe ComponentDag Umbrella UmbrellaFacts.
#[local] Open Scope string_scope.
#[local] Open Scope list_scope.

Module UmbrellaRuns.
Import Umbrella UmbrellaFacts.

Section Runs.
Context (semverCompare : string → string → bool).
#[local] Notation render := (render semverCompare).
#[local] Notation emit := (emit semverCompare).
#[local] Notation emit_all := (emit_all semverCompare).

Lemma osh_version_ne vs : osh_version vs ≠ "".
Proof. done. Qed.

(** ** Reading objects *)

(** A read goes through a served version, so it does not fail. *)
Lemma get_object_Ok current cl kind name :
  current ≠ "" →
  get_object semverCompare current cl kind name =
  Rendered (if String.eqb (servedVersion semverCompare kind current (crds cl)) "" then None
            else objs cl kind name).
Proof.
  intros Hc. unfold get_object, Umbrella.lookup.
  destruct (String.eqb_spec (servedVersion semverCompare kind current (crds cl)) "") as [|Hne]; [done|].
  by rewrite served_is_served.
Qed.

Lemma get_object_served current cl kind name :
  current ≠ "" → served_some kind (crds cl) →
  get_object semverCompare current cl kind name = Rendered (objs cl kind name).
Proof.
  intros Hc Hs. rewrite get_object_Ok by done.
  by rewrite (proj2 (String.eqb_neq _ _) (served_some_ne semverCompare kind current _ Hc Hs)).
Qed.

(** ** What can stop a render *)

Definition no_match {A} (m : rendered A) : Prop := ∀ v k, m ≠ RenderError (NoMatches v k).

Lemma no_match_ret {A} (a : A) : no_match (mret a).
Proof. done. Qed.
Lemma no_match_bind {A B} (m : rendered A) (f : A → rendered B) :
  no_match m → (∀ a, no_match (f a)) → no_match (m ≫= f).
Proof. intros Hm Hf v k. destruct m; [by apply Hf|]. intros [= ->]. by apply (Hm v k). Qed.
Lemma no_match_get current cl kind name :
  current ≠ "" → no_match (get_object semverCompare current cl kind name).
Proof. intros Hc. by rewrite get_object_Ok. Qed.
Lemma no_match_conditions o : no_match (conditions o).
Proof. destruct o as [o|]; [|done]. cbn. by destruct (status o). Qed.
Lemma no_match_all f l : (∀ d, no_match (f d)) → no_match (all_ f l).
Proof.
  intros H. induction l as [|d l IH]; [apply no_match_ret|]. cbn [all_].
  apply no_match_bind; [done|]. intros b. apply no_match_bind; [done|]. intros b'. apply no_match_ret.
Qed.
Lemma no_match_tokens nodes ts : no_match (missing_tokens nodes ts).
Proof.
  induction ts as [|t ts IH]; [done|]. cbn [missing_tokens].
  destruct (split_on "=" t) as [|key [|value l]]; [done..|].
  apply no_match_bind; [done|]. intros ms. apply no_match_ret.
Qed.

Create HintDb no_match.
Hint Resolve no_match_ret no_match_get no_match_conditions no_match_tokens osh_version_ne : no_match.
Ltac no_match :=
  repeat (first [apply no_match_bind; [|intros ?] | apply no_match_all; intros ?]);
  eauto with no_match.

Lemma no_match_emit vs cl c : no_match (emit vs cl c).
Proof.
  unfold Umbrella.emit, osh_exists, emitVersion, originVersion, depsReady, depsExist, ready, paused,
    osh_exists. no_match.
Qed.

Lemma no_match_emit_all vs cl sel cs : no_match (emit_all vs cl sel cs).
Proof.
  induction cs as [|c cs IH]; [done|]. cbn [Umbrella.emit_all].
  apply no_match_bind; [|intros ds; apply no_match_bind; [done|intros ds'; apply no_match_ret]].
  destruct (has (c_name c) sel); [apply no_match_emit|apply no_match_ret].
Qed.

Lemma no_match_require vs sel nodes : no_match (requireNodeLabels vs sel nodes).
Proof.
  unfold requireNodeLabels, nodeLabelsMissing. destruct nodes as [|n ns]; [done|]. no_match.
  by destruct (String.eqb _ "").
Qed.

(** ** What a render emits *)

Lemma emit_elem vs cl c ds d :
  emit vs cl c = Rendered ds → d ∈ ds →
  ∃ v, d_apiVersion d = apiVersionAt v ∧ d_kind d = c_kind c ∧ d_name d = c_name c ∧
    crdExists (c_kind c) v (crds cl) = true.
Proof.
  unfold Umbrella.emit. intros H Hd. render_inv H. injection H as <-.
  destruct (crdExists (c_kind c) a0 (crds cl)) eqn:E; [|by apply elem_of_nil in Hd].
  destruct (true && _); [|by apply elem_of_nil in Hd].
  apply list_elem_of_singleton in Hd as ->. exists a0. done.
Qed.

Lemma emit_all_elem vs cl sel cs ds d :
  emit_all vs cl sel cs = Rendered ds →
  d ∈ ds ↔ ∃ c ds', c ∈ cs ∧ has (c_name c) sel = true ∧ emit vs cl c = Rendered ds' ∧ d ∈ ds'.
Proof.
  revert ds. induction cs as [|c cs IH]; intros ds H; cbn [Umbrella.emit_all] in H.
  - injection H as <-. split; [by intros ?%elem_of_nil|]. by intros (c & ? & ?%elem_of_nil & _).
  - render_inv H. injection H as <-. rewrite elem_of_app, (IH _ Ha0).
    setoid_rewrite elem_of_cons. destruct (has (c_name c) sel) eqn:Es.
    + split; [intros [Hd|(c' & ds' & H)]; [by exists c, a; auto|naive_solver]|].
      intros (c' & ds' & [->|Hc] & Hs & He & Hd); [left; congruence|right; eauto 10].
    + injection Ha as <-. split; [intros [Hd%elem_of_nil|H]; naive_solver|].
      intros (c' & ds' & [->|Hc] & Hs & He & Hd); [congruence|right; eauto 10].
Qed.

(** The component has an object. *)
Definition live (cl : cluster) (c : component) : Prop := is_Some (objs cl (c_kind c) (c_name c)).

Lemma emit_live vs cl c ds :
  live cl c → served_some (c_kind c) (crds cl) → emit vs cl c = Rendered ds →
  ∃ d, d ∈ ds ∧ d_kind d = c_kind c ∧ d_name d = c_name c.
Proof.
  intros [o Ho] Hs. unfold Umbrella.emit, osh_exists, emitVersion, originVersion.
  rewrite !get_object_served by (done || apply osh_version_ne). cbn. rewrite Ho. intros H.
  render_inv H. injection H as <-. rewrite resolve_served by (done || apply osh_version_ne).
  rewrite orb_true_r. eexists. split; [left|done].
Qed.

Lemma emit_all_Rendered vs cl sel cs ds c :
  emit_all vs cl sel cs = Rendered ds → c ∈ cs → has (c_name c) sel = true →
  ∃ ds', emit vs cl c = Rendered ds'.
Proof.
  revert ds. induction cs as [|c' cs IH]; intros ds H Hc Hs; [by apply elem_of_nil in Hc|].
  cbn [Umbrella.emit_all] in H. render_inv H. apply elem_of_cons in Hc as [->|Hc]; [|by eapply IH].
  rewrite Hs in Ha. eauto.
Qed.

Lemma render_Rendered vs cl ds :
  render vs cl = Rendered ds → emit_all vs cl (sel_list vs) (components vs) = Rendered ds.
Proof. unfold Umbrella.render. intros H. by render_inv H. Qed.

Lemma render_live vs cl ds c :
  render vs cl = Rendered ds → c ∈ components vs → has (c_name c) (sel_list vs) = true →
  live cl c → served_some (c_kind c) (crds cl) →
  (c_kind c, c_name c) ∈ map (λ d, (d_kind d, d_name d)) ds.
Proof.
  intros H Hc Hs Hl Hv. apply render_Rendered in H.
  destruct (emit_all_Rendered _ _ _ _ _ _ H Hc Hs) as [ds' He].
  destruct (emit_live _ _ _ _ Hl Hv He) as (d & Hd & Hk & Hn).
  apply list_elem_of_fmap. exists d. split; [congruence|].
  apply (emit_all_elem _ _ _ _ _ _ H). eauto 10.
Qed.

(** C4: a render never looks an object up at a version its kind is not served at, whatever the
    values and the cluster, and every document it emits is that of a selected component, at a
    version the cluster serves. *)
Theorem render_served vs cl :
  (∀ v k, render vs cl ≠ RenderError (NoMatches v k)) ∧
  (∀ ds d, render vs cl = Rendered ds → d ∈ ds →
     ∃ c v, c ∈ components vs ∧ has (c_name c) (sel_list vs) = true ∧
       d_kind d = c_kind c ∧ d_name d = c_name c ∧ d_apiVersion d = apiVersionAt v ∧
       crdExists (c_kind c) v (crds cl) = true).
Proof.
  split.
  - change (no_match (render vs cl)). unfold Umbrella.render. apply no_match_bind.
    + apply no_match_require.
    + intros u. apply no_match_emit_all.
  - intros ds d H Hd. apply render_Rendered in H.
    apply (emit_all_elem _ _ _ _ _ _ H) in Hd as (c & ds' & Hc & Hs & He & Hd).
    destruct (emit_elem _ _ _ _ _ He Hd) as (v & H1 & H2 & H3 & H4). exists c, v. done.
Qed.

(** ** Upgrades *)

Definition key : Type := string * string.
Definition objects : Type := string → string → option obj.

(** What an upgrade of the release does to the objects, given the documents of the release before
    and those of the new render. *)
Context (helm : list key → list key → objects → objects → Prop).

(** Helm removes an object only when it leaves the release. *)
Definition helm_keeps : Prop := ∀ old new o o' k n,
  helm old new o o' → (k, n) ∈ new → is_Some (o k n) → is_Some (o' k n).

Record world := { w_values : values; w_cluster : cluster; w_release : list key }.

Definition with_objs (cl : cluster) (o : objects) : cluster :=
  {| crds := crds cl; objs := o; reader_role := reader_role cl;
     reader_binding := reader_binding cl; node_list := node_list cl |}.

Definition keys (ds : list doc) : list key := map (λ d, (d_kind d, d_name d)) ds.

(** Either the release is upgraded to what a render emits, or something else happens: another
    chart version or other values, CRDs whose versions come and go, objects created and their
    status written, anything but the deletion of an object. *)
Inductive step : world → world → Prop :=
  | Upgrade w ds o :
      render (w_values w) (w_cluster w) = Rendered ds →
      helm (w_release w) (keys ds) (objs (w_cluster w)) o →
      step w {| w_values := w_values w; w_cluster := with_objs (w_cluster w) o; w_release := keys ds |}
  | Environment w vs cl :
      (∀ k n, is_Some (objs (w_cluster w) k n) → is_Some (objs cl k n)) →
      step w {| w_values := vs; w_cluster := cl; w_release := w_release w |}.

(** The component stays selected, and some version of its kind stays served. *)
Definition wanted (c : component) (w : world) : Prop :=
  c ∈ components (w_values w) ∧ has (c_name c) (sel_list (w_values w)) = true ∧
  served_some (c_kind c) (crds (w_cluster w)).

Lemma step_live c w w' :
  helm_keeps → step w w' → wanted c w → live (w_cluster w) c → live (w_cluster w') c.
Proof.
  intros Hk [w0 ds o Hr Hh|w0 vs cl He] (Hc & Hs & Hv) Hl; [|by apply He].
  unfold live, with_objs. cbn. eapply Hk; [done| |done]. by eapply render_live.
Qed.

(** C1: through any sequence of upgrades and other events, chart bumps at which the chart's own
    version is not served among them, a live component that stays selected and keeps some served
    version is never removed by an upgrade of the umbrella. *)
Theorem never_pruned c w w' :
  helm_keeps → wanted c w → live (w_cluster w) c →
  rtc (λ a b, step a b ∧ wanted c b) w w' → live (w_cluster w') c.
Proof.
  intros Hk Hw Hl Hr. revert Hw Hl. induction Hr as [w|w w1 w' [Hs Hw1] Hr IH]; [done|].
  intros Hw Hl. apply IH; [done|]. by eapply step_live.
Qed.
End Runs.

(** ** Selection *)

Definition dep_of (comps : list component) (x y : string) : Prop :=
  ∃ c, c ∈ comps ∧ c_name c = x ∧ y ∈ c_deps c.

Lemma expand_cons c comps sel :
  expand (c :: comps) sel
  = expand comps (if decide (c_name c ∈ sel) then sel ∪ list_to_set (c_deps c) else sel).
Proof. done. Qed.

Lemma expand_mono comps sel : sel ⊆ expand comps sel.
Proof.
  revert sel. induction comps as [|c comps IH]; intros sel; [done|]. rewrite expand_cons.
  destruct (decide (c_name c ∈ sel)); [|apply IH]. etransitivity; [|apply IH]. set_solver.
Qed.

Lemma expand_adds comps sel x y : dep_of comps x y → x ∈ sel → y ∈ expand comps sel.
Proof.
  intros (c & Hc & <- & Hy). revert sel. induction comps as [|c' comps IH]; intros sel Hx;
    [by apply elem_of_nil in Hc|].
  rewrite expand_cons. apply elem_of_cons in Hc as [<-|Hc].
  - rewrite decide_True by done. apply expand_mono. set_solver.
  - apply IH; [done|]. destruct (decide (c_name c' ∈ sel)); set_solver.
Qed.

Lemma expand_sound comps sel x :
  x ∈ expand comps sel → ∃ e, e ∈ sel ∧ rtc (dep_of comps) e x.
Proof.
  assert (H : ∀ cs, (∀ c, c ∈ cs → c ∈ comps) → ∀ sel, x ∈ expand cs sel →
    ∃ e, e ∈ sel ∧ rtc (dep_of comps) e x); [|by apply H].
  intros cs. induction cs as [|c cs IH]; intros Hcs s Hx; [by exists x|].
  rewrite expand_cons in Hx. apply IH in Hx as (e & He & Hr); [|intros; apply Hcs; by right].
  destruct (decide (c_name c ∈ s)); [|by exists e].
  apply elem_of_union in He as [He|He]; [by exists e|]. exists (c_name c). split; [done|].
  eapply rtc_l; [|done]. exists c. split; [apply Hcs; by left|]. set_solver.
Qed.

Lemma iter_sound comps n sel x :
  x ∈ Nat.iter n (expand comps) sel → ∃ e, e ∈ sel ∧ rtc (dep_of comps) e x.
Proof.
  revert x. induction n as [|n IH]; intros x; [by exists x|]. cbn [Nat.iter nat_rect].
  intros (y & Hy & Hr)%expand_sound. apply IH in Hy as (e & He & Hr'). exists e.
  split; [done|by etransitivity].
Qed.

Lemma iter_complete comps k n sel e x :
  nsteps (dep_of comps) k e x → (k ≤ n)%nat → e ∈ sel → x ∈ Nat.iter n (expand comps) sel.
Proof.
  revert n x. induction k as [|k IH]; intros n x Hk Hn He.
  - inversion Hk; subst. clear Hn. induction n as [|n IHn]; [done|]. by apply expand_mono.
  - apply nsteps_inv_r in Hk as (y & Hk & Hy). destruct n as [|n]; [lia|]. cbn [Nat.iter nat_rect].
    eapply expand_adds; [done|]. apply IH; [done|lia|done].
Qed.

(** A name that the space-joined selection can carry. *)
Definition word (w : string) : Prop := all_chars (λ d, negb (Ascii.eqb " " d)) w = true.

Lemma has_spec x l : has x l = true ↔ x ∈ l.
Proof.
  unfold has. rewrite existsb_exists, list_elem_of_In. split.
  - by intros (y & Hy & <-%String.eqb_eq).
  - intros H. exists x. by rewrite String.eqb_refl.
Qed.

Lemma sel_list_spec vs x :
  selection vs ≠ ∅ → (∀ y, y ∈ selection vs → word y) →
  has x (sel_list vs) = true ↔ x ∈ selection vs.
Proof.
  intros Hne Hw. unfold sel_list, selected. rewrite split_on_concat_words, has_spec.
  - by rewrite elem_of_sorted_strs, elem_of_elements.
  - unfold sorted_strs. rewrite isort_nil. intros H%elements_empty_inv. by apply Hne, leibniz_equiv.
  - apply Forall_forall. intros y. rewrite elem_of_sorted_strs, elem_of_elements. apply Hw.
Qed.

(** C23: an explicit selection holds every component within eight dependency steps of an enabled
    one and nothing that is not reachable from one, so for a dependency graph no chain of which is
    longer it is exactly the closure; what the templates look names up in is that set. *)
Theorem selection_closure vs x :
  enabled vs ≠ [] →
  (∀ e k, e ∈ enabled vs → nsteps (dep_of (components vs)) k e x → (k ≤ 8)%nat → x ∈ selection vs) ∧
  (x ∈ selection vs → ∃ e, e ∈ enabled vs ∧ rtc (dep_of (components vs)) e x) ∧
  ((∀ y, y ∈ selection vs → word y) → has x (sel_list vs) = true ↔ x ∈ selection vs).
Proof.
  intros He. split; [|split].
  - intros e k Hin Hk Hle. unfold selection. destruct (enabled vs) as [|e0 es] eqn:E; [done|].
    rewrite <- E in *. eapply iter_complete; [done|done|]. by apply elem_of_list_to_set.
  - unfold selection. destruct (enabled vs) as [|e0 es] eqn:E; [done|]. rewrite <- E in *.
    intros (e & Hin & Hr)%iter_sound. exists e. by apply elem_of_list_to_set in Hin.
  - apply sel_list_spec. destruct (enabled vs) as [|e0 es] eqn:E; [done|].
    assert (H : e0 ∈ selection vs); [|set_solver].
    unfold selection. rewrite E. eapply (iter_complete _ 0); [constructor|lia|].
    apply elem_of_list_to_set. left.
Qed.

(** ** Installation *)

Section Install.
Context (semverCompare : string → string → bool) (vs : values).

(** A controller has reported the object ready and nobody has paused it. *)
Definition settled (cl : cluster) (kind name : string) : Prop :=
  ∃ o cs, objs cl kind name = Some o ∧ status o = Some cs ∧
    existsb is_ready cs = true ∧ existsb is_paused cs = false.

Definition chosen (c : component) : Prop :=
  c ∈ components vs ∧ has (c_name c) (sel_list vs) = true.

(** One round: a render, and time for the controllers to settle what it emitted. *)
Definition round (cl cl' : cluster) : Prop :=
  ∃ ds, render semverCompare vs cl = Rendered ds ∧ ∀ d, d ∈ ds → settled cl' (d_kind d) (d_name d).

Definition serves_current (cl : cluster) : Prop :=
  ∀ c, c ∈ components vs → crdExists (c_kind c) (osh_version vs) (crds cl) = true.

(** The names are distinct words, and a selected component's dependencies are selected. *)
Definition well_formed : Prop :=
  NoDup (map c_name (components vs)) ∧
  (∀ c d, c ∈ components vs → d ∈ c_deps c → word d ∧ d ≠ "") ∧
  (∀ c d, chosen c → d ∈ c_deps c → has d (sel_list vs) = true).

(** The catalogue the component gate read is that of the values. *)
Definition same_catalogue (comps : gmap string ComponentDag.component) : Prop :=
  (∀ c, c ∈ components vs → ∃ k, comps !! c_name c = Some k) ∧
  (∀ n k, comps !! n = Some k →
     ∃ c, c ∈ components vs ∧ c_name c = n ∧ ComponentDag.c_deps k = c_deps c).

Lemma kind_of_notin cs k d :
  d ∉ map c_name cs → foldl (λ k c, if String.eqb (c_name c) d then c_kind c else k) k cs = k.
Proof.
  revert k. induction cs as [|c cs IH]; intros k H; [done|]. cbn [map foldl] in *.
  destruct (String.eqb_spec (c_name c) d); [set_solver|]. apply IH. set_solver.
Qed.

Lemma kind_of_component cs c :
  NoDup (map c_name cs) → c ∈ cs → kind_of cs (c_name c) = c_kind c.
Proof.
  unfold kind_of. generalize "". induction cs as [|c' cs IH]; intros k Hn Hc; [by apply elem_of_nil in Hc|].
  cbn [map] in Hn. apply NoDup_cons in Hn as [Hnot Hn]. cbn [foldl].
  apply elem_of_cons in Hc as [->|Hc]; [|by apply IH].
  rewrite String.eqb_refl. by apply kind_of_notin.
Qed.

Lemma uniq_from_elem seen l x : x ∈ uniq_from seen l → x ∈ l.
Proof.
  revert seen. induction l as [|y l IH]; intros seen; cbn [uniq_from]; [done|].
  destruct (has y seen); [intros H%IH; by right|].
  intros [->|H%IH]%elem_of_cons; [by left|by right].
Qed.

Lemma compact_elem l x : x ∈ compact l ↔ x ∈ l ∧ x ≠ "".
Proof.
  unfold compact. rewrite !list_elem_of_In, filter_In, negb_true_iff, String.eqb_neq. done.
Qed.

Lemma relaxed_elem name deps d :
  (∀ d, d ∈ deps → word d) →
  d ∈ compact (split_on " " (depsRelaxed vs name deps)) → d ∈ deps.
Proof.
  intros Hw [Hd Hne]%compact_elem. unfold depsRelaxed in Hd.
  set (l := concat _) in Hd.
  assert (Hl : ∀ x, x ∈ uniq l → x ∈ deps).
  { intros x Hx%uniq_from_elem. unfold l in Hx. apply list_elem_of_In, in_concat in Hx as (k & Hk & Hx).
    apply in_map_iff in Hk as (y & <- & Hy). apply in_concat in Hx as (k & Hk & Hx).
    apply in_map_iff in Hk as (r & <- & _). destruct (_ && _); [|done].
    destruct Hx as [<-|[]]. by apply list_elem_of_In. }
  destruct (uniq l) as [|y ys] eqn:E.
  - cbn in Hd. apply list_elem_of_singleton in Hd. done.
  - rewrite split_on_concat_words in Hd; [by apply Hl|done|].
    apply Forall_forall. intros x Hx. by apply Hw, Hl.
Qed.

Lemma all_true f l : (∀ d, d ∈ l → f d = Rendered true) → all_ f l = Rendered true.
Proof.
  induction l as [|d l IH]; intros H; [done|]. cbn [all_]. rewrite H by left.
  rewrite IH by (intros; apply H; by right). done.
Qed.

(** A component whose dependencies are settled is emitted. *)
Lemma emit_settled cl c ds :
  well_formed → serves_current cl → chosen c →
  (∀ d, d ∈ c_deps c → ∃ c', chosen c' ∧ c_name c' = d ∧ settled cl (c_kind c') d) →
  emit semverCompare vs cl c = Rendered ds →
  ∃ d, d ∈ ds ∧ d_kind d = c_kind c ∧ d_name d = c_name c.
Proof.
  intros (Hn & Hw & _) Hv [Hc _] Hd. unfold emit. pose proof (osh_version_ne vs) as Hne.
  assert (Hsome : ∀ c', c' ∈ components vs → served_some (c_kind c') (crds cl)).
  { intros c' Hc'. exists (osh_version vs). split; [done|]. by apply crdExists_spec, Hv. }
  assert (Hget : ∀ d, d ∈ c_deps c → ∃ o cs,
    get_object semverCompare (osh_version vs) cl (kind_of (components vs) d) d = Rendered (Some o) ∧
    status o = Some cs ∧ existsb is_ready cs = true ∧ existsb is_paused cs = false).
  { intros d H. destruct (Hd d H) as (c' & [Hc' _] & <- & o & cs & Ho & Hst).
    exists o, cs. rewrite kind_of_component, get_object_served by auto. by rewrite Ho. }
  assert (Hr : ∀ d, d ∈ c_deps c →
    ready semverCompare (osh_version vs) cl (kind_of (components vs) d) d = Rendered true).
  { intros d (o & cs & H1 & H2 & H3 & _)%Hget. unfold ready. rewrite H1. cbn. rewrite H2. cbn. by rewrite H3. }
  intros H. render_inv H. injection H as <-.
  unfold depsReady in Ha1. rewrite (all_true _ _) in Ha1.
  2: { intros d Hin. apply Hr. apply list_elem_of_In, filter_In in Hin as [Hin _]. by apply list_elem_of_In. }
  injection Ha1 as <-. unfold depsExist in Ha2. rewrite (all_true _ _) in Ha2.
  2: { intros d Hin. apply relaxed_elem in Hin; [|by intros; apply (Hw c)].
       destruct (Hget d Hin) as (o & cs & H1 & H2 & _ & H4).
       unfold osh_exists, paused. rewrite H1. cbn. rewrite H2. cbn. by rewrite H4. }
  injection Ha2 as <-. unfold emitVersion in Ha0. render_inv Ha0. injection Ha0 as <-.
  rewrite resolve_current_served by by apply Hv. eexists. split; [left|done].
Qed.

(** Eventually and from then on. *)
Definition eventually (P : nat → Prop) : Prop := ∃ n, ∀ m, (n ≤ m)%nat → P m.

Lemma eventually_list {A} (P : A → nat → Prop) (l : list A) :
  (∀ x, x ∈ l → eventually (P x)) → eventually (λ m, ∀ x, x ∈ l → P x m).
Proof.
  induction l as [|x l IH]; intros H.
  - exists O. intros m _ x Hx. by apply elem_of_nil in Hx.
  - destruct (H x ltac:(left)) as [n1 H1]. destruct IH as [n2 H2]; [intros; apply H; by right|].
    exists (max n1 n2). intros m Hm y [->|Hy]%elem_of_cons; [apply H1; lia|apply H2; [lia|done]].
Qed.

Context (comps : gmap string ComponentDag.component) (run : nat → cluster).

Lemma settles_one :
  well_formed → same_catalogue comps →
  (∀ i, serves_current (run i)) → (∀ i, round (run i) (run (S i))) →
  ∀ n, ComponentDag.emitted comps n →
  ∀ c, chosen c → c_name c = n → eventually (λ m, settled (run m) (c_kind c) (c_name c)).
Proof.
  intros Hwf [_ Hcat] Hserve Hround n He. induction He as [n k Hk Hem IH]. intros c Hc <-.
  destruct (Hcat _ _ Hk) as (c0 & Hc0 & Hname & Hdeps).
  assert (c0 = c) as ->.
  { destruct Hwf as (Hn & _). apply list_elem_of_lookup in Hc0 as [i Hi].
    destruct Hc as [Hc _]. apply list_elem_of_lookup in Hc as [j Hj].
    assert (i = j) as ->; [|congruence]. eapply (NoDup_lookup (map c_name (components vs))); [done| |].
    - rewrite list_lookup_fmap, Hi. done.
    - rewrite list_lookup_fmap, Hj. cbn. by f_equal. }
  rewrite Hdeps in IH, Hem.
  assert (Hdep : eventually (λ m, ∀ d, d ∈ c_deps c →
            ∃ c', chosen c' ∧ c_name c' = d ∧ settled (run m) (c_kind c') d)).
  { apply (eventually_list (λ d m, ∃ c', chosen c' ∧ c_name c' = d ∧ settled (run m) (c_kind c') d)).
    intros d Hd. assert (Hsel : has d (sel_list vs) = true) by by apply (proj2 (proj2 Hwf) c).
    assert (Hdec : ∃ kd, comps !! d = Some kd).
    { destruct (Hem d Hd) as [d kd Hkd _]. eauto. }
    destruct Hdec as [kd Hkd]. destruct (Hcat _ _ Hkd) as (c' & Hc' & Hn' & _).
    destruct (IH d Hd c') as [n Hev]; [by split; [|rewrite Hn']|done|].
    exists n. intros m Hm. exists c'. rewrite <- Hn'. split; [by split; [|rewrite Hn']|].
    split; [done|by apply Hev]. }
  destruct Hdep as [n Hn]. exists (S n). intros [|m] Hm; [lia|].
  destruct (Hround m) as (ds & Hr & Hst).
  apply render_Rendered in Hr as Hall.
  destruct (emit_all_Rendered _ _ _ _ _ _ c Hall) as [ds' He]; [by destruct Hc..|].
  destruct (emit_settled (run m) c ds') as (d & Hd & Hdk & Hdn); [done..|apply Hn; lia|done|].
  rewrite <- Hdk, <- Hdn. apply Hst, (emit_all_elem _ _ _ _ _ _ _ Hall).
  exists c, ds'. destruct Hc as [Hc1 Hc2]. done.
Qed.

(** C2: when the component gate finds the catalogue closed and acyclic, an installation completes:
    if each round renders and the controllers settle what it emitted, and the CRDs serve the
    chart's version, there is a round from which on every selected component exists and is ready. *)
Theorem install_completes :
  well_formed → same_catalogue comps →
  ComponentDag.missing_deps comps = [] → ComponentDag.find_cycles (S (size comps)) comps = Ok [] →
  (∀ i, serves_current (run i)) → (∀ i, round (run i) (run (S i))) →
  ∃ n, ∀ m, (n ≤ m)%nat → ∀ c, chosen c → settled (run m) (c_kind c) (c_name c).
Proof.
  intros Hwf Hcat Hm Hc Hs Hr.
  pose proof (proj1 (ComponentDag.silent_iff_all_emitted_aux comps (S (size comps)) ltac:(lia))
    (conj Hm Hc)) as Hem.
  destruct (eventually_list (λ c m, chosen c → settled (run m) (c_kind c) (c_name c)) (components vs))
    as [n Hn].
  - intros c Hin. destruct (decide (has (c_name c) (sel_list vs) = true)) as [Hsel|Hsel].
    + destruct (settles_one Hwf Hcat Hs Hr (c_name c)) with (c := c) as [n Hn]; [|done..|].
      * apply Hem. destruct (proj1 Hcat c Hin) as [k Hk]. by apply elem_of_dom_2 in Hk.
      * exists n. auto.
    + exists O. by intros m _ [_ H].
  - exists n. intros m Hle c Hch. apply (Hn m Hle c); [by destruct Hch|done].
Qed.
End Install.

(** ** Concrete clusters *)

Definition sample_component (name kind tier : string) (deps : list string) : component :=
  {| c_name := name; c_kind := kind; c_tier := tier; c_deps := deps; c_requiresProvisioning := false |}.
Definition nova : component := sample_component "nova" "Nova" "compute" ["keystone"; "neutron"].
Definition neutron : component := sample_component "neutron" "Neutron" "compute" ["keystone"].
Definition keystone : component := sample_component "keystone" "Keystone" "identity" [].
Definition catalogue : list component := [nova; neutron; keystone].

Definition sample_values (chart : string) (en : list string) : values :=
  {| chartVersion := chart; namespace := "openstack"; components := catalogue; enabled := en;
     profile := "full"; dependencyRelaxations := [{| r_component := "nova"; r_dependency := "neutron" |}];
     nodeLabelPreconditions := []; componentValues := [] |}.

Definition working : obj :=
  {| annotations := [];
     status := Some [{| co_type := "Ready"; co_status := "True"; co_reason := "Available" |}] |}.

(** The components with these names exist and are ready; each kind serves these versions. *)
Definition sample_cluster (served : list (string * bool)) (names : list string) : cluster :=
  {| crds := map (λ k, composition k served) ["Nova"; "Neutron"; "Keystone"];
     objs := λ kind name, if has name names then Some working else None;
     reader_role := None; reader_binding := None; node_list := [] |}.

(** Helm as it is documented: what left the release goes, what joined it is created. *)
Definition helm_upgrade (old new : list key) (o : objects) : objects := λ k n,
  if existsb (λ '(k', n'), String.eqb k' k && String.eqb n' n) new
  then Some (default working (o k n))
  else if existsb (λ '(k', n'), String.eqb k' k && String.eqb n' n) old then None else o k n.

Lemma helm_upgrade_keeps : helm_keeps (λ old new o o', o' = helm_upgrade old new o).
Proof.
  intros old new o o' k n -> Hin _. unfold helm_upgrade.
  replace (existsb _ new) with true; [eauto|]. symmetry. apply existsb_exists. exists (k, n).
  split; [by apply list_elem_of_In|]. by rewrite !String.eqb_refl.
Qed.

Definition before_bump : world :=
  {| w_values := sample_values "0.3.32" []; w_cluster := sample_cluster [("v0-3-32", true)] ["keystone"];
     w_release := [("Keystone", "keystone")] |}.
(** The chart is at 0.3.33, which nothing serves yet. *)
Definition bump_instant : world :=
  {| w_values := sample_values "0.3.33" []; w_cluster := w_cluster before_bump;
     w_release := w_release before_bump |}.
Definition bump_docs : list doc :=
  [{| d_apiVersion := "composition.krateo.io/v0-3-32"; d_kind := "Keystone"; d_name := "keystone";
      d_spec := [] |}].
Definition after_bump : world :=
  {| w_values := w_values bump_instant;
     w_cluster := with_objs (w_cluster bump_instant)
       (helm_upgrade (w_release bump_instant) (keys bump_docs) (objs (w_cluster bump_instant)));
     w_release := keys bump_docs |}.

Lemma keystone_wanted w :
  components (w_values w) = catalogue → has "keystone" (sel_list (w_values w)) = true →
  crds (w_cluster w) = crds (w_cluster before_bump) → wanted keystone w.
Proof.
  intros H1 H2 H3. split; [rewrite H1; do 2 right; left|]. split; [done|]. rewrite H3.
  exists "v0-3-32". split; [done|]. vm_compute. left.
Qed.

Lemma never_pruned_witness :
  render semver_gt (w_values bump_instant) (w_cluster bump_instant) = Rendered bump_docs ∧
  live (w_cluster after_bump) keystone.
Proof.
  split; [vm_compute; reflexivity|].
  refine (never_pruned semver_gt (λ old new o o', o' = helm_upgrade old new o) keystone
    before_bump after_bump helm_upgrade_keeps
    (keystone_wanted before_bump eq_refl ltac:(vm_compute; reflexivity) eq_refl)
    ltac:(vm_compute; eauto) _).
  eapply rtc_l; [|apply rtc_once].
  - split; [exact (Environment _ _ before_bump (sample_values "0.3.33" []) (w_cluster before_bump)
                     (λ k n H, H))|].
    exact (keystone_wanted bump_instant eq_refl ltac:(vm_compute; reflexivity) eq_refl).
  - split; [exact (Upgrade semver_gt _ bump_instant bump_docs _ ltac:(vm_compute; reflexivity) eq_refl)|].
    exact (keystone_wanted after_bump eq_refl ltac:(vm_compute; reflexivity) eq_refl).
Defined.

Lemma selection_closure_witness :
  sel_list (sample_values "0.3.33" ["nova"]) = ["keystone"; "neutron"; "nova"] ∧
  let vs := sample_values "0.3.33" ["nova"] in
  (∀ e k, e ∈ enabled vs → nsteps (dep_of (components vs)) k e "keystone" → (k ≤ 8)%nat →
     "keystone" ∈ selection vs) ∧
  ("keystone" ∈ selection vs → ∃ e, e ∈ enabled vs ∧ rtc (dep_of (components vs)) e "keystone") ∧
  ((∀ y, y ∈ selection vs → word y) → has "keystone" (sel_list vs) = true ↔ "keystone" ∈ selection vs).
Proof.
  split; [vm_compute; reflexivity|].
  exact (selection_closure (sample_values "0.3.33" ["nova"]) "keystone" ltac:(discriminate)).
Defined.

(** An installation in three rounds. *)
Definition install (i : nat) : cluster :=
  sample_cluster [("v0-3-33", true)] (firstn i ["keystone"; "neutron"; "nova"]).

Definition gate_catalogue : gmap string ComponentDag.component :=
  {[ "nova" := ComponentDag.Component (VStr "Nova") ["keystone"; "neutron"] "compute";
     "neutron" := ComponentDag.Component (VStr "Neutron") ["keystone"] "compute";
     "keystone" := ComponentDag.Component (VStr "Keystone") [] "identity" ]}.

Definition round_ok (i : nat) : bool :=
  match render semver_gt (sample_values "0.3.33" []) (install i) with
  | Rendered ds =>
      forallb (λ d, has (d_name d) (firstn (S i) ["keystone"; "neutron"; "nova"])) ds
  | RenderError _ => false
  end.

Lemma round_ok_sound i :
  round_ok i = true → round semver_gt (sample_values "0.3.33" []) (install i) (install (S i)).
Proof.
  unfold round_ok.
  destruct (render semver_gt (sample_values "0.3.33" []) (install i)) as [ds|] eqn:E; [|done].
  rewrite forallb_forall. intros H. exists ds. split; [done|]. intros d Hin. exists working, (default [] (status working)).
  cbn [install objs sample_cluster]. rewrite (H d) by by apply list_elem_of_In.
  repeat split; reflexivity.
Qed.

Lemma install_round i : round semver_gt (sample_values "0.3.33" []) (install i) (install (S i)).
Proof.
  assert (Hi : ∀ j, install (3 + j) = install 3).
  { intros j. unfold install. cbn [Nat.add firstn]. by rewrite firstn_nil. }
  destruct i as [|[|[|i]]]; [apply round_ok_sound; vm_compute; reflexivity..|].
  change (S (S (S i))) with (3 + i)%nat. change (S (3 + i)) with (3 + S i)%nat. rewrite (Hi i), (Hi (S i)). rewrite <- (Hi 1) at 2. exact (round_ok_sound 3 ltac:(vm_compute; reflexivity)).
Qed.

Lemma sample_well_formed : well_formed (sample_values "0.3.33" []).
Proof.
  split; [|split].
  - apply (bool_decide_unpack _). vm_compute. exact I.
  - intros c d Hc Hd. cbn in Hc. repeat (apply elem_of_cons in Hc as [->|Hc];
      [cbn in Hd; repeat (apply elem_of_cons in Hd as [->|Hd]; [by split|]); by apply elem_of_nil in Hd|]).
    by apply elem_of_nil in Hc.
  - intros c d [Hc _] Hd. cbn [sample_values components catalogue] in Hc.
    repeat (apply elem_of_cons in Hc as [->|Hc];
      [cbn [c_deps] in Hd; repeat (apply elem_of_cons in Hd as [->|Hd]; [vm_compute; reflexivity|]);
       by apply elem_of_nil in Hd|]).
    by apply elem_of_nil in Hc.
Qed.

Lemma sample_same_catalogue : same_catalogue (sample_values "0.3.33" []) gate_catalogue.
Proof.
  split.
  - intros c Hc. cbn [sample_values components catalogue] in Hc.
    repeat (apply elem_of_cons in Hc as [->|Hc]; [eexists; reflexivity|]). by apply elem_of_nil in Hc.
  - intros n k Hk. unfold gate_catalogue in Hk.
    apply lookup_insert_Some in Hk as [[<- <-]|[_ Hk]]; [exists nova; split; [left|done]|].
    apply lookup_insert_Some in Hk as [[<- <-]|[_ Hk]]; [exists neutron; split; [right; left|done]|].
    apply lookup_singleton_Some in Hk as [<- <-]. exists keystone. split; [do 2 right; left|done].
Qed.

Lemma install_completes_witness :
  ∃ n, ∀ m, (n ≤ m)%nat → ∀ c, chosen (sample_values "0.3.33" []) c →
    settled (install m) (c_kind c) (c_name c).
Proof.
  refine (install_completes semver_gt (sample_values "0.3.33" []) gate_catalogue install
    sample_well_formed sample_same_catalogue ltac:(vm_compute; reflexivity)
    ltac:(vm_compute; reflexivity) _ install_round).
  intros i c Hc. cbn [sample_values components catalogue] in Hc.
  repeat (apply elem_of_cons in Hc as [->|Hc]; [vm_compute; reflexivity|]). by apply elem_of_nil in Hc.
Defined.

(** A dependency whose object has no status yet stops the render of the whole chart. *)
Example fresh_dependency :
  render semver_gt (sample_values "0.3.33" [])
    {| crds := crds (install 1);
       objs := λ _ name, if String.eqb name "keystone" then Some {| annotations := []; status := None |} else None;
       reader_role := None; reader_binding := None; node_list := [] |} = RenderError NilPointer.
Proof. vm_compute. reflexivity. Qed.
End UmbrellaRuns.
