(* ===== verification/UmbrellaManifests.v ===== *)
(** * The umbrella's other manifests

    templates/definitions.yaml, capability-clusterroles.yaml, capability-abac-policies.yaml,
    node-preconditions-state.yaml and service-descriptor.yaml of the umbrella chart: what they emit
    for the chart's values, what an API server that keeps to its documentation decides with it, and
    how it agrees with what compositions.yaml does (Umbrella). *)
From S2P Require Import Prelude PyStr PyVal Umbrella UmbrellaFacts UmbrellaRuns.
#[local] Open Scope string_scope.
#[local] Open Scope list_scope.

Module UmbrellaManifests.
Import Umbrella.Umbrella UmbrellaFacts.UmbrellaFacts UmbrellaRuns.UmbrellaRuns.

(** ** Capabilities

    An entry of [serviceContract.capabilities]; a text that is not set is empty. *)
Record abac := { celExpression : string; message : string }.
Record capability := {
  cap_name : string; title : string; description : string; enforcement : string;
  requiresAcr : string; crossOrgRole : string; aggregateTo : list string;
  cap_rules : list rule; cap_abac : option abac;
}.

Record cluster_role := {
  cr_name : string; cr_labels : list (string * string); cr_annotations : list (string * string);
  cr_rules : list rule;
}.

Definition with_ {A} (x : string) (l : list A) : list A := if String.eqb x "" then [] else l.
Definition full_name (service : string) (c : capability) : string := service +:+ "-" +:+ cap_name c.

(** capability-clusterroles.yaml *)
Definition clusterrole (service release : string) (c : capability) : cluster_role :=
  {| cr_name := full_name service c;
     cr_labels := [("krateo.io/capability", "true"); ("krateo.io/capability-id", full_name service c);
                   ("app.kubernetes.io/name", service); ("app.kubernetes.io/managed-by", release)]
       ++ map (λ r, ("rbac.krateo.io/aggregate-to-" +:+ r, "true")) (aggregateTo c);
     cr_annotations := [("krateo.io/title", title c); ("krateo.io/enforcement", enforcement c)]
       ++ with_ (description c) [("krateo.io/description", description c)]
       ++ with_ (requiresAcr c) [("krateo.io/requires-acr", requiresAcr c)]
       ++ with_ (crossOrgRole c) [("krateo.io/cross-org-role", crossOrgRole c)];
     cr_rules := cap_rules c |}.
Definition capability_clusterroles (service release : string) (cs : list capability)
  : list cluster_role := map (clusterrole service release) cs.

(** capability-abac-policies.yaml *)
Record resource_rule := { rr_groups : list string; rr_operations : list string; rr_resources : list string }.
Record policy := {
  po_name : string; po_failurePolicy : string; po_rules : list resource_rule;
  po_expression : string; po_message : option string;
}.
Record policy_binding := { pb_name : string; pb_policy : string; pb_actions : list string }.

Definition operation (verb : string) : list string :=
  if String.eqb verb "create" then ["CREATE"]
  else if String.eqb verb "update" || String.eqb verb "patch" then ["UPDATE"]
  else if String.eqb verb "delete" then ["DELETE"] else [].
Definition operations (c : capability) : list string :=
  concat (map (λ r, concat (map operation (verbs r))) (cap_rules c)).

(** An expression of an [abac] that is not there is a nil pointer. *)
Definition policy_of (service : string) (c : capability) : rendered (list (policy * policy_binding)) :=
  if String.eqb (enforcement c) "abac" then
    match cap_abac c with
    | None => RenderError NilPointer
    | Some a =>
        mret [({| po_name := full_name service c; po_failurePolicy := "Fail";
                  po_rules := map (λ r, {| rr_groups := apiGroups r;
                    rr_operations := sorted_strs (uniq (operations c)); rr_resources := resources r |})
                    (cap_rules c);
                  po_expression := celExpression a;
                  po_message := if String.eqb (message a) "" then None else Some (message a) |},
               {| pb_name := full_name service c; pb_policy := full_name service c;
                  pb_actions := ["Deny"] |})]
    end
  else mret [].
Fixpoint capability_abac_policies (service : string) (cs : list capability)
  : rendered (list (policy * policy_binding)) :=
  match cs with
  | [] => mret []
  | c :: cs' =>
      let* ps := policy_of service c in
      let* ps' := capability_abac_policies service cs' in mret (ps ++ ps')
  end.

(** *** The API server

    A request for a resource, or for a subresource of it where that is not empty. *)
Record request := { rq_group : string; rq_resource : string; rq_subresource : string; rq_verb : string }.
Definition rq_full (q : request) : string :=
  if String.eqb (rq_subresource q) "" then rq_resource q else rq_resource q +:+ "/" +:+ rq_subresource q.
Definition rq_any (q : request) : string := "*/" +:+ rq_subresource q.

(** What the API server decides: whether a rule of a role permits a request, the operation that a
    request is admitted as, the requests that admission policies never apply to (those for the
    admission configuration and for reviews), whether a rule of a policy matches, the value of a
    CEL expression on the object ([None] is an error), and whether a request with its object is
    admitted under policies and their bindings. *)
Class ApiServer := {
  permits : rule → request → bool;
  operation_of : request → string;
  exempt : request → bool;
  matched : resource_rule → request → bool;
  cel : string → val → option bool;
  admits : list (policy * policy_binding) → request → val → bool;
}.

(** What its documentation says. RBAC: a star among the resources is every resource and subresource,
    and [*/scale] every subresource scale. Admission: a star among the resources is every resource
    and no subresource; a policy that is bound to deny and that matches lets a request pass where
    its expression is true, and with the failure policy Fail nowhere else. Policies have names of
    their own. *)
Class ApiLaws {S : ApiServer} : Prop := {
  permits_group r q : permits r q = true → rq_group q ∈ apiGroups r ∨ "*" ∈ apiGroups r;
  permits_resource r q : permits r q = true →
    rq_full q ∈ resources r ∨ "*" ∈ resources r ∨ rq_subresource q ≠ "" ∧ rq_any q ∈ resources r;
  operation_create q : rq_verb q = "create" → operation_of q = "CREATE";
  operation_update q : rq_verb q = "update" → operation_of q = "UPDATE";
  operation_patch q : rq_verb q = "patch" → operation_of q = "UPDATE";
  operation_delete q : rq_verb q = "delete" → operation_of q = "DELETE";
  matched_rule rr q : exempt q = false →
    rq_group q ∈ rr_groups rr ∨ "*" ∈ rr_groups rr →
    operation_of q ∈ rr_operations rr →
    rq_full q ∈ rr_resources rr ∨ rq_subresource q = "" ∧ "*" ∈ rr_resources rr ∨
      rq_subresource q ≠ "" ∧ rq_any q ∈ rr_resources rr →
    matched rr q = true;
  admits_denied ps q o p b rr : NoDup (map (po_name ∘ fst) ps) → admits ps q o = true →
    (p, b) ∈ ps → pb_policy b = po_name p → "Deny" ∈ pb_actions b → po_failurePolicy p = "Fail" →
    rr ∈ po_rules p → matched rr q = true → cel (po_expression p) o = Some true;
}.

(** ** definitions.yaml *)

Record definition := { df_name : string; df_namespace : string; df_url : string; df_version : string }.
Definition definitions (vs : values) (installDefinitions : bool) (ociRepo : string) : list definition :=
  if installDefinitions then
    map (λ c, {| df_name := c_name c; df_namespace := namespace vs;
                 df_url := ociRepo +:+ "/" +:+ c_name c; df_version := chartVersion vs |})
      (List.filter (λ c, has (c_name c) (sel_list vs)) (components vs))
  else [].

(** ** node-preconditions-state.yaml *)

Record node_state := { requiredNodeLabels : string; labelCommand : string; measured : bool }.
Definition node_preconditions_state (vs : values) (cl : cluster) : node_state :=
  let wanted := nodeLabelsWanted vs (sel_list vs) in
  {| requiredNodeLabels := wanted;
     labelCommand := "kubectl label --overwrite nodes --all " +:+ wanted;
     measured := nodeReadGranted vs cl |}.

(** ** service-descriptor.yaml: [yaml] is the contract as toYaml prints it. *)
Record descriptor := {
  de_name : string; de_labels : list (string * string); de_version : string; de_contract : string }.
Definition service_descriptor (service release version yaml : string) : descriptor :=
  {| de_name := service +:+ "-service-descriptor";
     de_labels := [("krateo.io/service-descriptor", "true"); ("app.kubernetes.io/name", service);
                   ("app.kubernetes.io/managed-by", release)];
     de_version := version; de_contract := yaml |}.

(** ** The compute tier's guard

    The expression of the shipped capability compute-tier-guard, in CEL's logic: a disjunction is
    true where a side is, whatever the other; the field of an object that lacks it is an error. *)
Definition cel_or (a b : option bool) : option bool :=
  match a, b with
  | Some true, _ | _, Some true => Some true
  | Some false, Some false => Some false
  | _, _ => None
  end.
Definition field (o : option val) (k : string) : option val :=
  match o with Some (VDict d) => assoc k d | _ => None end.
Definition has_field (o : option val) (k : string) : option bool :=
  match o with Some (VDict d) => Some (match assoc k d with Some _ => true | None => false end) | _ => None end.
Definition APPROVAL : string := "openstack.krateo.io/compute-approved".
Definition compute_guard (o : val) : option bool :=
  let spec := field (Some o) "spec" in
  cel_or
    (cel_or (negb <$> has_field spec "profile")
       (match field spec "profile" with
        | Some v => Some (negb (eq_str v "full"))
        | None => None
        end))
    (has_field (field (field (Some o) "metadata") "annotations") APPROVAL).

(** ** The admission of writes *)

Lemma uniq_from_complete seen l x : x ∈ l → x ∈ seen ∨ x ∈ uniq_from seen l.
Proof.
  revert seen. induction l as [|y l IH]; intros seen H; [by apply elem_of_nil in H|].
  cbn [uniq_from]. destruct (has y seen) eqn:Ey.
  - apply elem_of_cons in H as [->|H]; [left; by apply has_spec|auto].
  - apply elem_of_cons in H as [->|H]; [right; left|].
    destruct (IH (y :: seen) H) as [[->|?]%elem_of_cons|?]; [right; left|by left|by right; right].
Qed.

Lemma policies_elem service cs ps c :
  capability_abac_policies service cs = Rendered ps → c ∈ cs →
  ∃ ps', policy_of service c = Rendered ps' ∧ ps' ⊆ ps.
Proof.
  revert ps. induction cs as [|c' cs IH]; intros ps H Hc; [by apply elem_of_nil in Hc|].
  cbn [capability_abac_policies] in H. render_inv H. injection H as <-.
  apply elem_of_cons in Hc as [->|Hc]; [exists a; split; [done|set_solver]|].
  destruct (IH _ Ha0 Hc) as (ps' & Hp & Hs). exists ps'. split; [done|set_solver].
Qed.

(** The verbs of the template. *)
Definition WRITES : list string := ["create"; "update"; "patch"; "delete"].

Lemma operations_elem c r verb op :
  r ∈ cap_rules c → verb ∈ verbs r → op ∈ operation verb → op ∈ sorted_strs (uniq (operations c)).
Proof.
  intros Hr Hv Ho. apply elem_of_sorted_strs.
  destruct (uniq_from_complete [] (operations c) op) as [?%elem_of_nil|H]; [|done|done].
  unfold operations. apply list_elem_of_In, in_concat. exists (concat (map operation (verbs r))).
  split; [apply in_map_iff; exists r; split; [done|by apply list_elem_of_In]|].
  apply in_concat. exists (operation verb). split; [apply in_map, list_elem_of_In, Hv|].
  by apply list_elem_of_In.
Qed.

Lemma policy_of_names service c ps :
  policy_of service c = Rendered ps → map (po_name ∘ fst) ps ⊆ [full_name service c] ∧ NoDup (map (po_name ∘ fst) ps).
Proof.
  unfold policy_of. destruct (String.eqb _ _); [destruct (cap_abac c); [|done]|]; intros [= <-]; simpl.
  - split; [done|]. apply NoDup_singleton.
  - split; [set_solver|constructor].
Qed.

(** Capabilities of different names have policies of different names. *)
Lemma policies_names service cs ps :
  capability_abac_policies service cs = Rendered ps →
  map (po_name ∘ fst) ps ⊆ map (full_name service) cs ∧
  (NoDup (map cap_name cs) → NoDup (map (po_name ∘ fst) ps)).
Proof.
  revert ps. induction cs as [|c cs IH]; intros ps H; [injection H as <-; split; [done|constructor]|].
  cbn [capability_abac_policies] in H. render_inv H. injection H as <-.
  destruct (policy_of_names _ _ _ Ha) as [Hs Hn], (IH _ Ha0) as [Hs' Hn']. rewrite !map_app. split.
  - simpl. set_solver.
  - simpl. intros [Hc Hcs]%NoDup_cons. apply NoDup_app. split; [done|]. split; [|auto].
    intros x Hx%Hs Hx'%Hs'. apply list_elem_of_singleton in Hx as ->.
    apply list_elem_of_fmap in Hx' as (c' & Hf & Hin). apply Hc, list_elem_of_fmap. exists c'.
    split; [|done]. unfold full_name in Hf. by simplify_eq.
Qed.

Section Writes.
  Context `{HS : ApiLaws}.

Lemma write_operation q : rq_verb q ∈ WRITES → operation_of q ∈ operation (rq_verb q).
Proof.
  intros Hw. unfold WRITES in Hw. set_unfold in Hw. destruct_or! Hw; rewrite Hw; simpl; set_unfold;
    eauto using operation_create, operation_update, operation_patch, operation_delete.
Qed.

End Writes.

(** The shipped guard admits the compute tier without approval, where it is asked for by the
    profile full-strict or by the names of components. *)
Definition openstack (spec : list (string * val)) : val := VDict [("metadata", VDict []); ("spec", VDict spec)].
Lemma compute_tier_unguarded vs c : c ∈ components vs → c_requiresProvisioning c = false →
  (profile vs = "full-strict" → enabled vs = [] →
     c_name c ∈ selection vs ∧ compute_guard (openstack [("profile", VStr "full-strict")]) = Some true) ∧
  (enabled vs = [c_name c] →
     c_name c ∈ selection vs ∧
     compute_guard (openstack [("enabled", VList [VStr (c_name c)])]) = Some true).
Proof.
  intros Hc Hp. split.
  - intros Hprof He. split; [|done]. unfold selection. rewrite He, Hprof.
    apply elem_of_list_to_set, list_elem_of_In, in_map, filter_In. split; [by apply list_elem_of_In|].
    unfold in_profile. by rewrite Hp.
  - intros He. split; [|done]. unfold selection. rewrite He.
    assert (∀ n, c_name c ∈ Nat.iter n (expand (components vs)) (list_to_set [c_name c])) as H; [|apply H].
    induction n as [|n IH]; [set_solver|]. cbn [Nat.iter]. by apply expand_mono.
Qed.

(** An object that asks for the profile full is let in with the approval, and denied without. *)
Lemma compute_guard_full annotations :
  compute_guard (VDict [("metadata", VDict [("annotations", VDict annotations)]);
                        ("spec", VDict [("profile", VStr "full")])]) =
    Some (match assoc APPROVAL annotations with Some _ => true | None => false end).
Proof. unfold compute_guard. simpl. by destruct (assoc APPROVAL annotations). Qed.

(** ** The manifests and the render *)

Definition with_nodes (cl : cluster) (nodes : list (list (string * string))) : cluster :=
  {| crds := crds cl; objs := objs cl; reader_role := reader_role cl;
     reader_binding := reader_binding cl; node_list := nodes |}.

Section Agreement.
  Context (semverCompare : string → string → bool).

Lemma emit_all_nodes vs cl nodes sel cs :
  emit_all semverCompare vs (with_nodes cl nodes) sel cs = emit_all semverCompare vs cl sel cs.
Proof.
  induction cs as [|c cs IH]; [done|]. cbn [emit_all]. rewrite IH.
  by destruct (has (c_name c) sel).
Qed.

Lemma definitions_elem vs ociRepo c : c ∈ components vs → has (c_name c) (sel_list vs) = true →
  ∃ f, f ∈ definitions vs true ociRepo ∧ df_name f = c_name c ∧ df_version f = chartVersion vs.
Proof.
  intros Hc Hs. exists {| df_name := c_name c; df_namespace := namespace vs;
    df_url := ociRepo +:+ "/" +:+ c_name c; df_version := chartVersion vs |}.
  split; [|done]. unfold definitions. apply list_elem_of_In, in_map_iff. exists c. split; [done|].
  apply filter_In. split; [by apply list_elem_of_In|done].
Qed.

(** C40: the manifests beside the components tell the truth about the render they come with: every
    component that is emitted has its definition registered, at the version of the chart; where
    the state of the node labels is measured and there are nodes, every required label is on one;
    where it is unmeasured, what is rendered does not depend on the nodes. *)
Theorem manifests_agree vs cl ds ociRepo : render semverCompare vs cl = Rendered ds →
  (∀ d, d ∈ ds → ∃ f, f ∈ definitions vs true ociRepo ∧ df_name f = d_name d ∧
     df_version f = chartVersion vs) ∧
  (measured (node_preconditions_state vs cl) = true → node_list cl ≠ [] →
     nodeLabelsMissing vs (sel_list vs) (node_list cl) = Rendered "") ∧
  (measured (node_preconditions_state vs cl) = false → ∀ nodes,
     render semverCompare vs (with_nodes cl nodes) = Rendered ds).
Proof.
  intros Hr. split_and!.
  - intros d Hd. pose proof (render_Rendered semverCompare vs cl ds Hr) as He.
    apply (emit_all_elem semverCompare _ _ _ _ _ d He) in Hd as (c & ds' & Hc & Hs & Hem & Hd).
    destruct (emit_elem semverCompare _ _ _ _ _ Hem Hd) as (v & _ & _ & Hn & _). rewrite Hn.
    by apply definitions_elem.
  - intros Hm Hn. unfold render in Hr. simpl in Hm. rewrite Hm in Hr. render_inv Hr.
    unfold requireNodeLabels in Ha. destruct (node_list cl) as [|n ns]; [done|]. render_inv Ha.
    destruct (String.eqb_spec a0 "") as [->|]; [done|by destruct a].
  - intros Hm nodes. simpl in Hm. unfold render in *.
    change (nodeReadGranted vs (with_nodes cl nodes)) with (nodeReadGranted vs cl).
    rewrite Hm in *. by rewrite emit_all_nodes.
Qed.

(** A cluster without nodes is reported as measured, though there was nothing to measure. *)
Lemma measured_without_nodes vs cl ds : render semverCompare vs cl = Rendered ds →
  nodeReadGranted vs cl = true →
  measured (node_preconditions_state vs (with_nodes cl [])) = true ∧
  render semverCompare vs (with_nodes cl []) = Rendered ds.
Proof.
  intros Hr Hg. split; [done|]. unfold render in *.
  change (nodeReadGranted vs (with_nodes cl [])) with (nodeReadGranted vs cl).
  rewrite Hg in *. render_inv Hr. simpl. by rewrite emit_all_nodes.
Qed.
End Agreement.

(** ** A deployment *)

Definition guard_capability : capability :=
  {| cap_name := "compute-tier-guard"; title := "Provision the compute tier only with approval";
     description := ""; enforcement := "abac"; requiresAcr := ""; crossOrgRole := "";
     aggregateTo := ["operator"];
     cap_rules := [{| apiGroups := [GROUP]; resources := ["openstacks"]; verbs := ["create"; "update"] |}];
     cap_abac := Some {| celExpression := "guard"; message := "" |} |}.
Definition approved : val :=
  VDict [("metadata", VDict [("annotations", VDict [(APPROVAL, VStr "yes")])]);
         ("spec", VDict [("profile", VStr "full")])].

(** An API server as documented, with the expression of the compute tier's guard. *)
Definition named (x : string) (l : list string) : bool := has "*" l || has x l.
Definition any_named (q : request) (l : list string) : bool :=
  negb (String.eqb (rq_subresource q) "") && has (rq_any q) l.
Definition sample_operation (q : request) : string :=
  if String.eqb (rq_verb q) "create" then "CREATE"
  else if has (rq_verb q) ["update"; "patch"] then "UPDATE"
  else if has (rq_verb q) ["delete"; "deletecollection"] then "DELETE" else "CONNECT".
Definition sample_exempt (q : request) : bool :=
  has (rq_group q) ["admissionregistration.k8s.io"; "authentication.k8s.io"; "authorization.k8s.io"].
Definition sample_matched (rr : resource_rule) (q : request) : bool :=
  negb (sample_exempt q) && named (rq_group q) (rr_groups rr) && named (sample_operation q) (rr_operations rr)
  && (has (rq_full q) (rr_resources rr)
      || String.eqb (rq_subresource q) "" && has "*" (rr_resources rr) || any_named q (rr_resources rr)).
Definition sample_cel (expression : string) (o : val) : option bool :=
  if String.eqb expression "guard" then compute_guard o else Some false.
Definition sample_admits_one (pb : policy * policy_binding) (q : request) (o : val) : bool :=
  if String.eqb (pb_policy pb.2) (po_name pb.1) && has "Deny" (pb_actions pb.2)
     && existsb (λ rr, sample_matched rr q) (po_rules pb.1)
  then match sample_cel (po_expression pb.1) o with
       | Some b => b
       | None => negb (String.eqb (po_failurePolicy pb.1) "Fail")
       end
  else true.
#[export] Instance sample_server : ApiServer := {
  permits r q := named (rq_group q) (apiGroups r) && named (rq_verb q) (verbs r)
    && (named (rq_full q) (resources r) || any_named q (resources r));
  operation_of := sample_operation;
  exempt := sample_exempt;
  matched := sample_matched;
  cel := sample_cel;
  admits ps q o := forallb (λ pb, sample_admits_one pb q o) ps;
}.

Lemma named_spec x l : named x l = true ↔ x ∈ l ∨ "*" ∈ l.
Proof. unfold named. rewrite orb_true_iff, !has_spec. tauto. Qed.
Lemma any_named_spec q l : any_named q l = true ↔ rq_subresource q ≠ "" ∧ rq_any q ∈ l.
Proof. unfold any_named. rewrite andb_true_iff, has_spec, negb_true_iff, String.eqb_neq. tauto. Qed.

#[export] Instance sample_lawful : ApiLaws (S := sample_server).
Proof.
  split; unfold permits, operation_of, exempt, matched, cel, admits, sample_server.
  - intros r q [[H _]%andb_prop _]%andb_prop. by apply named_spec.
  - intros r q [_ H]%andb_prop. apply orb_true_iff in H. rewrite named_spec, any_named_spec in H. tauto.
  - intros q Hq. unfold sample_operation. by rewrite Hq.
  - intros q Hq. unfold sample_operation. by rewrite Hq.
  - intros q Hq. unfold sample_operation. by rewrite Hq.
  - intros q Hq. unfold sample_operation. by rewrite Hq.
  - intros rr q He Hg Ho Hr. unfold sample_matched. rewrite He.
    rewrite (proj2 (named_spec _ _) Hg), (proj2 (named_spec _ _) (or_introl Ho)). simpl.
    rewrite !orb_true_iff, andb_true_iff, !has_spec, any_named_spec, String.eqb_eq. tauto.
  - intros ps q o p b rr _ Hadm Hin Hb Hd Hf Hrr Hm. rewrite forallb_forall in Hadm.
    specialize (Hadm _ (proj1 (list_elem_of_In _ _) Hin)). unfold sample_admits_one in Hadm. simpl in Hadm.
    rewrite Hb, String.eqb_refl, (proj2 (has_spec _ _) Hd), Hf in Hadm.
    replace (existsb _ _) with true in Hadm; [by destruct (sample_cel _ _) as [[]|]|].
    symmetry. apply existsb_exists. exists rr. split; [by apply list_elem_of_In|done].
Qed.

Definition request_of (verb subresource : string) : request :=
  {| rq_group := GROUP; rq_resource := "openstacks"; rq_subresource := subresource; rq_verb := verb |}.


(** Writes that RBAC permits by an abac capability and that its guard, which is false of every
    object, lets pass: those of a star among the verbs, deletecollection, and those to a subresource
    of a star among the resources. *)
Definition closed_capability (r : rule) : capability :=
  {| cap_name := "guard"; title := ""; description := ""; enforcement := "abac"; requiresAcr := "";
     crossOrgRole := ""; aggregateTo := []; cap_rules := [r];
     cap_abac := Some {| celExpression := "false"; message := "" |} |}.
Definition unguarded (rq : rule * request) : Prop :=
  permits rq.1 rq.2 = true ∧ ∃ ps,
    capability_abac_policies "openstack" [closed_capability rq.1] = Rendered ps ∧
    ∀ o, admits ps rq.2 o = true.
Lemma star_unguarded : Forall unguarded
  [({| apiGroups := [GROUP]; resources := ["openstacks"]; verbs := ["create"; "*"] |}, request_of "update" "");
   ({| apiGroups := [GROUP]; resources := ["openstacks"]; verbs := ["create"; "deletecollection"] |},
      request_of "deletecollection" "");
   ({| apiGroups := [GROUP]; resources := ["*"]; verbs := ["update"] |}, request_of "update" "status")].
Proof. repeat (apply List.Forall_cons; [split; [reflexivity|by eexists]|]). apply List.Forall_nil. Qed.

Lemma manifests_agree_witness :
  render semver_gt (w_values bump_instant) (w_cluster bump_instant) = Rendered bump_docs ∧
  ∃ f, f ∈ definitions (w_values bump_instant) true "oci://charts" ∧ df_name f = "keystone" ∧
    df_version f = "0.3.33".
Proof.
  assert (render semver_gt (w_values bump_instant) (w_cluster bump_instant) = Rendered bump_docs) as Hr
    by (vm_compute; reflexivity).
  split; [exact Hr|].
  destruct (manifests_agree semver_gt _ _ _ "oci://charts" Hr) as [H _].
  destruct (H {| d_apiVersion := "composition.krateo.io/v0-3-32"; d_kind := "Keystone";
    d_name := "keystone"; d_spec := [] |} ltac:(left)) as (f & Hf & Hn & Hv).
  exists f. split; [exact Hf|]. split; [exact Hn|]. exact Hv.
Defined.
End UmbrellaManifests.
