(* ===== verification/Provisioning.v ===== *)
(** * hack/validate-provisioning-preconditions.py: full-strict leaves out what needs provisioning

    The components flagged requiresProvisioning are those with a declared precondition, profile
    full selects them and profile full-strict does not. The parsed values and declarations are the
    input, and what helm prints for the chart with the probe template is a parameter; for a helm
    that evaluates the template the verdict is decided from the catalogue and the declarations. *)
From S2P Require Import Prelude PyStr PyVal PyEq Gate Umbrella.
#[local] Open Scope string_scope.
#[local] Open Scope list_scope.

Module Provisioning.

(** The ways to end with status 1 before the comparison. *)
Inductive stopped :=
  | MissingFile (path : string)
  | NoComponents
  | NoPreconditions
  | MissingField (k : string) (component : val).

Inductive problem :=
  | NotDeclared (name : string)
  | NotFlagged (name : string)
  | NotAComponent (name : string)
  | NotRendered
  | SelectedNothing
  | MissingFromFull (names : list string)
  | StillInStrict (names : list string)
  | Collapsed (strict full : nat).

Notation G := (gate stopped problem).

(** ** Sets of names, as values *)

(** [a - b], [a & b] and [sorted(a)] *)
Definition minus (a b : list val) : list val := List.filter (λ x, negb (py_in x b)) a.
Definition inter (a b : list val) : list val := List.filter (λ x, py_in x b) a.
Definition names_of (a : list val) : res (list string) :=
  match mapM as_str a with Ok l => Ok (sorted_set l) | Raise _ => Raise Unmodelled end.

(** ** The selection a profile renders to *)

Definition PREFIX : string := "#SELECTED ".

Fixpoint selected_line (lines : list string) : option (gset string) :=
  match lines with
  | [] => None
  | l :: lines' =>
      if startswith PREFIX l then Some (list_to_set (tail (words l))) else selected_line lines'
  end.

Section Helm.
  (** The output of helm template with [--set profile=], where it succeeds. *)
  Context (helm : string → option string).

Definition selection_for_profile (p : string) : option (gset string) :=
    match helm p with Some out => selected_line (splitlines out) | None => None end.

(** ** What is flagged and what is declared *)

Definition flagged_name (c : val) : res (list val) :=
    let* r := get c "requiresProvisioning" in
    if truthy r then let* n := getitem c "name" in let* n := hashable n in Ok [n] else Ok [].

Definition flagged_of (comps : list val) : res (list val) :=
    let* l := mapM flagged_name comps in Ok (concat l).

Definition FIELDS : list string := ["component"; "requires"; "symptom"; "check"; "issue"].

Definition require_field (e : val) (k : string) : G unit :=
    let* v := lift (get e k) in
    if truthy v then mret ()
    else let* c := lift (get_default e "component" (VStr "<unnamed>")) in
         measurement_failed (MissingField k c).

Definition read_entry (declared : list val) (e : val) : G (list val) :=
    let* _ := for_ FIELDS (require_field e) in
    let* c := lift (getitem e "component") in
    let* c := lift (hashable c) in
    mret (declared ++ [c]).

Definition read_declared (decl : val) : G (list val) :=
    let* d := lift (get (or_ decl (VDict [])) "preconditions") in
    if negb (truthy d) then measurement_failed NoPreconditions else
    let* es := lift (py_iter d) in fold_ read_entry [] es.

(** ** The gate *)

Definition report (names : list string) (f : string → problem) : G unit :=
    for_ names (λ n, fail (f n)).

Definition compare_sets (comps flagged declared : list val) : G unit :=
    let* undeclared := lift (names_of (minus flagged declared)) in
    let* _ := report undeclared NotDeclared in
    let* unflagged := lift (names_of (minus declared flagged)) in
    let* _ := report unflagged NotFlagged in
    let* known := lift (mapM (λ c, let* n := getitem c "name" in hashable n) comps) in
    let* unknown := lift (names_of (minus declared known)) in
    report unknown NotAComponent.

Definition as_vals (s : gset string) : list val := map VStr (elements s).

Definition compare_profiles (flagged : list val) (full strict : option (gset string)) : G unit :=
    match full, strict with
    | Some full, Some strict =>
        let* _ := check (negb (bool_decide (full = ∅) || bool_decide (strict = ∅))) SelectedNothing in
        let* missing := lift (names_of (minus flagged (as_vals full))) in
        let* _ := check (bool_decide (missing = [])) (MissingFromFull missing) in
        let* still := lift (names_of (inter flagged (as_vals strict))) in
        let* _ := check (bool_decide (still = [])) (StillInStrict still) in
        check (negb (bool_decide (full ⊆ strict))) (Collapsed (size strict) (size full))
    | _, _ => fail NotRendered
    end.

(** A passing run tells the sizes of the two selections and what is excluded. *)
Definition main (umbrella decl : option val) (helpers : bool) :
      G (nat * nat * list string) :=
    match umbrella, decl, helpers with
    | None, _, _ => measurement_failed (MissingFile "values.yaml")
    | _, None, _ => measurement_failed (MissingFile "provisioning-preconditions.yaml")
    | _, _, false => measurement_failed (MissingFile "_helpers.tpl")
    | Some u, Some d, true =>
        let* comps := lift (get (or_ u (VDict [])) "components") in
        if negb (truthy comps) then measurement_failed NoComponents else
        let* comps := lift (py_iter comps) in
        let* flagged := lift (flagged_of comps) in
        let* declared := read_declared d in
        let* _ := compare_sets comps flagged declared in
        let full := selection_for_profile "full" in
        let strict := selection_for_profile "full-strict" in
        let* _ := compare_profiles flagged full strict in
        let* names := lift (names_of flagged) in
        mret (size (default ∅ full), size (default ∅ strict), names)
    end.
End Helm.

(** Every way to stop is a failure. *)
Definition status {A} (v : verdict stopped problem A) : Z := match v with Passed _ => 0 | _ => 1 end.

(** ** Names among values *)

Lemma minus_nil a b : minus a b = [] ↔ ∀ x, x ∈ a → py_in x b = true.
Proof.
  unfold minus. split.
  - intros H x Hx. pose proof (filter_none _ _ H x Hx) as E. by apply negb_false_iff in E.
  - induction a as [|x a IH]; intros H; [done|]. cbn [List.filter]. rewrite (H x) by left.
    cbn [negb]. apply IH. intros y Hy. apply H. by right.
Qed.

Lemma inter_nil a b : inter a b = [] ↔ ∀ x, x ∈ a → py_in x b = false.
Proof.
  unfold inter. split.
  - intros H x Hx. exact (filter_none _ _ H x Hx).
  - induction a as [|x a IH]; intros H; [done|]. cbn [List.filter]. rewrite (H x) by left.
    apply IH. intros y Hy. apply H. by right.
Qed.

Lemma names_of_nil l : names_of l = Ok [] ↔ l = [].
Proof.
  unfold names_of. split; [|by intros ->]. destruct (mapM as_str l) as [k|] eqn:E; [|done].
  intros [= H]. destruct k as [|x k].
  - apply mapM_Ok_Forall2 in E. by apply Forall2_nil_inv_r in E.
  - exfalso. assert (Hx : x ∈ sorted_set (x :: k)) by (apply elem_of_sorted_set; left).
    rewrite H in Hx. by apply elem_of_nil in Hx.
Qed.

Lemma names_of_strs l : names_of (map VStr l) = Ok (sorted_set l).
Proof.
  unfold names_of. replace (mapM as_str (map VStr l)) with (Ok l); [done|]. symmetry.
  apply mapM_Ok_Forall2. induction l; by constructor.
Qed.

Lemma report_names_clean {B} l (f : string → problem) (k : G B) b :
  lift (names_of l) ≫= (λ n, report n f ≫= λ _, k) = Done [] b ↔ l = [] ∧ k = Done [] b.
Proof.
  rewrite lift_bind_Done. setoid_rewrite bind_clean. split.
  - intros (n & Hn & [] & Hr & Hk). split; [|done]. unfold report in Hr. rewrite for_clean in Hr.
    destruct n as [|x n]; [by apply names_of_nil|]. by specialize (Hr x ltac:(left)).
  - intros [-> Hk]. exists []. split; [done|]. exists (). done.
Qed.

(** ** What is flagged and declared, read *)

Import Umbrella.

(** A rendered catalogue entry and the component the umbrella's templates see. *)
Definition reads (v : val) (c : component) : Prop :=
  getitem v "name" = Ok (VStr (c_name c)) ∧
  ∃ r, get v "requiresProvisioning" = Ok r ∧ truthy r = c_requiresProvisioning c.

Definition flagged (cs : list component) : list string :=
  map c_name (List.filter c_requiresProvisioning cs).

Lemma flagged_of_reads l cs : Forall2 reads l cs → flagged_of l = Ok (map VStr (flagged cs)).
Proof.
  intros H. unfold flagged_of.
  replace (mapM flagged_name l)
    with (Ok (map (λ c, if c_requiresProvisioning c then [VStr (c_name c)] else []) cs)).
  - cbn [mbind res_bind]. f_equal. clear H. induction cs as [|c cs IH]; [done|].
    unfold flagged in *. cbn [map concat List.filter]. destruct (c_requiresProvisioning c); cbn [map app]; by rewrite IH.
  - symmetry. apply mapM_Ok_Forall2. induction H as [|v c l cs (Hn & r & Hr & Ht) _ IH]; constructor; [|done].
    unfold flagged_name. rewrite Hr. cbn [mbind res_bind]. rewrite Ht, Hn. by destruct (c_requiresProvisioning c).
Qed.

Lemma known_reads l cs :
  Forall2 reads l cs → mapM (λ c, let* n := getitem c "name" in hashable n) l = Ok (map VStr (map c_name cs)).
Proof.
  intros H. apply mapM_Ok_Forall2. induction H as [|v c l cs (Hn & _) _ IH]; constructor; [|done].
  by rewrite Hn.
Qed.

(** A precondition that says what it is about, and what an operator must know. *)
Definition complete (e : val) : Prop := ∀ k, k ∈ FIELDS → ∃ v, get e k = Ok v ∧ truthy v = true.

Lemma require_field_clean e k u :
  require_field e k = Done [] u ↔ ∃ v, get e k = Ok v ∧ truthy v = true.
Proof.
  unfold require_field. rewrite lift_bind_Done. split.
  - intros (v & Hv & H). exists v. split; [done|]. destruct (truthy v); [done|].
    by apply lift_bind_Done in H as (? & _ & ?).
  - intros (v & Hv & Ht). exists v. rewrite Ht. by destruct u.
Qed.

Lemma read_entry_clean acc e acc' :
  read_entry acc e = Done [] acc' ↔
  complete e ∧ ∃ v, getitem e "component" = Ok v ∧ hashable v = Ok v ∧ acc' = acc ++ [v].
Proof.
  unfold read_entry. rewrite bind_clean. split.
  - intros ([] & Hf & H). rewrite for_clean in Hf. apply lift_bind_Done in H as (v & Hv & H).
    apply lift_bind_Done in H as (w & Hw & [= <-]). apply hashable_Ok in Hw as E. subst w. split; [|eauto].
    intros k Hk. apply (require_field_clean e k ()). by apply Hf.
  - intros [Hc (v & Hv & Hh & ->)]. exists (). rewrite for_clean. split.
    + intros k Hk. apply require_field_clean. by apply Hc.
    + rewrite Hv. cbn [lift mbind gate_bind mret gate_ret]. by rewrite Hh.
Qed.

Lemma read_entries_clean es acc D :
  fold_ read_entry acc es = Done [] D ↔
  ∃ ds, D = acc ++ ds ∧
    Forall2 (λ e v, complete e ∧ getitem e "component" = Ok v ∧ hashable v = Ok v) es ds.
Proof.
  revert acc. induction es as [|e es IH]; intros acc; cbn [fold_].
  - split.
    + intros [= <-]. exists []. by rewrite app_nil_r.
    + intros (ds & -> & H%Forall2_nil_inv_l). subst. by rewrite app_nil_r.
  - rewrite bind_clean. setoid_rewrite read_entry_clean. setoid_rewrite IH. split.
    + intros (acc' & [Hc (v & Hv & Hh & ->)] & ds & -> & Hd). exists (v :: ds).
      rewrite <- app_assoc. split; [done|]. by constructor.
    + intros (ds & -> & H). apply Forall2_cons_inv_l in H as (v & ds' & (Hc & Hv & Hh) & Hd & ->).
      exists (acc ++ [v]). split; [by eauto|]. exists ds'. by rewrite <- app_assoc.
Qed.

(** ** The comparisons *)

Lemma compare_sets_clean l cs D u :
  Forall2 reads l cs →
  compare_sets l (map VStr (flagged cs)) D = Done [] u ↔ ∀ v, v ∈ D ↔ v ∈ map VStr (flagged cs).
Proof.
  intros Hl. unfold compare_sets. rewrite report_names_clean, report_names_clean, (known_reads _ _ Hl).
  cbn [lift mbind gate_bind mret gate_ret]. split.
  - intros (H1 & H2 & _). rewrite minus_nil in H1. rewrite minus_nil in H2. intros v. split.
    + intros Hv. apply py_in_strs. by apply H2.
    + intros Hv. specialize (H1 v Hv). apply list_elem_of_fmap in Hv as (s & -> & _).
      by apply py_in_str.
  - intros H. split; [|split].
    + apply minus_nil. intros v Hv. pose proof Hv as Hs. apply list_elem_of_fmap in Hs as (s & -> & _).
      apply py_in_str. by apply H.
    + apply minus_nil. intros v Hv. apply py_in_strs. by apply H.
    + replace (minus D (map VStr (map c_name cs))) with (@nil val); [by destruct u|].
      symmetry. apply minus_nil. intros v Hv%H. apply py_in_strs.
      apply list_elem_of_fmap in Hv as (s & -> & Hs). apply list_elem_of_fmap. exists s. split; [done|].
      unfold flagged in Hs. apply list_elem_of_fmap in Hs as (c & -> & Hc). apply list_elem_of_fmap.
      exists c. split; [done|]. apply list_elem_of_In, filter_In in Hc as [Hc _]. by apply list_elem_of_In.
Qed.

Lemma in_as_vals s X : py_in (VStr s) (as_vals X) = true ↔ s ∈ X.
Proof.
  rewrite py_in_str. unfold as_vals. rewrite list_elem_of_fmap. split.
  - intros (y & [= ->] & Hy). by apply elem_of_elements.
  - intros Hs. exists s. split; [done|]. by apply elem_of_elements.
Qed.

Lemma compare_profiles_clean F full strict u :
  compare_profiles (map VStr F) (Some full) (Some strict) = Done [] u ↔
  full ≠ ∅ ∧ strict ≠ ∅ ∧ (∀ s, s ∈ F → s ∈ full ∧ s ∉ strict) ∧ ¬ full ⊆ strict.
Proof.
  cbn [compare_profiles]. rewrite bind_clean. setoid_rewrite check_clean.
  setoid_rewrite lift_bind_Done. setoid_rewrite bind_clean. setoid_rewrite check_clean.
  setoid_rewrite lift_bind_Done. setoid_rewrite bind_clean. setoid_rewrite check_clean.
  split.
  - intros ([] & H1 & m & Hm & [] & H2 & st & Hst & [] & H3 & H4).
    apply bool_decide_eq_true in H2 as ->, H3 as ->. apply names_of_nil in Hm, Hst.
    rewrite minus_nil in Hm. rewrite inter_nil in Hst.
    apply negb_true_iff, orb_false_iff in H1 as [Hf Hs].
    apply bool_decide_eq_false in Hf, Hs. apply negb_true_iff, bool_decide_eq_false in H4.
    repeat (split; [done|]). split; [|done]. intros s Hs'.
    assert (Hin : VStr s ∈ map VStr F) by (apply list_elem_of_fmap; eauto).
    split; [by apply in_as_vals, Hm|]. intros Hc%in_as_vals. by rewrite (Hst _ Hin) in Hc.
  - intros (Hf & Hs & Hb & Hn). exists (). split.
    { by rewrite !bool_decide_eq_false_2. }
    exists []. split.
    { apply names_of_nil, minus_nil. intros v Hv. apply list_elem_of_fmap in Hv as (s & -> & Hv).
      by apply in_as_vals, Hb. }
    exists (). split; [done|]. exists []. split.
    { apply names_of_nil, inter_nil. intros v Hv. apply list_elem_of_fmap in Hv as (s & -> & Hv).
      apply not_true_iff_false. rewrite in_as_vals. by apply Hb. }
    exists (). split; [done|]. by rewrite bool_decide_eq_false_2.
Qed.

(** ** The gate and the umbrella's selection *)

Definition at_profile (vs : values) (p : string) : values :=
  {| chartVersion := chartVersion vs; namespace := namespace vs; components := components vs;
     enabled := enabled vs; profile := p; dependencyRelaxations := dependencyRelaxations vs;
     nodeLabelPreconditions := nodeLabelPreconditions vs; componentValues := componentValues vs |}.

Section Refinement.
  Context (helm : string → option string) (vs : values) (u d : val).

  (** The first line that starts with the prefix is the probe's, with what the helper returns. *)
Definition evaluates (p : string) : Prop :=
    ∃ out pre post, helm p = Some out ∧
      splitlines out = pre ++ (PREFIX +:+ selected (at_profile vs p)) :: post ∧
      Forall (λ l, startswith PREFIX l = false) pre.

  (** The parsed values file lists the catalogue. *)
Definition lists : Prop :=
    ∃ cs l, get (or_ u (VDict [])) "components" = Ok cs ∧ truthy cs = true ∧ py_iter cs = Ok l ∧
      Forall2 reads l (components vs).

  Hypothesis Hfull : evaluates "full".
  Hypothesis Hstrict : evaluates "full-strict".
  Hypothesis Hwords : ∀ p x, x ∈ selection (at_profile vs p) → no_space x = true ∧ x ≠ "".
  Hypothesis Hlists : lists.

Lemma words_selected p :
  words (PREFIX +:+ selected (at_profile vs p)) =
  "#SELECTED" :: sorted_strs (elements (selection (at_profile vs p))).
Proof.
  unfold selected. set (l := sorted_strs _).
  assert (Hl : Forall (λ w, no_space w = true ∧ w ≠ "") l).
  { apply Forall_forall. intros x Hx. apply (Hwords p).
    unfold l in Hx. by apply elem_of_sorted_strs, elem_of_elements in Hx. }
  clearbody l. destruct l as [|x l]; [reflexivity|].
  replace (PREFIX +:+ String.concat " " (x :: l)) with (String.concat " " ("#SELECTED" :: x :: l))
    by reflexivity.
  apply words_concat. constructor; [done|exact Hl].
Qed.

Lemma selection_rendered p :
  evaluates p → selection_for_profile helm p = Some (selection (at_profile vs p)).
Proof.
  intros (out & pre & post & Ho & Hs & Hp). unfold selection_for_profile. rewrite Ho, Hs.
  clear Ho Hs. induction Hp as [|l pre Hl _ IH]; cbn [app selected_line].
  - rewrite startswith_app, words_selected. f_equal. cbn [tail]. apply leibniz_equiv. intros x.
    by rewrite elem_of_list_to_set, elem_of_sorted_strs, elem_of_elements.
  - by rewrite Hl.
Qed.

(** A component that full-strict selects. *)
Notation strictly := (in_profile "full-strict").

Lemma in_selection p x :
  enabled vs = [] →
  x ∈ selection (at_profile vs p) ↔ ∃ c, c ∈ components vs ∧ in_profile p c = true ∧ c_name c = x.
Proof.
  intros He. unfold selection. cbn [enabled at_profile]. rewrite He.
  rewrite elem_of_list_to_set, list_elem_of_fmap. setoid_rewrite list_elem_of_In.
  setoid_rewrite filter_In. split.
  - intros (c & -> & Hc & Hp). by exists c.
  - intros (c & Hc & Hp & <-). by exists c.
Qed.

(** What compares well, for the selections as the umbrella makes them. *)
Lemma profiles_compare :
  let names := flagged (components vs) in
  names ≠ [] →
  (selection (at_profile vs "full") ≠ ∅ ∧ selection (at_profile vs "full-strict") ≠ ∅ ∧
   (∀ s, s ∈ names → s ∈ selection (at_profile vs "full") ∧ s ∉ selection (at_profile vs "full-strict")) ∧
   ¬ selection (at_profile vs "full") ⊆ selection (at_profile vs "full-strict")) ↔
  enabled vs = [] ∧ (∃ c, c ∈ components vs ∧ strictly c = true) ∧
  ∀ c c', c ∈ components vs → c' ∈ components vs → c_requiresProvisioning c = true →
    strictly c' = true → c_name c ≠ c_name c'.
Proof.
  intros names Hne.
  assert (Hf : ∀ s, s ∈ names ↔ ∃ c, c ∈ components vs ∧ c_requiresProvisioning c = true ∧ c_name c = s).
  { intros s. unfold names, flagged. rewrite list_elem_of_fmap. setoid_rewrite list_elem_of_In.
    setoid_rewrite filter_In. split; [intros (c & -> & ? & ?)|intros (c & ? & ? & <-)]; by exists c. }
  clearbody names. split.
  - intros (_ & Hs & Hb & Hn). destruct (enabled vs) as [|e es] eqn:He.
    2: { exfalso. apply Hn. unfold selection. cbn [enabled at_profile components]. by rewrite He. }
    split; [done|]. split.
    + apply set_choose_L in Hs as (x & Hx). apply (in_selection _ _ He) in Hx as (c & ? & ? & _). eauto.
    + intros c c' Hc Hc' Hr Hst E. destruct (Hb (c_name c)) as [_ Hnot]; [apply Hf; eauto|].
      apply Hnot, (in_selection _ _ He). exists c'. by rewrite E.
  - intros (He & (c0 & Hc0 & Hst0) & Hd).
    assert (Hfs : ∀ s, s ∈ names → s ∈ selection (at_profile vs "full") ∧
                       s ∉ selection (at_profile vs "full-strict")).
    { intros s (c & Hc & Hr & <-)%Hf. rewrite !(in_selection _ _ He). split; [by exists c|].
      intros (c' & Hc' & Hst & E). by apply (Hd c c'). }
    split; [|split; [|split; [done|]]].
    + destruct names as [|s names]; [done|]. intros E. destruct (Hfs s ltac:(left)) as [H _].
      rewrite E in H. by apply not_elem_of_empty in H.
    + intros E. apply (not_elem_of_empty (C:=gset string) (c_name c0)). rewrite <- E.
      apply (in_selection _ _ He). by exists c0.
    + destruct names as [|s names]; [done|]. destruct (Hfs s ltac:(left)) as [H1 H2]. auto.
Qed.

(** The run, once the catalogue is read and the two selections are rendered. *)
Lemma main_clean l :
  (∃ cs, get (or_ u (VDict [])) "components" = Ok cs ∧ truthy cs = true ∧ py_iter cs = Ok l) →
  Forall2 reads l (components vs) →
  (∃ r, main helm (Some u) (Some d) true = Done [] r) ↔
  ∃ D, read_declared d = Done [] D ∧ (∀ v, v ∈ D ↔ v ∈ map VStr (flagged (components vs))) ∧
    let full := selection (at_profile vs "full") in
    let strict := selection (at_profile vs "full-strict") in
    full ≠ ∅ ∧ strict ≠ ∅ ∧
    (∀ s, s ∈ flagged (components vs) → s ∈ full ∧ s ∉ strict) ∧ ¬ full ⊆ strict.
Proof.
  intros (cs & Hcs & Htr & Hit) Hl. cbn [main]. rewrite Hcs, lift_bind, Htr. cbn [negb].
  rewrite Hit, lift_bind, (flagged_of_reads _ _ Hl), lift_bind, (selection_rendered "full" Hfull),
    (selection_rendered "full-strict" Hstrict).
  rewrite names_of_strs. cbv zeta. split.
  - intros (r & H). apply bind_clean in H as (D & HD & H). exists D. split; [done|].
    apply bind_clean in H as ([] & H1 & H). apply bind_clean in H as ([] & H2 & _).
    pose proof (proj1 (compare_sets_clean _ _ _ () Hl) H1). by apply compare_profiles_clean in H2.
  - intros (D & HD & H1 & H2). eexists. apply bind_clean. exists D. split; [exact HD|].
    apply bind_clean. exists (). split; [by apply (compare_sets_clean _ _ _ _ Hl)|]. apply bind_clean.
    exists (). split; [by apply compare_profiles_clean|reflexivity].
Qed.

Lemma iter_truthy v l : py_iter v = Ok l → truthy v = true → l ≠ [].
Proof. by destruct v as [|[]| | |[|]|[]|[]]; cbn; intros [= <-]. Qed.

Lemma read_declared_clean D :
  read_declared d = Done [] D ↔
  ∃ ps es, get (or_ d (VDict [])) "preconditions" = Ok ps ∧ truthy ps = true ∧
    py_iter ps = Ok es ∧
    Forall2 (λ e v, complete e ∧ getitem e "component" = Ok v ∧ hashable v = Ok v) es D.
Proof.
  unfold read_declared. rewrite lift_bind_Done. split.
  - intros (ps & Hps & H). destruct (truthy ps) eqn:Ht; [|done]. cbn [negb] in H.
    apply lift_bind_Done in H as (es & Hes & H). apply read_entries_clean in H as (ds & -> & Hds). eauto 10.
  - intros (ps & es & Hps & Ht & Hes & H). exists ps. split; [done|]. rewrite Ht. cbn [negb].
    apply lift_bind_Done. exists es. split; [done|]. apply read_entries_clean. by exists D.
Qed.

Lemma flagged_spec v :
  v ∈ map VStr (flagged (components vs)) ↔
  ∃ c, c ∈ components vs ∧ c_requiresProvisioning c = true ∧ v = VStr (c_name c).
Proof.
  unfold flagged. rewrite list_elem_of_fmap. setoid_rewrite list_elem_of_fmap.
  setoid_rewrite list_elem_of_In. setoid_rewrite filter_In. split.
  - intros (s & -> & c & -> & Hc & Hr). by exists c.
  - intros (c & Hc & Hr & ->). eauto 10.
Qed.

(** Declared as flagged, and something is declared: something is flagged. *)
Lemma flagged_some (D : list val) :
  D ≠ [] → (∀ v, v ∈ D ↔ v ∈ map VStr (flagged (components vs))) → flagged (components vs) ≠ [].
Proof.
  intros HD H E. destruct D as [|v D]; [done|]. rewrite E in H. specialize (H v). apply proj1 in H.
  by specialize (H ltac:(left)) as ?%elem_of_nil.
Qed.

Lemma Forall2_nonempty {A B} (P : A → B → Prop) l k : Forall2 P l k → l ≠ [] → k ≠ [].
Proof. by intros []. Qed.

(** C18: for a helm that evaluates the probe template, a run passes exactly when nothing is
    enabled by name, every precondition is complete, the declared components are the flagged ones,
    full-strict selects something, and it selects no component of a flagged one's name (as it
    would a flagged component of the identity tier). *)
Theorem profiles_decided :
  (∃ r, main helm (Some u) (Some d) true = Done [] r) ↔
  enabled vs = [] ∧
  (∃ ps es, get (or_ d (VDict [])) "preconditions" = Ok ps ∧ truthy ps = true ∧
     py_iter ps = Ok es ∧
     ∃ names, Forall2 (λ e v, complete e ∧ getitem e "component" = Ok v ∧ hashable v = Ok v) es names ∧
       ∀ v, v ∈ names ↔ ∃ c, c ∈ components vs ∧ c_requiresProvisioning c = true ∧ v = VStr (c_name c)) ∧
  (∃ c, c ∈ components vs ∧ strictly c = true) ∧
  (∀ c c', c ∈ components vs → c' ∈ components vs → c_requiresProvisioning c = true →
     strictly c' = true → c_name c ≠ c_name c').
Proof.
  destruct Hlists as (cs & l & Hcs & Htr & Hit & Hl). rewrite (main_clean l) by eauto.
  setoid_rewrite read_declared_clean. setoid_rewrite <- flagged_spec. split.
  - intros (D & (ps & es & Hps & Ht & Hes & HD) & Hsame & Hcmp).
    assert (Hne : flagged (components vs) ≠ []).
    { eapply flagged_some; [|exact Hsame]. eapply Forall2_nonempty; [exact HD|]. by eapply iter_truthy. }
    apply (profiles_compare Hne) in Hcmp as (He & Hs & Hd). split; [done|]. split; [|done]. eauto 10.
  - intros (He & (ps & es & Hps & Ht & Hes & D & HD & Hsame) & Hs & Hd). exists D.
    split; [eauto 10|]. split; [done|]. apply profiles_compare; [|done].
    eapply flagged_some; [|exact Hsame]. eapply Forall2_nonempty; [exact HD|]. by eapply iter_truthy.
Qed.
End Refinement.

(** ** A catalogue *)

Definition sample_component (name tier : string) (flag : bool) : component :=
  {| c_name := name; c_kind := capitalize name; c_tier := tier; c_deps := [];
     c_requiresProvisioning := flag |}.
Definition sample_values (ironic_tier : string) : values :=
  {| chartVersion := "0.3.33"; namespace := "openstack";
     components := [sample_component "keystone" "identity" false; sample_component "nova" "compute" false;
                    sample_component "ironic" ironic_tier true];
     enabled := []; profile := "full"; dependencyRelaxations := []; nodeLabelPreconditions := [];
     componentValues := [] |}.
Definition sample_entry (c : component) : val :=
  VDict ([("name", VStr (c_name c)); ("tier", VStr (c_tier c))] ++
         if c_requiresProvisioning c then [("requiresProvisioning", VBool true)] else []).
Definition sample_umbrella (vs : values) : val :=
  VDict [("components", VList (map sample_entry (components vs)))].
Definition sample_decl (name : string) : val :=
  VDict [("preconditions", VList [VDict [("component", VStr name);
    ("requires", VStr "an interface named ironic-pxe"); ("symptom", VStr "Init:0/1 forever");
    ("check", VStr "ip link show ironic-pxe"); ("issue", VStr "#163")]])].

(** Helm, on a chart whose only other document is empty. *)
Definition sample_helm (vs : values) (p : string) : option string :=
  Some ("---" +:+ newline +:+ PREFIX +:+ selected (at_profile vs p) +:+ newline).

Lemma sample_evaluates tier p :
  p ∈ ["full"; "full-strict"] → evaluates (sample_helm (sample_values tier)) (sample_values tier) p.
Proof.
  intros Hp. exists ("---" +:+ newline +:+ PREFIX +:+ selected (at_profile (sample_values tier) p) +:+ newline),
    ["---"], []. split; [done|]. split; [|by constructor].
  change (PREFIX +:+ selected (at_profile (sample_values tier) p) +:+ newline)
    with ((PREFIX +:+ selected (at_profile (sample_values tier) p)) +:+ newline +:+ "").
  rewrite !splitlines_line; [done| |done]. unfold selected, selection. cbn [enabled at_profile sample_values].
  apply elem_of_cons in Hp as [->|[->|?%elem_of_nil]%elem_of_cons]; [vm_compute; reflexivity| |done].
  cbn [components profile at_profile sample_values List.filter]. unfold in_profile; cbn.
  by destruct (String.eqb tier "identity"); vm_compute.
Qed.

Lemma sample_words tier p x :
  x ∈ selection (at_profile (sample_values tier) p) → no_space x = true ∧ x ≠ "".
Proof.
  intros (c & Hc & _ & <-)%in_selection; [|done].
  repeat (apply elem_of_cons in Hc as [->|Hc]; [by vm_compute|]). by apply elem_of_nil in Hc.
Qed.

Lemma sample_lists tier : lists (sample_values tier) (sample_umbrella (sample_values tier)).
Proof.
  eexists _, _. split; [reflexivity|]. split; [reflexivity|]. split; [reflexivity|].
  repeat constructor; eexists; (split; reflexivity).
Qed.

Lemma profiles_decided_witness :
  main (sample_helm (sample_values "compute")) (Some (sample_umbrella (sample_values "compute")))
    (Some (sample_decl "ironic")) true = Done [] (3, 2, ["ironic"])%nat ∧
  main (sample_helm (sample_values "compute")) (Some (sample_umbrella (sample_values "compute")))
    (Some (sample_decl "octavia")) true =
    Done [NotDeclared "ironic"; NotFlagged "octavia"; NotAComponent "octavia"] (3, 2, ["ironic"])%nat ∧
  (∀ c c', c ∈ components (sample_values "compute") → c' ∈ components (sample_values "compute") →
     c_requiresProvisioning c = true → in_profile "full-strict" c' = true → c_name c ≠ c_name c').
Proof.
  split; [vm_compute; reflexivity|]. split; [vm_compute; reflexivity|].
  refine (proj2 (proj2 (proj2 (proj1 (profiles_decided (sample_helm (sample_values "compute"))
    (sample_values "compute") (sample_umbrella (sample_values "compute")) (sample_decl "ironic")
    (sample_evaluates _ "full" _) (sample_evaluates _ "full-strict" _) (sample_words _) (sample_lists _)) _)))).
  - left.
  - right. left.
  - exists (3, 2, ["ironic"])%nat. vm_compute. reflexivity.
Defined.

(** A flagged component of the identity tier is in every profile: the gate says so. *)
Example identity_flagged :
  main (sample_helm (sample_values "identity")) (Some (sample_umbrella (sample_values "identity")))
    (Some (sample_decl "ironic")) true = Done [StillInStrict ["ironic"]; Collapsed 3 3] (3, 3, ["ironic"])%nat.
Proof. vm_compute. reflexivity. Qed.
End Provisioning.
