(* ===== verification/UpgradeNotPrune.v ===== *)
(** * hack/validate-upgrade-does-not-prune.py: a version bump keeps existing components

    The gate renders a probe of the chart's helpers in eight states of the cluster's CRDs, compares
    the decisions with its tables, and checks that compositions.yaml is wired to the helpers. The
    rendering of a probe is a parameter, since helm runs it; [helpers_probe] is what it renders with
    the helpers of Umbrella. *)
From S2P Require Import Prelude PyStr PyVal PyRe PyText Gate Umbrella UmbrellaFacts.
#[local] Open Scope string_scope.
#[local] Open Scope list_scope.

Module UpgradeNotPrune.

Definition CUR : string := "v0-3-33".
Definition OLD : string := "v0-3-32".

Definition crd (kind : string) (versions : list (string * bool)) : Umbrella.crd :=
  {| Umbrella.crd_group := "composition.krateo.io"; Umbrella.crd_kind := kind;
     Umbrella.crd_versions :=
       map (λ '(n, s), {| Umbrella.v_name := n; Umbrella.v_served := s |}) versions |}.

Definition state : Type := list Umbrella.crd.

Definition STATES : list (string * state) :=
  [("bump_instant", [crd "Glance" [(OLD, true)]]);
   ("both_served", [crd "Glance" [(OLD, true); (CUR, true)]]);
   ("only_current", [crd "Glance" [(CUR, true)]]);
   ("new_registered_unserved", [crd "Glance" [(OLD, true); (CUR, false)]]);
   ("first_install", []);
   ("origin_no_longer_served", [crd "Glance" [("v0-3-31", true)]]);
   ("two_older_served", [crd "Glance" [("v0-3-28", true); ("vacuum", false); ("v0-3-30", true);
                                       (OLD, true)]]);
   ("older_served_reversed", [crd "Glance" [(OLD, true); ("v0-3-9", true)]])].

(** The origins injected where the chart would read the annotation. *)
Definition ORIGINS : list (string * string) :=
  [("existing", OLD); ("born_at_current", CUR); ("unstamped", ""); ("retired", "v0-3-29")].

(** What each state must decide for an existing component stamped at [OLD]. *)
Definition EXPECTED_EXISTING : list (string * (string * string)) :=
  [("bump_instant", ("true", OLD)); ("both_served", ("true", OLD)); ("only_current", ("true", CUR));
   ("new_registered_unserved", ("true", OLD)); ("first_install", ("", CUR));
   ("origin_no_longer_served", ("true", "v0-3-31")); ("two_older_served", ("true", OLD));
   ("older_served_reversed", ("true", OLD))].

Definition EXPECTED_UNSTAMPED : list (string * (string * string)) :=
  [("bump_instant", ("true", OLD)); ("both_served", ("true", CUR)); ("only_current", ("true", CUR));
   ("new_registered_unserved", ("true", OLD)); ("first_install", ("", CUR));
   ("origin_no_longer_served", ("true", "v0-3-31")); ("two_older_served", ("true", OLD));
   ("older_served_reversed", ("true", OLD))].

Definition EXPECTED_BORN_AT_CURRENT : list (string * (string * string)) := EXPECTED_UNSTAMPED.
Definition EXPECTED_RETIRED : list (string * (string * string)) := EXPECTED_UNSTAMPED.

Definition EXPECTED_NEW : list (string * string) :=
  [("bump_instant", ""); ("both_served", "true"); ("only_current", "true");
   ("new_registered_unserved", ""); ("first_install", ""); ("origin_no_longer_served", "");
   ("two_older_served", ""); ("older_served_reversed", "")].

Definition EXPECTED_GATE : string := dq
  ("{{- $exists := include `osh.exists` (list $ $c.kind $c.name $crds) }}" ++ newline ++
   "{{- $emitVer := include `osh.emitVersion` (list $ $c.kind $c.name $crds $exists) }}" ++ newline ++
   "{{- $crd := include `osh.crdExists` (list $c.kind $emitVer $crds) }}").
Definition EXPECTED_DOCUMENT : string := dq
  "apiVersion: {{ include `osh.apiVersionAt` (list $emitVer) }}".
Definition EXPECTED_EMIT : list string :=
  ["{{- $exists := index . 4 -}}";
   dq "{{- include `osh.resolveVersion` (list $current $origin $exists $kind $crds) -}}"].

Inductive unmeasured := ProbeFailed (state err : string) | NothingProbed.

Inductive finding :=
  | ExistingGate (state : string) (got : option string) (want : string)
  | ExistingPinned (state : string) (got : option string) (want : string)
  | Decision (label state : string) (gate pinned : option string)
  | NewGate (state : string) (got : option string) (want : string)
  | Regression166
  | ServedAtBump (got : option string)
  | ServedBoth (got : option string)
  | GateLines (found : list string)
  | DocumentLine
  | ExistsTwice
  | EmitLine (line : string)
  | OriginGuard.

Definition G := gate unmeasured finding.

(** The data of the probe's ConfigMap. *)
Definition data : Type := list (string * string).
Definition data_is (d : data) (k want : string) : bool :=
  match assoc k d with Some s => String.eqb s want | None => false end.

Definition result (results : list (string * data)) (name : string) : G data :=
  lift (match assoc name results with Some d => Ok d | None => Raise (KeyError name) end).

(** The text between a line and the next occurrence of another. *)
Definition body_of (start stop text : string) : res string :=
  let* i := index_str start text in
  let from := drop_str i text in
  let* j := index_str stop from in
  Ok (take_str j from).

Definition check_existing (results : list (string * data)) (row : string * (string * string)) : G unit :=
  let* d := result results row.1 in
  let* _ := check (data_is d "existing_gate" row.2.1) (ExistingGate row.1 (assoc "existing_gate" d) row.2.1) in
  check (data_is d "existing_pinned" row.2.2) (ExistingPinned row.1 (assoc "existing_pinned" d) row.2.2).

Definition check_label (results : list (string * data))
    (row : string * list (string * (string * string))) : G unit :=
  for_ row.2 (λ r,
    let* d := result results r.1 in
    check (data_is d (row.1 ++ "_gate") r.2.1 && data_is d (row.1 ++ "_pinned") r.2.2)
      (Decision row.1 r.1 (assoc (row.1 ++ "_gate") d) (assoc (row.1 ++ "_pinned") d))).

Definition check_new (results : list (string * data)) (row : string * string) : G unit :=
  let* d := result results row.1 in
  check (data_is d "unstamped_new_gate" row.2) (NewGate row.1 (assoc "unstamped_new_gate" d) row.2).

(** The decisions of every state. *)
Definition check_decisions (results : list (string * data)) : G unit :=
  let* _ := for_ EXPECTED_EXISTING (check_existing results) in
  let* _ := for_ [("unstamped", EXPECTED_UNSTAMPED); ("born_at_current", EXPECTED_BORN_AT_CURRENT);
                  ("retired", EXPECTED_RETIRED)] (check_label results) in
  let* _ := for_ EXPECTED_NEW (check_new results) in
  let* bump := result results "bump_instant" in
  let* _ := check (data_is bump "existing_gate" "true") Regression166 in
  let* _ := check (data_is bump "existing_served" OLD) (ServedAtBump (assoc "existing_served" bump)) in
  let* both := result results "both_served" in
  check (data_is both "existing_served" CUR) (ServedBoth (assoc "existing_served" both)).

Definition found_lines (comp : string) : list string :=
  match map strip (List.filter (contains "$crd :=") (splitlines comp)) with
  | [] => ["(no $crd assignment at all)"]
  | l => l
  end.

(** The wiring of compositions.yaml and _helpers.tpl. *)
Definition check_wiring (comp helpers : string) : G unit :=
  let* _ := check (contains EXPECTED_GATE comp) (GateLines (found_lines comp)) in
  let* _ := check (contains EXPECTED_DOCUMENT comp) DocumentLine in
  let* _ := check (Nat.eqb (count_str (dq "include `osh.exists`") comp) 1) ExistsTwice in
  let* emit_def := lift (body_of (dq "{{- define `osh.emitVersion` -}}") "{{- end -}}" helpers) in
  let* _ := for_ EXPECTED_EMIT (λ line, check (contains line emit_def) (EmitLine line)) in
  let* origin_def := lift (body_of (dq "{{- define `osh.originVersion` -}}") "{{- end -}}" helpers) in
  check (contains (dq "include `osh.servedVersion`") origin_def) OriginGuard.

Section Probe.
  (** What a rendering of the probe answers in a state: its data, or why there is none. *)
Context (run_probe : state → data + string).

Definition probe_state (results : list (string * data)) (row : string * state)
      : G (list (string * data)) :=
    match run_probe row.2 with
    | inl d => mret (results ++ [(row.1, d)])
    | inr err => measurement_failed (ProbeFailed row.1 err)
    end.

(** A measurement that fails ends this gate with status 1. *)
Definition main (comp helpers : string) : G unit :=
    let* results := fold_ probe_state [] STATES in
    let* _ := match results with [] => measurement_failed NothingProbed | _ => mret () end in
    let* _ := check_decisions results in
    check_wiring comp helpers.
End Probe.

(** ** The probe of the chart's own helpers *)

Section Helpers.
Context (semverCompare : string → string → bool).

Definition answer (b : bool) : string := if b then "true" else "".

(** The template [PROBE], with chart version 0.3.33. *)
Definition PROBE (crds : state) : data :=
    let version := ("v" ++ Umbrella.replace_char "." "-" "0.3.33")%string in
    concat (map (λ '(label, origin),
      let pinned e := Umbrella.resolveVersion semverCompare version origin e "Glance" crds in
      [((label ++ "_served")%string, Umbrella.servedVersion semverCompare "Glance" version crds);
       ((label ++ "_pinned")%string, pinned true);
       ((label ++ "_gate")%string, answer (Umbrella.crdExists "Glance" (pinned true) crds));
       ((label ++ "_new_gate")%string, answer (Umbrella.crdExists "Glance" (pinned false) crds))])
      ORIGINS).

Definition helpers_probe (crds : state) : data + string := inl (PROBE crds).
End Helpers.

(** ** The verdict on the chart *)

Lemma probe_states run f l acc :
  (∀ r, r ∈ l → run r.2 = inl (f r.2)) →
  fold_ (probe_state run) acc l = Done [] (acc ++ map (λ r, (r.1, f r.2)) l).
Proof.
  revert acc. induction l as [|r l IH]; intros acc H; cbn [fold_ map]; [by rewrite app_nil_r|].
  assert (E : probe_state run acc r = Done [] (acc ++ [(r.1, f r.2)])).
  { unfold probe_state. by rewrite (H r) by left. }
  rewrite E. unfold mbind, gate_bind. rewrite IH by (intros; apply H; by right).
  cbn [app]. by rewrite <- app_assoc.
Qed.

Lemma probe_law semverCompare crds :
  UmbrellaFacts.semver_law semverCompare →
  forallb UmbrellaFacts.good_name (UmbrellaFacts.served_names "Glance" crds) = true →
  PROBE semverCompare crds = PROBE UmbrellaFacts.semver_gt crds.
Proof.
  intros Hs Hg. pose proof (UmbrellaFacts.good_names _ Hg) as Hp.
  unfold PROBE. f_equal. apply map_ext. intros [label origin].
  rewrite (UmbrellaFacts.law_served semverCompare), !(UmbrellaFacts.law_resolve semverCompare)
    by (done || intros; by apply Hp). done.
Qed.

Definition measured : list (string * data) :=
  map (λ r, (r.1, PROBE UmbrellaFacts.semver_gt r.2)) STATES.

Lemma helpers_measured semverCompare :
  UmbrellaFacts.semver_law semverCompare →
  fold_ (probe_state (helpers_probe semverCompare)) [] STATES = Done [] measured.
Proof.
  intros Hs. rewrite (probe_states _ (PROBE UmbrellaFacts.semver_gt)); [done|].
  intros r Hr. unfold helpers_probe. rewrite probe_law; [done|done|].
  assert (H : forallb (λ r, forallb UmbrellaFacts.good_name
    (UmbrellaFacts.served_names "Glance" r.2)) STATES = true) by (vm_compute; reflexivity).
  rewrite forallb_forall in H. by apply H, list_elem_of_In.
Qed.

(** What the gate requires of the two templates. *)
Definition wired (comp helpers : string) : Prop :=
  contains EXPECTED_GATE comp = true ∧ contains EXPECTED_DOCUMENT comp = true ∧
  count_str (dq "include `osh.exists`") comp = 1%nat ∧
  (∃ e, body_of (dq "{{- define `osh.emitVersion` -}}") "{{- end -}}" helpers = Ok e ∧
     ∀ line, line ∈ EXPECTED_EMIT → contains line e = true) ∧
  (∃ o, body_of (dq "{{- define `osh.originVersion` -}}") "{{- end -}}" helpers = Ok o ∧
     contains (dq "include `osh.servedVersion`") o = true).

Lemma wiring_exact comp helpers : check_wiring comp helpers = Done [] () ↔ wired comp helpers.
Proof.
  unfold check_wiring, wired. split.
  - intros H. gate_inv H. apply check_clean in H. rename a into u. destruct u.
    rewrite for_clean in Ha. split_and!; [done|done|by apply Nat.eqb_eq| |by eauto].
    eexists. split; [done|]. intros line Hl. apply Ha in Hl. by apply check_clean in Hl.
  - intros (H1 & H2 & H3 & (e & He & Hlines) & o & Ho & H4).
    rewrite H1, H2, H3. repeat (apply bind_clean; exists (); split; [done|]).
    apply bind_clean. exists e. rewrite He. split; [done|].
    apply bind_clean. exists (). split; [apply for_clean; intros line Hl; apply check_clean; by apply Hlines|].
    apply bind_clean. exists o. rewrite Ho. split; [done|]. by apply check_clean.
Qed.

(** C5: against the chart's own helpers, with any comparison of versions that obeys semver, every
    decision the gate probes in the eight states is the one of its tables, so the gate passes
    exactly when the two templates are wired to the helpers. *)
Theorem decided_by_wiring semverCompare comp helpers :
  UmbrellaFacts.semver_law semverCompare →
  main (helpers_probe semverCompare) comp helpers = Done [] () ↔ wired comp helpers.
Proof.
  intros Hs. unfold main. rewrite helpers_measured by done. rewrite <- wiring_exact.
  assert (Hd : check_decisions measured = Done [] ()) by (vm_compute; reflexivity).
  split.
  - intros H. apply bind_clean in H as (m & [= <-] & H). apply bind_clean in H as (u1 & _ & H).
    by apply bind_clean in H as (u2 & _ & H).
  - intros H. apply bind_clean. exists measured. split; [done|]. apply bind_clean. exists (). split; [done|].
    apply bind_clean. exists (). split; [exact Hd|exact H].
Qed.

Definition sample_compositions : string :=
  EXPECTED_GATE ++ newline ++ EXPECTED_DOCUMENT ++ newline.
Definition sample_helpers : string := dq
  ("{{- define `osh.originVersion` -}}" ++ newline ++ "{{- $sv := include `osh.servedVersion` (list) -}}" ++ newline
   ++ "{{- end -}}" ++ newline ++ "{{- define `osh.emitVersion` -}}" ++ newline
   ++ "{{- $exists := index . 4 -}}" ++ newline
   ++ "{{- include `osh.resolveVersion` (list $current $origin $exists $kind $crds) -}}" ++ newline
   ++ "{{- end -}}" ++ newline).

Lemma decided_by_wiring_witness :
  main (helpers_probe UmbrellaFacts.semver_gt) sample_compositions sample_helpers = Done [] () ∧
  (main (helpers_probe UmbrellaFacts.semver_gt) sample_compositions sample_helpers = Done [] () ↔
   wired sample_compositions sample_helpers).
Proof.
  split; [vm_compute; reflexivity|].
  exact (decided_by_wiring UmbrellaFacts.semver_gt sample_compositions sample_helpers
    UmbrellaFacts.semver_gt_law).
Defined.

(** With helpers that answer the chart's own version whatever the cluster serves, the gate reports
    what was pruned: the gate of every existing component at the bump instant, and the regression. *)
Definition unpinned_probe (crds : state) : data + string :=
  inl (concat (map (λ '(label, _),
    [((label ++ "_served")%string, if Umbrella.crdExists "Glance" CUR crds then CUR else "");
     ((label ++ "_pinned")%string, CUR);
     ((label ++ "_gate")%string, answer (Umbrella.crdExists "Glance" CUR crds));
     ((label ++ "_new_gate")%string, answer (Umbrella.crdExists "Glance" CUR crds))]) ORIGINS)).

Example unpinned_reported :
  match main unpinned_probe sample_compositions sample_helpers with
  | Done fs () => existsb (λ f, match f with Regression166 => true | _ => false end) fs
  | Stop _ => false
  end = true.
Proof. vm_compute. reflexivity. Qed.
End UpgradeNotPrune.
