(* ===== verification/ReadGate.v ===== *)
(** * hack/validate-readiness-deadlock.py: the gate that the templates are in

    [read_gate] reads which creation gate compositions.yaml uses from the text of the templates;
    [partition_probe] lifts the template's own partition of the dependencies out of it, for helm to
    render. [gate_main] is the whole program. The chart's partition, as Umbrella models it, is the
    one the declarations name ([partition_agrees]), so the wait graph of Deadlock is about the gate
    that runs. *)
From S2P Require Import Prelude PyStr PyVal Graphs Deadlock PyRe PyText Umbrella UmbrellaRuns.
#[local] Open Scope string_scope.
#[local] Open Scope list_scope.

Module ReadGate.
Import Deadlock UmbrellaRuns.

Definition DOTALL : flags := {| fl_i := false; fl_m := false; fl_s := true |}.

(** A template comment, a call of a dependency predicate, and the start of a definition. *)
Definition COMMENT : re := Eval vm_compute in the (compile "\{\{-?\s*/\*.*?\*/\s*-?\}\}") Eps.
Definition CALLED : re := Eval vm_compute in the (compile (dq "include\s+`(osh\.deps[A-Za-z]*)`")) Eps.
Definition DEFINE : re := Eval vm_compute in the (compile (dq "(?=\{\{-?\s*define\s+`)")) Eps.
Definition PARTITION : re := Eval vm_compute in
  the (compile "(\{\{-\s*\$relaxed\s*:=.*?)\{\{-\s*\$strictReady\s*:=") Eps.

(** The definition of a named template, and a condition that tests a variable. *)
Definition define_of (name : string) : re :=
  the (compile (dq "\{\{-?\s*define\s+`" ++ re_escape name ++ dq "`")) Eps.
Definition tests (var : string) : re := the (compile ("if\s+and\b[^\n]*" ++ re_escape var)) Eps.

(** [re.split] at a pattern that reads nothing: the text is cut at every position it matches at. *)
Fixpoint cuts (fl : flags) (r : re) (fuel : nat) (s : st) : list nat :=
  (match run fl r s Some with Some _ => [pos s] | None => [] end) ++
  match fuel, advance s with S fuel, Some s' => cuts fl r fuel s' | _, _ => [] end.
Fixpoint pieces (at_ : nat) (cs : list nat) (s : string) : list string :=
  match cs with
  | [] => [s]
  | c :: cs' => take_str (c - at_) s :: pieces c cs' (drop_str (c - at_) s)
  end.
Definition split_before (fl : flags) (r : re) (s : string) : list string :=
  pieces 0 (cuts fl r (String.length s) (start s)) s.

(** Whether a predicate resolves a dependency with osh.ready, and with osh.exists; it must be
    defined once. *)
Definition resolves_with (source name : string) : res (bool * bool) :=
  match List.filter (λ b, match re_match no_flags (define_of name) b with Some _ => true | None => false end)
          (split_before no_flags DEFINE source) with
  | [b] => Ok (contains (dq "include `osh.ready`") b, contains (dq "include `osh.exists`") b)
  | _ => fail_measurement
  end.

Definition KNOWN : list string := ["osh.depsReady"; "osh.depsExist"; "osh.depsRelaxed"].
Definition mem (x : string) (l : list string) : bool := existsb (String.eqb x) l.

(** What is left to decide once each predicate is what its name says. *)
Definition partitioned (called : list string) (body : string) : res gate_mode :=
  let ready := mem "osh.depsReady" called in
  let exist := mem "osh.depsExist" called in
  let relaxed := mem "osh.depsRelaxed" called in
  if relaxed && negb (ready && exist) then fail_measurement else
  if ready && exist then
    if negb relaxed then fail_measurement else
    if forallb (λ v, searches no_flags (tests v) body) ["$strictReady"; "$relaxedExist"]
    then Ok PerEdge else fail_measurement
  else if ready then Ok Readiness else Ok Existence.

(** [None] is a file that is missing. *)
Definition read_gate (comp_yaml helpers : option string) : res gate_mode :=
  match comp_yaml, helpers with
  | Some body, Some text =>
      let source := re_sub DOTALL COMMENT (λ _, "") text in
      let called := findall no_flags CALLED body in
      if negb (forallb (λ c, mem c KNOWN) called) then fail_measurement else
      if Nat.eqb (length called) 0 then fail_measurement else
      let* _ := (if mem "osh.depsReady" called then
                   let* (by_ready, _) := resolves_with source "osh.depsReady" in
                   if by_ready : bool then Ok () else fail_measurement
                 else Ok ()) in
      if mem "osh.depsExist" called then
        let* (by_ready, by_exists) := resolves_with source "osh.depsExist" in
        if by_ready : bool then Ok Readiness
        else if by_exists : bool then partitioned called body else fail_measurement
      else partitioned called body
  | _, _ => fail_measurement
  end.

(** The probe of [check_partition]: the partition's statements, run for every component. *)
Definition partition_probe (body : string) : option string :=
  match search DOTALL PARTITION body with
  | None => None
  | Some m =>
      Some ("{{- range $c := .Values.components }}" ++ newline ++ group' m 1 ++
            dq "#PARTITION {{ $c.name }} strict={{ join `,` $strict }} " ++
            dq "relaxed={{ join `,` $relaxed }}" ++ newline ++ "{{- end }}" ++ newline)%string
  end.

Section Gate.
  (** What helm prints for a probe ([None]: it fails), and the charts that were rendered. *)
Context (helm : string → option string) (collect_charts : list string → res (gmap string chart)).

Definition partition_output (body : string) : option string :=
    match partition_probe body with None => None | Some probe => helm probe end.

(** [main], from the umbrella's values and the text of its two templates. *)
Definition gate_main (umbrella : option val) (comp_yaml helpers : option string) : res outcome :=
    let* _ := read_umbrella umbrella in
    let* mode := read_gate comp_yaml helpers in
    Deadlock.main umbrella mode
      (match comp_yaml with Some body => partition_output body | None => None end) collect_charts.
End Gate.

(** ** The partition that the chart computes *)

(** A name that the partition's line can carry. *)
Definition plain_char (c : ascii) : bool := negb (is_space c) && negb (Ascii.eqb "," c).
Definition plain_name (s : string) : Prop := s ≠ "" ∧ all_chars plain_char s = true.
Definition plain_component (c : Umbrella.component) : Prop :=
  plain_name (Umbrella.c_name c) ∧ Forall plain_name (Umbrella.c_deps c).

Definition partition_line (vs : Umbrella.values) (c : Umbrella.component) : string :=
  String.concat " " ["#PARTITION"; Umbrella.c_name c;
    "strict=" +:+ String.concat "," (Umbrella.strict_of vs c);
    "relaxed=" +:+ String.concat "," (Umbrella.relaxed_of vs c)].

(** Helm's output has these lines for the partition, and others that the gate does not read. *)
Definition prints_partition (vs : Umbrella.values) (stdout : string) : Prop :=
  List.filter (startswith "#PARTITION ") (splitlines stdout)
  = map (partition_line vs) (Umbrella.components vs).

Definition well_named (vs : Umbrella.values) : Prop :=
  Forall plain_component (Umbrella.components vs) ∧ NoDup (map Umbrella.c_name (Umbrella.components vs)).

(** The component's dependencies are gated as the declarations say. *)
Definition gated_as (declared : gset edge) (vs : Umbrella.values) (n : string) (ds : list string) : Prop :=
  ∃ c, c ∈ Umbrella.components vs ∧ Umbrella.c_name c = n ∧
    Umbrella.strict_of vs c ≡ₚ filter (λ d, (n, d) ∉ declared) ds ∧
    Umbrella.relaxed_of vs c ≡ₚ filter (λ d, (n, d) ∈ declared) ds.

Lemma plain_impl (p : ascii → bool) s :
  (∀ c, plain_char c = true → p c = true) → plain_name s → all_chars p s = true.
Proof.
  intros Hp [_ H]. induction s as [|c s IH]; [done|]. cbn [all_chars] in *.
  apply andb_prop in H as [Hc Hs]. by rewrite (Hp c Hc), IH.
Qed.

Lemma plain_no_comma s : plain_name s → all_chars (λ d, negb (Ascii.eqb "," d)) s = true.
Proof. apply plain_impl. by intros c [_ H]%andb_prop. Qed.
Lemma plain_no_space s : plain_name s → no_space s = true.
Proof. apply plain_impl. by intros c [H _]%andb_prop. Qed.
Lemma plain_word s : plain_name s → word s.
Proof.
  apply plain_impl. intros c [H _]%andb_prop. destruct (Ascii.eqb_spec " " c) as [<-|]; done.
Qed.

Lemma split_set_join l : Forall plain_name l → split_set (String.concat "," l) = sorted_strs l.
Proof.
  intros H. unfold split_set. destruct l as [|x l]; [done|].
  rewrite split_on_concat_words; [|done|by eapply Forall_impl; [exact H|apply plain_no_comma]].
  f_equal. clear -H. induction H as [|y k [Hy _] _ IH]; [done|].
  rewrite filter_cons_True by done. by rewrite IH.
Qed.

Lemma join_no_space l : Forall plain_name l → no_space (String.concat "," l) = true.
Proof.
  induction 1 as [|x l Hx Hl IH]; [done|]. destruct l as [|y l]; [by apply plain_no_space|].
  change (String.concat "," (x :: y :: l)) with (x +:+ String "," (String.concat "," (y :: l))).
  unfold no_space. rewrite all_chars_app. apply andb_true_intro. split; [by apply plain_no_space|exact IH].
Qed.

Lemma relaxed_in_deps vs c d :
  plain_component c → d ∈ Umbrella.relaxed_of vs c → d ∈ Umbrella.c_deps c.
Proof.
  intros [_ Hd]. apply relaxed_elem. intros x Hx. rewrite Forall_forall in Hd. by apply plain_word, Hd.
Qed.
Lemma strict_in_deps vs c d : d ∈ Umbrella.strict_of vs c → d ∈ Umbrella.c_deps c.
Proof. intros H. apply list_elem_of_In, filter_In in H as [H _]. by apply list_elem_of_In. Qed.

Lemma partition_plain vs c :
  plain_component c →
  Forall plain_name (Umbrella.strict_of vs c) ∧ Forall plain_name (Umbrella.relaxed_of vs c).
Proof.
  intros Hc. pose proof (proj2 Hc) as Hd. rewrite !Forall_forall in *.
  split; intros d H; apply Hd; [by eapply strict_in_deps|by eapply relaxed_in_deps].
Qed.

(** A line is read back. *)
Lemma read_line vs c m :
  plain_component c →
  read_partition_line m (partition_line vs c) =
    Ok (<[Umbrella.c_name c := (sorted_strs (Umbrella.strict_of vs c),
                                sorted_strs (Umbrella.relaxed_of vs c))]> m).
Proof.
  intros Hc. destruct (partition_plain vs c Hc) as [Hs Hr]. destruct Hc as [Hn _].
  unfold read_partition_line.
  assert (Hw : words (partition_line vs c) = ["#PARTITION"; Umbrella.c_name c;
    "strict=" +:+ String.concat "," (Umbrella.strict_of vs c);
    "relaxed=" +:+ String.concat "," (Umbrella.relaxed_of vs c)]).
  { apply words_concat. repeat constructor; try done.
    - by apply plain_no_space.
    - apply Hn.
    - unfold no_space. rewrite all_chars_app. by apply join_no_space.
    - unfold no_space. rewrite all_chars_app. by apply join_no_space. }
  assert (Hp : startswith "#PARTITION " (partition_line vs c) = true).
  { unfold partition_line. apply (startswith_app "#PARTITION "). }
  rewrite Hp, Hw. cbn [nth_word lookup list_lookup mbind res_bind].
  assert (He : ∀ k v, all_chars (λ c, negb (Ascii.eqb "=" c)) k = true →
    after_equals (k +:+ String "=" v) = Ok v).
  { intros k v Hk. unfold after_equals. by rewrite partition_at_app. }
  assert (H1 : ∀ v, after_equals ("strict=" +:+ v) = Ok v) by (intros v; by apply (He "strict")).
  assert (H2 : ∀ v, after_equals ("relaxed=" +:+ v) = Ok v) by (intros v; by apply (He "relaxed")).
  rewrite H1, H2. cbn [mbind res_bind]. by rewrite !split_set_join.
Qed.

(** The other lines leave the map as it is. *)
Lemma read_filtered lines m :
  foldM read_partition_line m lines =
  foldM read_partition_line m (List.filter (startswith "#PARTITION ") lines).
Proof.
  revert m. induction lines as [|l lines IH]; intros m; [done|]. cbn [foldM List.filter].
  destruct (startswith "#PARTITION " l) eqn:E; cbn [foldM].
  - destruct (read_partition_line m l) as [m'|]; [apply IH|done].
  - assert (H : read_partition_line m l = Ok m) by (unfold read_partition_line; by rewrite E).
    rewrite H. apply IH.
Qed.

Definition halves (vs : Umbrella.values) (c : Umbrella.component) : list string * list string :=
  (sorted_strs (Umbrella.strict_of vs c), sorted_strs (Umbrella.relaxed_of vs c)).

Lemma read_lines vs cs :
  Forall plain_component cs → NoDup (map Umbrella.c_name cs) → ∀ m,
  (∀ c, c ∈ cs → m !! Umbrella.c_name c = None) →
  ∃ m', foldM read_partition_line m (map (partition_line vs) cs) = Ok m' ∧
    size m' = (size m + length cs)%nat ∧
    ∀ n x, m' !! n = Some x ↔
      m !! n = Some x ∨ ∃ c, c ∈ cs ∧ Umbrella.c_name c = n ∧ x = halves vs c.
Proof.
  induction 1 as [|c cs Hc Hcs IH]; intros Hn m Hm; cbn [map] in *.
  { exists m. split; [done|]. split; [cbn; lia|]. intros n x. split; [by left|].
    intros [H|(c & Hc & _)]; [done|by apply elem_of_nil in Hc]. }
  apply NoDup_cons in Hn as [Hc1 Hn]. cbn [foldM]. rewrite read_line by done.
  cbn [mbind res_bind]. fold (halves vs c).
  assert (Hfresh : ∀ c', c' ∈ cs → Umbrella.c_name c' ≠ Umbrella.c_name c).
  { intros c' Hc' E. apply Hc1. rewrite <- E. apply list_elem_of_In, in_map. by apply list_elem_of_In. }
  destruct (IH Hn (<[Umbrella.c_name c := halves vs c]> m)) as (m' & H1 & H2 & H3).
  { intros c' Hc'. rewrite lookup_insert_ne by (intros E; by apply (Hfresh c')). apply Hm. by right. }
  exists m'. split; [exact H1|]. split.
  - rewrite H2, map_size_insert_None by (apply Hm; left). cbn [length]. lia.
  - intros n x. rewrite H3, lookup_insert_Some. setoid_rewrite elem_of_cons. split.
    + intros [[[<- <-]|[_ H]]|(c' & Hc' & ? & ?)]; [right; exists c; auto|by left|right; exists c'; auto].
    + intros [H|(c' & [->|Hc'] & <- & ->)]; [|by left; left|right; exists c'; auto].
      left. right. split; [|done]. intros <-. rewrite Hm in H by left. done.
Qed.

Lemma sorted_strs_inj l k : sorted_strs l = sorted_strs k → l ≡ₚ k.
Proof. intros H. unfold sorted_strs in H. by rewrite <- (isort_Permutation str_leb l), H, isort_Permutation. Qed.

(** The check passes on the chart's own partition exactly when it is the declared one. *)
Lemma partition_exact_aux vs comps declared stdout :
  prints_partition vs stdout → well_named vs → Umbrella.components vs ≠ [] →
  let ok := ∀ n ds, comps !! n = Some ds → gated_as declared vs n ds in
  (ok → check_partition comps declared (Some stdout) = Ok (length (Umbrella.components vs))) ∧
  (∀ k, check_partition comps declared (Some stdout) = Ok k → ok).
Proof.
  intros Hp [Hpl Hnd] Hne ok.
  destruct (read_lines vs (Umbrella.components vs) Hpl Hnd ∅) as (m & Hr & Hsz & Hm).
  { intros. apply lookup_empty. }
  rewrite map_size_empty, Nat.add_0_l in Hsz.
  assert (Hc : check_partition comps declared (Some stdout) =
    if forallb (partition_ok declared m) (sorted_items comps)
    then Ok (length (Umbrella.components vs)) else fail_measurement).
  { unfold check_partition. rewrite read_filtered, Hp, Hr. cbn [mbind res_bind]. rewrite Hsz.
    by destruct (Umbrella.components vs). }
  rewrite Hc.
  assert (Hok : forallb (partition_ok declared m) (sorted_items comps) = true ↔ ok).
  { rewrite forallb_forall. unfold ok, gated_as, partition_ok. setoid_rewrite <- list_elem_of_In.
    setoid_rewrite bool_decide_eq_true. setoid_rewrite Hm. setoid_rewrite lookup_empty. split.
    - intros H n ds Hn. destruct (H (n, ds)) as [?|(c & Hin & Hn' & Hh)]; [by apply elem_of_sorted_items|done|].
      injection Hh as H1 H2. exists c. split; [done|]. split; [done|].
      split; apply sorted_strs_inj; by symmetry.
    - intros H [n ds] Hn%elem_of_sorted_items. destruct (H n ds Hn) as (c & Hin & Hn' & H1 & H2).
      right. exists c. split; [done|]. split; [done|]. unfold declared_partition, halves. cbn [fst snd].
      f_equal; symmetry; by apply sorted_strs_Permutation. }
  destruct (forallb _ _); (split; [intros H|intros k H]).
  - done.
  - by apply Hok.
  - by apply Hok in H.
  - done.
Qed.

(** ** What a passing run has established *)

(** C21: the whole program, on the text of the templates. When it exits 0 on a per-edge gate, and
    helm prints for the lifted probe what the chart computes, then for every component the chart
    gates on existence exactly the dependencies that are declared relaxed and on readiness exactly
    the others, the install so gated cannot deadlock, and it needs each of its relaxations. *)
Theorem gate_passed_installs vs helm collect_charts umbrella body helpers out :
  gate_main helm collect_charts umbrella (Some body) helpers = Ok Passed →
  read_gate (Some body) helpers = Ok PerEdge →
  partition_output helm body = Some out →
  prints_partition vs out → well_named vs → Umbrella.components vs ≠ [] →
  ∃ comps declared charts owners un,
    read_umbrella umbrella = Ok (comps, declared) ∧
    collect_charts (sorted_keys comps) = Ok charts ∧ resolve charts = Ok (owners, un) ∧
    (∀ n ds, comps !! n = Some ds → gated_as declared vs n ds) ∧
    (∀ x, becomes_ready (waits charts comps owners declared) x) ∧
    (∀ e, e ∈ declared → ¬ acyclic (waits charts comps owners (declared ∖ {[e]}))).
Proof.
  intros H Hg Ho Hp Hw Hne. unfold gate_main in H. rewrite Hg, Ho in H.
  apply bind_Ok in H as ([comps declared] & Hu & H). cbn [mbind res_bind] in H.
  destruct (main_checked umbrella PerEdge (Some out) collect_charts H)
    as (comps' & declared' & charts & owners & un & Hu' & Hch & Hr & Hpart & Hready & Hmin).
  rewrite Hu in Hu'. injection Hu' as <- <-. destruct (Hpart eq_refl) as [k Hk].
  exists comps, declared, charts, owners, un. do 3 (split; [done|]).
  split; [|by split]. by eapply (partition_exact_aux vs).
Qed.

(** The check of the partition passes on what the chart computes exactly when, component by
    component, that is what the declarations say, and it then counts every component. *)
Theorem partition_exact vs comps declared stdout :
  prints_partition vs stdout → well_named vs → Umbrella.components vs ≠ [] →
  let ok := ∀ n ds, comps !! n = Some ds → gated_as declared vs n ds in
  (ok → check_partition comps declared (Some stdout) = Ok (length (Umbrella.components vs))) ∧
  (∀ k, check_partition comps declared (Some stdout) = Ok k → ok).
Proof. apply partition_exact_aux. Qed.
(** ** The chart's own templates *)

(** The statements of compositions.yaml from the partition to the condition, and the two
    predicates of _helpers.tpl with a comment between them. *)
Definition chart_body : string := dq "{{- $relaxed := splitList ` ` (include `osh.depsRelaxed` (list $ $c.name $c.deps)) | compact }}
{{- $strict := list }}
{{- range $d := ($c.deps | default list) }}
{{- if not (has $d $relaxed) }}{{- $strict = append $strict $d }}{{- end }}
{{- end }}
{{- $strictReady := include `osh.depsReady` (list $ $strict $.Values.components $crds) }}
{{- $relaxedExist := include `osh.depsExist` (list $ $relaxed $.Values.components $crds) }}
{{- if and (eq $crd `true`) (or (and (eq $strictReady `true`) (eq $relaxedExist `true`)) (eq $exists `true`)) }}
".

Definition chart_helpers : string := dq "{{- define `osh.depsReady` -}}
{{- $top := index . 0 -}}{{- $deps := index . 1 -}}{{- $comps := index . 2 -}}{{- $crds := index . 3 -}}
{{- $all := `true` -}}
{{- range $d := $deps -}}
  {{- $kind := `` -}}{{- range $c := $comps -}}{{- if eq $c.name $d -}}{{- $kind = $c.kind -}}{{- end -}}{{- end -}}
  {{- if ne (include `osh.ready` (list $top $kind $d $crds)) `true` -}}{{- $all = `` -}}{{- end -}}
{{- end -}}
{{- $all -}}
{{- end -}}

{{/* `osh.exists`, and none of them is paused: see osh.depsReady. */}}
{{- define `osh.depsExist` -}}
{{- $top := index . 0 -}}{{- $deps := index . 1 -}}{{- $comps := index . 2 -}}{{- $crds := index . 3 -}}
{{- $all := `true` -}}
{{- range $d := $deps -}}
  {{- $kind := `` -}}{{- range $c := $comps -}}{{- if eq $c.name $d -}}{{- $kind = $c.kind -}}{{- end -}}{{- end -}}
  {{- if ne (include `osh.exists` (list $top $kind $d $crds)) `true` -}}{{- $all = `` -}}{{- end -}}
  {{- if eq (include `osh.paused` (list $top $kind $d $crds)) `true` -}}{{- $all = `` -}}{{- end -}}
{{- end -}}
{{- $all -}}
{{- end -}}
".

Example chart_gate : read_gate (Some chart_body) (Some chart_helpers) = Ok PerEdge.
Proof. vm_compute. reflexivity. Qed.

(** Naming a predicate after the other does not hide what it does. *)
Example renamed_gate :
  read_gate (Some (replace_str "osh.depsReady" "osh.depsExist" chart_body))
    (Some (replace_str "osh.depsReady" "osh.depsExist" chart_helpers)) = fail_measurement ∧
  read_gate (Some (dq "include `osh.depsExist` $c"))
    (Some (replace_str "osh.exists" "osh.ready" chart_helpers)) = Ok Readiness.
Proof. split; vm_compute; reflexivity. Qed.

(** ** The install of Deadlock's sample *)

Definition sample_values : Umbrella.values :=
  {| Umbrella.chartVersion := "0.3.33"; Umbrella.namespace := "openstack";
     Umbrella.components :=
       [sample_component "neutron" "Neutron" "compute" []; sample_component "nova" "Nova" "compute" ["neutron"]];
     Umbrella.enabled := []; Umbrella.profile := "full";
     Umbrella.dependencyRelaxations := [{| Umbrella.r_component := "nova"; Umbrella.r_dependency := "neutron" |}];
     Umbrella.nodeLabelPreconditions := []; Umbrella.componentValues := [] |}.

(** Helm prints the lines that the chart's partition computes when it is given the lifted probe. *)
Definition sample_helm (probe : string) : option string :=
  if contains "#PARTITION {{ $c.name }}" probe
  then Some (String.concat newline ("---" :: map (partition_line sample_values)
               (Umbrella.components sample_values))) else None.

Lemma sample_named : well_named sample_values.
Proof.
  split; [repeat constructor; done|]. cbn. rewrite !NoDup_cons, elem_of_nil, list_elem_of_singleton.
  split; [done|]. split; [tauto|]. constructor.
Qed.

Lemma gate_passed_installs_witness :
  gate_main sample_helm sample_collect (Some (sample_umbrella [sample_relaxation]))
    (Some chart_body) (Some chart_helpers) = Ok Passed ∧
  gate_main sample_helm sample_collect (Some (sample_umbrella []))
    (Some chart_body) (Some chart_helpers) = fail_measurement ∧
  ∃ comps declared charts owners un,
    read_umbrella (Some (sample_umbrella [sample_relaxation])) = Ok (comps, declared) ∧
    sample_collect (sorted_keys comps) = Ok charts ∧ resolve charts = Ok (owners, un) ∧
    (∀ n ds, comps !! n = Some ds → gated_as declared sample_values n ds) ∧
    (∀ x, becomes_ready (waits charts comps owners declared) x) ∧
    (∀ e, e ∈ declared → ¬ acyclic (waits charts comps owners (declared ∖ {[e]}))).
Proof.
  split; [vm_compute; reflexivity|]. split; [vm_compute; reflexivity|].
  apply (gate_passed_installs sample_values sample_helm sample_collect
    (Some (sample_umbrella [sample_relaxation])) chart_body (Some chart_helpers)
    (String.concat newline ("---" :: map (partition_line sample_values)
               (Umbrella.components sample_values)))); try (vm_compute; reflexivity).
  - apply sample_named.
  - done.
Defined.
End ReadGate.
