(* ===== verification/OriginPin.v ===== *)
(** * hack/validate-origin-version-pin.py: an existing Composition keeps the version it was born at

    The gate reads the chart's templates as text: the call site of the emitted apiVersion, the key
    of the origin annotation, the helper that reads it, and every [lookup], split into its arguments
    by hand. It renders a probe for five decisions and the chart with and without the pin. The two
    renderings are parameters, since helm runs them. *)
From S2P Require Import Prelude PyStr PyVal Json PyRe PyText Gate.
#[local] Open Scope string_scope.
#[local] Open Scope list_scope.

Module OriginPin.

Definition COMPOSITIONS : string := "blueprints/openstack/chart/templates/compositions.yaml".
Definition HELPERS : string := "blueprints/openstack/chart/templates/_helpers.tpl".
Definition ORIGIN_ANNOTATION : string := "krateo.io/composition-origin-version".
Definition ALLOWED_LIST_LOOKUPS : list (string * string) :=
  [("apiextensions.k8s.io/v1", "CustomResourceDefinition"); ("v1", "Node")].
Definition SELECTIONS : list string :=
  ["profile=full"; "profile=identity"; "enabled={heat}"; "enabled={nova,neutron}"].
Definition CURRENT_CHART_VERSION : string := "0.3.30".
Definition CURRENT : string := "v0-3-30".
Definition OLDER : string := "v0-3-28".
Definition PINNED_HELPER : string := "osh.apiVersionAt".

Inductive unmeasured :=
  | NoFile (path : string)
  | NotMapping
  | NoComponents
  | NoKind
  | NoCallSite
  | ManyCallSites (n : nat)
  | NotRendered (what stderr : string)
  | NoConfigMap (what : string)
  | WrongCurrent (got : val)
  | WrongAnnotation
  | NoRange
  | NothingNamed
  | NotSubstitutable.

Inductive finding :=
  | Unpinned (helper : string)
  | WrongArgs (got : list string)
  | NoAnnotationHelper
  | WrongKey (key : string)
  | SpelledElsewhere (files : list string)
  | NoOriginVersion
  | ReturnsNothing
  | NotFromAnnotation (variable : string)
  | NoAnnotations
  | WrongPin (what : string) (got : val) (want : string)
  | WrongEmit (what : string) (got : val)
  | WrongFallback
  | UnreadLookup (file : string) (args : list string)
  | ListInHelpers
  | ListElsewhere (file group kind : string)
  | NewList (group kind : string)
  | ListInLoop (group kind : string)
  | OriginLookups (n : nat)
  | OriginLists
  | OriginOther (token : string)
  | DifferentialNotRun
  | RenderDiffers (selection : string)
  | ReadmeSilent (needle : string)
  | TemplateSilent (needle : string).

Definition G := gate unmeasured finding.
Definition S_ : flags := {| fl_i := false; fl_m := false; fl_s := true |}.

(** ** Text *)

(** The line of helm's stderr that says what went wrong. *)
Definition helm_error (stderr : string) : string :=
  let lines := List.filter (λ l, negb (String.eqb l "")) (map strip (splitlines stderr)) in
  match List.find (startswith "Error:") lines with
  | Some l => take_str 400 l
  | None => match lines with [] => "no stderr" | _ => take_str 400 (List.last lines "") end
  end.

Definition COMMENT : re := Eval vm_compute in the (compile "\{\{-?\s*/\*.*?\*/\s*-?\}\}") Eps.
Definition strip_comments (text : string) : string := re_sub S_ COMMENT (λ _, "") text.

Definition CALL_SITE : re := Eval vm_compute in the (compile (dq
  ("^\s*apiVersion:\s*\{\{\s*include\s+\`(?P<helper>osh\.[A-Za-z]+)\`\s*" ++
   "\(list\s+(?P<args>[^)]*(?:\([^)]*\)[^)]*)*)\)\s*\}\}\s*$"))) Eps.

Definition ANN_DEF : re := Eval vm_compute in the (compile (dq
  ("\{\{-?\s*define\s+\`osh\.originVersionAnnotation\`\s*-?\}\}\s*(?P<key>[^\s{]+)\s*" ++
   "\{\{-?\s*end\s*-?\}\}"))) Eps.

Definition NEXT_DEFINE : re := Eval vm_compute in the (compile (dq "\{\{-?\s*define\s+\`")) Eps.
Definition EMITTED : re := Eval vm_compute in the (compile "\{\{-?\s*(\$[A-Za-z_]\w*)\s*-?\}\}") Eps.
Definition LOOKUP : re := Eval vm_compute in the (compile "\blookup\b") Eps.

(** A pattern built at run time; one that does not compile raises. *)
Definition pattern (s : string) : res re :=
  match compile s with Some r => Ok r | None => Raise ValueError end.

(** The body of the [define] of that name, up to the next one. *)
Definition define_body (text name : string) : res (option string) :=
  let* r := pattern (dq "\{\{-?\s*define\s+\`" ++ re_escape name ++ dq "\`\s*-?\}\}")%string in
  Ok (match search no_flags r text with
      | None => None
      | Some start =>
          let rest := drop_str (m_end start) text in
          Some (match search no_flags NEXT_DEFINE rest with
                | Some nxt => take_str (m_start nxt) rest
                | None => rest
                end)
      end).

(** ** The arguments of a lookup *)

Definition blank (c : ascii) : bool := Ascii.eqb c " " || Ascii.eqb c (char 9).
Definition line_end (c : ascii) : bool := Ascii.eqb c (char 10) || Ascii.eqb c (char 13).
Definition delimiter (c : ascii) : bool :=
  blank c || line_end c || Ascii.eqb c ")" || Ascii.eqb c "}".

(** The rest of a quoted string up to its closing quote, and what follows. *)
Fixpoint quoted (s : string) : string * string :=
  match s with
  | EmptyString => (EmptyString, EmptyString)
  | String c s' =>
      if Ascii.eqb c (char 34) then (String c EmptyString, s')
      else if Ascii.eqb c "\" then
        match s' with
        | EmptyString => (String c EmptyString, EmptyString)
        | String d s'' => let '(t, u) := quoted s'' in (String c (String d t), u)
        end
      else let '(t, u) := quoted s' in (String c t, u)
  end.

(** A parenthesised expression up to the parenthesis that closes it. *)
Fixpoint paren (depth : nat) (s : string) : string * string :=
  match s with
  | EmptyString => (EmptyString, EmptyString)
  | String c s' =>
      if Ascii.eqb c ")" && Nat.eqb depth 1 then (String c EmptyString, s')
      else
        let d := if Ascii.eqb c "(" then S depth
                 else if Ascii.eqb c ")" then pred depth else depth in
        let '(t, u) := paren d s' in (String c t, u)
  end.

Fixpoint bare (s : string) : string * string :=
  match s with
  | EmptyString => (EmptyString, EmptyString)
  | String c s' => if delimiter c then (EmptyString, s) else let '(t, u) := bare s' in (String c t, u)
  end.

(** Up to [n] argument tokens. *)
Fixpoint read_args (n : nat) (s : string) : list string :=
  match n with
  | O => []
  | S n =>
      match lstrip_by blank s with
      | EmptyString => []
      | String c s' =>
          if line_end c then []
          else
            let '(tok, rest) :=
              if Ascii.eqb c (char 34) then let '(t, u) := quoted s' in (String c t, u)
              else if Ascii.eqb c "(" then paren 0 (String c s')
              else bare (String c s') in
            tok :: read_args n rest
      end
  end.

(** Every [lookup] call of the text, as its argument tokens. *)
Definition lookup_args (text : string) : list (list string) :=
  map (λ mo, read_args 4 (drop_str (m_end mo) text)) (finditer no_flags LOOKUP text).

(** [tok[1:-1]] of a token that starts with a quote. *)
Definition unquote (tok : string) : string :=
  match tok with
  | String c (String d t as t') =>
      if Ascii.eqb c (char 34) then take_str (String.length t' - 1) t' else tok
  | _ => tok
  end.

(** Whether the call fetches a whole list: four tokens, the name empty. *)
Definition full_list (args : list string) : bool :=
  match args with [_; _; _; name] => String.eqb (unquote name) "" | _ => false end.
Definition named (args : list string) : bool :=
  match args with [_; _; _; name] => negb (String.eqb (unquote name) "") | _ => false end.
Definition arg (i : nat) (args : list string) : string := nth i args "".

(** ** The input *)

(** The umbrella's values, the files under templates/ by their path, and the README. *)
Record tree := { umbrella : val; template_files : list (string * string); readme : string }.

Definition text_of (files : list (string * string)) (path : string) : G string :=
  match assoc path files with Some s => mret s | None => measurement_failed (NoFile path) end.

(** [sorted({c["kind"] for c in comps})]; the kinds are strings. *)
Definition read_kinds (umbrella : val) : G (list string) :=
  let u := or_ umbrella (VDict []) in
  if negb (is_dict u) then measurement_failed NotMapping else
  let* comps := lift (get u "components") in
  match comps with
  | VList ((_ :: _) as l) =>
      match mapM (λ c, getitem c "kind" ≫= as_str) l with
      | Ok ks => mret (sorted_set ks)
      | Raise _ => measurement_failed NoKind
      end
  | _ => measurement_failed NoComponents
  end.

(** ** 1. The call site *)

Definition call_sites (comp_code : string) : list (string * string) :=
  map (λ m, (group' m 1, group' m 2)) (finditer M_ CALL_SITE comp_code).

Definition check_call_site (comp_code : string) : G string :=
  match call_sites comp_code with
  | [] => measurement_failed NoCallSite
  | [(helper, args)] =>
      let* _ := if negb (String.eqb helper PINNED_HELPER) then fail (Unpinned helper)
                else check (bool_decide (words args = ["$emitVer"])) (WrongArgs (words args)) in
      mret helper
  | l => measurement_failed (ManyCallSites (length l))
  end.

(** ** 2. The annotation key *)

Definition check_key (helpers_code : string) : G unit :=
  match search no_flags ANN_DEF helpers_code with
  | None => fail NoAnnotationHelper
  | Some m => check (String.eqb (group' m 1) ORIGIN_ANNOTATION) (WrongKey (group' m 1))
  end.

Definition spells_key (file : string * string) : bool :=
  let text := strip_comments file.2 in
  let text := if String.eqb file.1 HELPERS then re_sub no_flags ANN_DEF (λ _, "") text else text in
  contains ORIGIN_ANNOTATION text.

Definition elsewhere (files : list (string * string)) : list string :=
  map fst (List.filter spells_key files).

Definition check_elsewhere (files : list (string * string)) : G unit :=
  check (match elsewhere files with [] => true | _ => false end) (SpelledElsewhere (elsewhere files)).

(** ** 2b. The stamp is read *)

Definition assigned_from_key (ret body : string) : res bool :=
  let* r := pattern (re_escape ret ++ "\s*=[^
]*osh\.originVersionAnnotation")%string in
  Ok (searches no_flags r body).

Definition check_body (ob : option string) : G unit :=
  match ob with
  | None | Some "" => fail NoOriginVersion
  | Some body =>
      let* _ :=
        match List.rev (findall no_flags EMITTED body) with
        | [] => fail ReturnsNothing
        | ret :: _ =>
            let* b := lift (assigned_from_key ret body) in check b (NotFromAnnotation ret)
        end in
      check (contains "annotations" body) NoAnnotations
  end.

(** ** 3. The decision *)

Definition PROBE : string := dq
  ("{{- $crds := CRDS }}" ++ newline ++ "---" ++ newline ++ "apiVersion: v1" ++ newline
   ++ "kind: ConfigMap" ++ newline ++ "metadata:" ++ newline ++ "  name: gate-probe" ++ newline
   ++ "data:" ++ newline
   ++ "  current: {{ include `osh.version` (list $) | quote }}" ++ newline
   ++ "  annotation: {{ include `osh.originVersionAnnotation` $ | quote }}" ++ newline
   ++ "  pin: {{ include `osh.pinVersion` (list (include `osh.version` (list $)) ORIGIN `KIND` $crds) | quote }}" ++ newline
   ++ "  emit: {{ include `osh.apiVersionAt` (list (include `osh.emitVersion` (list $ `KIND` `NAME` $crds (include `osh.exists` (list $ `KIND` `NAME` $crds))))) | quote }}" ++ newline).

Definition crd_list_literal (kind : string) (versions : list (string * bool)) : string :=
  match versions with
  | [] => "list"
  | _ =>
      let vs := String.concat " " (map (λ '(n, s),
        dq "(dict `name` " ++ dumps_string n ++ dq " `served` " ++ (if s : bool then "true" else "false") ++ ")")%string
        versions) in
      (dq "list (dict `spec` (dict `group` `composition.krateo.io` `names` (dict `kind` "
       ++ dumps_string kind ++ dq ") `versions` (list " ++ vs ++ ")))")%string
  end.

Definition BOTH_SERVED : list (string * bool) := [(OLDER, true); (CURRENT, true)].
Definition ONLY_CURRENT : list (string * bool) := [(CURRENT, true)].
Definition OLDER_UNSERVED : list (string * bool) := [(OLDER, false); (CURRENT, true)].

(** What the case is, the origin stamp, the versions of the CRD, and the version to emit at. *)
Definition CASES : list (string * string * list (string * bool) * string) :=
  [("an existing object stamped at an older, still-served version", OLDER, BOTH_SERVED, OLDER);
   ("an existing object stamped at the current version", CURRENT, BOTH_SERVED, CURRENT);
   ("an existing object whose stamped version the CRD no longer serves", OLDER, ONLY_CURRENT, CURRENT);
   ("an existing object whose stamped version is present but served: false", OLDER, OLDER_UNSERVED,
    CURRENT);
   ("an object with no origin stamp (new, or created before core-provider stamped)", "", BOTH_SERVED,
    CURRENT)].

Section Renderings.
  (** helm's rendering of the chart with a probe template: the documents, or its stderr. *)
Context (render_probe : string → list val + string).
  (** The rendering of the chart with this compositions.yaml, for a selection. *)
Context (render_chart : string → string → string + string).

Definition probe_body (origin literal kind : string) : string :=
    replace_str "NAME" "gate-probe-object"
      (replace_str "KIND" kind (replace_str "ORIGIN" (dumps_string origin) (replace_str "CRDS" literal PROBE))).

Fixpoint config_map (docs : list val) : res (option val) :=
    match docs with
    | [] => Ok None
    | d :: docs' =>
        let* md := get_default d "metadata" (VDict []) in
        let* n := get md "name" in
        if eq_str n "gate-probe" then let* data := get_dict d "data" in Ok (Some data)
        else config_map docs'
    end.

Definition probe_data (kind origin : string) (versions : list (string * bool)) (what : string)
      : G val :=
    match render_probe (probe_body origin (crd_list_literal kind versions) kind) with
    | inr stderr => measurement_failed (NotRendered what (helm_error stderr))
    | inl docs =>
        let* d := lift (config_map (List.filter truthy docs)) in
        match d with Some data => mret data | None => measurement_failed (NoConfigMap what) end
    end.

Definition check_case (kind : string) (row : string * string * list (string * bool) * string)
      : G unit :=
    let '(what, origin, versions, want) := row in
    let* data := probe_data kind origin versions what in
    let* got := lift (get data "pin") in
    let* _ := check (eq_str got want) (WrongPin what got want) in
    let* emit := lift (get data "emit") in
    check (eq_str emit ("composition.krateo.io/" ++ CURRENT)) (WrongEmit what emit).

Definition check_decision (kind : string) : G unit :=
    let* baseline := probe_data kind "" BOTH_SERVED "the baseline" in
    let* current := lift (get baseline "current") in
    if negb (eq_str current CURRENT) then measurement_failed (WrongCurrent current) else
    let* annotation := lift (get baseline "annotation") in
    if negb (eq_str annotation ORIGIN_ANNOTATION) then measurement_failed WrongAnnotation else
    let* _ := for_ CASES (check_case kind) in
    let* pin := lift (get baseline "pin") in
    check (eq_str pin CURRENT) WrongFallback.

(** ** 4. Lookups *)

Definition all_lookups (files : list (string * string)) : list (string * list (list string)) :=
    map (λ f, (f.1, lookup_args (strip_comments f.2))) files.

Definition check_read (f : string * list (list string)) : G unit :=
    for_ f.2 (λ args, check (Nat.eqb (length args) 4) (UnreadLookup f.1 args)).

Definition list_lookups (all : list (string * list (list string))) : list (string * string * string) :=
    concat (map (λ f, map (λ args, (f.1, unquote (arg 0 args), unquote (arg 1 args)))
      (List.filter full_list f.2)) all).

Definition check_list (l : string * string * string) : G unit :=
    let '(p, group, kind) := l in
    let* _ := check (String.eqb p COMPOSITIONS) (ListElsewhere p group kind) in
    check (bool_decide ((group, kind) ∈ ALLOWED_LIST_LOOKUPS)) (NewList group kind).

(** The loop re-reads the call from the place it was found at. *)
Definition check_position (comp_code : string) (range_at : nat) (mo : found) : G unit :=
    let args := List.hd [] (lookup_args (drop_str (m_start mo) comp_code)) in
    check (negb (full_list args && Nat.ltb range_at (m_start mo)))
      (ListInLoop (unquote (arg 0 args)) (unquote (arg 1 args))).

Definition check_origin_lookup (ob : string) : G unit :=
    match lookup_args ob with
    | [args] =>
        if full_list args then fail OriginLists
        else check (negb (Nat.eqb (length args) 4 && negb (String.eqb (arg 3 args) "$name")))
               (OriginOther (arg 3 args))
    | l => fail (OriginLookups (length l))
    end.

Definition check_lookups (files : list (string * string)) (comp_code : string) (ob : option string)
      : G unit :=
    let all := all_lookups files in
    let* _ := for_ all check_read in
    let lists := list_lookups all in
    let* _ := check (negb (existsb (λ l, String.eqb l.1.1 HELPERS) lists)) ListInHelpers in
    let* _ := for_ lists check_list in
    match find_str "range $c := .Values.components" comp_code with
    | None => measurement_failed NoRange
    | Some range_at =>
        let* _ := for_ (finditer no_flags LOOKUP comp_code) (check_position comp_code range_at) in
        let* _ := match ob with None | Some "" => mret () | Some b => check_origin_lookup b end in
        match assoc HELPERS all with
        | None => lift (Raise (KeyError HELPERS))
        | Some calls => if existsb named calls then mret () else measurement_failed NothingNamed
        end
    end.

(** ** 5. The render without a cluster *)

Definition UNPINNED_CALL : string := dq "apiVersion: {{ include `osh.apiVersion` (list $) }}".

(** The renders of the selections, in their order. *)
Definition render_all (label text : string) : G (list string) :=
    fold_ (λ out name,
      match render_chart text name with
      | inl stdout => mret (out ++ [stdout])
      | inr stderr => measurement_failed (NotRendered (label ++ name) (helm_error stderr))
      end) [] SELECTIONS.

Definition unpin (before : string) : res string :=
    match search M_ CALL_SITE (strip_comments before) with
    | None => Raise AttributeError
    | Some m => Ok (replace_str (strip (m_text m)) UNPINNED_CALL before)
    end.

Definition check_offline (helper comp_text : string) : G unit :=
    if negb (String.eqb helper PINNED_HELPER) then fail DifferentialNotRun else
    let* after := lift (unpin comp_text) in
    if String.eqb after comp_text then measurement_failed NotSubstitutable else
    let* pinned := render_all "pinned" comp_text in
    let* unpinned := render_all "unpinned counterfactual" after in
    for_ (zip SELECTIONS (zip pinned unpinned))
      (λ '(name, (a, b)), check (String.eqb a b) (RenderDiffers name)).

(** ** 6. The documentation *)

Definition README_MUST_MENTION : list string :=
    [ORIGIN_ANNOTATION; "prune"; "krateo.io/upgrade-to-version"].
Definition CALL_SITE_MUST_MENTION : list string := ["prune"; "upgrade-to-version"].

Definition check_documented (readme comp_text : string) : G unit :=
    let* _ := for_ README_MUST_MENTION (λ n, check (contains n readme) (ReadmeSilent n)) in
    for_ CALL_SITE_MUST_MENTION (λ n, check (contains n comp_text) (TemplateSilent n)).

Definition main (t : tree) : G unit :=
    let files := template_files t in
    let* comp_text := text_of files COMPOSITIONS in
    let* helpers_text := text_of files HELPERS in
    let* kinds := read_kinds (umbrella t) in
    let comp_code := strip_comments comp_text in
    let helpers_code := strip_comments helpers_text in
    let* helper := check_call_site comp_code in
    let* _ := check_key helpers_code in
    let* _ := check_elsewhere files in
    let* ob := lift (define_body helpers_code "osh.originVersion") in
    let* _ := check_body ob in
    let* _ := check_decision (List.hd "" kinds) in
    let* _ := check_lookups files comp_code ob in
    let* _ := check_offline helper comp_text in
    check_documented (readme t) comp_text.
End Renderings.
End OriginPin.
