(* ===== verification/OriginPinFacts.v ===== *)
(** * Theorems about the origin-version gate

    How the hand-written tokenizer reads the arguments of a lookup, and what a passing gate has
    established of the chart's templates and their renderings. *)
From S2P Require Import Prelude PyStr PyVal Json PyRe PyText Gate OriginPin Umbrella.
#[local] Open Scope string_scope.
#[local] Open Scope list_scope.

Module OriginPinFacts.
Import OriginPin.

(** ** Arguments as a template writes them *)

Inductive argument := Word (w : string) | Quoted (w : string) | Paren (w : string).

Definition print (a : argument) : string :=
  match a with
  | Word w => w
  | Quoted w => dquote ++ w ++ dquote
  | Paren w => "(" ++ w ++ ")"
  end.

(** The depth after a text that closes no parenthesis but its own. *)
Fixpoint depth_after (d : nat) (w : string) : option nat :=
  match w with
  | EmptyString => Some d
  | String c w' =>
      if Ascii.eqb c "(" then depth_after (S d) w'
      else if Ascii.eqb c ")" then match d with S (S _ as d') => depth_after d' w' | _ => None end
      else depth_after d w'
  end.

Definition starts (p : ascii → bool) (s : string) : bool :=
  match s with String c _ => p c | EmptyString => false end.

(** A bare word, a string without quotes or escapes, or a balanced expression. *)
Definition good (a : argument) : Prop :=
  match a with
  | Word w =>
      w ≠ "" ∧ all_chars (λ c, negb (delimiter c)) w = true ∧
      starts (λ c, Ascii.eqb c (char 34) || Ascii.eqb c "(") w = false
  | Quoted w => all_chars (λ c, negb (Ascii.eqb c (char 34) || Ascii.eqb c "\")) w = true
  | Paren w => depth_after 1 w = Some 1%nat
  end.

(** A text that ends a bare word. *)
Definition ends_word (s : string) : Prop := s = "" ∨ starts delimiter s = true.

Lemma bare_app w rest :
  all_chars (λ c, negb (delimiter c)) w = true → ends_word rest → bare (w +:+ rest)%string = (w, rest).
Proof.
  intros Hw Hr. induction w as [|c w IH].
  - destruct Hr as [->|Hr]; [done|]. destruct rest as [|c rest]; [done|]. cbn in *. by rewrite Hr.
  - cbn [all_chars] in Hw. apply andb_prop in Hw as [Hc Hw]. apply negb_true_iff in Hc.
    rewrite append_cons. cbn [bare]. by rewrite Hc, (IH Hw).
Qed.

Lemma quoted_app w rest :
  all_chars (λ c, negb (Ascii.eqb c (char 34) || Ascii.eqb c "\")) w = true →
  quoted (w +:+ dquote +:+ rest)%string = ((w +:+ dquote)%string, rest).
Proof.
  induction w as [|c w IH]; [done|]. cbn [all_chars]. intros [Hc Hw]%andb_prop.
  apply negb_true_iff, orb_false_iff in Hc as [H1 H2]. rewrite append_cons. cbn [quoted].
  by rewrite H1, H2, (IH Hw).
Qed.

Lemma paren_app w d rest :
  depth_after (S d) w = Some 1%nat →
  paren (S d) (w +:+ ")" +:+ rest)%string = ((w +:+ ")")%string, rest).
Proof.
  revert d. induction w as [|c w IH]; intros d; cbn [depth_after].
  - intros [= ->]. done.
  - rewrite append_cons. cbn [paren]. destruct (Ascii.eqb_spec c "(") as [->|Hc].
    + intros H. cbn -[String.append paren]. by rewrite (IH _ H).
    + destruct (Ascii.eqb_spec c ")") as [->|Hc'].
      * destruct d as [|d]; [done|]. intros H. cbn -[String.append paren]. by rewrite (IH _ H).
      * intros H. cbn [andb]. by rewrite (IH _ H).
Qed.

(** One token, after the blank before it. *)
Definition token (c : ascii) (s : string) : string * string :=
  if Ascii.eqb c (char 34) then let '(t, u) := quoted s in (String c t, u)
  else if Ascii.eqb c "(" then paren 0 (String c s)
  else bare (String c s).

Lemma read_token n c s tok rest :
  blank c = false → line_end c = false → token c s = (tok, rest) →
  read_args (S n) (String " " (String c s)) = tok :: read_args n rest.
Proof.
  intros Hb Hl Ht.
  assert (E : lstrip_by blank (String " " (String c s)) = String c s).
  { change (lstrip_by blank (String " " (String c s))) with (lstrip_by blank (String c s)).
    cbn [lstrip_by]. by rewrite Hb. }
  cbn [read_args]. rewrite E, Hl. fold (token c s). by rewrite Ht.
Qed.

Lemma read_one n a rest :
  good a → ends_word rest →
  read_args (S n) (String " " (print a +:+ rest)%string) = print a :: read_args n rest.
Proof.
  intros Ha Hr. destruct a as [w|w|w]; cbn [good print] in *.
  - destruct Ha as (Hne & Hw & Hs). destruct w as [|c w]; [done|].
    pose proof Hw as Hw'. cbn [all_chars] in Hw'. apply andb_prop in Hw' as [Hc _].
    apply negb_true_iff in Hc. cbn [starts] in Hs. apply orb_false_iff in Hs as [H1 H2].
    unfold delimiter in Hc. apply orb_false_iff in Hc as [[[Hb Hl]%orb_false_iff _]%orb_false_iff _].
    rewrite append_cons. apply read_token; [done|done|].
    unfold token. rewrite H1, H2, <- append_cons. by apply bare_app.
  - rewrite !append_assoc. apply (read_token _ (char 34)); [done|done|].
    change (token (char 34) (w +:+ dquote +:+ rest)%string)
      with (let '(t, u) := quoted (w +:+ dquote +:+ rest)%string in (String (char 34) t, u)).
    by rewrite (quoted_app _ _ Ha).
  - rewrite !append_assoc. apply (read_token _ "("); [done|done|].
    change (token "(" (w +:+ ")" +:+ rest)%string)
      with (let '(t, u) := paren 1 (w +:+ ")" +:+ rest)%string in (String "(" t, u)).
    by rewrite (paren_app _ _ _ Ha).
Qed.

(** Four arguments, and what follows them. *)
Definition four (a b c d : argument) (rest : string) : string :=
  String " " (print a +:+ String " " (print b +:+ String " " (print c +:+ String " " (print d +:+ rest)))).

Lemma read_four a b c d rest :
  good a → good b → good c → good d → ends_word rest →
  read_args 4 (four a b c d rest) = [print a; print b; print c; print d].
Proof.
  intros Ha Hb Hc Hd Hr. unfold four.
  rewrite !read_one; [done|first [done|by right|by left]..].
Qed.


Lemma take_append s t : take_str (String.length s) (s +:+ t) = s.
Proof. induction s as [|c s IH]; [by destruct t|]. cbn. by rewrite IH. Qed.

Lemma unquote_quoted w : unquote (dquote +:+ w +:+ dquote) = w.
Proof.
  assert (H : take_str (String.length (w +:+ dquote) - 1) (w +:+ dquote) = w).
  { rewrite length_append. change (String.length dquote) with 1%nat.
    rewrite Nat.add_sub. apply take_append. }
  destruct w as [|c w]; [done|]. exact H.
Qed.

Lemma full_list_name a b c d :
  good d → full_list [print a; print b; print c; print d] = true ↔ d = Quoted "".
Proof.
  intros Hd. unfold full_list. rewrite String.eqb_eq. destruct d as [w|w|w]; cbn [print good] in *.
  - destruct Hd as (Hne & _ & Hs). destruct w as [|e [|f w]]; [done|done|].
    cbn [starts] in Hs. apply orb_false_iff in Hs as [Hs _]. cbn [unquote]. by rewrite Hs.
  - rewrite unquote_quoted. split; [by intros ->|by intros [= ->]].
  - split; [|done]. by destruct w as [|e w].
Qed.

Lemma read_args_length n s : (length (read_args n s) ≤ n)%nat.
Proof.
  revert s. induction n as [|n IH]; intros s; [done|]. cbn [read_args].
  destruct (lstrip_by blank s) as [|c s']; [cbn; lia|]. destruct (line_end c); [cbn; lia|].
  destruct (if Ascii.eqb c (char 34) then _ else _) as [tok rest]. cbn. specialize (IH rest). lia.
Qed.

(** C14: the tokenizer ends with at most four tokens for every [lookup] of a text, and reads back
    the arguments of a call as they were written, words, quoted strings and nested expressions
    alike; such a call counts as one of a whole list exactly when its name is the empty string. *)
Theorem lookup_args_reads text :
  (∀ args, args ∈ lookup_args text → (length args ≤ 4)%nat) ∧
  ∀ mo a b c d rest, mo ∈ finditer no_flags LOOKUP text →
    drop_str (m_end mo) text = four a b c d rest →
    good a → good b → good c → good d → ends_word rest →
    [print a; print b; print c; print d] ∈ lookup_args text ∧
    (full_list [print a; print b; print c; print d] = true ↔ d = Quoted "").
Proof.
  unfold lookup_args. split.
  - intros args H. apply list_elem_of_In, in_map_iff in H as (mo & <- & _). apply read_args_length.
  - intros mo a b c d rest Hm Ht Ha Hb Hc Hd Hr. split; [|by apply full_list_name].
    apply list_elem_of_In, in_map_iff. exists mo. split; [|by apply list_elem_of_In].
    rewrite Ht. by apply read_four.
Qed.

Definition node_call : string := dq
  "{{- $nodes = ((lookup `v1` `Node` `` ``).items | default list) }}".

Lemma lookup_args_reads_witness :
  lookup_args node_call = [[dq "`v1`"; dq "`Node`"; dq "``"; dq "``"]] ∧
  (∀ args, args ∈ lookup_args node_call → (length args ≤ 4)%nat) ∧
  ([dq "`v1`"; dq "`Node`"; dq "``"; dq "``"] ∈ lookup_args node_call ∧
   (full_list [dq "`v1`"; dq "`Node`"; dq "``"; dq "``"] = true ↔ Quoted "" = Quoted "")).
Proof.
  split; [vm_compute; reflexivity|]. split; [exact (proj1 (lookup_args_reads node_call))|].
  exact (proj2 (lookup_args_reads node_call) {| m_start := 15; m_end := 21; m_text := "lookup"; m_groups := [] |}
    (Quoted "v1") (Quoted "Node") (Quoted "") (Quoted "") ").items | default list) }}"
    ltac:(vm_compute; left) ltac:(vm_compute; reflexivity) eq_refl eq_refl eq_refl eq_refl
    ltac:(right; reflexivity)).
Defined.

(** ** A passing gate *)

Section Passed.
Context (render_probe : string → list val + string) (render_chart : string → string → string + string).

(** The one call site emits at the version the chart resolved. *)
Definition pinned_site (comp_text : string) : Prop :=
  ∃ args, call_sites (strip_comments comp_text) = [(PINNED_HELPER, args)] ∧ words args = ["$emitVer"].

(** The key is core-provider's, in one place. *)
Definition one_key (helpers_text : string) (files : list (string * string)) : Prop :=
  (∃ m, search no_flags ANN_DEF (strip_comments helpers_text) = Some m ∧ group' m 1 = ORIGIN_ANNOTATION) ∧
  ∀ f, f ∈ files → spells_key f = false.

(** The rendered helpers decide the five cases as the table says. *)
Definition decides (kind : string) : Prop :=
  ∀ what origin versions want, (what, origin, versions, want) ∈ CASES →
    ∃ data pin emit, probe_data render_probe kind origin versions what = Done [] data ∧
      get data "pin" = Ok pin ∧ eq_str pin want = true ∧
      get data "emit" = Ok emit ∧ eq_str emit ("composition.krateo.io/" ++ CURRENT) = true.

(** Every lookup is readable; whole lists are fetched by compositions.yaml alone, only those of the
    two allowed kinds, and above the loop over the components. *)
Definition cheap_lookups (files : list (string * string)) (comp_text : string) : Prop :=
  (∀ f args, f ∈ files → args ∈ lookup_args (strip_comments f.2) → length args = 4%nat ∧
     (full_list args = true → f.1 = COMPOSITIONS ∧
        (unquote (arg 0 args), unquote (arg 1 args)) ∈ ALLOWED_LIST_LOOKUPS)) ∧
  ∃ range_at, find_str "range $c := .Values.components" (strip_comments comp_text) = Some range_at ∧
    ∀ mo, mo ∈ finditer no_flags LOOKUP (strip_comments comp_text) → (range_at < m_start mo)%nat →
      full_list (List.hd [] (lookup_args (drop_str (m_start mo) (strip_comments comp_text)))) = false.

(** With no cluster the pin changes nothing. *)
Definition same_offline (comp_text : string) : Prop :=
  ∃ after, unpin comp_text = Ok after ∧ after ≠ comp_text ∧
    ∀ name, name ∈ SELECTIONS →
      ∃ out, render_chart comp_text name = inl out ∧ render_chart after name = inl out.

Definition documented (readme comp_text : string) : Prop :=
  (∀ n, n ∈ README_MUST_MENTION → contains n readme = true) ∧
  (∀ n, n ∈ CALL_SITE_MUST_MENTION → contains n comp_text = true).

Lemma call_site_clean comp_text helper :
  check_call_site (strip_comments comp_text) = Done [] helper →
  helper = PINNED_HELPER ∧ pinned_site comp_text.
Proof.
  unfold check_call_site, pinned_site.
  destruct (call_sites (strip_comments comp_text)) as [|[h args] [|]]; [done| |done].
  intros H. apply bind_clean in H as (u & Hu & [= <-]).
  destruct (String.eqb_spec h PINNED_HELPER) as [->|]; [|done]. cbn [negb] in Hu.
  apply check_clean in Hu. apply bool_decide_eq_true in Hu. eauto.
Qed.

Lemma elsewhere_clean files : check_elsewhere files = Done [] () → ∀ f, f ∈ files → spells_key f = false.
Proof.
  unfold check_elsewhere. intros H%check_clean f Hf. destruct (elsewhere files) as [|x l] eqn:E; [|done].
  unfold elsewhere in E. destruct (spells_key f) eqn:Ef; [|done]. exfalso.
  assert (Hin : f.1 ∈ []); [|by apply elem_of_nil in Hin].
  rewrite <- E. apply list_elem_of_In, in_map, filter_In. split; [by apply list_elem_of_In|done].
Qed.

Lemma pin_decision_clean kind : check_decision render_probe kind = Done [] () → decides kind.
Proof.
  unfold check_decision. intros H. gate_inv H.
  destruct (negb (eq_str v CURRENT)); [done|]. gate_inv H.
  destruct (negb (eq_str v0 ORIGIN_ANNOTATION)); [done|]. gate_inv H.
  rename a0 into u. destruct u. rewrite for_clean in Ha0.
  intros what origin versions want Hin. specialize (Ha0 _ Hin). unfold check_case in Ha0.
  gate_inv Ha0. apply check_clean in Ha0. eauto 10.
Qed.

Lemma list_lookups_elem files f args :
  f ∈ files → args ∈ lookup_args (strip_comments f.2) → full_list args = true →
  (f.1, unquote (arg 0 args), unquote (arg 1 args)) ∈ list_lookups (all_lookups files).
Proof.
  intros Hf Ha Hl. unfold list_lookups, all_lookups. apply list_elem_of_In, in_concat.
  eexists. split.
  - apply in_map. apply in_map. by apply list_elem_of_In.
  - cbn [fst snd].
    apply (in_map (λ args, (f.1, unquote (arg 0 args), unquote (arg 1 args)))), filter_In.
    split; [by apply list_elem_of_In|done].
Qed.

Lemma lookups_clean files comp_text ob :
  check_lookups files (strip_comments comp_text) ob = Done [] () → cheap_lookups files comp_text.
Proof.
  unfold check_lookups. cbv zeta. intros H. gate_inv H. rename a into u, a0 into u0. destruct u, u0.
  rewrite for_clean in Ha. rewrite for_clean in Ha0.
  destruct (find_str _ (strip_comments comp_text)) as [range_at|] eqn:Er; [|done].
  gate_inv H. rename a into u. destruct u. rewrite for_clean in Ha1. split.
  - intros f args Hf Hargs.
    assert (Hall : (f.1, lookup_args (strip_comments f.2)) ∈ all_lookups files).
    { apply list_elem_of_In, (in_map (λ f, (f.1, lookup_args (strip_comments f.2)))).
      by apply list_elem_of_In. }
    specialize (Ha _ Hall). unfold check_read in Ha. rewrite for_clean in Ha.
    specialize (Ha args Hargs). apply check_clean, Nat.eqb_eq in Ha. split; [done|]. intros Hl.
    specialize (Ha0 _ (list_lookups_elem files f args Hf Hargs Hl)). cbn [check_list] in Ha0.
    gate_inv Ha0. apply String.eqb_eq in Hc0. apply check_clean, bool_decide_eq_true in Ha0. done.
  - exists range_at. split; [done|]. intros mo Hmo Hlt. specialize (Ha1 _ Hmo).
    unfold check_position in Ha1. apply check_clean in Ha1. apply Nat.ltb_lt in Hlt.
    rewrite Hlt, andb_true_r in Ha1. by apply negb_true_iff in Ha1.
Qed.

Lemma render_probes_clean label text outs :
  render_all render_chart label text = Done [] outs →
  Forall2 (λ name out, render_chart text name = inl out) SELECTIONS outs.
Proof.
  unfold render_all.
  assert (H : ∀ l acc outs, fold_ (λ out name,
      match render_chart text name with
      | inl stdout => mret (out ++ [stdout])
      | inr stderr => measurement_failed (NotRendered (label ++ name) (helm_error stderr))
      end : G (list string)) acc l = Done [] outs →
    ∃ k, outs = acc ++ k ∧ Forall2 (λ name out, render_chart text name = inl out) l k).
  { induction l as [|name l IH]; intros acc os Hf; cbn [fold_] in Hf.
    - injection Hf as <-. exists []. by rewrite app_nil_r.
    - apply bind_clean in Hf as (acc' & Hs & Hf).
      destruct (render_chart text name) as [out|] eqn:E; [|done]. injection Hs as <-.
      apply IH in Hf as (k & -> & Hk). exists (out :: k). rewrite <- app_assoc. split; [done|by constructor]. }
  intros Hr. apply H in Hr as (k & -> & Hk). done.
Qed.

Lemma offline_clean comp_text :
  check_offline render_chart PINNED_HELPER comp_text = Done [] () → same_offline comp_text.
Proof.
  unfold check_offline. rewrite String.eqb_refl. cbn [negb]. intros H. gate_inv H.
  destruct (String.eqb_spec v comp_text) as [|Hne]; [done|]. gate_inv H.
  apply render_probes_clean in Ha, Ha0. rewrite for_clean in H. exists v. split; [done|]. split; [done|].
  revert Ha Ha0 H. generalize SELECTIONS. intros l Ha. revert a0.
  induction Ha as [|name out l outs Hout _ IH]; intros outs0 Ha0 H name' Hin; [by apply elem_of_nil in Hin|].
  inversion Ha0 as [|? out0 ? outs' Hout' Hrest]; subst. cbn [zip zip_with] in H.
  apply elem_of_cons in Hin as [->|Hin].
  - exists out. split; [done|]. specialize (H _ ltac:(left)). cbn in H.
    apply check_clean, String.eqb_eq in H. by subst.
  - apply (IH outs'); [done| |done]. intros x Hx. apply H. by right.
Qed.

(** A passing gate has found that the chart emits Compositions through the resolved version
    alone, that the key of the annotation is core-provider's and spelled once, that the rendered
    helpers decide all five cases of the pin and emit the chart's version without a cluster, that
    no lookup fetches a list but the two allowed ones above the component loop, that the pinned and
    the unpinned chart render the same bytes in every selection, and that the cost is documented. *)
Theorem pin_passed t :
  main render_probe render_chart t = Done [] () →
  ∃ comp_text helpers_text kinds,
    assoc COMPOSITIONS (template_files t) = Some comp_text ∧
    assoc HELPERS (template_files t) = Some helpers_text ∧ read_kinds (umbrella t) = Done [] kinds ∧
    pinned_site comp_text ∧ one_key helpers_text (template_files t) ∧ decides (List.hd "" kinds) ∧
    cheap_lookups (template_files t) comp_text ∧ same_offline comp_text ∧
    documented (readme t) comp_text.
Proof.
  unfold main. intros H. apply bind_clean in H as (comp_text & Hc & H).
  apply bind_clean in H as (helpers_text & Hh & H). apply bind_clean in H as (kinds & Hk & H).
  unfold text_of in Hc, Hh.
  destruct (assoc COMPOSITIONS (template_files t)) as [c|] eqn:Ec; [|done]. injection Hc as ->.
  destruct (assoc HELPERS (template_files t)) as [h|] eqn:Eh; [|done]. injection Hh as ->.
  exists comp_text, helpers_text, kinds. do 3 (split; [done|]).
  apply bind_clean in H as (helper & Hs & H). apply call_site_clean in Hs as [-> Hs]. split; [done|].
  apply bind_clean in H as ([] & Hkey & H). apply bind_clean in H as ([] & Hels & H).
  gate_inv H. rename a into u, a0 into u0, a1 into u1, a2 into u2. destruct u, u0, u1, u2.
  split; [split; [|by apply elsewhere_clean]|].
  { unfold check_key in Hkey. destruct (search no_flags ANN_DEF _) as [m|] eqn:E; [|done].
    apply check_clean, String.eqb_eq in Hkey. eauto. }
  split; [by apply pin_decision_clean|]. split; [by eapply lookups_clean|]. split; [by apply offline_clean|].
  unfold check_documented in H. apply bind_clean in H as ([] & H1 & H2).
  rewrite for_clean in H1. rewrite for_clean in H2. split; intros n Hn.
  - by apply H1, check_clean in Hn.
  - by apply H2, check_clean in Hn.
Qed.
End Passed.

(** ** A concrete chart *)

Definition lines_of (l : list string) : string := dq (String.concat newline l).

Definition sample_compositions : string := lines_of
  ["{{- $crds := (lookup `apiextensions.k8s.io/v1` `CustomResourceDefinition` `` ``).items }}";
   "{{- /* prune, upgrade-to-version; not a lookup `v1` `Pod` `` `` */ -}}";
   "{{- range $c := .Values.components }}";
   "apiVersion: {{ include `osh.apiVersionAt` (list $emitVer) }}"; "{{- end }}"].

Definition sample_helpers : string := lines_of
  ["{{- define `osh.originVersionAnnotation` -}}"; "krateo.io/composition-origin-version"; "{{- end -}}";
   "{{- define `osh.originVersion` -}}";
   "{{- $o := lookup (include `osh.apiVersionAt` (list $sv)) $kind $top.Release.Namespace $name -}}";
   "{{- $ann := (($o.metadata).annotations) | default dict -}}";
   "{{- $v = (index $ann (include `osh.originVersionAnnotation` $top)) | default `` -}}";
   "{{- $v -}}"; "{{- end -}}"].

Definition sample_tree (compositions : string) : tree :=
  {| umbrella := VDict [("components", VList [VDict [("kind", VStr "Glance")]])];
     template_files := [(HELPERS, sample_helpers); (COMPOSITIONS, compositions)];
     readme := "krateo.io/composition-origin-version, prune, krateo.io/upgrade-to-version" |}.

(** What helm answers for a probe, with the helper of the umbrella chart on the versions and the
    origin the probe was written with. *)
Definition sample_probe (body : string) : list val + string :=
  let serves (v : string) (s : bool) :=
    contains (dq "`name` " ++ dumps_string v ++ dq " `served` " ++ (if s then "true" else "false"))%string body in
  let versions := concat (map (λ v,
    if serves v true then [{| Umbrella.v_name := v; Umbrella.v_served := true |}]
    else if serves v false then [{| Umbrella.v_name := v; Umbrella.v_served := false |}] else [])
    [OLDER; CURRENT]) in
  let crds := [{| Umbrella.crd_group := "composition.krateo.io"; Umbrella.crd_kind := "Glance";
                  Umbrella.crd_versions := versions |}] in
  let stamped v := contains (dq "(list $)) " ++ dumps_string v ++ dq " `Glance`")%string body in
  let origin := if stamped OLDER then OLDER else if stamped CURRENT then CURRENT else "" in
  inl [VDict [("metadata", VDict [("name", VStr "gate-probe")]);
    ("data", VDict [("current", VStr CURRENT); ("annotation", VStr ORIGIN_ANNOTATION);
       ("pin", VStr (Umbrella.pinVersion CURRENT origin "Glance" crds));
       ("emit", VStr (Umbrella.apiVersionAt CURRENT))])]].

Definition sample_chart (text name : string) : string + string := inl name.

Lemma pin_passed_witness :
  main sample_probe sample_chart (sample_tree sample_compositions) = Done [] () ∧
  ∃ comp_text helpers_text kinds,
    let t := sample_tree sample_compositions in
    assoc COMPOSITIONS (template_files t) = Some comp_text ∧
    assoc HELPERS (template_files t) = Some helpers_text ∧ read_kinds (umbrella t) = Done [] kinds ∧
    pinned_site comp_text ∧ one_key helpers_text (template_files t) ∧
    decides sample_probe (List.hd "" kinds) ∧
    cheap_lookups (template_files t) comp_text ∧ same_offline sample_chart comp_text ∧
    documented (readme t) comp_text.
Proof.
  split; [vm_compute; reflexivity|].
  exact (pin_passed sample_probe sample_chart (sample_tree sample_compositions)
    ltac:(vm_compute; reflexivity)).
Defined.

(** A list fetched inside the loop is reported, and one quoted in a comment is not. *)
Example list_in_loop :
  main sample_probe sample_chart (sample_tree (sample_compositions ++ newline ++
    lines_of ["{{- $nodes := (lookup `v1` `Node` `` ``).items }}"])%string)
  = Done [ListInLoop "v1" "Node"] ().
Proof. vm_compute. reflexivity. Qed.

(** The tokenizer skips blanks but not the end of a line: a call continued on the next line is not
    readable. *)
Example continued_call :
  lookup_args (lines_of ["lookup `v1`"; "`Node` `` ``"]) = [[dq "`v1`"]].
Proof. vm_compute. reflexivity. Qed.
End OriginPinFacts.
