(* ===== verification/NodeLabels.v ===== *)
(** * hack/validate-node-label-preconditions.py: the node labels a render requires are those the
    rendered pods select on

    The gate collects the nodeSelectors of the rendered charts, compares them with the declared
    preconditions, reads the templates and the release asset that grants the node read, and exercises
    the decision with node lists it writes. What helm renders, of a chart and of the umbrella with a
    probe, are parameters. *)
From S2P Require Import Prelude PyStr PyVal Json PyRe PyText Gate.
#[local] Open Scope string_scope.
#[local] Open Scope list_scope.

Module NodeLabels.

Definition label : Type := string * string.
Notation labels_of := (gmap label (gset string)).

Inductive unmeasured :=
  | NotMapping
  | NoComponents
  | NoName
  | NotRendered (component err : string)
  | NoPodSpec
  | NoSelector
  | BadRbac (err : string)
  | EmptyNodesFail (selection tail : string)
  | NoConfigMap (selection : string).

Inductive finding :=
  | NothingDeclared
  | BadEntry (entry : val)
  | EntryWithoutComponents (entry : val)
  | NotDeclared (l : label) (want : list string)
  | NotSelected (l : label)
  | OtherComponents (l : label) (missing extra : list string)
  | NotCalled
  | NeverLookedUp
  | LookedUpAgain (n : nat) (sites : list string)
  | LookupElsewhere
  | NoRange
  | LookupInRange (lookup_at range_at : nat)
  | NotGuarded
  | NotDefined (helper : string)
  | NoReaderName
  | NoRbac
  | VersionedName (name : string)
  | VersionedObject (name : string)
  | VersionedSubject (name : val)
  | NoRole (name : string)
  | RoleWithoutNodes (name : string)
  | NoBinding (name : string)
  | OtherRoleRef (name : val)
  | NoGroup
  | NoWorkflow
  | NotPublished
  | SelfGrant (kind : val)
  | PredicateSkips (missing wanted : val)
  | InertByDefault
  | Inert (selection : string)
  | ReadmeDiffers (selection : string) (extra missing : list string)
  | LabelledRefused (selection shape : string)
  | LabelledMissing (selection shape : string) (missing : val)
  | NotEnforced (selection withheld : string)
  | MessageLacks (selection withheld needle : string)
  | MessageNamesNobody (selection withheld : string)
  | NeverShownToFail (labels : list string).

Definition G := gate unmeasured finding.

(** ** 1. What the charts require *)

(** Where a kind keeps its pod spec. *)
Definition POD_SPEC_AT (kind : val) : option (list string) :=
  if existsb (eq_str kind) ["Deployment"; "DaemonSet"; "StatefulSet"; "Job"]
  then Some ["spec"; "template"; "spec"]
  else if eq_str kind "CronJob" then Some ["spec"; "jobTemplate"; "spec"; "template"; "spec"]
  else if eq_str kind "Pod" then Some ["spec"]
  else None.

(** The spec of a document's pods; a document that lacks one is passed over. *)
Definition pod_spec (doc : val) : res (option val) :=
  let* kind := get doc "kind" in
  let* kind := hashable kind in
  match POD_SPEC_AT kind with
  | None => Ok None
  | Some path =>
      match getpath doc path with
      | Ok spec => Ok (Some spec)
      | Raise (KeyError _) | Raise TypeError => Ok None
      | Raise e => Raise e
      end
  end.

Definition selector_of (spec : val) : res (list (string * val)) :=
  let* sel := get (or_ spec (VDict [])) "nodeSelector" in
  items (or_ sel (VDict [])).

(** [measured.setdefault((key, str(value)), set()).add(name)] *)
Definition add_label (name : string) (m : labels_of) (kv : string * val) : res labels_of :=
  let* v := py_str kv.2 in
  Ok (<[(kv.1, v) := {[name]} ∪ default ∅ (m !! (kv.1, v))]> m).

Definition measure_doc (name : string) (acc : labels_of * nat) (doc : val) : res (labels_of * nat) :=
  let* spec := pod_spec doc in
  match spec with
  | None => Ok acc
  | Some spec =>
      let* sel := selector_of spec in
      let* m := foldM (add_label name) acc.1 sel in
      Ok (m, S acc.2)
  end.

(** [sorted(c["name"] for c in comps)]; the names are strings. *)
Definition read_names (umbrella : val) : G (list string) :=
  let u := or_ umbrella (VDict []) in
  if negb (is_dict u) then measurement_failed NotMapping else
  let* comps := lift (get u "components") in
  match comps with
  | VList ((_ :: _) as l) =>
      match mapM (λ c, getitem c "name" ≫= as_str) l with
      | Ok ns => mret (sorted_strs ns)
      | Raise _ => measurement_failed NoName
      end
  | _ => measurement_failed NoComponents
  end.

(** ** The declared preconditions *)

Definition key_value_of (entry : val) : res (option (val * val)) :=
  match entry with
  | VDict d =>
      match assoc "key" d, assoc "value" d with
      | Some k, Some v => Ok (Some (k, v))
      | _, _ => Ok None
      end
  | _ => Ok None
  end.

(** The components of an entry are strings. *)
Definition component_names (cs : list val) : res (list string) :=
  mapM (λ c, match c with VStr s => Ok s | VList _ | VDict _ => Raise TypeError | _ => Raise Unmodelled end) cs.

Definition declare (m : labels_of) (entry : val) : G labels_of :=
  let* kv := lift (key_value_of entry) in
  match kv with
  | None => let* _ := fail (BadEntry entry) in mret m
  | Some (k, v) =>
      let* cs := lift (get entry "components") in
      match cs with
      | VList ((_ :: _) as l) =>
          let* key := lift (py_str k) in
          let* value := lift (py_str v) in
          let* names := lift (component_names l) in
          mret (<[(key, value) := list_to_set names]> m)
      | _ => let* _ := fail (EntryWithoutComponents entry) in mret m
      end
  end.

Definition read_declared (umbrella : val) : G labels_of :=
  let* declared := lift (get (or_ umbrella (VDict [])) "nodeLabelPreconditions") in
  match declared with
  | VList ((_ :: _) as l) => fold_ declare ∅ l
  | _ => let* _ := fail NothingDeclared in mret ∅
  end.

Definition label_leb (a b : label) : bool :=
  if String.eqb a.1 b.1 then str_leb a.2 b.2 else str_leb a.1 b.1.
Definition sorted_names (s : gset string) : list string := sorted_strs (elements s).

Definition compare_label (measured declared : labels_of) (l : label) : G unit :=
  let want := default ∅ (measured !! l) in
  let have := default ∅ (declared !! l) in
  if decide (want ≠ ∅ ∧ have = ∅) then fail (NotDeclared l (sorted_names want))
  else if decide (have ≠ ∅ ∧ want = ∅) then fail (NotSelected l)
  else if decide (want ≠ have)
  then fail (OtherComponents l (sorted_names (want ∖ have)) (sorted_names (have ∖ want)))
  else mret ().

Definition compare (measured declared : labels_of) : G unit :=
  for_ (isort label_leb (elements (dom measured ∪ dom declared))) (compare_label measured declared).

(** ** 2 and 3. The wiring *)

Definition DOTALL : flags := {| fl_i := false; fl_m := false; fl_s := true |}.
Definition TEMPLATE_COMMENT : re := Eval vm_compute in the (compile "\{\{-?\s*/\*.*?\*/\s*-?\}\}") Eps.

(** The comments are blanked, their lines kept. *)
Definition code_only (text : string) : string :=
  re_sub DOTALL TEMPLATE_COMMENT
    (λ m, string_of_list_ascii (repeat (char 10) (count_char (char 10) (m_text m)))) text.

Definition node_lookup : re := Eval vm_compute in the (compile (dq "lookup\s+`v1`\s+`Node`")) Eps.
Definition range_line : re := Eval vm_compute in the (compile "range\s+\$c\s*:=") Eps.
Definition guard_name : re := Eval vm_compute in the (compile (dq
  "define\s+`osh\.nodeReaderName`\s*-?\}\}\s*([A-Za-z0-9][A-Za-z0-9.-]*)")) Eps.
Definition version_like : re := Eval vm_compute in the
  (compile "v?\d+[.-]\d+[.-]\d+|v\d+-\d+|\bv\d+\b") Eps.

Fixpoint first_index {A} (p : A → bool) (l : list A) : option nat :=
  match l with
  | [] => None
  | x :: l' => if p x then Some O else option_map S (first_index p l')
  end.

(** [lines[max(0, at - 6):at + 1]] *)
Definition window (lines : list string) (at_ : nat) : list string :=
  firstn (S at_ - (at_ - 6)) (skipn (at_ - 6) lines).

Definition check_lookup (compositions_code : string) : G unit :=
  let lines := splitlines compositions_code in
  let lookup_at := first_index (searches no_flags node_lookup) lines in
  let range_at := first_index (searches no_flags range_line) lines in
  let* _ := match lookup_at, range_at with
            | None, _ => fail LookupElsewhere
            | _, None => fail NoRange
            | Some l, Some r => check (negb (Nat.ltb r l)) (LookupInRange (S l) (S r))
            end in
  let guard_window :=
    match lookup_at with Some l => String.concat newline (window lines l) | None => "" end in
  check (contains "osh.nodeReadGranted" guard_window) NotGuarded.

Definition HELPERS_NEEDED : list string :=
  ["osh.nodeReadGranted"; "osh.nodeLabelsWanted"; "osh.nodeLabelsMissing"; "osh.requireNodeLabels";
   "osh.nodeReaderName"].

(** The templates by file name, their comments blanked. *)
Definition check_wired (templates : list (string * string)) (compositions helpers : string) : G unit :=
  let* _ := check (contains "osh.requireNodeLabels" compositions) NotCalled in
  let sites := map fst (List.filter (λ t, searches no_flags node_lookup t.2) templates) in
  let total := list_sum (map (λ t, length (finditer no_flags node_lookup t.2)) templates) in
  let* _ := match total with
            | O => fail NeverLookedUp
            | 1 => check_lookup compositions
            | n => fail (LookedUpAgain n sites)
            end in
  for_ HELPERS_NEEDED (λ h, check (contains (dq "define `" ++ h ++ dq "`")%string helpers) (NotDefined h)).

(** ** The grant *)

Definition name_of (d : val) : res val :=
  let* md := get_default d "metadata" (VDict []) in get md "name".

Definition versioned (s : string) : bool := searches no_flags version_like s.

Definition check_subject (s : val) : G unit :=
  let* n := lift (get_default s "name" (VStr "")) in
  let* t := lift (py_str n) in
  check (negb (versioned t)) (VersionedSubject n).

Definition check_asset (d : val) : G unit :=
  let* md := lift (get_default d "metadata" (VDict [])) in
  let* n := lift (get_default md "name" (VStr "")) in
  let* n := lift (as_str n) in
  let* _ := check (negb (versioned n)) (VersionedObject n) in
  let* ss := lift (get_iter d "subjects") in
  for_ ss check_subject.

(** [x in (r.get(field) or [])], for one of two names. *)
Definition covers (r : val) (field x : string) : res bool :=
  let* l := get r field in
  let l := or_ l (VList []) in
  let* b := key_in x l in
  if b : bool then Ok true else key_in "*" l.

Definition covers_nodes (r : val) : res bool :=
  let* a := covers r "apiGroups" "" in
  if negb a then Ok false else covers r "resources" "nodes".

Definition covers_list (r : val) : res bool :=
  let* a := covers_nodes r in
  if negb a then Ok false else covers r "verbs" "list".

Fixpoint anyM {A} (f : A → res bool) (l : list A) : res bool :=
  match l with
  | [] => Ok false
  | x :: l' => let* b := f x in if b : bool then Ok true else anyM f l'
  end.

Fixpoint filterM {A} (f : A → res bool) (l : list A) : res (list A) :=
  match l with
  | [] => Ok []
  | x :: l' => let* b := f x in let* k := filterM f l' in Ok (if b : bool then x :: k else k)
  end.

Definition named (kind want : string) (d : val) : res bool :=
  let* k := get d "kind" in
  if negb (eq_str k kind) then Ok false else let* n := name_of d in Ok (eq_str n want).

Definition is_group (s : val) : res bool :=
  let* k := get s "kind" in
  if negb (eq_str k "Group") then Ok false else
  let* n := get_default s "name" (VStr "") in
  let* t := py_str n in Ok (startswith "system:serviceaccounts:" t).

Definition check_role (want : string) (docs : list val) : G unit :=
  let* roles := lift (filterM (named "ClusterRole" want) docs) in
  match roles with
  | [] => fail (NoRole want)
  | d :: _ =>
      let* rs := lift (get_iter d "rules") in
      let* ok := lift (anyM covers_list rs) in
      check ok (RoleWithoutNodes want)
  end.

Definition check_binding (want : string) (docs : list val) : G unit :=
  let* bindings := lift (filterM (named "ClusterRoleBinding" want) docs) in
  match bindings with
  | [] => fail (NoBinding want)
  | b :: _ =>
      let* ref := lift (get_dict b "roleRef") in
      let* n := lift (get ref "name") in
      let* _ := check (eq_str n want) (OtherRoleRef n) in
      let* ss := lift (get_iter b "subjects") in
      let* groups := lift (filterM is_group ss) in
      check (negb (Nat.eqb (length groups) 0)) NoGroup
  end.

(** The asset's documents, absent or unparsable, and the release workflow's text. *)
Definition check_grant (helpers : string) (rbac : option (list val + string))
    (workflow : option string) : G unit :=
  match search no_flags guard_name helpers with
  | None => fail NoReaderName
  | Some m =>
      match rbac with
      | None => fail NoRbac
      | Some (inr err) => measurement_failed (BadRbac err)
      | Some (inl all) =>
          let docs := List.filter truthy all in
          let want := group' m 1 in
          let* _ := check (negb (versioned want)) (VersionedName want) in
          let* _ := for_ docs check_asset in
          let* _ := check_role want docs in
          let* _ := check_binding want docs in
          match workflow with
          | None => fail NoWorkflow
          | Some text => check (contains "node-reader-rbac.yaml" text) NotPublished
          end
      end
  end.

(** ** 4. The decision *)

Definition PROBE : string := dq
  ("{{- $sel := splitList ` ` (include `osh.selected` (list $)) }}" ++ newline ++ "{{- $nodes := NODES }}" ++ newline
   ++ "---" ++ newline ++ "apiVersion: v1" ++ newline ++ "kind: ConfigMap" ++ newline ++ "metadata:" ++ newline
   ++ "  name: gate-probe" ++ newline ++ "data:" ++ newline
   ++ "  wanted: {{ include `osh.nodeLabelsWanted` (list $ $sel) | quote }}" ++ newline
   ++ "  missing: {{ include `osh.nodeLabelsMissing` (list $ $sel $nodes) | quote }}" ++ newline
   ++ "{{- include `osh.requireNodeLabels` (list $ $sel $nodes) -}}" ++ newline).

(** A label set: a mapping with distinct keys. *)
Definition label_set : Type := list label.

Definition node_literal (i : nat) (labels : label_set) : string :=
  let pairs := String.concat " " (map (λ kv, dumps_string kv.1 ++ " " ++ dumps_string kv.2)%string
    (isort label_leb labels)) in
  (dq "(dict `metadata` (dict `name` `gate-node-" ++ str_of_Z (Z.of_nat i) ++ dq "` `labels` (dict "
   ++ pairs ++ ")))")%string.

Definition node_list_literal (sets : list label_set) : string :=
  match sets with
  | [] => "list"
  | _ => ("list " ++ String.concat " " (imap node_literal sets))%string
  end.

Definition SELECTIONS : list (string * list string) :=
  [("profile=identity", ["--set"; "profile=identity"]);
   ("profile=full", ["--set"; "profile=full"]);
   ("profile=full-strict", ["--set"; "profile=full-strict"]);
   ("enabled={nova,neutron}", ["--set"; "enabled={nova,neutron}"]);
   ("enabled={keystone}", ["--set"; "enabled={keystone}"])].

Definition EXPECTED : list (string * list string) :=
  [("profile=identity", ["openstack-control-plane=enabled"]);
   ("profile=full", ["openstack-control-plane=enabled"; "openstack-compute-node=enabled";
                     "openvswitch=enabled"; "openstack-network-node=enabled"]);
   ("profile=full-strict", ["openstack-control-plane=enabled"; "openstack-compute-node=enabled";
                            "openvswitch=enabled"])].

Definition tail_of (stderr : string) : string :=
  match strip stderr with
  | "" => ""
  | s => take_str 300 (List.last (splitlines s) "")
  end.

(** The tokens of a space-separated list. *)
Definition tokens (v : val) : res (list string) :=
  match v with
  | VStr s => Ok (List.filter (λ t, negb (String.eqb t "")) (split_on " " s))
  | _ => Raise AttributeError
  end.

(** [t.split("=", 1)] of a token that has an equals sign. *)
Definition pair_of (t : string) : res label :=
  let '(k, sep, v) := partition_at "=" t in if sep : bool then Ok (k, v) else Raise ValueError.

Definition show (l : label) : string := (l.1 ++ "=" ++ l.2)%string.

Definition SHAPES : list (string * nat) := [("one node", 1%nat); ("three nodes", 3%nat)].
Definition ELSEWHERE : label_set := [("kubernetes.io/os", "linux")].

Fixpoint probe_data (docs : list val) : res (option val) :=
  match docs with
  | [] => Ok None
  | d :: docs' =>
      if negb (truthy d) then probe_data docs' else
      let* n := name_of d in
      if eq_str n "gate-probe" then let* data := getitem d "data" in Ok (Some data)
      else probe_data docs'
  end.

Section Renderings.
  (** helm's rendering of the umbrella with a probe template and further arguments: the documents,
      or its stderr. *)
Context (helm_template : string → list string → list val + string).
  (** The documents a component's chart renders, or why there are none. *)
Context (render_docs : string → list val + string).

Definition probe (sets : list label_set) (extra : list string) : list val + string :=
    helm_template (replace_str "NODES" (node_list_literal sets) PROBE) extra.

(** The rendering with no node at all, which must succeed. *)
Definition empty_probe (selection : string) (extra : list string) : G (list val * val) :=
    match probe [] extra with
    | inr stderr => measurement_failed (EmptyNodesFail selection (tail_of stderr))
    | inl docs =>
        let* d := lift (probe_data docs) in
        match d with
        | None | Some VNone => measurement_failed (NoConfigMap selection)
        | Some data => mret (docs, data)
        end
    end.

(** No rendered role may grant the read of nodes. *)
Definition check_rendered (d : val) : G unit :=
    if negb (truthy d) then mret () else
    let* kind := lift (get d "kind") in
    if negb (eq_str kind "ClusterRole" || eq_str kind "Role") then mret () else
    let* rs := lift (get_iter d "rules") in
    for_ rs (λ r, let* c := lift (covers_nodes r) in check (negb c) (SelfGrant kind)).

Definition check_baseline (docs : list val) (data : val) : G unit :=
    let* _ := for_ docs check_rendered in
    let* wanted := lift (getitem data "wanted") in
    let* ts := lift (tokens wanted) in
    let* missing := lift (getitem data "missing") in
    let* _ := check (py_eq missing wanted) (PredicateSkips missing wanted) in
    check (negb (Nat.eqb (length ts) 0)) InertByDefault.

Definition check_readme (selection : string) (wanted : list string) : G unit :=
    match assoc selection EXPECTED with
    | None => mret ()
    | Some exp =>
        let got : gset string := list_to_set wanted in
        let exp : gset string := list_to_set exp in
        check (bool_decide (got = exp))
          (ReadmeDiffers selection (sorted_names (got ∖ exp)) (sorted_names (exp ∖ got)))
    end.

(** Nodes that carry every label must pass. *)
Definition check_carried (selection : string) (extra : list string) (carried : label_set)
      (shape : string * nat) : G unit :=
    match probe (repeat carried shape.2) extra with
    | inr _ => fail (LabelledRefused selection shape.1)
    | inl docs =>
        let* d := lift (probe_data docs) in
        match d with
        | None => mret ()
        | Some got =>
            if negb (truthy got) then mret () else
            let* missing := lift (getitem got "missing") in
            check (negb (truthy missing)) (LabelledMissing selection shape.1 missing)
        end
    end.

Definition check_message (declared : labels_of) (selection withheld msg : string) : G unit :=
    let* _ := check (contains withheld msg) (MessageLacks selection withheld withheld) in
    let* _ := check (contains "kubectl label" msg) (MessageLacks selection withheld "kubectl label") in
    let* l := lift (pair_of withheld) in
    let want := sorted_names (default ∅ (declared !! l)) in
    check (Nat.eqb (length want) 0 || existsb (λ c, contains c msg) want)
      (MessageNamesNobody selection withheld).

(** Nodes that carry every label but one must be refused, with a message that names it. *)
Definition check_withheld (declared : labels_of) (selection : string) (extra : list string)
      (carried : label_set) (enforced : gset string) (withheld : string) : G (gset string) :=
    let rest := List.filter (λ kv, negb (String.eqb (show kv) withheld)) carried in
    match probe [match rest with [] => ELSEWHERE | _ => rest end] extra with
    | inl _ => let* _ := fail (NotEnforced selection withheld) in mret enforced
    | inr msg =>
        let* _ := check_message declared selection withheld msg in
        mret ({[withheld]} ∪ enforced)
    end.

(** [dict(t.split("=", 1) for t in wanted)] *)
Definition carried_of (wanted : list string) : res label_set :=
    foldM (λ d t, let* kv := pair_of t in Ok (dict_set kv.1 kv.2 d)) [] wanted.

Definition check_selection (declared : labels_of) (enforced : gset string)
      (row : string * list string) : G (gset string) :=
    let* (_, data) := empty_probe row.1 row.2 in
    let* wanted := lift (getitem data "wanted") in
    let* ts := lift (tokens wanted) in
    if Nat.eqb (length ts) 0 then let* _ := fail (Inert row.1) in mret enforced else
    let* _ := check_readme row.1 ts in
    let* carried := lift (carried_of ts) in
    let* _ := for_ SHAPES (check_carried row.1 row.2 carried) in
    fold_ (check_withheld declared row.1 row.2 carried) enforced ts.

Definition check_decision (measured declared : labels_of) : G unit :=
    let* (docs, data) := empty_probe "" [] in
    let* _ := check_baseline docs data in
    let* enforced := fold_ (check_selection declared) ∅ SELECTIONS in
    let unenforced := (set_map show (dom measured) : gset string) ∖ enforced in
    check (bool_decide (unenforced = ∅)) (NeverShownToFail (sorted_names unenforced)).

(** The labels of every chart's rendered pods, and how many pod specs there were. *)
Definition measure (names : list string) : G (labels_of * nat) :=
    fold_ (λ acc name,
      if String.eqb name "openstack" then mret acc else
      match render_docs name with
      | inr err => measurement_failed (NotRendered name err)
      | inl docs => lift (foldM (measure_doc name) acc docs)
      end) (∅, O) names.

(** ** 5. Labels no pod selects on *)

(** The label groups under a node of a chart's values, with their path. *)
Fixpoint values_label_groups (fuel : nat) (node : val) (trail : list string)
      : res (list (string * string * string)) :=
    match node with
    | VDict d =>
        match assoc "node_selector_key" d, assoc "node_selector_value" d with
        | None, None =>
            match fuel with
            | O => Raise RecursionError
            | S fuel =>
                let* gs := mapM (λ kv, values_label_groups fuel kv.2 (trail ++ [kv.1])) d in
                Ok (concat gs)
            end
        | k, v =>
            let* k := py_str (default VNone k) in
            let* v := py_str (default VNone v) in
            Ok [(k, v, String.concat "." trail)]
        end
    | _ => Ok []
    end.

(** The parsed values of a component's chart, if there are any, or the parser's error. *)
Definition values_labels (component_values : string → option (val + string)) (fuel : nat)
      (in_values : list (label * string)) (name : string) : G (list (label * string)) :=
    match component_values name with
    | None => mret in_values
    | Some (inr err) => measurement_failed (NotRendered name err)
    | Some (inl v) =>
        let* labels := lift (get_dict (or_ v (VDict [])) "labels") in
        let* gs := lift (values_label_groups fuel labels []) in
        mret (in_values ++ map (λ g, ((g.1.1, g.1.2), (name ++ "." ++ g.2)%string)) gs)
    end.

(** ** The gate *)

Record tree := {
  umbrella : val;
  templates : list (string * string);   (* the files of templates/, by name *)
  compositions : string;
  helpers : string;
  rbac : option (list val + string);
  workflow : option string;
  component_values : string → option (val + string) }.

(** The labels the charts require, and those their values name that no pod selects on. *)
Definition main (fuel : nat) (t : tree) : G (labels_of * list (label * string)) :=
    let* names := read_names (umbrella t) in
    let* (measured, pod_specs) := measure names in
    if Nat.eqb pod_specs 0 then measurement_failed NoPodSpec else
    if decide (measured = ∅) then measurement_failed NoSelector else
    let* declared := read_declared (umbrella t) in
    let* _ := compare measured declared in
    let* _ := check_wired (map (λ f, (f.1, code_only f.2)) (templates t))
                (code_only (compositions t)) (code_only (helpers t)) in
    let* _ := check_grant (code_only (helpers t)) (rbac t) (workflow t) in
    let* _ := check_decision measured declared in
    let* in_values := fold_ (values_labels (component_values t) fuel) [] names in
    mret (measured, List.filter (λ l, bool_decide (measured !! l.1 = None)) in_values).
End Renderings.
End NodeLabels.
