(* ===== verification/NodeLabelsFacts.v ===== *)
(** * Theorems about the node-label gate and the precondition it checks

    What the gate measures, what its passing establishes of the declared preconditions and of the
    decision, and what the umbrella's precondition then refuses. *)
From S2P Require Import Prelude PyStr PyVal PyRe PyText Gate Umbrella UmbrellaRuns NodeLabels.
#[local] Open Scope string_scope.
#[local] Open Scope list_scope.

Module NodeLabelsFacts.
Import NodeLabels.

Definition at_ (m : labels_of) (l : label) : gset string := default ∅ (m !! l).

Section Facts.
Context (helm_template : string → list string → list val + string).
Context (render_docs : string → list val + string).

(** Some rendered pod of the component selects on the label. *)
Definition doc_selects (doc : val) (l : label) : Prop :=
  ∃ spec sel v, pod_spec doc = Ok (Some spec) ∧ selector_of spec = Ok sel ∧
    (l.1, v) ∈ sel ∧ py_str v = Ok l.2.
Definition selects (name : string) (l : label) : Prop :=
  ∃ docs doc, render_docs name = inl docs ∧ doc ∈ docs ∧ doc_selects doc l.

(** ** The measurement *)

Lemma add_label_spec name m kv m' l n :
  add_label name m kv = Ok m' →
  n ∈ at_ m' l ↔ n ∈ at_ m l ∨ (n = name ∧ kv.1 = l.1 ∧ py_str kv.2 = Ok l.2).
Proof.
  unfold add_label, at_. intros H. res_inv H. subst m'. destruct l as [k v].
  destruct (decide ((kv.1, a) = (k, v))) as [[= <- <-]|Hne].
  - rewrite lookup_insert_eq. cbn [from_option id fst snd]. set_solver.
  - rewrite lookup_insert_ne by done. split; [by left|].
    intros [H|(-> & Hk & Hv)]; [done|]. exfalso. apply Hne. cbn in *. congruence.
Qed.

Lemma add_labels_spec name sel m m' l n :
  foldM (add_label name) m sel = Ok m' →
  n ∈ at_ m' l ↔ n ∈ at_ m l ∨ (n = name ∧ ∃ v, (l.1, v) ∈ sel ∧ py_str v = Ok l.2).
Proof.
  revert m. induction sel as [|kv sel IH]; intros m H; cbn [foldM] in H.
  - injection H as <-. set_solver.
  - res_inv H. rewrite (IH _ H), (add_label_spec _ _ _ _ _ _ Ha).
    setoid_rewrite elem_of_cons. destruct kv as [k v]. cbn [fst snd]. split.
    + intros [[Hm|(-> & <- & Hv)]|(-> & w & Hw)]; [by left|right; eauto|right; naive_solver].
    + intros [Hm|(-> & w & [[= <- <-]|Hw] & Hv)]; [by left; left|left; right; eauto|right; eauto].
Qed.

Lemma measure_docs_spec name docs acc acc' l n :
  foldM (measure_doc name) acc docs = Ok acc' →
  n ∈ at_ acc'.1 l ↔ n ∈ at_ acc.1 l ∨ (n = name ∧ ∃ doc, doc ∈ docs ∧ doc_selects doc l).
Proof.
  revert acc. induction docs as [|doc docs IH]; intros acc H; cbn [foldM] in H.
  - injection H as <-. set_solver.
  - res_inv H. rewrite (IH _ H). unfold measure_doc in Ha. res_inv Ha.
    destruct a0 as [spec|]; cycle 1.
    { injection Ha as <-. setoid_rewrite elem_of_cons. unfold doc_selects. split.
      - intros [Hm|(-> & d & Hd)]; [by left|right]. naive_solver.
      - intros [Hm|(-> & d & [->|Hd] & Hs)]; [by left| |right; eauto].
        destruct Hs as (s & sel & v & Hs & _). congruence. }
    res_inv Ha. subst a. cbn [fst]. rewrite (add_labels_spec _ _ _ _ _ _ Ha2).
    setoid_rewrite elem_of_cons. unfold doc_selects. split.
    + intros [[Hm|(-> & v & Hv)]|(-> & d & Hd)]; [by left|right; naive_solver|right; naive_solver].
    + intros [Hm|(-> & d & [->|Hd] & Hs)]; [by left; left| |right; eauto].
      destruct Hs as (s & sel & v & Hs & Hsel & Hv). left. right. split; [done|]. exists v. congruence.
Qed.

Lemma measure_spec names acc l n :
  measure render_docs names = Done [] acc →
  n ∈ at_ acc.1 l ↔ n ∈ names ∧ n ≠ "openstack" ∧ selects n l.
Proof.
  unfold measure.
  assert (H : ∀ ns a a', fold_ (λ acc name,
      if String.eqb name "openstack" then mret acc else
      match render_docs name with
      | inr err => measurement_failed (NotRendered name err)
      | inl docs => lift (foldM (measure_doc name) acc docs)
      end : G (labels_of * nat)) a ns = Done [] a' →
    n ∈ at_ a'.1 l ↔ n ∈ at_ a.1 l ∨ (n ∈ ns ∧ n ≠ "openstack" ∧ selects n l)).
  { induction ns as [|m ns IH]; intros a a' Hf; cbn [fold_] in Hf.
    - injection Hf as <-. set_solver.
    - apply bind_clean in Hf as (a1 & H1 & Hf). rewrite (IH _ _ Hf). setoid_rewrite elem_of_cons.
      destruct (String.eqb_spec m "openstack") as [->|Hm].
      + injection H1 as <-. naive_solver.
      + destruct (render_docs m) as [docs|] eqn:Er; [|done].
        apply lift_Done in H1 as [H1 _]. rewrite (measure_docs_spec _ _ _ _ _ _ H1).
        unfold selects. split.
        * intros [[?|(-> & doc & Hd & Hs)]|(Hn & Hne & Hs)]; [by left|right; eauto 10|right; eauto].
        * intros [?|([->|Hn] & Hne & docs' & doc & Hr & Hd & Hs)]; [by left; left| |right; eauto 10].
          left. right. split; [done|]. exists doc. split; [|done]. congruence. }
  intros Hf. rewrite (H _ _ _ Hf). cbn. set_solver.
Qed.

(** ** The comparison *)

Definition no_empty (m : labels_of) : Prop := ∀ l s, m !! l = Some s → s ≠ ∅.

Lemma add_label_no_empty name m kv m' : no_empty m → add_label name m kv = Ok m' → no_empty m'.
Proof.
  unfold add_label. intros Hm H. res_inv H. subst m'. intros l s.
  rewrite lookup_insert_Some. intros [[_ <-]|[_ Hs]]; [set_solver|by eapply Hm].
Qed.

Lemma measure_no_empty names acc : measure render_docs names = Done [] acc → no_empty acc.1.
Proof.
  unfold measure. intros H.
  assert (Hall : ∀ ns a a', no_empty a.1 → fold_ (λ acc name,
      if String.eqb name "openstack" then mret acc else
      match render_docs name with
      | inr err => measurement_failed (NotRendered name err)
      | inl docs => lift (foldM (measure_doc name) acc docs)
      end : G (labels_of * nat)) a ns = Done [] a' → no_empty a'.1).
  { induction ns as [|m ns IH]; intros a a' Ha Hf; cbn [fold_] in Hf; [by injection Hf as <-|].
    apply bind_clean in Hf as (a1 & H1 & Hf). eapply IH; [|done].
    destruct (String.eqb m "openstack"); [by injection H1 as <-|].
    destruct (render_docs m) as [docs|]; [|done]. apply lift_Done in H1 as [H1 _].
    eapply (foldM_invariant (λ acc, no_empty acc.1)); [|done|done].
    intros acc0 doc acc1 Hacc0 Hd. unfold measure_doc in Hd. res_inv Hd.
    destruct a0 as [spec|]; [|by injection Hd as <-]. res_inv Hd. subst acc1. cbn.
    eapply (foldM_invariant no_empty); [|done|done]. intros ? ? ?. apply add_label_no_empty. }
  eapply Hall; [|done]. intros l s. cbn. by rewrite lookup_empty.
Qed.

Lemma component_names_ne l names : component_names l = Ok names → l ≠ [] → names ≠ [].
Proof. unfold component_names. intros H Hl ->. destruct l as [|c l]; [done|]. cbn in H. by res_inv H. Qed.

Lemma declared_no_empty umbrella m : read_declared umbrella = Done [] m → no_empty m.
Proof.
  unfold read_declared. intros H. gate_inv H.
  destruct v as [| | | | |[|e l]|]; try by (gate_inv H).
  assert (Hall : ∀ es a a', no_empty a → fold_ declare a es = Done [] a' → no_empty a').
  { induction es as [|x es IH]; intros a a' Ha Hf; cbn [fold_] in Hf; [by injection Hf as <-|].
    apply bind_clean in Hf as (a1 & H1 & Hf). eapply IH; [|done].
    unfold declare in H1. gate_inv H1. destruct v as [[k v]|]; [|by gate_inv H1].
    gate_inv H1. destruct v0 as [| | | | |[|c cs]|]; try by (gate_inv H1).
    gate_inv H1. injection H1 as <-. intros l0 s. rewrite lookup_insert_Some.
    intros [[_ <-]|[_ Hs]]; [|by eapply Ha].
    apply component_names_ne in Hv4; [|done].
    match goal with |- list_to_set ?ns ≠ ∅ => destruct ns as [|n ns']; [done|] end. set_solver. }
  eapply Hall; [|done]. intros l0 s. by rewrite lookup_empty.
Qed.

Lemma compare_exact measured declared :
  no_empty measured → no_empty declared →
  compare measured declared = Done [] () ↔ declared = measured.
Proof.
  intros Hm Hd. unfold compare, G. rewrite for_clean. split.
  - intros H. apply map_eq. intros l.
    destruct (decide (l ∈ dom measured ∪ dom declared)) as [Hl|Hl].
    + specialize (H l ltac:(by rewrite elem_of_isort, elem_of_elements)). unfold compare_label in H.
      destruct (measured !! l) as [w|] eqn:Ew, (declared !! l) as [h|] eqn:Eh; cbn [from_option id] in H.
      * destruct (decide (w ≠ ∅ ∧ h = ∅)); [done|]. destruct (decide (h ≠ ∅ ∧ w = ∅)); [done|].
        destruct (decide (w ≠ h)) as [|Hwh]; [done|]. f_equal. apply dec_stable in Hwh. done.
      * destruct (decide _) as [_|Hn]; [done|]. exfalso. apply Hn. split; [by eapply Hm|done].
      * destruct (decide _) as [_|_]; [done|]. destruct (decide _) as [_|Hn]; [done|].
        exfalso. apply Hn. split; [by eapply Hd|done].
      * done.
    + apply not_elem_of_union in Hl as [H1 H2]. apply not_elem_of_dom in H1, H2. congruence.
  - intros -> l _. unfold compare_label.
    repeat (destruct (decide _) as [Hn|_]; [by destruct Hn|]). done.
Qed.

(** ** The decision *)

(** A probe whose only node lacks the label was refused, with a message that names the label, the
    command, and, when the label is declared, one of its components. *)
Definition refused_without (declared : labels_of) (w : string) : Prop :=
  ∃ row node msg, row ∈ SELECTIONS ∧ (node = ELSEWHERE ∨ node ≠ [] ∧ ∀ kv, kv ∈ node → show kv ≠ w) ∧
    probe helm_template [node] row.2 = inr msg ∧ contains w msg = true ∧
    contains "kubectl label" msg = true ∧
    ∃ l, pair_of w = Ok l ∧ (at_ declared l = ∅ ∨ ∃ c, c ∈ at_ declared l ∧ contains c msg = true).

Definition no_node_renders (row : string * list string) : Prop :=
  ∃ docs data, probe helm_template [] row.2 = inl docs ∧ probe_data docs = Ok (Some data).

Lemma empty_probe_clean sel extra docs data :
  empty_probe helm_template sel extra = Done [] (docs, data) →
  probe helm_template [] extra = inl docs ∧ probe_data docs = Ok (Some data).
Proof.
  unfold empty_probe. intros H. destruct (probe helm_template [] extra) as [ds|]; [|done].
  gate_inv H. destruct v as [[| | | | | |]|]; try done; by injection H as <- <-.
Qed.

Lemma check_message_clean declared sel w msg :
  check_message declared sel w msg = Done [] () →
  contains w msg = true ∧ contains "kubectl label" msg = true ∧
  ∃ l, pair_of w = Ok l ∧ (at_ declared l = ∅ ∨ ∃ c, c ∈ at_ declared l ∧ contains c msg = true).
Proof.
  unfold check_message. intros H. gate_inv H. do 2 (split; [done|]). exists v. split; [done|].
  apply check_clean, orb_true_iff in H as [H|H].
  - left. apply Nat.eqb_eq, nil_length_inv in H. unfold sorted_names, sorted_strs in H.
    apply isort_nil, elements_empty_inv in H. by apply leibniz_equiv.
  - right. apply existsb_exists in H as (c & Hin & Hmsg). exists c. split; [|done].
    apply list_elem_of_In in Hin. unfold sorted_names in Hin.
    by rewrite elem_of_sorted_strs, elem_of_elements in Hin.
Qed.

Lemma check_withheld_clean declared sel extra carried enforced w enforced' :
  (sel, extra) ∈ SELECTIONS →
  check_withheld helm_template declared sel extra carried enforced w = Done [] enforced' →
  (∀ x, x ∈ enforced → refused_without declared x) →
  ∀ x, x ∈ enforced' → refused_without declared x.
Proof.
  intros Hsel. unfold check_withheld. cbv zeta.
  set (rest := List.filter (λ kv, negb (String.eqb (show kv) w)) carried).
  set (node := match rest with [] => ELSEWHERE | _ => rest end).
  intros H He x Hx. destruct (probe helm_template [node] extra) as [|msg] eqn:Ep; [by gate_inv H|].
  apply bind_clean in H as ([] & Hm & H). injection H as <-.
  apply elem_of_union in Hx as [->%elem_of_singleton|Hx]; [|by apply He].
  apply check_message_clean in Hm as (H1 & H2 & H3). exists (sel, extra), node, msg.
  split; [done|]. split; [|done]. unfold node. destruct rest as [|kv r] eqn:Er; [by left|right].
  split; [done|]. rewrite <- Er. intros kv' Hkv. apply list_elem_of_In, filter_In in Hkv as [_ Hkv].
  by apply negb_true_iff, String.eqb_neq in Hkv.
Qed.

Lemma check_selection_clean declared enforced row enforced' :
  row ∈ SELECTIONS →
  (∀ x, x ∈ enforced → refused_without declared x) →
  check_selection helm_template declared enforced row = Done [] enforced' →
  no_node_renders row ∧ ∀ x, x ∈ enforced' → refused_without declared x.
Proof.
  intros Hrow He. unfold check_selection. intros H. apply bind_clean in H as ([docs data] & Hp & H).
  apply empty_probe_clean in Hp. split; [by exists docs, data|].
  gate_inv H. destruct (Nat.eqb (length v0) 0); [by gate_inv H|]. gate_inv H.
  revert H. apply (fold_keeps (λ enf, ∀ x, x ∈ enf → refused_without declared x)); [|done].
  intros enf w enf' _ Henf Hw. destruct row as [sel extra]. by eapply check_withheld_clean.
Qed.

Lemma label_decision_clean measured declared :
  check_decision helm_template measured declared = Done [] () →
  (∀ row, row ∈ SELECTIONS → no_node_renders row) ∧
  (∀ l, l ∈ dom measured → refused_without declared (show l)).
Proof.
  unfold check_decision. intros H. apply bind_clean in H as ([docs data] & _ & H).
  apply bind_clean in H as ([] & _ & H). apply bind_clean in H as (enforced & Hf & H).
  apply check_clean, bool_decide_eq_true in H. split.
  - intros row Hrow.
    assert (Hall : ∀ rows enf enf', (∀ r, r ∈ rows → r ∈ SELECTIONS) →
      (∀ x, x ∈ enf → refused_without declared x) →
      fold_ (check_selection helm_template declared) enf rows = Done [] enf' →
      ∀ r, r ∈ rows → no_node_renders r).
    { induction rows as [|r rows IH]; intros enf enf' Hin Henf Hfold r' Hr'; [by apply elem_of_nil in Hr'|].
      cbn [fold_] in Hfold. apply bind_clean in Hfold as (e1 & H1 & H2).
      apply check_selection_clean in H1 as [Hn He1]; [|apply Hin; left|done].
      apply elem_of_cons in Hr' as [->|Hr']; [done|].
      eapply IH; [|exact He1|exact H2|done]. intros; apply Hin; by right. }
    eapply (Hall SELECTIONS ∅); [done|set_solver|done|done].
  - assert (Henf : ∀ x, x ∈ enforced → refused_without declared x).
    { revert Hf. apply (fold_keeps (λ enf, ∀ x, x ∈ enf → refused_without declared x)); [|set_solver].
      intros enf row enf' Hrow Henf Hs. by apply check_selection_clean in Hs as [_ Hs]. }
    intros l Hl. apply Henf. assert (Hs : show l ∈ (set_map show (dom measured) : gset string)).
    { apply elem_of_map. eauto. }
    set_solver.
Qed.

(** What a passing gate has measured and read. *)
Lemma gate_measures fuel t measured unused :
  main helm_template render_docs fuel t = Done [] (measured, unused) →
  ∃ names, read_names (umbrella t) = Done [] names ∧
    read_declared (umbrella t) = Done [] measured ∧ measured ≠ ∅ ∧
    (∀ l n, n ∈ at_ measured l ↔ n ∈ names ∧ n ≠ "openstack" ∧ selects n l) ∧
    check_decision helm_template measured measured = Done [] ().
Proof.
  unfold main. intros H. apply bind_clean in H as (names & Hn & H).
  apply bind_clean in H as ([m specs] & Hm & H).
  destruct (Nat.eqb specs 0); [done|]. destruct (decide (m = ∅)) as [|Hne]; [done|].
  apply bind_clean in H as (declared & Hd & H). apply bind_clean in H as ([] & Hc & H).
  gate_inv H. injection H as -> _. rename a1 into u. destruct u.
  assert (Hm' := measure_no_empty _ _ Hm). assert (Hd' := declared_no_empty _ _ Hd).
  apply (compare_exact _ _ Hm' Hd') in Hc as ->.
  exists names. split_and!; try done. intros l n. by apply (measure_spec _ _ l n Hm).
Qed.

(** A passing gate has found that the declared preconditions name, for each label, exactly the
    components whose rendered pods select on it and no label besides; that the umbrella renders with
    no node in each of the selections; and that each label those pods select on was refused when a
    node list lacked it, with a message that names the label, the command and an affected
    component. *)
Theorem labels_passed fuel t measured unused :
  main helm_template render_docs fuel t = Done [] (measured, unused) →
  ∃ names, read_names (umbrella t) = Done [] names ∧
    read_declared (umbrella t) = Done [] measured ∧ measured ≠ ∅ ∧
    (∀ l n, n ∈ at_ measured l ↔ n ∈ names ∧ n ≠ "openstack" ∧ selects n l) ∧
    (∀ row, row ∈ SELECTIONS → no_node_renders row) ∧
    (∀ l, l ∈ dom measured → refused_without measured (show l)).
Proof.
  intros H. destruct (gate_measures _ _ _ _ H) as (names & Hn & Hd & Hne & Hs & Hdec).
  apply label_decision_clean in Hdec as [H1 H2]. exists names. done.
Qed.
End Facts.

(** ** What the umbrella refuses *)

(** A label written without the separators of the token lists. *)
Definition plain_label (p : Umbrella.precondition) : Prop :=
  UmbrellaRuns.word (Umbrella.p_key p) ∧ UmbrellaRuns.word (Umbrella.p_value p) ∧
  all_chars (λ c, negb (Ascii.eqb c "=")) (Umbrella.p_key p) = true ∧
  all_chars (λ c, negb (Ascii.eqb c "=")) (Umbrella.p_value p) = true ∧ Umbrella.p_value p ≠ "<nil>".

Lemma uniq_elem seen l x : x ∈ Umbrella.uniq_from seen l ↔ x ∈ l ∧ x ∉ seen.
Proof.
  revert seen. induction l as [|y l IH]; intros seen; cbn [Umbrella.uniq_from]; [set_solver|].
  destruct (Umbrella.has y seen) eqn:E.
  - apply UmbrellaRuns.has_spec in E. rewrite IH. set_solver.
  - assert (y ∉ seen) by (rewrite <- UmbrellaRuns.has_spec; congruence).
    rewrite elem_of_cons, IH, elem_of_cons. destruct (decide (x = y)) as [->|]; set_solver.
Qed.

(** A label some selected component wants. *)
Definition wants (vs : Umbrella.values) (sel : list string) (p : Umbrella.precondition) : Prop :=
  p ∈ Umbrella.nodeLabelPreconditions vs ∧
  ∃ c, c ∈ Umbrella.p_components p ∧ Umbrella.has c sel = true.

Lemma token_ne p : Umbrella.token p ≠ "".
Proof. unfold Umbrella.token. by destruct (Umbrella.p_key p). Qed.

Lemma wanted_tokens vs sel t :
  (∀ p, p ∈ Umbrella.nodeLabelPreconditions vs → plain_label p) →
  t ∈ Umbrella.compact (split_on " " (Umbrella.nodeLabelsWanted vs sel)) ↔
  ∃ p, wants vs sel p ∧ t = Umbrella.token p.
Proof.
  intros Hp. rewrite UmbrellaRuns.compact_elem. unfold Umbrella.nodeLabelsWanted.
  set (raw := concat _).
  assert (Hraw : ∀ x, x ∈ raw ↔ ∃ p, wants vs sel p ∧ x = Umbrella.token p).
  { intros x. unfold raw, wants. rewrite list_elem_of_In, in_concat. split.
    - intros (k & Hk & Hx). apply in_map_iff in Hk as (p & <- & Hin).
      apply in_concat in Hx as (k & Hk & Hx). apply in_map_iff in Hk as (c & <- & Hc).
      destruct (Umbrella.has c sel) eqn:E; [|done]. destruct Hx as [<-|[]]. exists p.
      split; [|done]. split; [by apply list_elem_of_In|]. exists c. by rewrite list_elem_of_In.
    - intros (p & (Hin & c & Hc & Hs) & ->). eexists. split.
      + apply in_map_iff. exists p. split; [reflexivity|by apply list_elem_of_In].
      + apply in_concat. eexists. split.
        * apply in_map_iff. exists c. split; [reflexivity|by apply list_elem_of_In].
        * rewrite Hs. by left. }
  assert (Hu : ∀ x, x ∈ sorted_strs (Umbrella.uniq raw) ↔ x ∈ raw).
  { intros x. rewrite elem_of_sorted_strs. unfold Umbrella.uniq. rewrite uniq_elem. set_solver. }
  destruct (sorted_strs (Umbrella.uniq raw)) as [|y ys] eqn:E.
  - cbn. rewrite list_elem_of_singleton. split; [by intros [-> ?]|].
    intros H%Hraw%Hu. by apply elem_of_nil in H.
  - rewrite <- E in *. rewrite split_on_concat_words, Hu, Hraw.
    + split; [by intros [H _]|]. intros H. split; [done|]. destruct H as (p & _ & ->). apply token_ne.
    + by rewrite E.
    + apply Forall_forall. intros x (p & [Hin _] & ->)%Hu%Hraw.
      destruct (Hp p Hin) as (Hk & Hv & _). unfold Umbrella.token, UmbrellaRuns.word in *.
      rewrite all_chars_app, Hk. done.
Qed.

(** No node carries the label. *)
Definition carried_nowhere (nodes : list (list (string * string))) (k v : string) : Prop :=
  ∀ n, n ∈ nodes → assoc k n ≠ Some v.

Lemma carried_false nodes k v :
  v ≠ "<nil>" → Umbrella.carried nodes k v = false ↔ carried_nowhere nodes k v.
Proof.
  intros Hv. unfold carried_nowhere. rewrite <- not_true_iff_false. unfold Umbrella.carried.
  rewrite existsb_exists. setoid_rewrite String.eqb_eq. split.
  - intros H n Hn E. apply H. exists n. split; [by apply list_elem_of_In|]. by rewrite E.
  - intros H (n & Hn & E). apply (H n); [by apply list_elem_of_In|].
    destruct (assoc k n); cbn in E; congruence.
Qed.

Lemma token_split p :
  plain_label p → split_on "=" (Umbrella.token p) = [Umbrella.p_key p; Umbrella.p_value p].
Proof.
  intros (_ & _ & Hk & Hv & _). unfold Umbrella.token.
  change ("=" +:+ Umbrella.p_value p)%string with (String "=" (Umbrella.p_value p)).
  rewrite split_on_app by done. by rewrite split_on_plain.
Qed.

Lemma token_inj p q :
  plain_label p → plain_label q → Umbrella.token p = Umbrella.token q →
  Umbrella.p_key p = Umbrella.p_key q ∧ Umbrella.p_value p = Umbrella.p_value q.
Proof.
  intros Hp Hq E. pose proof (token_split p Hp) as H. rewrite E, (token_split q Hq) in H.
  by injection H.
Qed.

Lemma missing_tokens_spec nodes ts :
  (∀ t, t ∈ ts → ∃ p, plain_label p ∧ t = Umbrella.token p) →
  ∃ ms, Umbrella.missing_tokens nodes ts = Umbrella.Rendered ms ∧
    (∀ m, m ∈ ms → m ≠ "") ∧
    (ms ≠ [] ↔ ∃ p, plain_label p ∧ Umbrella.token p ∈ ts ∧
       carried_nowhere nodes (Umbrella.p_key p) (Umbrella.p_value p)).
Proof.
  induction ts as [|t ts IH]; intros H.
  - exists []. split; [done|]. split; [set_solver|]. split; [done|]. intros (p & _ & Hp & _). set_solver.
  - destruct IH as (ms & Hms & Hne & Hiff); [intros; apply H; by right|].
    destruct (H t ltac:(left)) as (p & Hpl & ->). pose proof Hpl as (_ & _ & Hk & Hv & Hnil).
    cbn [Umbrella.missing_tokens]. rewrite (token_split p Hpl), Hms.
    destruct (Umbrella.carried nodes (Umbrella.p_key p) (Umbrella.p_value p)) eqn:E.
    + exists ms. split; [done|]. split; [done|]. rewrite Hiff. split.
      * intros (q & Hq & Hin & Hc). exists q. split; [done|]. split; [by right|done].
      * intros (q & Hq & [Heq|Hin]%elem_of_cons & Hc); [|by exists q]. exfalso.
        destruct (token_inj q p Hq Hpl Heq) as [H1 H2]. rewrite H1, H2 in Hc.
        apply carried_false in Hc; [congruence|done].
    + exists (Umbrella.token p :: ms). split; [done|]. split.
      * intros m [->|Hm]%elem_of_cons; [apply token_ne|by apply Hne].
      * split; [|done]. intros _. exists p. split; [done|]. split; [left|]. by apply carried_false.
Qed.

Lemma concat_ne l : l ≠ [] → (∀ m, m ∈ l → m ≠ "") → String.concat " " l ≠ "".
Proof.
  intros Hl Hm. destruct l as [|m [|m' l]]; [done|apply Hm; left|].
  change (String.concat " " (m :: m' :: l)) with (m +:+ " " +:+ String.concat " " (m' :: l))%string.
  specialize (Hm m ltac:(left)). by destruct m.
Qed.

Lemma require_spec vs sel nodes :
  (∀ p, p ∈ Umbrella.nodeLabelPreconditions vs → plain_label p) →
  (Umbrella.requireNodeLabels vs sel nodes = Umbrella.Rendered () ∨
   ∃ msg, Umbrella.requireNodeLabels vs sel nodes = Umbrella.RenderError (Umbrella.Refused msg)) ∧
  (Umbrella.requireNodeLabels vs sel nodes ≠ Umbrella.Rendered () ↔
   nodes ≠ [] ∧ ∃ p, wants vs sel p ∧ carried_nowhere nodes (Umbrella.p_key p) (Umbrella.p_value p)).
Proof.
  intros Hp. unfold Umbrella.requireNodeLabels. destruct nodes as [|n ns].
  - split; [by left|]. split; [done|by intros [? _]].
  - set (nodes := n :: ns).
    destruct (missing_tokens_spec nodes
      (Umbrella.compact (split_on " " (Umbrella.nodeLabelsWanted vs sel)))) as (ms & Hms & Hne & Hiff).
    { intros t (p & Hw & ->)%wanted_tokens; [|done]. exists p. split; [apply Hp, Hw|done]. }
    unfold Umbrella.nodeLabelsMissing. rewrite Hms. cbn [mbind Umbrella.rendered_bind mret Umbrella.rendered_ret].
    assert (Hms' : ms ≠ [] ↔ ∃ p, wants vs sel p ∧
              carried_nowhere nodes (Umbrella.p_key p) (Umbrella.p_value p)).
    { rewrite Hiff. split.
      - intros (p & Hpl & (q & Hq & Ht)%wanted_tokens & Hc); [|done]. exists q. split; [done|].
        destruct (token_inj p q Hpl (Hp q (proj1 Hq)) Ht) as [<- <-]. done.
      - intros (p & Hw & Hc). exists p. split; [apply Hp, Hw|]. split; [|done].
        apply wanted_tokens; eauto. }
    destruct ms as [|m ms'].
    + cbn. split; [by left|]. split; [done|]. intros [_ H]. by apply Hms' in H.
    + pose proof (concat_ne (m :: ms') ltac:(done) Hne) as Hc. apply String.eqb_neq in Hc. rewrite Hc.
      split; [right; eauto|]. split; [|done]. intros _. split; [done|]. by apply Hms'.
Qed.

(** The preconditions of the values are those the gate read. *)
Definition same_preconditions (vs : Umbrella.values) (declared : labels_of) : Prop :=
  ∀ l c, c ∈ at_ declared l ↔
    ∃ p, p ∈ Umbrella.nodeLabelPreconditions vs ∧
      (Umbrella.p_key p, Umbrella.p_value p) = l ∧ c ∈ Umbrella.p_components p.

(** C6: when the gate passes on the charts, the umbrella's precondition refuses a render exactly
    when it can see nodes and some rendered pod of a selected component selects on a label that none
    of them carries; otherwise it lets the render go on, and never fails in another way. *)
Theorem refused_iff_unplaceable helm_template render_docs fuel t measured unused vs sel nodes :
  main helm_template render_docs fuel t = Done [] (measured, unused) →
  (∀ declared, read_declared (umbrella t) = Done [] declared → same_preconditions vs declared) →
  (∀ p, p ∈ Umbrella.nodeLabelPreconditions vs → plain_label p) →
  (Umbrella.requireNodeLabels vs sel nodes = Umbrella.Rendered () ∨
   ∃ msg, Umbrella.requireNodeLabels vs sel nodes = Umbrella.RenderError (Umbrella.Refused msg)) ∧
  (Umbrella.requireNodeLabels vs sel nodes ≠ Umbrella.Rendered () ↔
   nodes ≠ [] ∧ ∃ names c k v, read_names (umbrella t) = Done [] names ∧ c ∈ names ∧ c ≠ "openstack" ∧
     Umbrella.has c sel = true ∧ selects render_docs c (k, v) ∧ carried_nowhere nodes k v).
Proof.
  intros Hmain Hsame Hplain.
  destruct (gate_measures helm_template render_docs fuel t measured unused Hmain)
    as (names & Hn & Hd & _ & Hsel & _).
  specialize (Hsame _ Hd). destruct (require_spec vs sel nodes Hplain) as [H1 H2].
  split; [done|]. rewrite H2. apply and_iff_compat_l. unfold wants. split.
  - intros (p & (Hp & c & Hc & Hs) & Hw).
    exists names, c, (Umbrella.p_key p), (Umbrella.p_value p).
    assert (Hin : c ∈ at_ measured (Umbrella.p_key p, Umbrella.p_value p)) by (apply Hsame; eauto).
    apply Hsel in Hin as (? & ? & ?). done.
  - intros (names' & c & k & v & Hn' & Hc & Hne & Hs & Hl & Hw). assert (names' = names) as -> by congruence.
    assert (Hin : c ∈ at_ measured (k, v)) by (apply Hsel; auto).
    apply Hsame in Hin as (p & Hp & [= <- <-] & Hcp). exists p. eauto 10.
Qed.

(** ** A concrete chart *)

Definition LABELS : list (string * string) :=
  [("openstack-control-plane", "keystone"); ("openstack-compute-node", "nova");
   ("openvswitch", "openvswitch"); ("openstack-network-node", "octavia")].

Definition sample_component (name tier : string) (provisioning : bool) : Umbrella.component :=
  {| Umbrella.c_name := name; Umbrella.c_kind := name; Umbrella.c_tier := tier; Umbrella.c_deps := [];
     Umbrella.c_requiresProvisioning := provisioning |}.

Definition sample_values (profile : string) (enabled : list string) : Umbrella.values :=
  {| Umbrella.chartVersion := "0.3.33"; Umbrella.namespace := "openstack";
     Umbrella.components := [sample_component "keystone" "identity" false; sample_component "nova" "compute" false;
       sample_component "openvswitch" "compute" false; sample_component "octavia" "compute" true];
     Umbrella.enabled := enabled; Umbrella.profile := profile; Umbrella.dependencyRelaxations := [];
     Umbrella.nodeLabelPreconditions := map (λ l, {| Umbrella.p_key := l.1; Umbrella.p_value := "enabled";
       Umbrella.p_components := [l.2] |}) LABELS;
     Umbrella.componentValues := [] |}.

Definition values_for (extra : list string) : Umbrella.values :=
  match extra with
  | [_; "profile=identity"] => sample_values "identity" []
  | [_; "profile=full-strict"] => sample_values "full-strict" []
  | [_; "enabled={nova,neutron}"] => sample_values "full" ["nova"; "neutron"]
  | [_; "enabled={keystone}"] => sample_values "full" ["keystone"]
  | _ => sample_values "full" []
  end.

(** The rendering of a probe: the helpers of the umbrella on the nodes it was written with. *)
Definition sample_helm (body : string) (extra : list string) : list val + string :=
  let vs := values_for extra in
  let sel := Umbrella.sel_list vs in
  let nodes := if contains "$nodes := list }}" body then []
    else [map (λ l, (l.1, "enabled")) (List.filter (λ l, contains (dq "`" ++ l.1 ++ dq "` `enabled`")%string body) LABELS)] in
  match Umbrella.requireNodeLabels vs sel nodes, Umbrella.nodeLabelsMissing vs sel nodes with
  | Umbrella.Rendered _, Umbrella.Rendered missing =>
      inl [VDict [("kind", VStr "ConfigMap"); ("metadata", VDict [("name", VStr "gate-probe")]);
        ("data", VDict [("wanted", VStr (Umbrella.nodeLabelsWanted vs sel)); ("missing", VStr missing)])]]
  | Umbrella.RenderError (Umbrella.Refused msg), _ => inr msg
  | _, _ => inr ""
  end.

Definition deployment (label : string) : val :=
  VDict [("kind", VStr "Deployment"); ("spec", VDict [("template", VDict [("spec",
    VDict [("nodeSelector", VDict [(label, VStr "enabled")])])])])].

Definition sample_docs (name : string) : list val + string :=
  match List.find (λ l, String.eqb l.2 name) LABELS with
  | Some l => inl [deployment l.1]
  | None => inr "no chart"
  end.

Definition strings (l : list string) : val := VList (map VStr l).

Definition text (l : list string) : string := dq (String.concat newline l).

Definition sample_tree : tree :=
  {| umbrella := VDict
       [("components", VList (map (λ l, VDict [("name", VStr l.2)]) LABELS));
        ("nodeLabelPreconditions", VList (map (λ l, VDict [("key", VStr l.1); ("value", VStr "enabled");
           ("components", strings [l.2])]) LABELS))];
     templates := [("compositions.yaml", text ["{{- $nodes = ((lookup `v1` `Node` `` ``).items) }}"])];
     compositions := text ["{{- if eq (include `osh.nodeReadGranted` (list $)) `true` }}";
       "{{- $nodes = ((lookup `v1` `Node` `` ``).items) }}"; "{{- end }}";
       "{{- include `osh.requireNodeLabels` (list $ $sel $nodes) -}}"; "{{- range $c := .Values.components }}"];
     helpers := text ["{{- define `osh.nodeReadGranted` -}}"; "{{- define `osh.nodeLabelsWanted` -}}";
       "{{- define `osh.nodeLabelsMissing` -}}"; "{{- define `osh.requireNodeLabels` -}}";
       "{{- define `osh.nodeReaderName` -}}"; "krateo-openstack-node-reader"; "{{- end -}}"];
     rbac := Some (inl
       [VDict [("kind", VStr "ClusterRole"); ("metadata", VDict [("name", VStr "krateo-openstack-node-reader")]);
          ("rules", VList [VDict [("apiGroups", strings [""]); ("resources", strings ["nodes"]);
             ("verbs", strings ["get"; "list"])]])];
        VDict [("kind", VStr "ClusterRoleBinding"); ("metadata", VDict [("name", VStr "krateo-openstack-node-reader")]);
          ("roleRef", VDict [("name", VStr "krateo-openstack-node-reader")]);
          ("subjects", VList [VDict [("kind", VStr "Group"); ("name", VStr "system:serviceaccounts:openstack")]])]]);
     workflow := Some "node-reader-rbac.yaml";
     component_values := λ _, None |}.

Definition clean {A} (g : G A) : bool := match g with Done [] _ => true | _ => false end.
Definition value {A} (d : A) (g : G A) : A := match g with Done _ a => a | _ => d end.
Lemma clean_value {A} (d : A) (g : G A) : clean g = true → g = Done [] (value d g).
Proof. by destruct g as [[|]|]. Qed.

Definition sample_run : G (labels_of * list (label * string)) := main sample_helm sample_docs 100 sample_tree.
Definition sample_measured : labels_of := (value (∅, []) sample_run).1.

Lemma sample_passes : main sample_helm sample_docs 100 sample_tree = Done [] (sample_measured, (value (∅, []) sample_run).2).
Proof.
  assert (H : clean sample_run = true) by (vm_compute; reflexivity).
  apply (clean_value (∅, [])) in H. unfold sample_measured. by rewrite <- surjective_pairing.
Qed.

Lemma labels_passed_witness :
  (map show (elements (dom sample_measured)) ≡ₚ
     map (λ l, l.1 ++ "=enabled")%string LABELS) ∧
  ∃ names, read_names (umbrella sample_tree) = Done [] names ∧
    read_declared (umbrella sample_tree) = Done [] sample_measured ∧ sample_measured ≠ ∅ ∧
    (∀ l n, n ∈ at_ sample_measured l ↔ n ∈ names ∧ n ≠ "openstack" ∧ selects sample_docs n l) ∧
    (∀ row, row ∈ SELECTIONS → no_node_renders sample_helm row) ∧
    (∀ l, l ∈ dom sample_measured → refused_without sample_helm sample_measured (show l)).
Proof.
  split; [apply (bool_decide_unpack _); vm_compute; exact I|].
  exact (labels_passed sample_helm sample_docs 100 sample_tree sample_measured _ sample_passes).
Defined.

Lemma sample_same declared :
  read_declared (umbrella sample_tree) = Done [] declared → same_preconditions (sample_values "full" []) declared.
Proof.
  intros H [k v] c. unfold at_. cbn in H. unfold mbind in H. cbn in H. injection H as <-.
  cbn [sample_values Umbrella.nodeLabelPreconditions]. unfold LABELS. cbn [map fst snd].
  rewrite !lookup_insert. repeat case_decide; simplify_eq/=; [| | | |set_solver].
  all: split;
    [intros [->%elem_of_singleton|Hc%elem_of_empty]%elem_of_union; [|done];
     match goal with |- ∃ p, _ ∧ _ = (?k, ?v) ∧ ?c ∈ _ =>
       exists {| Umbrella.p_key := k; Umbrella.p_value := v; Umbrella.p_components := [c] |} end;
     split; [|split; [reflexivity|left]]; repeat first [left; reflexivity | right]
    |intros (p & Hp & E & Hc);
     repeat (apply elem_of_cons in Hp as [->|Hp]; [simplify_eq/=; set_solver|]); by apply elem_of_nil in Hp].
Qed.

Lemma sample_plain p : p ∈ Umbrella.nodeLabelPreconditions (sample_values "full" []) → plain_label p.
Proof.
  intros Hp. cbn [sample_values Umbrella.nodeLabelPreconditions LABELS map fst snd] in Hp.
  repeat (apply elem_of_cons in Hp as [->|Hp]; [by repeat split|]). by apply elem_of_nil in Hp.
Qed.

(** Nodes that carry the control-plane label only, and a selection with nova. *)
Definition sample_nodes : list (list (string * string)) := [[("openstack-control-plane", "enabled")]].

Lemma refused_iff_unplaceable_witness :
  Umbrella.requireNodeLabels (sample_values "full" []) ["keystone"] sample_nodes = Umbrella.Rendered () ∧
  let r := Umbrella.requireNodeLabels (sample_values "full" []) ["nova"] sample_nodes in
  (r = Umbrella.Rendered () ∨ ∃ msg, r = Umbrella.RenderError (Umbrella.Refused msg)) ∧
  (r ≠ Umbrella.Rendered () ↔
   sample_nodes ≠ [] ∧ ∃ names c k v, read_names (umbrella sample_tree) = Done [] names ∧ c ∈ names ∧
     c ≠ "openstack" ∧ Umbrella.has c ["nova"] = true ∧ selects sample_docs c (k, v) ∧
     carried_nowhere sample_nodes k v).
Proof.
  split; [vm_compute; reflexivity|].
  exact (refused_iff_unplaceable sample_helm sample_docs 100 sample_tree sample_measured _
    (sample_values "full" []) ["nova"] sample_nodes sample_passes sample_same sample_plain).
Defined.
End NodeLabelsFacts.
