(* ===== verification/Powerdns.v ===== *)
(** * hack/smoke-powerdns.py: running the rendered powerdns pods

    The smoke test drives docker, helm, the file system and the clock. All four are parameters
    that act on an arbitrary world; a run is an [Io] program over the script's own variables
    (what it created, the problems it found) and that world, and its events are the commands
    with their answers, the file operations, the sleeps and the lines printed. The clock is
    read in microseconds. *)
From S2P Require Import Prelude PyStr PyVal PyEq Json Base64 PyRe PyText Io.
#[local] Open Scope string_scope.
#[local] Open Scope list_scope.
#[local] Coercion VStr : string >-> val.

#[local] Notation "'str[' x ; .. ; y ]" := (@cons val x .. (@cons val y (@nil val)) ..)
  (format "str[ x ;  .. ;  y ]").

Module Powerdns.

(** ** What a run does and how it ends *)

(** [SystemExit] and the other exceptions of Python are [Raised]; [Unanswered] is a command or
    a file operation that raises ([TimeoutExpired], [OSError]); [StopIteration] is [next] on an
    iterator with no element; [OutOfFuel] is the model's own. *)
Inductive fault :=
  | Raised (e : exn)
  | StopIteration
  | Unanswered
  | OutOfFuel.

(** Status, standard output and standard error. *)
Record proc := { returncode : Z; stdout : string; stderr : string }.

Inductive file_op :=
  | MkDTemp
  | CopyTree (src dst : string) (dirs_exist_ok : bool)
  | MkDir (path : string)
  | ReadText (path : string)
  | WriteText (path text : string)
  | Chmod (path : string) (mode : Z)
  | RmTree (path : string).

(** One constructor per call of [measurement_failed], with the values its message shows. *)
Inductive failure :=
  | NoTools
  | NoDaemon
  | CommandFailed (cmd : list string) (tail : string)
  | HelmFailed (tail : string)
  | NotRendered (kind : string) (name : option val)
  | UndeclaredVolume (container mount : val)
  | NoConfigKey (container key : val)
  | VolumeType (mount : val)
  | ProbeForm (probe : val)
  | DbExited (logs : string)
  | DbNotUp (logs : string)
  | DbNotBack (logs : string)
  | ServerNotStarted (tail : string).

(** One constructor per [problems.append]. *)
Inductive problem :=
  | NotReadyAfter (after : string)
  | NoAnswerAfter (after answer : string)
  | ServicePort (name target : val)
  | HashUnchanged
  | CopyFailed (tail : string)
  | SyncFailed (tail : string)
  | NoDomains (tables : list string)
  | SecondSyncFailed (tail : string)
  | PartialAccepted (table : string)
  | PartialUnnamed (tail : string)
  | FreshFailed (tail : string)
  | NeverReady (logs : string)
  | KeyRefused
  | WrongKeyAccepted
  | ZoneRefused (status : string)
  | NoSoa (answer : string)
  | ServerGone
  | ReadyWithoutDb
  | DeadWithoutDb
  | SecondaryRefused (status : string)
  | NotifyRefused (rcode : string)
  | NarrowNotReady
  | NarrowNotLive.

Inductive line :=
  | MeasurementFailed (f : failure)
  | NothingVerified
  | StillRunning (what : string) (held : Z)
  | ServerExited (what : string) (held : Z) (code last_line : string)
  | RestartedIs (up : bool)
  | Fail (count : nat)
  | Problem (p : problem)
  | OkLine.

Inductive event :=
  | Ran (argv : list string) (answer : option proc)
  | File (op : file_op) (answer : option string)
  | Slept (seconds : Z)
  | Printed (l : line).

(** ** Text *)

(** [s[-n:]] and [s[:n]] *)
Definition last_chars (n : nat) (s : string) : string := drop_str (String.length s - n) s.

(** [repr] of ASCII text, of a [str] or after the [b] of a [bytes]: the double quote delimits it
    only when the text has a single quote and no double one. *)
Definition escape_char (q c : ascii) : string :=
  if Ascii.eqb c q || Ascii.eqb c "\" then String "\" (String c EmptyString)
  else if (code c =? 10)%Z then "\n" else if (code c =? 13)%Z then "\r"
  else if (code c =? 9)%Z then "\t"
  else if (code c <? 32)%Z || (126 <? code c)%Z then
    "\x" +:+ String (hex_char (code c / 16)) (String (hex_char (code c mod 16)) EmptyString)
  else String c EmptyString.

Fixpoint escape_with (q : ascii) (s : string) : string :=
  match s with
  | EmptyString => EmptyString
  | String c s' => escape_char q c +:+ escape_with q s'
  end.

Definition squote : ascii := "'".
Definition py_repr (s : string) : string :=
  let q := if contains "'" s && negb (contains dquote s) then ascii_of_nat 34 else squote in
  String q (escape_with q s +:+ String q EmptyString).

(** [f"..."], and [repr(json.dumps(body).encode() if body else None)]: the text is ASCII. *)
Definition fstr (t : list val) : res string := String.concat "" <$> mapM py_str t.

Definition body_repr (body : option val) : string :=
  match body with
  | Some b => if truthy b then "b" +:+ py_repr (json_dumps b) else "None"
  | None => "None"
  end.

(** *** A DNS question on the wire *)

(** [struct.pack(">H", n)] for [n] below 65536 *)
Definition pack_h (n : Z) : string :=
  String (char (n / 256)) (String (char (n mod 256)) EmptyString).

(** [bytes([len(p)]) + p.encode()]: a length above 255 is a [ValueError]. *)
Definition wire_label (p : string) : res string :=
  if (256 <=? Z.of_nat (String.length p))%Z then Raise ValueError
  else Ok (String (char (Z.of_nat (String.length p))) p).

Definition is_dot (c : ascii) : bool := Ascii.eqb c ".".
Definition strip_dots (s : string) : string := rstrip_by is_dot (lstrip_by is_dot s).

(** [b"".join(... for p in name.strip(".").split(".")) + b"\0"] *)
Definition qname (name : string) : res string :=
  let* ls := mapM wire_label (split_on "." (strip_dots name)) in
  Ok (String.concat "" ls +:+ String (char 0) EmptyString).

Definition packet (id flags : Z) (name : string) : res string :=
  let* labels := qname name in
  Ok (String.concat "" (pack_h <$> [id; flags; 1; 0; 0; 0]%Z) +:+ labels
      +:+ String.concat "" (pack_h <$> [6; 1]%Z)).

Fixpoint hex (s : string) : string :=
  match s with
  | EmptyString => EmptyString
  | String c s' => String (hex_char (code c / 16)) (String (hex_char (code c mod 16)) (hex s'))
  end.

(** *** Lists *)

(** [next(x for x in l if x["name"] == s)]; [None] is [StopIteration]. *)
Fixpoint next_named (s : string) (l : list val) : res (option val) :=
  match l with
  | [] => Ok None
  | x :: l' =>
      let* n := getitem x "name" in if eq_str n s then Ok (Some x) else next_named s l'
  end.

(** [v[1:]] of a list or a string, as [+=] reads it. *)
Definition slice1 (v : val) : res (list val) :=
  match v with
  | VList l => Ok (tail l)
  | VStr s => Ok (tail (chars s))
  | _ => Raise TypeError
  end.

(** [key in data], for [data] a mapping, a list or a string. *)
Definition val_in (key data : val) : res bool :=
  match data, key with
  | VDict _, VStr k => key_in k data
  | VDict _, _ => let* _ := hashable key in Ok false
  | VList l, _ => Ok (py_in key l)
  | VStr _, VStr k => key_in k data
  | _, _ => Raise TypeError
  end.

(** [data[key]] written to a file: only text can be. *)
Definition text_at (key data : val) : res string :=
  match data, key with
  | VDict _, VStr k => let* t := getitem data k in as_str t
  | VList _, VStr _ => Raise TypeError
  | VList _, _ => Raise Unmodelled
  | _, _ => Raise TypeError
  end.

(** [out.add] over [server["ports"]] *)
Definition port_names (ports : list val) : res (list val) :=
  mapM (λ p, let* n := getitem p "name" in hashable n) ports.

(** An answer line is the status code and the number of answers: the first is 0, the second is
    there and is not 0. *)
Definition unanswered (answer : string) : bool :=
  let ws := words answer in
  negb (bool_decide (take 1 ws = ["0"]))
  || bool_decide (take 1 (List.skipn 1 ws) = []) || bool_decide (take 1 (List.skipn 1 ws) = ["0"]).

(** ** Constants *)

Definition NAMESPACE : string := "openstack".
Definition ROOT_PASSWORD : string := "smoke-root".
Definition ZONE : string := "smoke.example.".
Definition SECONDARY_ZONE : string := "secondary.example.".
Definition OUTAGE_SECONDS : Z := 135.
Definition POLLS : nat := 90.
Definition microseconds : Z := 1000000.

Definition zones_path : string := "/api/v1/servers/localhost/zones".
Definition native_zone : val :=
  VDict [("name", VStr ZONE); ("kind", VStr "Native");
         ("nameservers", VList [VStr ("ns1." +:+ ZONE)])].
Definition secondary_zone : val :=
  VDict [("name", VStr SECONDARY_ZONE); ("kind", VStr "Slave");
         ("masters", VList [VStr "192.0.2.1"])].

(** The restrictions every rendered container runs under. *)
Definition restrictions : list string :=
  ["--cap-drop"; "ALL"; "--sysctl"; "net.ipv4.ip_unprivileged_port_start=1024"].

(** The emptyDirs of one pod. *)
Record pod := { pod_id : string; volumes : list (val * string) }.

(** The script's module-level variables; [pods] holds the dicts [new_pod] made, which the calls
    for one pod share. *)
Record state {W : Type} := State {
  created_containers : list string;
  created_volumes : list string;
  network_created : bool;
  problems : list problem;
  pods : list pod;
  world : W;
}.
Arguments state : clear implicits.

(** Docker and helm, the file system, [uuid4().hex], the clock and [sleep]; PyYAML's
    [safe_load_all] and [safe_load]; [shutil.which]; the resolved root of the repository, the two
    uuids drawn when the script is loaded, and the bound on the iterations of one wait. *)
Class Env (W : Type) := {
  subprocess_run : list string → Z → W → option proc * W;
  filesystem : file_op → W → option string * W;
  uuid4 : W → string * W;
  now : W → Z * W;
  sleep : Z → W → W;
  load_all : string → res (list val);
  load : string → res val;
  which : string → bool;
  ROOT : string;
  api_uuid : string;
  run_uuid : string;
  fuel : nat;
}.

Section Smoke.
  Context {W : Type} {ENV : Env W}.

Definition CHART : string := ROOT +:+ "/blueprints/powerdns/chart".
Definition TOOLKIT : string := ROOT +:+ "/charts/helm-toolkit".
Definition API_KEY : string := "smoke-api-key-" +:+ api_uuid.
Definition RUN : string := take_str 8 run_uuid.
Definition NET : string := "pdns-smoke-" +:+ RUN.
Definition DB : string := "pdns-smoke-db-" +:+ RUN.
Definition SERVER : string := "pdns-smoke-server-" +:+ RUN.

Definition P : Type → Type := Io (state W) event fault.
#[global] Instance P_ret : MRet P := Io_ret.
#[global] Instance P_bind : MBind P := Io_bind.

Definition set_world (w : W) (s : state W) : state W :=
    State W (created_containers s) (created_volumes s) (network_created s) (problems s) (pods s) w.
Definition add_container (n : string) (s : state W) : state W :=
    State W (created_containers s ++ [n]) (created_volumes s) (network_created s) (problems s)
      (pods s) (world s).
Definition add_volume (n : string) (s : state W) : state W :=
    State W (created_containers s) (created_volumes s ++ [n]) (network_created s) (problems s)
      (pods s) (world s).
Definition set_network (s : state W) : state W :=
    State W (created_containers s) (created_volumes s) true (problems s) (pods s) (world s).
Definition add_problem (p : problem) (s : state W) : state W :=
    State W (created_containers s) (created_volumes s) (network_created s) (problems s ++ [p])
      (pods s) (world s).
Definition set_pods (l : list pod) (s : state W) : state W :=
    State W (created_containers s) (created_volumes s) (network_created s) (problems s) l (world s).

Definition lift {A} (r : res A) : P A :=
    match r with Ok a => mret a | Raise e => raise (Raised e) end.
(** [next(...)] *)
Definition lift_next {A} (r : res (option A)) : P A :=
    let* o := lift r in of_option o StopIteration.
Definition print (l : line) : P unit := tell (Printed l).
Definition problem_ (p : problem) : P unit := modify (add_problem p).
Definition file (op : file_op) : P string := λ s,
    let '(a, w) := filesystem op (world s) in
    match a with
    | Some t => (Ret t, [File op a], set_world w s)
    | None => (Exn Unanswered, [File op a], set_world w s)
    end.
Definition uuid : P string := λ s,
    let '(u, w) := uuid4 (world s) in (Ret u, [], set_world w s).
Definition time : P Z := λ s, let '(t, w) := now (world s) in (Ret t, [], set_world w s).
Definition do_sleep (n : Z) : P unit := λ s, (Ret (), [Slept n], set_world (sleep n (world s)) s).

(** [subprocess.run(cmd, capture_output=True, text=True, timeout=timeout)] *)
Definition command (argv : list string) (timeout : Z) : P proc := λ s,
    let '(a, w) := subprocess_run argv timeout (world s) in
    match a with
    | Some p => (Ret p, [Ran argv a], set_world w s)
    | None => (Exn Unanswered, [Ran argv a], set_world w s)
    end.

(** ** Ending and cleaning up *)

Definition cleanup : P unit :=
    let* cs := gets created_containers in
    let* _ := iterM (λ n, let* _ := command ["docker"; "rm"; "-f"; n] 120 in mret ()) cs in
    let* vs := gets created_volumes in
    let* _ := iterM (λ n, let* _ := command ["docker"; "volume"; "rm"; "-f"; n] 120 in mret ()) vs in
    let* b := gets network_created in
    if b : bool then let* _ := command ["docker"; "network"; "rm"; NET] 120 in mret ()
    else mret ().

Definition measurement_failed {A} (f : failure) : P A :=
    let* _ := print (MeasurementFailed f) in
    let* _ := print NothingVerified in
    let* _ := cleanup in
    raise (Raised (SystemExit 1)).

(** [sh] with its [check] and [timeout]: an argument that is not text is a [TypeError] of
    [subprocess.run]. No caller passes [input_text]. *)
Definition sh_for (timeout : Z) (cmd : list val) (check : bool) : P proc :=
    let* argv := lift (mapM as_str cmd) in
    let* out := command argv timeout in
    if check && negb (returncode out =? 0)%Z then
      measurement_failed (CommandFailed (take 4 argv) (last_chars 400 (strip (stderr out))))
    else mret out.
Definition sh (cmd : list val) : P proc := sh_for 120 cmd false.
Definition sh_check (cmd : list val) : P proc := sh_for 120 cmd true.

(** ** Reading the render *)

Definition render (workdir : string) (extra : list val) : P (list val) :=
    let* u := uuid in
    let dst := workdir +:+ "/chart-" +:+ take_str 6 u in
    let* _ := file (CopyTree CHART dst false) in
    let* _ := file (MkDir (dst +:+ "/charts")) in
    let* _ := file (CopyTree TOOLKIT (dst +:+ "/charts/helm-toolkit") true) in
    let* t := file (ReadText (dst +:+ "/Chart.yaml")) in
    let* _ := file (WriteText (dst +:+ "/Chart.yaml")
                      (replace_str "CHART_VERSION" "0.0.0-smoke" t)) in
    let* t := file (ReadText (dst +:+ "/values.yaml")) in
    let* _ := file (WriteText (dst +:+ "/values.yaml")
                      (replace_str "chartVersion: CHART_VERSION"
                         ("chartVersion: " +:+ dquote +:+ "0.0.0-smoke" +:+ dquote) t)) in
    let* out := sh (str["helm"; "template"; "powerdns"; dst; "--namespace"; NAMESPACE] ++ extra) in
    if negb (returncode out =? 0)%Z then
      measurement_failed (HelmFailed (last_chars 400 (strip (stderr out))))
    else let* docs := lift (load_all (stdout out)) in mret (filter (λ d, truthy d = true) docs).

(** The test of one document of [find]. *)
Definition is_named (kind : string) (name : option val) (d : val) : res bool :=
    let* k := get d "kind" in
    if negb (eq_str k kind) then Ok false else
    match name with
    | None => Ok true
    | Some n => let* m := getpath d ["metadata"; "name"] in Ok (py_eq m n)
    end.

Definition filter_res (f : val → res bool) (l : list val) : res (list val) :=
    foldM (λ acc d, let* b := f d in Ok (if b : bool then acc ++ [d] else acc)) [] l.

Definition find (docs : list val) (kind : string) (name : option val) : P val :=
    let* hits := lift (filter_res (is_named kind name) docs) in
    match hits with
    | [] => measurement_failed (NotRendered kind name)
    | d :: _ => mret d
    end.

Definition secret_value (docs : list val) (name key : val) : P string :=
    if eq_str name "powerdns-api-key" then mret API_KEY else
    let* d := find docs "Secret" (Some name) in
    let* data := lift (getitem d "data") in
    let* v := lift (match key with VStr k => getitem data k | _ => Raise Unmodelled end) in
    let* v := lift (as_str v) in
    match b64decode_text v with Some t => mret t | None => raise (Raised ValueError) end.

(** One element of [container["env"]]. *)
Definition env_item (docs : list val) (env : list (val * val)) (item : val) : P (list (val * val)) :=
    let* has := lift (key_in "value" item) in
    if has : bool then
      let* v := lift (let* v := getitem item "value" in py_str v) in
      let* n := lift (let* n := getitem item "name" in hashable n) in
      mret (vset n (VStr v) env)
    else
      let* from := lift (get_default item "valueFrom" (VDict [])) in
      let* has := lift (key_in "secretKeyRef" from) in
      if has : bool then
        let* ref := lift (getitem from "secretKeyRef") in
        let* rn := lift (getitem ref "name") in
        let* rk := lift (getitem ref "key") in
        let* v := secret_value docs rn rk in
        let* n := lift (let* n := getitem item "name" in hashable n) in
        mret (vset n (VStr v) env)
      else mret env.

(** A [for] loop with an accumulator whose body acts. *)
Fixpoint loop {A B} (f : A → B → P A) (acc : A) (l : list B) : P A :=
    match l with [] => mret acc | x :: l' => let* acc := f acc x in loop f acc l' end.

(** Every caller passes an empty [extra]. *)
Definition container_env (docs : list val) (container : val) : P (list (val * val)) :=
    let* l := lift (get_iter container "env") in loop (env_item docs) [] l.

(** ** Pods *)

Definition new_pod : P nat :=
    let* u := uuid in
    let* l := gets pods in
    let* _ := modify (set_pods (l ++ [{| pod_id := take_str 6 u; volumes := [] |}])) in
    mret (length l).

(** [pod_state["volumes"].setdefault(mount_name, docker_vol)] *)
Definition setdefault (i : nat) (k : val) (v : string) : P string :=
    let* l := gets pods in
    match l !! i with
    | None => raise (Raised TypeError)
    | Some p =>
        match vget k ((λ '(k, v), (k, VStr v)) <$> volumes p) with
        | Some (VStr w) => mret w
        | _ =>
            let* _ := modify (set_pods
              (<[i := {| pod_id := pod_id p; volumes := volumes p ++ [(k, v)] |}]> l)) in
            mret v
        end
    end.

(** [f"pdns-smoke-{mount['name']}-{pod_state['id']}"] *)
Definition volume_name (mount_name id : string) : string :=
    "pdns-smoke-" +:+ mount_name +:+ "-" +:+ id.

(** The docker volume of an emptyDir: the pod's, named when it is first mounted. *)
Definition pod_volume (i : nat) (mount_name : val) : P string :=
    let* mns := lift (py_str mount_name) in
    let* l := gets pods in
    let* p := of_option (l !! i) (Raised TypeError) in
    setdefault i mount_name (volume_name mns (pod_id p)).

Definition make_volume (docker_vol : string) : P unit :=
    let* _ := sh_check str["docker"; "volume"; "create"; docker_vol] in
    modify (add_volume docker_vol).

Definition create_volume (DB_IMAGE : val) (docker_vol : string) : P unit :=
    let* _ := make_volume docker_vol in
    let* _ := sh_check str["docker"; "run"; "--rm"; "-v"; docker_vol +:+ ":/v"; DB_IMAGE;
                           "chmod"; "0777"; "/v"] in
    mret ().

(** One turn of the loop over [container["volumeMounts"]]. *)
Definition mount_args (DB_IMAGE : val) (docs : list val) (vols : list (val * val))
      (container : val) (workdir : string) (pod_state : nat) (args : list string) (mount : val)
      : P (list string) :=
    let* mn := lift (let* n := getitem mount "name" in hashable n) in
    match vget mn vols with
    | None =>
        let* cn := lift (getitem container "name") in
        measurement_failed (UndeclaredVolume cn mn)
    | Some vol =>
        let* is_map := lift (key_in "configMap" vol) in
        if is_map : bool then
          let* cm := lift (getpath vol ["configMap"; "name"]) in
          let* d := find docs "ConfigMap" (Some cm) in
          let* data := lift (getitem d "data") in
          let* key := lift (get mount "subPath") in
          let* has := if is_none key then mret false else lift (val_in key data) in
          if negb (has : bool) then
            let* cn := lift (getitem container "name") in
            measurement_failed (NoConfigKey cn key)
          else
            let* path := lift (fstr (str[workdir; "/"; cm; "-"; key])) in
            let* t := lift (text_at key data) in
            let* _ := file (WriteText path t) in
            let* _ := file (Chmod path 493) in
            let* mp := lift (let* m := getitem mount "mountPath" in py_str m) in
            mret (args ++ ["-v"; path +:+ ":" +:+ mp +:+ ":ro"])
        else
          let* is_empty := lift (key_in "emptyDir" vol) in
          if is_empty : bool then
            let* docker_vol := pod_volume pod_state mn in
            let* created := gets created_volumes in
            let* _ := if bool_decide (docker_vol ∈ created) then mret ()
                      else create_volume DB_IMAGE docker_vol in
            let* mp := lift (let* m := getitem mount "mountPath" in py_str m) in
            mret (args ++ ["-v"; docker_vol +:+ ":" +:+ mp])
          else measurement_failed (VolumeType mn)
    end.

(** [{v["name"]: v for v in spec.get("volumes") or []}] *)
Definition volumes_of (spec : val) : res (list (val * val)) :=
    let* l := get_iter spec "volumes" in
    foldM (λ acc v, let* n := getitem v "name" in let* n := hashable n in Ok (vset n v acc)) [] l.

(** [dict(spec.get("securityContext") or {})] updated with the container's. *)
Definition security_context (spec container : val) : res (list (string * val)) :=
    let* a := get spec "securityContext" in
    let* a := match or_ a (VDict []) with VDict d => Ok d | _ => Raise Unmodelled end in
    let* b := get container "securityContext" in
    let* b := match or_ b (VDict []) with VDict d => Ok d | _ => Raise Unmodelled end in
    Ok (foldl (λ acc '(k, v), dict_set k v acc) a b).

Definition user_args (sc : list (string * val)) : res (list string) :=
    let u := default VNone (assoc "runAsUser" sc) in
    if is_none u then Ok [] else let* u := py_str u in Ok ["--user"; u].

Definition privilege_args (sc : list (string * val)) : list string :=
    match assoc "allowPrivilegeEscalation" sc with
    | Some (VBool false) => ["--security-opt"; "no-new-privileges"]
    | _ => []
    end.

Definition docker_args (DB_IMAGE : val) (docs : list val) (spec container : val)
      (workdir : string) (pod_state : nat) : P (list string) :=
    let* vols := lift (volumes_of spec) in
    let* mounts := lift (get_iter container "volumeMounts") in
    let* args := loop (mount_args DB_IMAGE docs vols container workdir pod_state) [] mounts in
    let* sc := lift (security_context spec container) in
    let* user := lift (user_args sc) in
    mret (args ++ user ++ privilege_args sc ++ restrictions).

(** [cmd += ["-e", f"{k}={v}"]] *)
Definition env_args (env : list (val * val)) : res (list string) :=
    foldM (λ acc '(k, v), let* t := fstr (str[k; "="; v]) in Ok (acc ++ ["-e"; t])) [] env.

(** What follows the environment: the entrypoint, the image and the arguments. *)
Definition tail_args (container : val) : res (list val) :=
    let* command := get container "command" in
    let* entry := if truthy command then let* c := getidx command 0 in Ok (str["--entrypoint"; c])
                  else Ok [] in
    let* image := getitem container "image" in
    let* rest := slice1 (or_ command (VList [])) in
    let* args := get_iter container "args" in
    Ok (entry ++ [image] ++ rest ++ args).

Definition docker_run (DB_IMAGE : val) (name : string) (docs : list val) (spec container : val)
      (workdir : string) (pod_state : nat) (detach : bool) : P proc :=
    let* _ := modify (add_container name) in
    let* args := docker_args DB_IMAGE docs spec container workdir pod_state in
    let* env := container_env docs container in
    let* env := lift (env_args env) in
    let* rest := lift (tail_args container) in
    sh_for 180 ((VStr <$> ["docker"; "run"] ++ (if detach then ["-d"] else [])
                  ++ ["--name"; name; "--network"; NET] ++ args ++ env) ++ rest) false.

Definition run_once (DB_IMAGE : val) (docs : list val) (spec container : val)
      (workdir : string) (pod_state : nat) : P proc :=
    let* cn := lift (getitem container "name") in
    let* u := uuid in
    let* name := lift (fstr (str["pdns-smoke-"; cn; "-"; take_str 6 u])) in
    docker_run DB_IMAGE name docs spec container workdir pod_state false.

(** ** Probes and waits *)

Definition probe (container_name : string) (probe_spec : val) : P bool :=
    let* has := lift (key_in "exec" probe_spec) in
    if has : bool then
      let* c := lift (let* c := getpath probe_spec ["exec"; "command"] in py_iter c) in
      let* out := sh (str["docker"; "exec"; container_name] ++ c) in
      mret (returncode out =? 0)%Z
    else measurement_failed (ProbeForm probe_spec).

(** [probe(name, container[key])] *)
Definition probe_of (container_name : string) (container : val) (key : string) : P bool :=
    let* spec := lift (getitem container key) in probe container_name spec.

Definition running (name : string) : P bool :=
    let* out := sh str["docker"; "inspect"; "-f"; "{{.State.Running}}"; name] in
    mret (String.eqb (strip (stdout out)) "true").

Fixpoint wait_loop (n : nat) (fn : P bool) (deadline : Z) (name : string) : P bool :=
    match n with
    | O => raise OutOfFuel
    | S n =>
        let* t := time in
        if negb (t <? deadline)%Z then mret false else
        let* b := fn in
        if b : bool then mret true else
        let* up := running name in
        if negb up then mret false else
        let* _ := do_sleep 1 in wait_loop n fn deadline name
    end.

Definition wait_until (fn : P bool) (seconds : Z) (name : string) : P bool :=
    let* t := time in wait_loop fuel fn (t + seconds * microseconds)%Z name.

Definition db_logs : P string :=
    let* logs := sh str["docker"; "logs"; DB] in
    mret (last_chars 900 (stdout logs +:+ stderr logs)).

Fixpoint poll_db (n : nat) : P bool :=
    match n with
    | O => mret false
    | S n =>
        let* out := sh str["docker"; "exec"; DB; "mariadb"; "-uroot"; "-p" +:+ ROOT_PASSWORD;
                           "-e"; "select 1"] in
        if (returncode out =? 0)%Z then mret true else
        let* up := running DB in
        if negb up then let* l := db_logs in measurement_failed (DbExited l) else
        let* _ := do_sleep 1 in poll_db n
    end.
Definition wait_for_db : P bool := poll_db POLLS.

(** ** Asking the server *)

Definition api_code (port : string) (method path key : string) (body : option val) : string :=
    "import json,sys,urllib.request,urllib.error" +:+ newline
    +:+ "req=urllib.request.Request('http://127.0.0.1:" +:+ port +:+ path +:+ "',method="
    +:+ py_repr method +:+ ",data=" +:+ body_repr body +:+ ",headers={'X-API-Key':" +:+ py_repr key
    +:+ ",'Content-Type':'application/json'})" +:+ newline
    +:+ "try:" +:+ newline
    +:+ "  r=urllib.request.urlopen(req,timeout=5);print(r.status)" +:+ newline
    +:+ "except urllib.error.HTTPError as e:" +:+ newline +:+ "  print(e.code)" +:+ newline.

Definition api (API_PORT : val) (method path key : string) (body : option val) : P string :=
    let* port := lift (py_str API_PORT) in
    let* out := sh str["docker"; "exec"; SERVER; "python3"; "-c"; api_code port method path key body] in
    mret (strip (stdout out)).

Definition dns_code (packet port : string) : string :=
    "import socket,sys" +:+ newline
    +:+ "s=socket.socket(socket.AF_INET,socket.SOCK_DGRAM);s.settimeout(4)" +:+ newline
    +:+ "s.sendto(bytes.fromhex('" +:+ hex packet +:+ "'),('127.0.0.1'," +:+ port +:+ "))" +:+ newline
    +:+ "d=s.recv(512);print(d[3]&15,int.from_bytes(d[6:8],'big'))" +:+ newline.

Definition dns_query (name : string) (port : val) : P string :=
    let* pk := lift (packet 4660 0 name) in
    let* port := lift (py_str port) in
    let* out := sh str["docker"; "exec"; SERVER; "python3"; "-c"; dns_code pk port] in
    mret (strip (stdout out)).

Definition notify_code (packet port : string) : string :=
    "import socket" +:+ newline
    +:+ "s=socket.socket(socket.AF_INET,socket.SOCK_DGRAM);s.settimeout(4)" +:+ newline
    +:+ "s.sendto(bytes.fromhex('" +:+ hex packet +:+ "'),('" +:+ SERVER +:+ "'," +:+ port +:+ "))"
    +:+ newline +:+ "print(s.recv(512)[3]&15)" +:+ newline.

Definition send_notify (server : val) (zone : string) (port : val) : P string :=
    let* pk := lift (packet 16962 9216 zone) in
    let* port := lift (py_str port) in
    let* image := lift (getitem server "image") in
    let* out := sh str["docker"; "run"; "--rm"; "--network"; NET; "--entrypoint"; "python3"; image;
                       "-c"; notify_code pk port] in
    let so := strip (stdout out) in
    mret (if String.eqb so "" then last_chars 200 (strip (stderr out)) else so).

(** ** Outages *)

Fixpoint hold_loop (n : nat) (deadline : Z) : P unit :=
    match n with
    | O => raise OutOfFuel
    | S n =>
        let* t := time in
        if negb (t <? deadline)%Z then mret () else
        let* up := running SERVER in
        if negb up then mret () else let* _ := do_sleep 1 in hold_loop n deadline
    end.

(** The wait of [report_outage], and how long it was; the report shows whole seconds. *)
Definition hold (seconds : Z) : P Z :=
    let* t := time in
    let deadline := (t + seconds * microseconds)%Z in
    let* _ := hold_loop fuel deadline in
    let* t := time in
    mret (seconds * microseconds - (deadline - t))%Z.

Definition report_outage (seconds : Z) (what : string) : P unit :=
    let* held := hold seconds in
    let* up := running SERVER in
    if up : bool then print (StillRunning what held) else
    let* exited := sh str["docker"; "logs"; SERVER] in
    let* code := sh str["docker"; "inspect"; "-f"; "{{.State.ExitCode}}"; SERVER] in
    let* l := of_option (last (splitlines (strip (stdout exited +:+ stderr exited))))
                (Raised IndexError) in
    let* _ := print (ServerExited what held (strip (stdout code)) (take_str 220 l)) in
    let* _ := sh_check str["docker"; "start"; SERVER] in
    let* _ := do_sleep 10 in
    let* up := running SERVER in
    print (RestartedIs up).

Definition recover (server DNS_PORT : val) (after : string) : P unit :=
    let* _ := sh_check str["docker"; "start"; DB] in
    let* b := wait_for_db in
    let* _ := if b : bool then mret () else
              let* l := db_logs in measurement_failed (DbNotBack l) in
    let* up := running SERVER in
    let* _ := if up : bool then mret () else
              let* _ := sh_check str["docker"; "start"; SERVER] in mret () in
    let* ready := wait_until (probe_of SERVER server "readinessProbe") 45 SERVER in
    if negb ready then problem_ (NotReadyAfter after) else
    let* answer := dns_query ZONE DNS_PORT in
    if unanswered answer then problem_ (NoAnswerAfter after answer) else mret ().

(** ** The run *)

(** What the test reads from the render before it starts anything. *)
Record setup := {
    DB_IMAGE : val; docs : list val; pod_spec : val; server : val; job_pod : val;
    API_PORT : val; DNS_PORT : val;
  }.

Definition template_spec (d : val) : res val := getpath d ["spec"; "template"; "spec"].

(** [next(c for c in spec[key] if c["name"] == name)] *)
Definition next_in (spec : val) (key name : string) : P val :=
    lift_next (let* l := getitem spec key in let* l := py_iter l in next_named name l).

(** [next(p["containerPort"] for p in server["ports"] if p["name"] == name)] *)
Definition container_port (server : val) (name : string) : P val :=
    let* p := next_in server "ports" name in lift (getitem p "containerPort").

Definition read_setup (workdir : string) : P setup :=
    let* t := file (ReadText (ROOT +:+ "/blueprints/mariadb/chart/values.yaml")) in
    let* v := lift (load t) in
    let* db_image := lift (getpath v ["images"; "tags"; "mariadb"]) in
    let* ds := render workdir [] in
    let* deployment := find ds "Deployment" None in
    let* pod := lift (template_spec deployment) in
    let* srv := next_in pod "containers" "powerdns" in
    let* job := find ds "Job" (Some (VStr "powerdns-db-sync")) in
    let* jp := lift (template_spec job) in
    let* api_port := container_port srv "api" in
    let* dns_port := container_port srv "dns-udp" in
    mret {| DB_IMAGE := db_image; docs := ds; pod_spec := pod; server := srv; job_pod := jp;
            API_PORT := api_port; DNS_PORT := dns_port |}.

Definition check_service_port (named : list val) (port : val) : P unit :=
    let* target := lift (let* t := getitem port "targetPort" in hashable t) in
    if py_in target named then mret () else
    let* n := lift (getitem port "name") in problem_ (ServicePort n target).

Definition check_service (c : setup) : P unit :=
    let* named := lift (let* l := getitem (server c) "ports" in
                        let* l := py_iter l in port_names l) in
    let* svc := find (docs c) "Service" (Some (VStr "powerdns")) in
    let* ports := lift (let* l := getpath svc ["spec"; "ports"] in py_iter l) in
    iterM (check_service_port named) ports.

Definition db_secret_hash (rendered : list val) : P val :=
    let* d := find rendered "Deployment" None in
    lift (let* a := getpath d ["spec"; "template"; "metadata"; "annotations"] in
          get a "secret-db-hash").

Definition rotated : string := "endpoints.oslo_db.auth.powerdns.password=rotated".

Definition check_rotation (c : setup) (workdir : string) : P unit :=
    let* h := db_secret_hash (docs c) in
    let* same := if is_none h then mret true else
                 let* h := db_secret_hash (docs c) in
                 let* rendered := render workdir (str["--set"; rotated]) in
                 let* h' := db_secret_hash rendered in mret (py_eq h h') in
    if same : bool then problem_ HashUnchanged else mret ().

Definition create_network : P unit :=
    let* _ := sh_check str["docker"; "network"; "create"; NET] in modify set_network.

(** [job_pod["containers"][0]] *)
Definition syncer_of (c : setup) : res val :=
    let* l := getitem (job_pod c) "containers" in getidx l 0.

(** [next(e["value"] for e in job_pod["containers"][0]["env"] if e["name"] == name)] *)
Definition job_env (c : setup) (name : string) : P val :=
    let* first := lift (syncer_of c) in
    let* e := next_in first "env" name in lift (getitem e "value").

Record database := { db_user : val; db_name : val; db_pass : string }.

Definition start_db (c : setup) : P database :=
    let* user := job_env c "DB_USER" in
    let* name := job_env c "DB_NAME" in
    let* pass := secret_value (docs c) "powerdns-db-user" "DB_PASSWORD" in
    let* host := job_env c "DB_HOST" in
    let* _ := modify (add_container DB) in
    let* mdb := lift (fstr (str["MARIADB_DATABASE="; name])) in
    let* mu := lift (fstr (str["MARIADB_USER="; user])) in
    let* _ := sh_check str["docker"; "run"; "-d"; "--name"; DB; "--network"; NET;
                           "--network-alias"; host;
                           "-e"; "MARIADB_ROOT_PASSWORD=" +:+ ROOT_PASSWORD; "-e"; VStr mdb; "-e"; VStr mu;
                           "-e"; "MARIADB_PASSWORD=" +:+ pass; DB_IMAGE c] in
    let* b := wait_for_db in
    let* _ := if b : bool then mret () else
              let* l := db_logs in measurement_failed (DbNotUp l) in
    mret {| db_user := user; db_name := name; db_pass := pass |}.

(** [if p.returncode != 0: problems.append(...)], with the end of both streams *)
Definition failed (p : proc) : bool := negb (returncode p =? 0)%Z.
Definition both (p : proc) : string := stdout p +:+ stderr p.
Definition when (b : bool) (p : problem) : P unit := if b then problem_ p else mret ().

Definition db_sql (d : database) (sql : string) : P unit :=
    let* _ := sh str["docker"; "exec"; DB; "mariadb"; "-uroot"; "-p" +:+ ROOT_PASSWORD; db_name d;
                     "-e"; "SET FOREIGN_KEY_CHECKS=0;" +:+ sql] in
    mret ().

Definition drop_table (t : string) : string := "DROP TABLE " +:+ t +:+ ";".

(** 1: the schema is applied, applying it again is no error, and a schema without its last
    table is refused by name. *)
Definition check_db_sync (c : setup) (d : database) (workdir : string) : P unit :=
    let* job_state := new_pod in
    let* copier := next_in (job_pod c) "initContainers" "powerdns-schema-copy" in
    let* syncer := lift (syncer_of c) in
    let sync := run_once (DB_IMAGE c) (docs c) (job_pod c) syncer workdir job_state in
    let* out := run_once (DB_IMAGE c) (docs c) (job_pod c) copier workdir job_state in
    let* _ := when (failed out) (CopyFailed (last_chars 300 (both out))) in
    let* first := sync in
    let* _ := when (failed first) (SyncFailed (last_chars 400 (both first))) in
    let* u := lift (fstr (str["-u"; db_user d])) in
    let* out := sh str["docker"; "exec"; DB; "mariadb"; VStr u; "-p" +:+ db_pass d; db_name d; "-Nse";
                       "show tables"] in
    let tables := words (stdout out) in
    let* _ := when (bool_decide ("domains" ∉ tables)) (NoDomains tables) in
    let* second := sync in
    let* _ := when (failed second) (SecondSyncFailed (last_chars 300 (both second))) in
    let* last_table := of_option (last tables) (Raised IndexError) in
    let* _ := db_sql d (drop_table last_table) in
    let* partial := sync in
    let* _ := if (returncode partial =? 0)%Z then problem_ (PartialAccepted last_table)
              else when (negb (contains last_table (both partial)))
                     (PartialUnnamed (last_chars 300 (both partial))) in
    let* _ := db_sql d (String.concat "" (drop_table <$> removelast tables)) in
    let* fresh := sync in
    when (failed fresh) (FreshFailed (last_chars 300 (both fresh))).

(** 3 and 4: the API's key is the one that opens it, and a zone made over it answers. *)
Definition check_api (c : setup) : P unit :=
    let* a := api (API_PORT c) "GET" zones_path API_KEY None in
    let* _ := when (negb (String.eqb a "200")) KeyRefused in
    let* a := api (API_PORT c) "GET" zones_path "wrong-key" None in
    let* _ := when (negb (String.eqb a "401")) WrongKeyAccepted in
    let* a := api (API_PORT c) "POST" zones_path API_KEY (Some native_zone) in
    let* _ := when (negb (String.eqb a "201")) (ZoneRefused a) in
    let* answer := dns_query ZONE (DNS_PORT c) in
    when (unanswered answer) (NoSoa answer).

(** 5: with the database stopped the readiness probe fails and the liveness probe passes. *)
Definition check_outage (c : setup) : P unit :=
    let* _ := sh_check str["docker"; "stop"; DB] in
    let* _ := do_sleep 2 in
    let* up := running SERVER in
    let* _ := if negb up then problem_ ServerGone else
              let* r := probe_of SERVER (server c) "readinessProbe" in
              let* _ := when r ReadyWithoutDb in
              let* l := probe_of SERVER (server c) "livenessProbe" in
              when (negb l) DeadWithoutDb in
    let* _ := report_outage OUTAGE_SECONDS "no NOTIFY queued" in
    recover (server c) (DNS_PORT c) "the outage with no NOTIFY queued".

(** 6 and 7: a NOTIFY from a sender that is not the primary, and an outage with it queued. *)
Definition check_notify (c : setup) : P unit :=
    let* a := api (API_PORT c) "POST" zones_path API_KEY (Some secondary_zone) in
    let* _ := when (negb (String.eqb a "201")) (SecondaryRefused a) in
    let* rcode := send_notify (server c) SECONDARY_ZONE (DNS_PORT c) in
    let* _ := when (negb (String.eqb rcode "0")) (NotifyRefused rcode) in
    let* _ := sh_check str["docker"; "stop"; DB] in
    let* _ := report_outage 30 "a NOTIFY queued" in
    recover (server c) (DNS_PORT c) "the outage with a NOTIFY queued".

Definition narrowed : string := "conf.pdns.webserver-allow-from=10.99.0.0/16".

(** 8: both probes still pass when the clients of the web server are narrowed. *)
Definition check_narrow (c : setup) (workdir : string) : P unit :=
    let* narrow := render workdir (str["--set"; narrowed]) in
    let narrow_name := SERVER +:+ "-narrow" in
    let* d := find narrow "Deployment" None in
    let* spec := lift (template_spec d) in
    let* narrow_server := next_in spec "containers" "powerdns" in
    let* p := new_pod in
    let* _ := docker_run (DB_IMAGE c) narrow_name narrow (pod_spec c) narrow_server workdir p true in
    let* ready := wait_until (probe_of narrow_name narrow_server "readinessProbe") 45 narrow_name in
    if negb ready then problem_ NarrowNotReady else
    let* live := probe_of narrow_name narrow_server "livenessProbe" in
    when (negb live) NarrowNotLive.

(** 2: the server, from the rendered container, and what is asked of it when it is ready. *)
Definition check_server (c : setup) (workdir : string) : P unit :=
    let* p := new_pod in
    let* started := docker_run (DB_IMAGE c) SERVER (docs c) (pod_spec c) (server c) workdir p true in
    let* _ := if failed started then
                measurement_failed (ServerNotStarted (last_chars 400 (strip (stderr started))))
              else mret () in
    let* ready := wait_until (probe_of SERVER (server c) "readinessProbe") 45 SERVER in
    if negb ready then
      let* logs := sh str["docker"; "logs"; SERVER] in
      problem_ (NeverReady (last_chars 700 (both logs)))
    else
      let* _ := check_api c in
      let* _ := check_outage c in
      let* _ := check_notify c in
      check_narrow c workdir.

Definition body (workdir : string) : P unit :=
    let* c := read_setup workdir in
    let* _ := check_service c in
    let* _ := check_rotation c workdir in
    let* _ := create_network in
    let* d := start_db c in
    let* _ := check_db_sync c d workdir in
    check_server c workdir.

(** [try: m finally: f]: an exception of [f] replaces the outcome of [m]. *)
Definition finally_ {A} (m : P A) (f : P unit) : P A := λ s,
    let '(o, es, s1) := m s in
    match f s1 with
    | (Ret _, es', s2) => (o, es ++ es', s2)
    | (Exn x, es', s2) => (Exn x, es ++ es', s2)
    end.

(** [shutil.rmtree(workdir, ignore_errors=True)] *)
Definition rmtree (path : string) : P unit := λ s,
    let '(a, w) := filesystem (RmTree path) (world s) in
    (Ret (), [File (RmTree path) a], set_world w s).

Definition report : P unit :=
    let* ps := gets problems in
    match ps with
    | [] => print OkLine
    | _ =>
        let* _ := print (Fail (length ps)) in
        let* _ := iterM (λ p, print (Problem p)) ps in
        raise (Raised (SystemExit 1))
    end.

(** The tools are there and the daemon answers; then there is a working directory. *)
Definition before_try : P string :=
    let* _ := if negb (which "docker") || negb (which "helm") then measurement_failed NoTools
              else mret () in
    let* v := sh str["docker"; "version"] in
    let* _ := if failed v then measurement_failed NoDaemon else mret () in
    file MkDTemp.

Definition main : P unit :=
    let* workdir := before_try in
    let* _ := finally_ (body workdir) (let* _ := cleanup in rmtree workdir) in
    report.

Definition start (w : W) : state W := State W [] [] false [] [] w.

End Smoke.
Arguments P : clear implicits.
End Powerdns.
