(* ===== verification/PowerdnsRules.v ===== *)
(** * Rules for runs of the powerdns smoke test

    What a command creates, a judgement that passes from the single steps of a run to the whole
    program (the interface [Base] and [Logic], proved once for the program and discharged once
    for every relation that the single steps keep to), and the loops that wait. *)
From S2P Require Import Prelude PyStr PyVal PyText Io Powerdns.
#[local] Open Scope string_scope.
#[local] Open Scope list_scope.
#[local] Coercion VStr : string >-> val.

#[local] Notation "'str[' x ; .. ; y ]" := (@cons val x .. (@cons val y (@nil val)) ..)
  (format "str[ x ;  .. ;  y ]").

Module PowerdnsRules.
Import Powerdns.

Section Smoke.
  Context {W : Type} {ENV : Env W}.
  #[local] Notation P := (Powerdns.P W).

(** ** What a command creates *)

Inductive resource := Container (name : string) | Volume (name : string) | Network (name : string).

Fixpoint is_prefix (p l : list string) : bool :=
    match p, l with
    | [], _ => true
    | x :: p', y :: l' => String.eqb x y && is_prefix p' l'
    | _, [] => false
    end.

(** The value of [--name]. *)
Fixpoint name_arg (l : list string) : option string :=
    match l with
    | o :: (n :: _) as l' => if String.eqb o "--name" then Some n else name_arg l'
    | _ => None
    end.

(** A container run with [--rm] is removed by docker. *)
Definition creating (argv : list string) : option resource :=
    if is_prefix ["docker"; "run"; "--rm"] argv then None
    else if is_prefix ["docker"; "run"] argv then Container <$> name_arg argv
    else if is_prefix ["docker"; "volume"; "create"] argv then Volume <$> argv !! 3%nat
    else if is_prefix ["docker"; "network"; "create"] argv then Network <$> argv !! 3%nat
    else None.

(** A container may be there whatever [docker run] answered; a volume or a network when its
    creation succeeded. *)
Definition creates (e : event) : option resource :=
    match e with
    | Ran argv answer =>
        match creating argv, answer with
        | Some (Container n), _ => Some (Container n)
        | Some r, Some p => if (returncode p =? 0)%Z then Some r else None
        | _, _ => None
        end
    | _ => None
    end.

Definition removal (r : resource) : list string :=
    match r with
    | Container n => ["docker"; "rm"; "-f"; n]
    | Volume n => ["docker"; "volume"; "rm"; "-f"; n]
    | Network n => ["docker"; "network"; "rm"; n]
    end.

(** Words that docker reads as options of [names], each with its value. *)
Fixpoint pairs_of (names l : list string) : Prop :=
    match l with
    | [] => True
    | o :: _ :: l' => o ∈ names ∧ pairs_of names l'
    | _ => False
    end.
Definition flag_names : list string := ["-v"; "--user"; "--security-opt"].

(** A command that runs a rendered container under the restrictions. *)
Definition restricted (n : string) (argv : list string) : Prop :=
    ∃ d flags env rest, (d = [] ∨ d = ["-d"]) ∧ pairs_of flag_names flags ∧ pairs_of ["-e"] env ∧
      argv = ["docker"; "run"] ++ d ++ ["--name"; n; "--network"; NET] ++ flags ++ restrictions
             ++ env ++ rest.

(** ** Rules for runs

    A logic gives a judgement to the primitive steps and their composition; the lemmas below
    carry it to the whole program. [R] are the containers that are recorded already, [Q] holds
    of the value returned. *)

(** What the program runs, but for the two creations that have rules of their own. *)
Inductive allowed (R : list string) : list string → Prop :=
  | allow_quiet argv : creating argv = None → allowed R argv
  | allow_db l : DB ∈ R → allowed R (["docker"; "run"; "-d"; "--name"; DB] ++ l)
  | allow_run n argv : n ∈ R → restricted n argv → allowed R argv.

Definition any {A} : A → Prop := λ _, True.

Class Base (J : list string → ∀ A, P A → (A → Prop) → Prop) := {
    j_weaken R A (m : P A) (Q Q' : A → Prop) : (∀ a, Q a → Q' a) → J R A m Q → J R A m Q';
    j_ret R A (a : A) (Q : A → Prop) : Q a → J R A (mret a) Q;
    j_raise R A x Q : x ≠ OutOfFuel → J R A (raise x) Q;
    j_bind R A B (m : P A) (f : A → P B) Q Q' :
      J R A m Q → (∀ a, Q a → J R B (f a) Q') → J R B (m ≫= f) Q';
    j_gets R A (f : state W → A) : J R A (gets f) any;
    j_print R l : J R unit (print l) any;
    j_problem R p : J R unit (problem_ p) any;
    j_new_pod R : J R nat new_pod any;
    j_pod_volume R i k : J R string (pod_volume i k) any;
    j_file R op : J R string (file op) any;
    j_rmtree R d : J R unit (rmtree d) any;
    j_uuid R : J R string uuid any;
    j_time R : J R Z time any;
    j_sleep R n : (0 ≤ n)%Z → J R unit (do_sleep n) any;
    j_command R argv t : allowed R argv → J R proc (command argv t) any;
    j_container R n A (m : P A) Q :
      J (n :: R) A m Q → J R A (modify (add_container n) ≫= λ _, m) Q;
    j_finally R A (m : P A) f Q : J R A m Q → J R unit f any → J R A (finally_ m f) Q;
    j_wait R fn n name : (n <= OUTAGE_SECONDS)%Z → J R bool fn any → J R bool (running name) any →
      J R bool (wait_until fn n name) any;
    j_hold R n : (n <= OUTAGE_SECONDS)%Z → J R bool (running SERVER) any → J R Z (hold n) any;
  }.

Class Logic (J : list string → ∀ A, P A → (A → Prop) → Prop) {HB : Base J} := {
    j_volume R v : J R unit (make_volume v) any;
    j_network R : J R unit create_network any;
  }.

Create HintDb smoke.

Section Rules.
    Context (J : list string → ∀ A, P A → (A → Prop) → Prop) {HB : Base J}.

Lemma j_any R A (m : P A) Q : J R A m Q → J R A m any.
Proof. by apply j_weaken. Qed.

Lemma j_seq R A B (m : P A) (f : A → P B) Q :
      J R A m any → (∀ a, J R B (f a) Q) → J R B (m ≫= f) Q.
Proof. intros Hm Hf. eapply j_bind; [exact Hm|auto]. Qed.

Lemma j_lift R A (r : res A) : J R A (lift r) (λ a, r = Ok a).
Proof. destruct r; [by apply j_ret|by apply j_raise]. Qed.

Lemma j_lift_any R A (r : res A) : J R A (lift r) any.
Proof. eapply j_any, j_lift. Qed.

Lemma j_lift_bind R A B (r : res A) (f : A → P B) Q :
      (∀ a, r = Ok a → J R B (f a) Q) → J R B (lift r ≫= f) Q.
Proof. intros H. eapply j_bind; [apply j_lift|done]. Qed.

Lemma j_option R A (o : option A) x : x ≠ OutOfFuel → J R A (of_option o x) any.
Proof. destruct o; [by intros; apply j_ret|apply j_raise]. Qed.

Lemma j_next R A (r : res (option A)) : J R A (lift_next r) any.
Proof. apply j_lift_bind. intros o _. by apply j_option. Qed.

Lemma j_iterM R A (f : A → P unit) l : (∀ a, J R unit (f a) any) → J R unit (iterM f l) any.
Proof. intros Hf. induction l as [|a l IH]; [by apply j_ret|]. by apply j_seq. Qed.

Lemma j_loop R A B (I : A → Prop) (f : A → B → P A) acc l :
      I acc → (∀ acc x, I acc → J R A (f acc x) I) → J R A (loop f acc l) I.
Proof.
  intros Hi Hf. revert acc Hi. induction l as [|x l IH]; intros acc Hi; [by apply j_ret|].
  eapply j_bind; [by apply Hf|apply IH].
Qed.

    (** The rules of the single steps; the program is taken apart first. *)
Ltac jprim :=
  first [ simple apply j_gets | simple apply j_print | simple apply j_problem | simple apply j_new_pod | simple apply j_pod_volume
        | simple apply j_file | simple apply j_rmtree | simple apply j_uuid | simple apply j_time | by simple apply j_sleep ].
Hint Resolve j_lift_any j_option j_next j_iterM : smoke.
Ltac jstep :=
  lazymatch goal with
  | |- J _ _ (mret _) _ => by apply j_ret
  | |- J _ _ (raise _) _ => by apply j_raise
  | |- J _ _ (lift _ ≫= _) _ => apply j_lift_bind; intros ? _
  | |- J _ _ (_ ≫= _) _ => apply j_seq; [|intros ?]
  | |- J _ _ (if ?b then _ else _) _ => destruct b
  | |- J _ _ (match ?x with _ => _ end) _ => destruct x
  | |- J _ _ _ any => first [solve [cbn [app]; auto with smoke] | jprim]
  end.
Ltac jsteps := repeat (cbv zeta; jstep).

Lemma j_quiet R argv t : creating argv = None → J R proc (command argv t) any.
Proof. intros H. by apply j_command, allow_quiet. Qed.

Lemma j_cleanup R : J R unit cleanup any.
Proof.
  unfold cleanup. jsteps; try (apply j_iterM; intros n; jsteps); by apply j_quiet.
Qed.
Hint Resolve j_cleanup : smoke.

Lemma j_failed R A f Q : J R A (measurement_failed f) Q.
Proof. unfold measurement_failed. jsteps. Qed.
Hint Resolve j_failed : smoke.

Lemma j_sh_for R t cmd check :
      (∀ argv, mapM as_str cmd = Ok argv → allowed R argv) → J R proc (sh_for t cmd check) any.
Proof.
  intros H. apply j_lift_bind. intros argv Hargv.
  apply j_seq; [by apply j_command, H|]. intros out. jsteps.
Qed.

    (** A command whose first words show that it creates nothing. *)
Lemma j_sh R ss t l check :
      (∀ l', creating (ss ++ l') = None) → J R proc (sh_for t ((VStr <$> ss) ++ l) check) any.
Proof.
  intros H. apply j_sh_for. intros argv (ys & _ & ->)%mapM_as_str_head. by apply allow_quiet.
Qed.

Lemma j_exec R l : J R proc (sh (VStr "docker" :: VStr "exec" :: l)) any.
Proof. by apply (j_sh R ["docker"; "exec"]). Qed.
Lemma j_logs R l : J R proc (sh (VStr "docker" :: VStr "logs" :: l)) any.
Proof. by apply (j_sh R ["docker"; "logs"]). Qed.
Lemma j_inspect R l : J R proc (sh (VStr "docker" :: VStr "inspect" :: l)) any.
Proof. by apply (j_sh R ["docker"; "inspect"]). Qed.
Lemma j_version R l : J R proc (sh (VStr "docker" :: VStr "version" :: l)) any.
Proof. by apply (j_sh R ["docker"; "version"]). Qed.
Lemma j_start R l : J R proc (sh_check (VStr "docker" :: VStr "start" :: l)) any.
Proof. by apply (j_sh R ["docker"; "start"]). Qed.
Lemma j_stop R l : J R proc (sh_check (VStr "docker" :: VStr "stop" :: l)) any.
Proof. by apply (j_sh R ["docker"; "stop"]). Qed.
Lemma j_helm R l : J R proc (sh (VStr "helm" :: l)) any.
Proof. by apply (j_sh R ["helm"]). Qed.
Lemma j_rm R l : J R proc (sh (VStr "docker" :: VStr "run" :: VStr "--rm" :: l)) any.
Proof. by apply (j_sh R ["docker"; "run"; "--rm"]). Qed.
Lemma j_rm_check R l : J R proc (sh_check (VStr "docker" :: VStr "run" :: VStr "--rm" :: l)) any.
Proof. by apply (j_sh R ["docker"; "run"; "--rm"]). Qed.
Hint Resolve j_exec j_logs j_inspect j_version j_start j_stop j_helm j_rm j_rm_check : smoke.

Lemma j_render R d l : J R _ (render d l) any.
Proof. unfold render. jsteps. Qed.
Lemma j_find R ds k n : J R _ (find ds k n) any.
Proof. unfold find. jsteps. Qed.
Hint Resolve j_render j_find : smoke.
Lemma j_secret R ds n k : J R _ (secret_value ds n k) any.
Proof. unfold secret_value. jsteps. Qed.
Hint Resolve j_secret : smoke.
Lemma j_env R ds c : J R _ (container_env ds c) any.
Proof.
  unfold container_env. jsteps. apply j_loop; [done|]. intros acc x _. unfold env_item. jsteps.
Qed.
Hint Resolve j_env : smoke.

Lemma j_running R n : J R _ (running n) any.
Proof. unfold running. jsteps. Qed.
Lemma j_probe R n c k : J R _ (probe_of n c k) any.
Proof. unfold probe_of, probe. jsteps. Qed.
Hint Resolve j_running j_probe : smoke.
Lemma j_ready R n c k m : J R _ (wait_until (probe_of n c k) 45 m) any.
Proof. apply j_wait; auto with smoke. done. Qed.
Lemma j_held R n : (n <= OUTAGE_SECONDS)%Z → J R _ (hold n) any.
Proof. intros Hn. apply j_hold; auto with smoke. Qed.
Lemma j_db_logs R : J R _ db_logs any.
Proof. unfold db_logs. jsteps. Qed.
Hint Resolve j_ready j_held j_db_logs : smoke.
Lemma j_wait_for_db R : J R _ wait_for_db any.
Proof.
  unfold wait_for_db. generalize POLLS. intros n. induction n as [|n IH]; simpl; jsteps.
Qed.
Hint Resolve j_wait_for_db : smoke.
Lemma j_api R c m p k b : J R _ (api c m p k b) any.
Proof. unfold api. jsteps. Qed.
Lemma j_dns R n q : J R _ (dns_query n q) any.
Proof. unfold dns_query. jsteps. Qed.
Lemma j_notify R c z q : J R _ (send_notify c z q) any.
Proof. unfold send_notify. jsteps. Qed.
Hint Resolve j_api j_dns j_notify : smoke.
Lemma j_report_outage R n w : (n <= OUTAGE_SECONDS)%Z → J R _ (report_outage n w) any.
Proof. intros Hn. unfold report_outage. jsteps. Qed.
Lemma j_recover R c q a : J R _ (recover c q a) any.
Proof. unfold recover. jsteps. Qed.
Lemma j_when R b p : J R _ (when b p) any.
Proof. unfold when. jsteps. Qed.
Hint Resolve j_report_outage j_recover j_when : smoke.
Hint Extern 1 (Z.le _ _) => by unfold OUTAGE_SECONDS : smoke.

    (** *** The parts of a run that create nothing *)

Lemma j_read_setup R d : J R _ (read_setup d) any.
Proof. unfold read_setup, container_port, next_in. jsteps. Qed.
Lemma j_check_service R c : J R _ (check_service c) any.
Proof. unfold check_service. jsteps. apply j_iterM. intros x. unfold check_service_port. jsteps. Qed.
Lemma j_check_rotation R c d : J R _ (check_rotation c d) any.
Proof. unfold check_rotation, db_secret_hash. jsteps. Qed.
Lemma j_check_api R c : J R _ (check_api c) any.
Proof. unfold check_api. jsteps. Qed.
Lemma j_check_outage R c : J R _ (check_outage c) any.
Proof. unfold check_outage. jsteps. Qed.
Lemma j_check_notify R c : J R _ (check_notify c) any.
Proof. unfold check_notify. jsteps. Qed.
Lemma j_job_env R c n : J R _ (job_env c n) any.
Proof. unfold job_env, next_in. jsteps. Qed.
Lemma j_db_sql R d s : J R _ (db_sql d s) any.
Proof. unfold db_sql. jsteps. Qed.
Lemma j_report R : J R _ report any.
Proof. unfold report. jsteps. apply j_iterM. intros. apply j_print. Qed.

Lemma j_start_db R c : J R _ (start_db c) any.
Proof.
  pose proof (j_job_env R c) as He. unfold start_db. do 4 (apply j_seq; [auto with smoke|intros ?]).
  apply j_container.
  do 2 (apply j_lift_bind; intros ? _). apply j_seq; [|intros ?; jsteps].
  apply j_sh_for. intros argv (ys & _ & ->)%(mapM_as_str_head ["docker"; "run"; "-d"; "--name"; DB]).
  apply allow_db. left.
Qed.
    (** *** The parts that create *)
Context {HL : Logic J}.
Hint Resolve j_read_setup j_check_service j_check_rotation j_check_api j_check_outage
      j_check_notify j_db_sql j_start_db j_report : smoke.
Ltac jprim ::=
  first [ simple apply j_gets | simple apply j_print | simple apply j_problem | simple apply j_new_pod | simple apply j_pod_volume
        | simple apply j_file | simple apply j_rmtree | simple apply j_uuid | simple apply j_time | by simple apply j_sleep
        | simple apply j_network | simple apply j_volume ].

Lemma j_create_volume R i v : J R _ (create_volume i v) any.
Proof. unfold create_volume. jsteps. Qed.
Hint Resolve j_create_volume : smoke.

Lemma pairs_of_app names l l' : pairs_of names l → pairs_of names l' → pairs_of names (l ++ l').
Proof.
  intros Hl Hl'. revert l Hl. fix IH 1. intros [|a [|b l]]; [done|done|].
  intros [? ?]. split; [done|]. by apply IH.
Qed.

Lemma j_mount_args R i ds vs c d p args m :
      pairs_of flag_names args →
      J R _ (mount_args i ds vs c d p args m) (pairs_of flag_names).
Proof.
  intros Ha. unfold mount_args. jsteps.
  all: first [ apply j_failed
             | apply j_ret, pairs_of_app; [done|]; simpl; split; [set_solver|done] ].
Qed.

Lemma user_args_pairs sc u : user_args sc = Ok u → pairs_of flag_names u.
Proof.
  unfold user_args. destruct (is_none _); [by intros [= <-]|].
  intros (s & _ & [= <-])%bind_Ok. simpl. split; [set_solver|done].
Qed.

Lemma privilege_args_pairs sc : pairs_of flag_names (privilege_args sc).
Proof. unfold privilege_args. repeat case_match; simpl; try done. split; [set_solver|done]. Qed.

Lemma j_docker_args R i ds spec c d p :
      J R _ (docker_args i ds spec c d p)
        (λ l, ∃ flags, pairs_of flag_names flags ∧ l = flags ++ restrictions).
Proof.
  unfold docker_args. do 2 (apply j_lift_bind; intros ? _).
  eapply j_bind; [apply (j_loop R _ _ (pairs_of flag_names)); [done|]|].
  { intros acc x Ha. by apply j_mount_args. }
  intros args Ha. apply j_lift_bind. intros sc _. apply j_lift_bind. intros u Hu%user_args_pairs.
  apply j_ret. exists (args ++ u ++ privilege_args sc).
  split; [auto using pairs_of_app, privilege_args_pairs|]. by rewrite !app_assoc.
Qed.

Lemma env_args_pairs env l : env_args env = Ok l → pairs_of ["-e"] l.
Proof.
  unfold env_args. cut (∀ acc, pairs_of ["-e"] acc → foldM (λ acc '(k, v),
    let* t := fstr (str[k; "="; v]) in Ok (acc ++ ["-e"; t])) acc env = Ok l → pairs_of ["-e"] l).
  { intros H. by apply H. }
  induction env as [|[k v] env IH]; intros acc Ha; simpl; [by intros [= <-]|].
  intros (acc' & (t & _ & [= <-])%bind_Ok & H)%bind_Ok. eapply IH; [|done].
  apply pairs_of_app; [done|]. simpl. split; [left|done].
Qed.

Lemma j_docker_run R i n ds spec c d p b : J R _ (docker_run i n ds spec c d p b) any.
Proof.
  unfold docker_run. apply j_container. eapply j_bind; [apply j_docker_args|].
  intros args (flags & Hf & ->). apply j_seq; [auto with smoke|intros env].
  apply j_lift_bind. intros es Hes%env_args_pairs. apply j_lift_bind. intros rest _.
  apply j_sh_for. intros argv (ys & _ & ->)%mapM_as_str_head.
  eapply allow_run; [left|]. exists (if b then ["-d"] else []), flags, es, ys.
  split; [destruct b; auto|]. split_and!; [done..|]. by rewrite <- !app_assoc.
Qed.
Hint Resolve j_docker_run : smoke.

Lemma j_run_once R i ds spec c d p : J R _ (run_once i ds spec c d p) any.
Proof. unfold run_once. jsteps. Qed.
Hint Resolve j_run_once : smoke.

Lemma j_check_db_sync R c d w : J R _ (check_db_sync c d w) any.
Proof. unfold check_db_sync, next_in. jsteps. Qed.
Lemma j_check_narrow R c w : J R _ (check_narrow c w) any.
Proof. unfold check_narrow, next_in. jsteps. Qed.
Hint Resolve j_check_db_sync j_check_narrow : smoke.
Lemma j_check_server R c w : J R _ (check_server c w) any.
Proof. unfold check_server. jsteps. Qed.
Hint Resolve j_check_server : smoke.

Lemma j_body R w : J R _ (body w) any.
Proof. unfold body. jsteps. Qed.
Lemma j_main R : J R _ main any.
Proof.
  unfold main, before_try. jsteps. apply j_finally; [apply j_body|]. jsteps.
Qed.
End Rules.


(** ** Judgements over the steps of a run

    [T s es s'] relates the state before, the events and the state after. When the single steps
    keep to it and it composes, so does the whole program. *)

Definition succeeded (a : option proc) : bool :=
    match a with Some p => (returncode p =? 0)%Z | None => false end.
Definition answer (argv : list string) (t : Z) (s : state W) : option proc :=
    (subprocess_run argv t (world s)).1.
Definition after (argv : list string) (t : Z) (s : state W) : state W :=
    set_world (subprocess_run argv t (world s)).2 s.

Record step_rules (T : state W → list event → state W → Prop) := {
    s_refl s : T s [] s;
    s_trans s es s1 es' s2 : T s es s1 → T s1 es' s2 → T s (es ++ es') s2;
    s_print s l : T s [Printed l] s;
    s_problem s p : T s [] (add_problem p s);
    s_new_pod s u : T s [] (set_pods (pods s ++ [{| pod_id := u; volumes := [] |}]) s);
    s_pod_volume s i p k n : pods s !! i = Some p → py_str k = Ok n →
      T s [] (set_pods (<[i := {| pod_id := pod_id p;
        volumes := volumes p ++ [(k, volume_name n (pod_id p))] |}]> (pods s)) s);
    s_container s n : T s [] (add_container n s);
    s_file s op : T s [File op (filesystem op (world s)).1]
      (set_world (filesystem op (world s)).2 s);
    s_uuid s : T s [] (set_world (uuid4 (world s)).2 s);
    s_time s : T s [] (set_world (now (world s)).2 s);
    s_sleep s n : (0 ≤ n)%Z → T s [Slept n] (set_world (sleep n (world s)) s);
    s_run s argv t : allowed (created_containers s) argv →
      T s [Ran argv (answer argv t s)] (after argv t s);
    s_volume s v : let argv := ["docker"; "volume"; "create"; v] in
      T s [Ran argv (answer argv 120 s)]
        (if succeeded (answer argv 120 s) then add_volume v (after argv 120 s)
         else after argv 120 s);
    s_network s : let argv := ["docker"; "network"; "create"; NET] in
      T s [Ran argv (answer argv 120 s)]
        (if succeeded (answer argv 120 s) then set_network (after argv 120 s)
         else after argv 120 s);
  }.

Section Judge.
    Context (T : state W → list event → state W → Prop) (HT : step_rules T).
    (** What a run may raise: anything but the end of the fuel, and that too unless [clock] tells
        the time and the steps take it. *)
    Context (X : fault → Prop) (HX : ∀ x, x ≠ OutOfFuel → X x) (clock : W → Z).
    Context (Hclock : X OutOfFuel ∨
      (∀ w, (now w).1 = clock w) ∧
      (∀ s es s', T s es s' → (clock (world s) ≤ clock (world s'))%Z) ∧
      (∀ n w, (0 <= n)%Z → (clock w + n * microseconds ≤ clock (sleep n w))%Z) ∧
      (OUTAGE_SECONDS < Z.of_nat fuel)%Z).

Definition recorded_in (R : list string) (s : state W) : Prop :=
      ∀ n, n ∈ R → n ∈ created_containers s.

    (** Started where [I] holds and [R] is recorded. *)
Definition judge_from (I : state W → Prop) (R : list string) (A : Type) (m : P A) (Q : A → Prop)
      : Prop :=
      ∀ s o es s', I s → recorded_in R s → m s = (o, es, s') →
        T s es s' ∧ recorded_in (created_containers s) s' ∧ (∀ x, o = Exn x → X x) ∧
        (∀ a, o = Ret a → Q a).
Definition judge := judge_from (λ _, True).

    (** A step that returns a value. *)
Lemma judge_step R A (m : P A) (Q : A → Prop) :
      (∀ s, ∃ a es s', m s = (Ret a, es, s') ∧ T s es s' ∧ Q a ∧
        created_containers s' = created_containers s) → judge R A m Q.
Proof.
  intros H s o es s' _ _ E. destruct (H s) as (a & es1 & s1 & E1 & Ht & Hq & Hc).
  rewrite E1 in E. injection E as <- <- <-. split_and!; [done|by intros n; rewrite Hc|done|].
  by intros ? [= <-].
Qed.

Lemma judge_pre I R A m Q : judge R A m Q → judge_from I R A m Q.
Proof. intros H s o es s' _. by apply H. Qed.

Lemma judge_from_bind (I I' : state W → Prop) R A B m (f : A → P B) Q Q' :
      judge_from I R A m Q → (∀ s es s', I s → T s es s' → I' s') →
      (∀ a, Q a → judge_from I' R B (f a) Q') → judge_from I R B (m ≫= f) Q'.
Proof.
  intros Hm Hi Hf s o es s' Hs Hr. unfold mbind, P_bind, Io_bind.
  destruct (m s) as [[[a|x] es1] s1] eqn:E; intros E2.
  - destruct (Hm _ _ _ _ Hs Hr E) as (Ht & Hc & _ & Hq).
    destruct (f a s1) as [[o2 es2] s2] eqn:E1. injection E2 as <- <- <-.
    destruct (Hf a (Hq a eq_refl) _ _ _ _ (Hi _ _ _ Hs Ht) (λ n Hn, Hc n (Hr n Hn)) E1)
      as (Ht1 & Hc1 & ? & ?).
    split_and!; [by eapply s_trans| |done|done]. intros n Hn. by apply Hc1, Hc.
  - injection E2 as <- <- <-. destruct (Hm _ _ _ _ Hs Hr E) as (Ht & Hc & Hx & _).
    split_and!; [done|done|by intros y [= <-]; apply Hx|done].
Qed.

Lemma judge_finally R A (m : P A) f Q :
      judge R A m Q → judge R unit f any → judge R A (finally_ m f) Q.
Proof.
  intros Hm Hf s o es s' Hi Hr. unfold finally_.
  destruct (m s) as [[o1 es1] s1] eqn:E1.
  destruct (Hm _ _ _ _ Hi Hr E1) as (Ht & Hc & Hx & Hq).
  destruct (f s1) as [[o2 es2] s2] eqn:E2.
  destruct (Hf _ _ _ _ Logic.I (λ n Hn, Hc n (Hr n Hn)) E2) as (Ht2 & Hc2 & Hx2 & _).
  assert (T s (es1 ++ es2) s2) by by eapply s_trans.
  assert (recorded_in (created_containers s) s2) by (intros n Hn; by apply Hc2, Hc).
  destruct o2 as [[]|x]; intros [= <- <- <-]; split_and!; try done.
  intros y [= <-]. by apply Hx2.
Qed.

Lemma judge_from_raise I R A x Q : (∀ s, I s → X x) → judge_from I R A (raise x) Q.
Proof.
  intros H s o es s' Hi Hr [= <- <- <-].
  split_and!; [by apply s_refl|by intros n|by intros y [= <-]; eauto|done].
Qed.

Lemma judge_command R argv t : allowed R argv → judge R proc (command argv t) any.
Proof.
  intros Ha s o es s' _ Hr E.
  assert (T s [Ran argv (answer argv t s)] (after argv t s)) as Ht.
  { apply s_run; [done|]. inversion Ha; subst; [by constructor|apply allow_db; auto|].
    eapply allow_run; eauto. }
  revert E Ht. unfold command, answer, after.
  destruct (subprocess_run argv t (world s)) as [[p|] w]; intros [= <- <- <-] Ht;
    (split_and!; [done|by intros n| |done]).
  - done.
  - intros x [= <-]. by apply HX.
Qed.

    (** *** Waits *)

    (** [n] turns of a second, of which the last finds the time past [deadline]. *)
Definition enough (n : nat) (deadline : Z) (s : state W) : Prop :=
      X OutOfFuel ∨
      n ≠ 0%nat ∧ (deadline <= clock (world s) + Z.of_nat (pred n) * microseconds)%Z.

Lemma enough_later n d s es s' : enough n d s → T s es s' → enough n d s'.
Proof.
  intros [H|[? H]] Ht; [by left|]. destruct Hclock as [Hx|(_ & Hc & _)]; [by left|].
  right. specialize (Hc _ _ _ Ht). lia.
Qed.

Lemma judge_ret R A (a : A) (Q : A → Prop) : Q a → judge R A (mret a) Q.
Proof. intros H. apply judge_step. intros s. exists a, [], s. by split_and!; [|apply s_refl| |]. Qed.

Lemma judge_time R : judge R Z time any.
Proof.
  apply judge_step. intros s. pose proof (s_time _ HT s) as Ht. unfold time.
  destruct (now (world s)) as [t w]. exists t, [], (set_world w s). by split_and!.
Qed.

    (** The next turn of a loop: a second later there is a turn less to make. *)
Lemma judge_turn n d R A (m : P A) Q :
      X OutOfFuel ∨ n ≠ 0%nat → judge_from (enough n d) R A m Q →
      judge_from (enough (S n) d) R A (do_sleep 1 ≫= λ _, m) Q.
Proof.
  intros Hn Hm s o es s' Hs Hr E.
  pose proof (s_sleep _ HT s 1 ltac:(lia)) as Ht. unfold mbind, P_bind, Io_bind, do_sleep in E.
  set (s1 := set_world (sleep 1 (world s)) s) in *.
  destruct (m s1) as [[o2 es2] s2] eqn:E2. injection E as <- <- <-.
  destruct (Hm s1 o2 es2 s2) as (Ht2 & Hc2 & ? & ?); [|done..|].
  { destruct Hs as [?|[_ Hs]]; [by left|]. destruct Hclock as [?|(_ & _ & Hsl & _)]; [by left|].
    destruct Hn as [?|Hn]; [by left|]. right. split; [done|].
    specialize (Hsl 1%Z (world s) ltac:(lia)). change (world s1) with (sleep 1 (world s)).
    unfold microseconds in *. simpl in Hs. lia. }
  split_and!; try done. exact (s_trans _ HT _ [_] _ _ _ Ht Ht2).
Qed.

    (** [while time.time() < d]: when the body runs there are turns left. *)
Lemma judge_test n d R A (a : A) (m : P A) Q :
      Q a → (X OutOfFuel ∨ n ≠ 0%nat → judge_from (enough (S n) d) R A m Q) →
      judge_from (enough (S n) d) R A (time ≫= λ t, if negb (t <? d)%Z then mret a else m) Q.
Proof.
  intros Ha Hm s o es s' Hs Hr E.
  pose proof (s_time _ HT s) as Ht. unfold mbind, P_bind, Io_bind, time in E.
  destruct (now (world s)) as [t w] eqn:Ew. simpl in Ht, E.
  destruct (Z.ltb_spec t d) as [Hlt|Hge]; simpl in E.
  - destruct (m (set_world w s)) as [[o2 es2] s2] eqn:E2. injection E as <- <- <-.
    assert (X OutOfFuel ∨ n ≠ 0%nat) as Hn.
    { destruct Hs as [?|[_ Hs]]; [by left|]. destruct Hclock as [?|(Hnow & _)]; [by left|].
      right. intros ->. specialize (Hnow (world s)). rewrite Ew in Hnow. simpl in *. lia. }
    destruct (Hm Hn (set_world w s) o2 es2 s2) as (Ht2 & Hc2 & ? & ?); [|done..|].
    + by eapply enough_later.
    + split_and!; try done. exact (s_trans _ HT _ [] _ _ _ Ht Ht2).
  - injection E as <- <- <-. split_and!; [done|by intros m0|done|by intros ? [= <-]].
Qed.

Lemma judge_out_of_fuel d R A Q : judge_from (enough 0 d) R A (raise OutOfFuel) Q.
Proof. apply judge_from_raise. by intros s [?|[]]. Qed.

    (** A step of the body that takes part in no wait. *)
Lemma judge_within n d R A B (m : P A) (f : A → P B) Q :
      judge R A m any → (∀ a, judge_from (enough n d) R B (f a) Q) →
      judge_from (enough n d) R B (m ≫= f) Q.
Proof.
  intros Hm Hf. eapply (judge_from_bind _ (enough n d)); [by apply judge_pre| |auto].
  intros s es s'. apply enough_later.
Qed.

Lemma judge_wait_loop n fn d name R :
      judge R bool fn any → judge R bool (running name) any →
      judge_from (enough n d) R bool (wait_loop n fn d name) any.
Proof.
  intros Hfn Hup. induction n as [|n IH]; [apply judge_out_of_fuel|].
  apply judge_test; [done|]. intros Hn.
  apply judge_within; [done|]. intros [].
  { by apply judge_pre, judge_ret. }
  apply judge_within; [done|]. intros []; simpl.
  - by apply judge_turn.
  - by apply judge_pre, judge_ret.
Qed.

Lemma judge_hold_loop n d R :
      judge R bool (running SERVER) any → judge_from (enough n d) R unit (hold_loop n d) any.
Proof.
  intros Hup. induction n as [|n IH]; [apply judge_out_of_fuel|].
  apply judge_test; [done|]. intros Hn.
  apply judge_within; [done|]. intros []; simpl.
  - by apply judge_turn.
  - by apply judge_pre, judge_ret.
Qed.

    (** The deadline is set from the time now. *)
Lemma judge_deadline n R A (f : Z → P A) Q :
      (n <= OUTAGE_SECONDS)%Z →
      (∀ t, judge_from (enough fuel (t + n * microseconds)) R A (f t) Q) →
      judge R A (time ≫= f) Q.
Proof.
  intros Hn Hf s o es s' _ Hr E. pose proof (s_time _ HT s) as Ht.
  unfold mbind, P_bind, Io_bind, time in E.
  destruct (now (world s)) as [t w] eqn:Ew. simpl in Ht, E.
  destruct (f t (set_world w s)) as [[o2 es2] s2] eqn:E2. injection E as <- <- <-.
  destruct (Hf t (set_world w s) o2 es2 s2) as (Ht2 & Hc2 & ? & ?); [|done..|].
  - destruct Hclock as [?|(Hnow & Hc & _ & Hfuel)]; [by left|]. right.
    specialize (Hc _ _ _ Ht). specialize (Hnow (world s)). rewrite Ew in Hnow. simpl in *.
    unfold OUTAGE_SECONDS, microseconds in *. lia.
  - split_and!; try done. exact (s_trans _ HT _ [] _ _ _ Ht Ht2).
Qed.

    (** *** Pods *)

Lemma judge_new_pod R : judge R nat new_pod any.
Proof.
  apply judge_step. intros s. pose proof (s_uuid _ HT s) as Ht.
  unfold new_pod, mbind, P_bind, Io_bind, uuid, gets, modify, mret, P_ret, Io_ret.
  destruct (uuid4 (world s)) as [u w]. do 3 eexists. split; [reflexivity|]. split_and!; [|done|done].
  exact (s_trans _ HT _ [] _ [] _ Ht (s_new_pod _ HT (set_world w s) (take_str 6 u))).
Qed.

Lemma judge_pod_volume R i k : judge R string (pod_volume i k) any.
Proof.
  intros s o es s' _ Hr. assert (T s [] s) as H0 by apply (s_refl _ HT).
  unfold pod_volume, setdefault, mbind, P_bind, Io_bind, gets, modify, mret, P_ret, Io_ret, lift.
  destruct (py_str k) as [n|x] eqn:Ek.
  2: { intros [= <- <- <-]. split_and!; [done|by intros m| |done]. intros y [= <-]. by apply HX. }
  simpl. destruct (pods s !! i) as [p|] eqn:Ep; simpl.
  2: { intros [= <- <- <-]. split_and!; [done|by intros m| |done]. intros y [= <-]. by apply HX. }
  rewrite Ep.
  assert (T s [] (set_pods (<[i := {| pod_id := pod_id p;
    volumes := volumes p ++ [(k, volume_name n (pod_id p))] |}]> (pods s)) s)) as Ht
    by by apply (s_pod_volume _ HT).
  destruct (vget _ _) as [[]|]; intros [= <- <- <-]; (split_and!; [done|by intros m|done|done]).
Qed.

#[export] Instance judge_base : Base judge.
Proof.
  constructor.
  - intros R A m Q Q' Hq Hm s o es s' Hs Hr E. destruct (Hm _ _ _ _ Hs Hr E) as (?&?&?&?).
    split_and!; auto.
  - exact judge_ret.
  - intros R A x Q Hx. apply judge_from_raise. intros s _. by apply HX.
  - intros R A B m f Q Q' Hm Hf. by apply (judge_from_bind _ (λ _, True) _ _ _ _ _ Q).
  - intros R A f. apply judge_step. intros s. exists (f s), [], s.
    by split_and!; [|apply s_refl| |].
  - intros R l. apply judge_step. intros s. do 3 eexists.
    split; [reflexivity|]. by split_and!; [apply s_print| |].
  - intros R p. apply judge_step. intros s. do 3 eexists.
    split; [reflexivity|]. by split_and!; [apply s_problem| |].
  - exact judge_new_pod.
  - exact judge_pod_volume.
  - intros R op s o es s' _ Hr. pose proof (s_file _ HT s op) as Ht. unfold file.
    destruct (filesystem op (world s)) as [[x|] w]; intros [= <- <- <-];
      (split_and!; [done|by intros n| |done]); [done|]. intros x [= <-]. by apply HX.
  - intros R d. apply judge_step. intros s. pose proof (s_file _ HT s (RmTree d)) as Ht.
    unfold rmtree. destruct (filesystem (RmTree d) (world s)) as [a w]. do 3 eexists.
    split; [reflexivity|]. by split_and!.
  - intros R. apply judge_step. intros s. pose proof (s_uuid _ HT s) as Ht. unfold uuid.
    destruct (uuid4 (world s)) as [u w]. exists u, [], (set_world w s). by split_and!.
  - exact judge_time.
  - intros R n Hn. apply judge_step. intros s. do 3 eexists.
    split; [reflexivity|]. by split_and!; [apply s_sleep| |].
  - exact judge_command.
  - intros R n A m Q Hm s o es s' _ Hr. pose proof (s_container _ HT s n) as Ht.
    unfold mbind, P_bind, Io_bind, modify.
    destruct (m (add_container n s)) as [[o2 es2] s2] eqn:E. intros [= <- <- <-].
    destruct (Hm (add_container n s) o2 es2 s2) as (Ht2 & Hc & ? & ?); [done| |done|].
    + intros k [->|Hk]%elem_of_cons; simpl; set_solver.
    + split_and!; [exact (s_trans _ HT _ [] _ _ _ Ht Ht2)| |done|done].
      intros k Hk. apply Hc. simpl. set_solver.
  - exact judge_finally.
  - intros R fn n name Hn Hfn Hup. apply (judge_deadline n); [done|]. intros t.
    by apply judge_wait_loop.
  - intros R n Hn Hup. apply (judge_deadline n); [done|]. intros t.
    eapply (judge_from_bind _ (enough fuel _)); [by apply judge_hold_loop| |].
    { intros s es s'. apply enough_later. }
    intros [] _. apply judge_within; [apply judge_time|]. intros t1. by apply judge_pre, judge_ret.
Qed.

    (** A creation that is recorded when it succeeded. *)
Lemma judge_creation R (argv : list string) (mark : state W → state W) :
      (∀ s, T s [Ran argv (answer argv 120 s)]
         (if succeeded (answer argv 120 s) then mark (after argv 120 s) else after argv 120 s)) →
      (∀ s, created_containers (mark s) = created_containers s) →
      judge R unit (sh_check (VStr <$> argv) ≫= λ _, modify mark) any.
Proof.
  intros Ht Hc s o es s' _ Hr. specialize (Ht s). revert Ht.
  unfold sh_check, sh_for. rewrite mapM_as_str_strs. unfold lift.
  unfold answer, after. set (s1 := set_world (subprocess_run argv 120 (world s)).2 s).
  assert (recorded_in (created_containers s) s1) as Hr1 by (by intros n).
  destruct (subprocess_run argv 120 (world s)) as [[p|] w] eqn:Ew; cbn [fst succeeded]; intros Ht.
  - unfold mbind, P_bind, Io_bind, mret, P_ret, Io_ret, command. rewrite Ew. cbn [andb].
    destruct (returncode p =? 0)%Z; cbn [negb].
    + intros [= <- <- <-]. split_and!; [done| |done|done]. intros n Hn. rewrite Hc. by apply Hr1.
    + set (f := CommandFailed _ _). change (set_world w s) with s1.
      destruct (measurement_failed f s1) as [[o2 es2] s2] eqn:E.
      destruct (j_failed judge (created_containers s) proc f (λ _, False) s1 o2 es2 s2)
        as (Ht2 & Hc2 & Hx2 & Hq2); [done..|].
      destruct o2 as [a|x]; [by destruct (Hq2 a)|]. intros [= <- <- <-].
      split_and!; [exact (s_trans _ HT _ [_] _ _ _ Ht Ht2)| |by intros y [= <-]; apply Hx2|done].
      intros n Hn. by apply Hc2, Hr1.
  - unfold mbind, P_bind, Io_bind, mret, P_ret, Io_ret, command. rewrite Ew.
    intros [= <- <- <-]. split_and!; [done|done|intros x [= <-]; by apply HX|done].
Qed.

#[export] Instance judge_logic : Logic judge.
Proof.
  constructor.
  - intros R v. apply (judge_creation R ["docker"; "volume"; "create"; v]); [|done].
    intros s. by apply s_volume.
  - intros R. apply (judge_creation R ["docker"; "network"; "create"; NET]); [|done].
    intros s. by apply s_network.
Qed.

    (** What the single steps keep to, the program and its body keep to. *)
Lemma judge_body w s o es s' :
      body w s = (o, es, s') → T s es s' ∧ (∀ x, o = Exn x → X x).
Proof.
  intros E. destruct (j_body judge [] w s o es s') as (? & _ & ? & _); [done|set_solver|done|done].
Qed.

Lemma judge_main s o es s' :
      main s = (o, es, s') → T s es s' ∧ (∀ x, o = Exn x → X x).
Proof.
  intros E. destruct (j_main judge [] s o es s') as (? & _ & ? & _); [done|set_solver|done|done].
Qed.
End Judge.

End Smoke.
End PowerdnsRules.
