(* ===== verification/PowerdnsRuns.v ===== *)
(** * Properties of the powerdns smoke test

    What is created is removed, pods run restricted, and waits end; names on the wire; and a
    concrete world in which the test passes. What such a run has seen is in PowerdnsSeen. *)
From S2P Require Import Prelude PyStr PyVal PyEq Json PyText Io Powerdns PowerdnsRules.
#[local] Open Scope string_scope.
#[local] Open Scope list_scope.
#[local] Coercion VStr : string >-> val.

#[local] Notation "'str[' x ; .. ; y ]" := (@cons val x .. (@cons val y (@nil val)) ..)
  (format "str[ x ;  .. ;  y ]").

Module PowerdnsRuns.
Import Powerdns PowerdnsRules.

Section Smoke.
  Context {W : Type} {ENV : Env W}.
  #[local] Notation P := (Powerdns.P W).

(** ** Everything that was created is removed *)

Definition recorded (r : resource) (s : state W) : Prop :=
    match r with
    | Container n => n ∈ created_containers s
    | Volume n => n ∈ created_volumes s
    | Network n => n = NET ∧ network_created s = true
    end.

Lemma restricted_creates n argv : restricted n argv → creating argv = Some (Container n).
Proof. by intros (d & flags & env & rest & [-> | ->] & _ & _ & ->). Qed.

Lemma allowed_creates R argv a r :
    allowed R argv → creates (Ran argv a) = Some r → ∃ n, r = Container n ∧ n ∈ R.
Proof.
  intros [argv' E|l Hl|n argv' Hn E%restricted_creates] H; simpl in H.
  - by rewrite E in H.
  - injection H as <-. eauto.
  - rewrite E in H. injection H as <-. eauto.
Qed.

(** What was recorded stays recorded, and what a step creates is recorded after it. *)
Definition tracked (s : state W) (es : list event) (s' : state W) : Prop :=
    (∀ r, recorded r s → recorded r s') ∧
    (∀ e r, e ∈ es → creates e = Some r → recorded r s').

Lemma tracked_quiet s es s' :
    Forall (λ e, creates e = None) es → (∀ r, recorded r s → recorded r s') → tracked s es s'.
Proof. intros Hes Hr. split; [done|]. rewrite Forall_forall in Hes. intros e r He%Hes. congruence. Qed.

Lemma tracked_one s e (b : bool) s1 s2 :
    (∀ r, recorded r s → recorded r s1) → (∀ r, recorded r s1 → recorded r s2) →
    (∀ r, creates e = Some r → b = true ∧ recorded r s2) → tracked s [e] (if b then s2 else s1).
Proof.
  intros H1 H2 He. split; [destruct b; auto|]. intros e' r ->%list_elem_of_singleton Hr.
  by apply He in Hr as [-> ?].
Qed.

Lemma tracked_steps : step_rules tracked.
Proof.
  constructor.
  all: try by intros; apply tracked_quiet; [repeat constructor|].
  - intros s es s1 es' s2 [H1 H2] [H3 H4]. split; [auto|].
    intros e r [He|He]%elem_of_app Hr; eauto.
  - intros s n. apply tracked_quiet; [constructor|]. intros [] Hr; simpl in *; set_solver.
  - intros s argv t Ha. split; [by intros []|]. intros e r ->%list_elem_of_singleton Hr.
    by destruct (allowed_creates _ _ _ _ Ha Hr) as (n & -> & Hn).
  - intros s v argv. apply tracked_one; [by intros []|intros []; simpl; set_solver|].
    intros r. unfold creates. cbn [creating argv is_prefix String.eqb]. simpl.
    destruct (answer argv 120 s) as [p|]; simpl; [|done].
    destruct (returncode p =? 0)%Z; [|done]. intros [= <-]. split; [done|]. simpl. set_solver.
  - intros s argv. apply tracked_one; [by intros []|intros []; simpl; naive_solver|].
    intros r. simpl. destruct (answer argv 120 s) as [p|]; simpl; [|done].
    destruct (returncode p =? 0)%Z; [|done]. by intros [= <-].
Qed.

(** The command that removes [r] was answered. *)
Definition removed (r : resource) (es : list event) : Prop := ∃ a, Ran (removal r) (Some a) ∈ es.

(** The last command removes something, and raised. *)
Definition cut_short {A} (o : outcome fault A) (es : list event) : Prop :=
    o = Exn Unanswered ∧ ∃ r es0, es = es0 ++ [Ran (removal r) None].

(** What is recorded in a state. *)
Definition records (s : state W) : list string * list string * bool :=
    (created_containers s, created_volumes s, network_created s).

(** A part of the clean-up, started with the records [K]: it takes [rs] away, or is cut short. *)
Definition removes K (rs : list resource) (m : P unit) : Prop :=
    ∀ s o es s', records s = K → m s = (o, es, s') →
      Forall (λ e, creates e = None) es ∧
      (o = Ret () ∧ (∀ r, r ∈ rs → removed r es) ∧ records s' = K ∨ cut_short o es).

Lemma removal_creates r a : creates (Ran (removal r) a) = None.
Proof. by destruct r. Qed.

Lemma removes_nil K : removes K [] (mret ()).
Proof. intros s o es s' HK [= <- <- <-]. split; [done|]. left. by split_and!; [|set_solver|]. Qed.

Lemma removes_one K r : removes K [r] (let* _ := command (removal r) 120 in mret ()).
Proof.
  intros s o es s' HK. unfold mbind, P_bind, Io_bind, command.
  destruct (subprocess_run (removal r) 120 (world s)) as [[a|] w]; intros [= <- <- <-].
  - split; [by constructor; [apply removal_creates|]|]. left.
    split_and!; [done| |done]. intros r' ->%list_elem_of_singleton. exists a. by left.
  - split; [by constructor; [apply removal_creates|]|]. right. split; [done|]. by exists r, [].
Qed.

Lemma removes_app K rs rs' (m m' : P unit) :
    removes K rs m → removes K rs' m' → removes K (rs ++ rs') (m ≫= λ _, m').
Proof.
  intros Hm Hm' s o es s' HK. unfold mbind, P_bind, Io_bind.
  destruct (m s) as [[o1 es1] s1] eqn:E. destruct (Hm _ _ _ _ HK E) as [Hc H1].
  destruct H1 as [(-> & Hr & HK1)|(-> & r & es0 & ->)].
  - destruct (m' s1) as [[o2 es2] s2] eqn:E2. destruct (Hm' _ _ _ _ HK1 E2) as [Hc2 H2].
    intros [= <- <- <-]. split; [by apply Forall_app|].
    destruct H2 as [(-> & Hr2 & HK2)|(-> & r & es0 & ->)].
    + left. split_and!; [done| |done].
      intros r [[a Ha]%Hr|[a Ha]%Hr2]%elem_of_app; exists a; apply elem_of_app; auto.
    + right. split; [done|]. exists r, (es1 ++ es0). by rewrite app_assoc.
  - intros [= <- <- <-]. split; [done|]. right. split; [done|]. by exists r, es0.
Qed.

Lemma removes_gets {A} K rs (f : state W → A) v (k : A → P unit) :
    (∀ s, records s = K → f s = v) → removes K rs (k v) → removes K rs (gets f ≫= k).
Proof.
  intros Hf Hk s o es s' HK. unfold mbind, P_bind, Io_bind, gets. rewrite (Hf s HK).
  destruct (k v s) as [[o1 es1] s1] eqn:E. intros [= <- <- <-]. by apply (Hk s).
Qed.

Lemma removes_iterM K (k : string → resource) l :
    removes K (k <$> l) (iterM (λ n, let* _ := command (removal (k n)) 120 in mret ()) l).
Proof.
  induction l as [|n l IH]; [apply removes_nil|].
  apply (removes_app K [k n]); [apply removes_one|exact IH].
Qed.

Lemma cleanup_removes s o es s' :
    cleanup s = (o, es, s') →
    Forall (λ e, creates e = None) es ∧
    (o = Ret () ∧ (∀ r, recorded r s → removed r es) ∨ cut_short o es).
Proof.
  assert (removes (records s) ((Container <$> created_containers s)
    ++ (Volume <$> created_volumes s) ++ if network_created s then [Network NET] else []) cleanup)
    as H.
  { apply removes_gets with (created_containers s); [by intros ? [= ? ? ?]|].
    apply removes_app; [apply (removes_iterM _ Container)|].
    apply removes_gets with (created_volumes s); [by intros ? [= ? ? ?]|].
    apply removes_app; [apply (removes_iterM _ Volume)|].
    apply removes_gets with (network_created s); [by intros ? [= ? ? ?]|].
    destruct (network_created s); [apply (removes_one _ (Network NET))|apply removes_nil]. }
  intros E. destruct (H s o es s' eq_refl E) as [Hc Hr].
  split; [done|]. destruct Hr as [(-> & Hr & _)|?]; [left|by right].
  split; [done|]. intros [n|n|n]; simpl; intros Hrec; apply Hr; rewrite !elem_of_app.
  - left. by apply list_elem_of_fmap_2.
  - right; left. by apply list_elem_of_fmap_2.
  - destruct Hrec as [-> ->]. right; right. by left.
Qed.

Definition uncreating {A} (m : P A) : Prop := ∀ s, Forall (λ e, creates e = None) (m s).1.2.

Lemma uncreating_bind {A B} (m : P A) (f : A → P B) :
    uncreating m → (∀ a, uncreating (f a)) → uncreating (m ≫= f).
Proof.
  intros Hm Hf s. apply (keeps_bind (λ _, True) (λ e, creates e = None)); [| |done].
  - intros s0 _. split; [done|apply Hm].
  - intros a s0 _. split; [done|apply Hf].
Qed.

Lemma uncreating_failed {A} f : uncreating (measurement_failed f : P A).
Proof.
  apply uncreating_bind; [by repeat constructor|intros _].
  apply uncreating_bind; [by repeat constructor|intros _].
  apply uncreating_bind; [|by repeat constructor].
  intros s. destruct (cleanup s) as [[o es] s'] eqn:E. by apply cleanup_removes in E as [? _].
Qed.

Lemma uncreating_sh cmd argv :
    mapM as_str cmd = Ok argv → creating argv = None → uncreating (sh cmd).
Proof.
  intros Ha Hc s. unfold sh, sh_for. rewrite Ha.
  unfold lift, mbind, P_bind, Io_bind, mret, P_ret, Io_ret, command.
  destruct (subprocess_run argv 120 (world s)) as [[p|] w]; simpl;
    (constructor; [by simpl; rewrite Hc|constructor]).
Qed.

Lemma uncreating_before_try : uncreating before_try.
Proof.
  apply uncreating_bind; [case_match; [apply uncreating_failed|by repeat constructor]|intros _].
  apply uncreating_bind; [by eapply uncreating_sh|intros v].
  apply uncreating_bind; [case_match; [apply uncreating_failed|by repeat constructor]|intros _].
  intros s. unfold file. destruct (filesystem MkDTemp (world s)) as [[p|] w]; by repeat constructor.
Qed.

Lemma uncreating_report : uncreating report.
Proof.
  apply uncreating_bind; [by repeat constructor|]. intros [|p ps]; [by repeat constructor|].
  apply uncreating_bind; [by repeat constructor|intros _].
  apply uncreating_bind; [|by repeat constructor].
  generalize (p :: ps). intros l. induction l as [|q l IH]; [by constructor|].
  apply uncreating_bind; [by repeat constructor|by intros _].
Qed.

(** What ends in [final], which creates nothing: a creation comes before all of it. *)
Lemma creation_before es final es1 e es2 r :
    Forall (λ e, creates e = None) final → es ++ final = es1 ++ e :: es2 → creates e = Some r →
    e ∈ es ∧ ∀ e', e' ∈ final → e' ∈ es2.
Proof.
  intros Hf H He. rewrite Forall_forall in Hf.
  apply app_eq_inv in H as [(k & -> & H)|(k & -> & H)].
  - destruct k as [|x k]; simplify_eq/=.
    + exfalso. specialize (Hf e). rewrite He in Hf. by discriminate Hf; left.
    + split; [set_solver|]. intros e' He'. apply elem_of_app. by right.
  - exfalso. specialize (Hf e). rewrite Hf in He; [done|set_solver].
Qed.

(** C16: whatever docker, helm and the file system answer and however the run ends, each container
    that it asked docker to run, and each volume and network that docker answered to have created
    (one whose creation raised is not recorded, and is not meant here), is the object of a later
    command of removal that docker answered, with whatever status; the only exception is a run
    whose last command is such a removal and raises. *)
Theorem everything_removed w :
    let '(o, es, _) := main (start w) in
    (∀ es1 e es2 r, es = es1 ++ e :: es2 → creates e = Some r → removed r es2) ∨ cut_short o es.
Proof.
  unfold main. unfold mbind, P_bind, Io_bind.
  pose proof (uncreating_before_try (start w)) as Hb.
  destruct (before_try (start w)) as [[[d|x] es0] s0]; simpl in Hb.
  2: { left. intros es1 e es2 r -> He. apply Forall_app in Hb as [_ [Hb _]%Forall_cons]. congruence. }
  unfold finally_. destruct (body d s0) as [[o1 es1] s1] eqn:E1.
  destruct (judge_body tracked tracked_steps (λ _, True) (λ _ _, Logic.I) (λ _, 0%Z)
    (or_introl Logic.I) _ _ _ _ _ E1) as [[_ Ht] _].
  destruct (cleanup s1) as [[o2 es2] s2] eqn:E2. apply cleanup_removes in E2 as [Hc2 Hr2].
  (* whatever follows the body, if the clean-up is not cut short *)
  assert (∀ es3, Forall (λ e, creates e = None) es3 → (∀ r, recorded r s1 → removed r es2) →
    ∀ esa e esb r, es0 ++ es1 ++ es2 ++ es3 = esa ++ e :: esb → creates e = Some r →
      removed r esb) as Hall.
  { intros es3 Hc3 Hr esa e esb r H He. rewrite app_assoc in H.
    apply creation_before with (r := r) in H as [Hin Hl]; [|by apply Forall_app|done].
    apply elem_of_app in Hin as [Hin|Hin].
    - rewrite Forall_forall in Hb. apply Hb in Hin. congruence.
    - destruct (Hr r (Ht e r Hin He)) as [a Ha]. exists a. apply Hl, elem_of_app. by left. }
  destruct Hr2 as [(-> & Hr)|(-> & r & es3 & ->)].
  2: { right. split; [done|]. exists r, (es0 ++ es1 ++ es3). by rewrite <- !app_assoc. }
  unfold rmtree. destruct (filesystem (RmTree d) (world s2)) as [a3 w3]. set (s3 := set_world w3 s2).
  destruct o1 as [[]|x].
  2: { left. intros esa e esb r. by apply (Hall [File (RmTree d) a3]); [repeat constructor|]. }
  pose proof (uncreating_report s3) as Hc3.
  destruct (report s3) as [[o3 es3] s4]. left. intros esa e esb r H.
  apply (Hall (File (RmTree d) a3 :: es3) ltac:(by constructor) Hr esa e).
  by rewrite <- H, <- !app_assoc.
Qed.

(** ** The restrictions of a pod *)

(** What a command creates by a name other than the database's runs restricted. *)
Definition confined (e : event) : Prop :=
    ∀ argv a n, e = Ran argv a → creating argv = Some (Container n) → n ≠ DB → restricted n argv.

Lemma confined_steps : step_rules (λ _ es _, Forall confined es).
Proof.
  constructor; try by intros; repeat constructor; intros ? ? ? [= <- _].
  - intros. by apply Forall_app.
  - intros s argv t Ha. constructor; [|done]. intros argv' a n [= <- _] Hc Hn.
    destruct Ha as [argv E|l _|m argv _ Hr].
    + congruence.
    + injection Hc as <-. done.
    + apply restricted_creates in Hr as Hm. by simplify_eq.
Qed.

(** Every container the run starts and leaves running, but for the database it runs
    against, is started with all capabilities dropped and privileged ports enforced: the
    restrictions stand among the options that docker reads before the image. *)
Theorem pods_restricted w :
    ∀ argv a n, Ran argv a ∈ (main (start w)).1.2 → creating argv = Some (Container n) → n ≠ DB →
      restricted n argv.
Proof.
  intros argv a n. destruct (main (start w)) as [[o es] s'] eqn:E.
  apply (judge_main _ confined_steps (λ _, True) (λ _ _, Logic.I) (λ _, 0%Z)
    (or_introl Logic.I)) in E as [Hc _].
  rewrite Forall_forall in Hc. intros He. by eapply Hc.
Qed.

(** ** The waits end *)

Section Time.
    (** [clock] is the time a world has reached. Reading it, a command, a file operation and a
        uuid do not turn it back, and a sleep takes at least as long as it says. *)
    Context (clock : W → Z).
    Context (Hnow : ∀ w, (now w).1 = clock w ∧ (clock w <= clock (now w).2)%Z).
    Context (Hrun : ∀ argv t w, (clock w <= clock (subprocess_run argv t w).2)%Z).
    Context (Hfile : ∀ op w, (clock w <= clock (filesystem op w).2)%Z).
    Context (Huuid : ∀ w, (clock w <= clock (uuid4 w).2)%Z).
    Context (Hsleep : ∀ n w, (0 <= n)%Z → (clock w + n * microseconds <= clock (sleep n w))%Z).

Lemma clock_steps : step_rules (λ s _ s', (clock (world s) <= clock (world s'))%Z).
Proof.
  constructor; simpl; auto using Z.le_refl.
  - intros s es s1 es' s2. apply Z.le_trans.
  - intros s. apply Hnow.
  - intros s n Hn. specialize (Hsleep n (world s) Hn). unfold microseconds in *. lia.
  - intros s v. destruct (succeeded _); apply Hrun.
  - intros s. destruct (succeeded _); apply Hrun.
Qed.

(** No wait is endless: when the clock goes forward and a sleep takes its time, each loop
    ends within the turns the model allows it, one for each second of the longest wait and one
    more, whatever docker answers. *)
Theorem smoke_ends w :
      (OUTAGE_SECONDS < Z.of_nat fuel)%Z → (main (start w)).1.1 ≠ Exn OutOfFuel.
Proof.
  intros Hfuel. destruct (main (start w)) as [[o es] s'] eqn:E.
  apply (judge_main _ clock_steps (λ x, x ≠ OutOfFuel) (λ _ H, H) clock) in E as [_ Hx].
  - intros Ho. by apply (Hx _ Ho).
  - right. split_and!; [apply Hnow|done|done|done].
Qed.
End Time.

End Smoke.

(** ** Names on the wire *)

(** The labels of a name: each is as long as its first byte says, and a zero byte ends them. *)
Fixpoint read_labels (fuel : nat) (s : string) : option (list string * string) :=
  match fuel, s with
  | S fuel, String c s' =>
      let n := Z.to_nat (code c) in
      if Nat.eqb n 0 then Some ([], s')
      else if (String.length s' <? n)%nat then None
      else match read_labels fuel (drop_str n s') with
           | Some (ls, rest) => Some (take_str n s' :: ls, rest)
           | None => None
           end
  | _, _ => None
  end.

Lemma concat_cons x l : String.concat "" (x :: l) = x +:+ String.concat "" l.
Proof. destruct l; [by rewrite append_nil_r|done]. Qed.

Lemma code_char n : (0 <= n < 256)%Z → code (char n) = n.
Proof. intros Hn. unfold code, char. rewrite nat_ascii_embedding; lia. Qed.

Lemma read_label p fuel s :
  p ≠ "" → (Z.of_nat (String.length p) < 256)%Z →
  read_labels (S fuel) (String (char (Z.of_nat (String.length p))) p +:+ s)
  = match read_labels fuel s with Some (ls, rest) => Some (p :: ls, rest) | None => None end.
Proof.
  intros Hp Hn. cbn [read_labels String.append]. rewrite code_char, Nat2Z.id by lia.
  destruct (Nat.eqb_spec (String.length p) 0) as [H0|_]; [by destruct p|].
  destruct (Nat.ltb_spec (String.length (p +:+ s)) (String.length p)) as [Hl|_].
  - rewrite length_append in Hl. lia.
  - by rewrite drop_app_str, take_app_str.
Qed.

(** C38: a name is read back from the bytes that are sent for it: when no label of it is empty,
    reading the wire form gives its labels and leaves what follows the name. *)
Theorem qname_read_back name w rest :
  qname name = Ok w → Forall (λ p, p ≠ "") (split_on "." (strip_dots name)) →
  read_labels (S (length (split_on "." (strip_dots name)))) (w +:+ rest)
  = Some (split_on "." (strip_dots name), rest).
Proof.
  intros (ls & Hls & [= <-])%bind_Ok. revert ls Hls.
  induction (split_on "." (strip_dots name)) as [|p ps IH]; intros ls Hls Hne.
  - by injection Hls as <-.
  - apply bind_Ok in Hls as (l & Hl & Hls). apply bind_Ok in Hls as (ls' & Hls & [= <-]).
    apply Forall_cons in Hne as [Hp Hne]. unfold wire_label in Hl.
    destruct (Z.leb_spec 256 (Z.of_nat (String.length p))) as [|Hlen]; [done|].
    injection Hl as <-. rewrite concat_cons, !append_assoc. cbn [length].
    rewrite read_label by done. rewrite <- append_assoc. by rewrite (IH ls' Hls Hne).
Qed.

Lemma qname_read_back_witness :
  qname ZONE = Ok (String (char 5) "smoke" +:+ String (char 7) "example" +:+ String (char 0) "") ∧
  read_labels 3 ((String (char 5) "smoke" +:+ String (char 7) "example" +:+ String (char 0) "")
                 +:+ "tail") = Some (["smoke"; "example"], "tail").
Proof.
  split; [reflexivity|].
  apply (qname_read_back ZONE _ "tail"); [reflexivity|repeat constructor; discriminate].
Defined.

(** ** The volumes of two pods *)

Lemma append_inj_tail a b i j :
  a +:+ i = b +:+ j → String.length i = String.length j → i = j.
Proof.
  intros H Hl. assert (String.length a = String.length b) as Hab.
  { apply (f_equal String.length) in H. rewrite !length_append in H. lia. }
  rewrite <- (drop_app_str a i), H, Hab. by rewrite drop_app_str.
Qed.

(** Two pods with different ids, which are equally long, share no volume. *)
Lemma volumes_apart a b i j :
  String.length i = String.length j → volume_name a i = volume_name b j → i = j.
Proof.
  unfold volume_name. intros Hl H.
  apply (append_inj_tail ("pdns-smoke-" +:+ a +:+ "-") ("pdns-smoke-" +:+ b +:+ "-")); [|done].
  by rewrite !append_assoc.
Qed.

(** ** A concrete run

    A cluster of one world: the clock, whether the database is up, and its tables. *)
Module Sample.
Record sim := { ticks : Z; up : bool; db_tables : list string }.

Definition answer_ (rc : Z) (out err : string) : option proc :=
  Some {| returncode := rc; stdout := out; stderr := err |}.
Definition all_tables : list string := ["domains"; "records"].
Definition run_id : string := "fedcba9876543210".
Definition DB0 : string := "pdns-smoke-db-fedcba98".

(** The last word of [docker exec DB mariadb ...] *)
Definition sql_run (sql : string) (w : sim) : option proc * sim :=
  if String.eqb sql "select 1" then (answer_ (if up w then 0 else 1) "" "", w)
  else if String.eqb sql "show tables" then (answer_ 0 (String.concat " " (db_tables w)) "", w)
  else (answer_ 0 "" "", {| ticks := ticks w; up := up w;
          db_tables := filter (λ x, contains (drop_table x) sql = false) (db_tables w) |}).

Definition sync_run (w : sim) : option proc * sim :=
  match db_tables w with
  | [_] => (answer_ 1 "" "table records is missing", w)
  | _ => (answer_ 0 "" "", {| ticks := ticks w; up := up w; db_tables := all_tables |})
  end.

Definition python_run (code : string) : string :=
  if contains "wrong-key" code then "401" else if contains "POST" code then "201"
  else if contains "GET" code then "200" else if contains "d[6:8]" code then "0 1" else "0".

Definition set_up (b : bool) (w : sim) : sim :=
  {| ticks := ticks w; up := b; db_tables := db_tables w |}.

Definition run (argv : list string) (t : Z) (w : sim) : option proc * sim :=
  if is_prefix ["helm"] argv then
    (answer_ 0 (if bool_decide (rotated ∈ argv) then "rotated" else "base") "", w)
  else if is_prefix ["docker"; "stop"; DB0] argv then (answer_ 0 "" "", set_up false w)
  else if is_prefix ["docker"; "start"; DB0] argv then (answer_ 0 "" "", set_up true w)
  else if is_prefix ["docker"; "run"; "-d"; "--name"; DB0] argv then (answer_ 0 "" "", set_up true w)
  else if is_prefix ["docker"; "exec"; DB0] argv then sql_run (List.last argv "") w
  else if bool_decide ("sync:1" ∈ argv) then sync_run w
  else if bool_decide ("ready" ∈ argv) then (answer_ (if up w then 0 else 1) "" "", w)
  else if bool_decide ("-c" ∈ argv) then (answer_ 0 (python_run (List.last argv "")) "", w)
  else if is_prefix ["docker"; "inspect"] argv then (answer_ 0 "true" "", w)
  else (answer_ 0 "" "", w).

Definition files (op : file_op) (w : sim) : option string * sim := (Some "/tmp/w", w).
Definition uuids (w : sim) : string * sim :=
  (str_of_Z (100000 + ticks w), {| ticks := ticks w + 1; up := up w; db_tables := db_tables w |}).
Definition clock_ (w : sim) : Z * sim := (ticks w, w).
Definition wait (n : Z) (w : sim) : sim :=
  {| ticks := ticks w + Z.max 0 n * microseconds; up := up w; db_tables := db_tables w |}.

#[local] Notation "'dict' [ x ; .. ; y ]" :=
  (VDict (@cons (string * val) x .. (@cons (string * val) y (@nil (string * val))) ..)).
#[local] Notation "'list' [ x ; .. ; y ]" := (VList (@cons val x .. (@cons val y (@nil val)) ..)).

Definition env_var (k v : string) : val := dict [("name", VStr k); ("value", VStr v)].
Definition secret_var (k n : string) : val :=
  dict [("name", VStr k); ("valueFrom",
    dict [("secretKeyRef", dict [("name", VStr n); ("key", VStr k)])])].
Definition exec_probe (c : string) : val := dict [("exec", dict [("command", list [VStr c])])].
Definition port (n : string) (p : Z) : val := dict [("name", VStr n); ("containerPort", VInt p)].

Definition scratch_volumes : val :=
  list [dict [("name", VStr "tmp"); ("emptyDir", VDict [])];
        dict [("name", VStr "bin"); ("configMap", dict [("name", VStr "powerdns-bin")])]].
Definition scratch_mounts : val :=
  list [dict [("name", VStr "tmp"); ("mountPath", VStr "/tmp")];
        dict [("name", VStr "bin"); ("mountPath", VStr "/start.sh"); ("subPath", VStr "start.sh")]].

Definition pdns : val :=
  dict [("name", VStr "powerdns"); ("image", VStr "pdns:1");
        ("command", list [VStr "/start.sh"; VStr "serve"]); ("volumeMounts", scratch_mounts);
        ("env", list [secret_var "API" "powerdns-api-key"]);
        ("securityContext", dict [("runAsUser", VInt 953);
                                  ("allowPrivilegeEscalation", VBool false)]);
        ("ports", list [port "api" 8081; port "dns-udp" 5353]);
        ("readinessProbe", exec_probe "ready"); ("livenessProbe", exec_probe "live")].

Definition templated (kind name hash : string) (spec : val) : val :=
  dict [("kind", VStr kind); ("metadata", dict [("name", VStr name)]);
        ("spec", dict [("template",
          dict [("metadata", dict [("annotations", dict [("secret-db-hash", VStr hash)])]);
                ("spec", spec)])])].

Definition job : val :=
  dict [("volumes", scratch_volumes);
        ("initContainers", list [dict [("name", VStr "powerdns-schema-copy");
           ("image", VStr "pdns:1"); ("volumeMounts", scratch_mounts)]]);
        ("containers", list [dict [("name", VStr "powerdns-db-sync"); ("image", VStr "sync:1");
           ("volumeMounts", scratch_mounts);
           ("env", list [env_var "DB_USER" "powerdns"; env_var "DB_NAME" "powerdns";
                         env_var "DB_HOST" "mariadb";
                         secret_var "DB_PASSWORD" "powerdns-db-user"])]])].

Definition rendered (hash : string) : list val :=
  [VNone;
   templated "Deployment" "powerdns" hash
     (dict [("volumes", scratch_volumes); ("containers", list [pdns])]);
   templated "Job" "powerdns-db-sync" "" job;
   dict [("kind", VStr "Service"); ("metadata", dict [("name", VStr "powerdns")]);
         ("spec", dict [("ports", list [dict [("name", VStr "dns"); ("targetPort", VStr "dns-udp")]])])];
   dict [("kind", VStr "ConfigMap"); ("metadata", dict [("name", VStr "powerdns-bin")]);
         ("data", dict [("start.sh", VStr "exec pdns_server")])];
   dict [("kind", VStr "Secret"); ("metadata", dict [("name", VStr "powerdns-db-user")]);
         ("data", dict [("DB_PASSWORD", VStr "aGVsbG8=")])]].

Definition yaml_all (s : string) : res (list val) := Ok (rendered s).
Definition yaml_one (s : string) : res val :=
  Ok (dict [("images", dict [("tags", dict [("mariadb", VStr "mariadb:11")])])]).

#[local] Instance sample_env : Env sim := {|
  subprocess_run := run; filesystem := files; uuid4 := uuids; now := clock_; sleep := wait;
  load_all := yaml_all; load := yaml_one; which := λ _, true; ROOT := "/repo"; api_uuid := "aa";
  run_uuid := run_id; fuel := 136
|}.
Notation sample_main := (main (ENV := sample_env)).
Definition fresh : sim := {| ticks := 0; up := false; db_tables := [] |}.

(** The command that starts the server. *)
Definition server_argv : list string :=
  ["docker"; "run"; "-d"; "--name"; "pdns-smoke-server-fedcba98"; "--network"; "pdns-smoke-fedcba98";
   "-v"; "pdns-smoke-tmp-100008:/tmp"; "-v"; "/tmp/w/powerdns-bin-start.sh:/start.sh:ro";
   "--user"; "953"; "--security-opt"; "no-new-privileges"] ++ restrictions ++
  ["-e"; "API=smoke-api-key-aa"; "--entrypoint"; "/start.sh"; "pdns:1"; "serve"].

Lemma pods_restricted_witness :
  (sample_main (start fresh)).1.2 !! 46%nat = Some (Ran server_argv (answer_ 0 "" "")) ∧
  restricted "pdns-smoke-server-fedcba98" server_argv.
Proof.
  assert ((sample_main (start fresh)).1.2 !! 46%nat = Some (Ran server_argv (answer_ 0 "" "")))
    as H by (vm_compute; reflexivity).
  split; [exact H|]. pose proof (list_elem_of_lookup_2 _ _ _ H) as Hin.
  by apply (pods_restricted fresh _ _ _ Hin).
Defined.

Lemma runs_on argv t w : (ticks w <= ticks (run argv t w).2)%Z.
Proof. unfold run, sql_run, sync_run. repeat case_match; simpl; lia. Qed.

Lemma smoke_ends_witness : (sample_main (start fresh)).1.1 ≠ Exn OutOfFuel.
Proof.
  apply (smoke_ends ticks).
  - intros w. split; [reflexivity|apply Z.le_refl].
  - apply runs_on.
  - intros op w. apply Z.le_refl.
  - intros w. apply Z.le_succ_diag_r.
  - intros n w Hn. change (ticks w + n * microseconds <= ticks w + Z.max 0 n * microseconds)%Z.
    rewrite Z.max_r by exact Hn. apply Z.le_refl.
  - reflexivity.
Defined.

(** A job that goes green without making a table ends the test with an exception: the problem
    that was found is not reported. *)
Definition idle_run (argv : list string) (t : Z) (w : sim) : option proc * sim :=
  if bool_decide ("sync:1" ∈ argv) then (answer_ 0 "" "", w) else run argv t w.

#[local] Instance idle_env : Env sim := {|
  subprocess_run := idle_run; filesystem := files; uuid4 := uuids; now := clock_; sleep := wait;
  load_all := yaml_all; load := yaml_one; which := λ _, true; ROOT := "/repo"; api_uuid := "aa";
  run_uuid := run_id; fuel := 136
|}.

Lemma problem_lost :
  let '(o, es, s) := main (ENV := idle_env) (start fresh) in
  o = Exn (Raised IndexError) ∧ problems s = [NoDomains []] ∧
  existsb (λ e, match e with Printed _ => true | _ => false end) es = false.
Proof. vm_compute. done. Qed.
End Sample.
End PowerdnsRuns.
