(* ===== verification/PowerdnsSeen.v ===== *)
(** * What a powerdns smoke test that ends well has seen

    The whole run as a trace: the commands that act on the containers and the database, each with
    what of the render it is made of and how it was answered, and nothing of the kind between. *)
From S2P Require Import Prelude PyStr PyVal PyEq Json PyText Io Powerdns PowerdnsRules PowerdnsRuns.
#[local] Open Scope string_scope.
#[local] Open Scope list_scope.
#[local] Coercion VStr : string >-> val.

#[local] Notation "'str[' x ; .. ; y ]" := (@cons val x .. (@cons val y (@nil val)) ..)
  (format "str[ x ;  .. ;  y ]").

Module PowerdnsSeen.
Import Powerdns PowerdnsRules.

Section Smoke.
  Context {W : Type} {ENV : Env W}.
  #[local] Notation P := (Powerdns.P W).

(** ** Traces *)

(** A command that runs a container other than a passing one, stops one, brings the database back,
    or puts a statement to it. *)
Definition deed (argv : list string) : bool :=
    (is_prefix ["docker"; "run"] argv && negb (is_prefix ["docker"; "run"; "--rm"] argv))
    || is_prefix ["docker"; "stop"] argv || is_prefix ["docker"; "start"; DB] argv
    || (is_prefix ["docker"; "exec"; DB] argv && negb (String.eqb (List.last argv "") "select 1")).
Definition calm (e : event) : Prop := match e with Ran argv _ => deed argv = false | _ => True end.

(** What is asked of an event and of the events before it. *)
Definition item : Type := list event → event → Prop.
Definition just (φ : event → Prop) : item := λ _, φ.

(** Events as the items describe them, in this order, and calm ones. *)
Fixpoint trace (l : list item) (es : list event) : Prop :=
    match l with
    | [] => Forall calm es
    | φ :: l' => ∃ es1 e es2 pre, es = es1 ++ e :: es2 ∧ Forall calm es1 ∧ pre ⊆ es1 ∧ φ pre e ∧
        trace l' es2
    end.

Lemma trace_skip l es es' : Forall calm es → trace l es' → trace l (es ++ es').
Proof.
  intros Hc. destruct l as [|φ l]; simpl; [intros H; apply Forall_app; auto|].
  intros (es1 & e & es2 & pre & -> & H1 & Hp & H). exists (es ++ es1), e, es2, pre.
  rewrite <- app_assoc. split_and!; [done|by apply Forall_app|set_solver|apply H..].
Qed.

Lemma trace_app l l' es es' : trace l es → trace l' es' → trace (l ++ l') (es ++ es').
Proof.
  revert es. induction l as [|φ l IH]; intros es; simpl; [apply trace_skip|].
  intros (es1 & e & es2 & pre & -> & H1 & Hp & He & H) H'. exists es1, e, (es2 ++ es'), pre.
  rewrite <- app_assoc. split_and!; [done..|]. by apply IH.
Qed.

Lemma trace_after l es es' : Forall calm es' → trace l es → trace l (es ++ es').
Proof. intros Hc H. rewrite <- (app_nil_r l). by apply trace_app. Qed.

Lemma trace_one (φ : item) es1 e : Forall calm es1 → φ es1 e → trace [φ] (es1 ++ [e]).
Proof. intros Hc He. exists es1, e, [], es1. by split_and!; [..|constructor]. Qed.

Lemma trace_mono (φ ψ : item) es : (∀ pre e, φ pre e → ψ pre e) → trace [φ] es → trace [ψ] es.
Proof.
  intros H (es1 & e & es2 & pre & -> & H1 & Hp & He & H2). exists es1, e, es2, pre. split_and!; auto.
Qed.

(** *** Programs that do nothing of the kind *)

Definition quiet {A} (m : P A) : Prop := ∀ s a es s', m s = (Ret a, es, s') → Forall calm es.

Lemma bind_Ret {A B} (m : P A) (f : A → P B) s b es s' :
    (m ≫= f) s = (Ret b, es, s') →
    ∃ a es1 s1 es2, m s = (Ret a, es1, s1) ∧ f a s1 = (Ret b, es2, s') ∧ es = es1 ++ es2.
Proof.
  unfold mbind, P_bind, Io_bind. destruct (m s) as [[[a|x] es1] s1]; [|done].
  destruct (f a s1) as [[o2 es2] s2] eqn:E. intros [= -> <- <-]. by exists a, es1, s1, es2.
Qed.

Lemma quiet_mret {A} (a : A) : quiet (mret a).
Proof. by intros s b es s' [= <- <- <-]. Qed.
Lemma quiet_raise {A} x : quiet (raise x : P A).
Proof. done. Qed.
Lemma quiet_seq {A B} (m : P A) (f : A → P B) : quiet m → (∀ a, quiet (f a)) → quiet (m ≫= f).
Proof.
  intros Hm Hf s b es s' (a & es1 & s1 & es2 & E1 & E2 & ->)%bind_Ret.
  apply Forall_app. split; [by eapply Hm|by eapply Hf].
Qed.
Lemma quiet_gets {A} (f : state W → A) : quiet (gets f).
Proof. by intros s b es s' [= <- <- <-]. Qed.
Lemma quiet_modify f : quiet (modify f : P unit).
Proof. by intros s b es s' [= <- <- <-]. Qed.
Lemma quiet_print l : quiet (print l).
Proof. intros s b es s' [= <- <- <-]. by repeat constructor. Qed.
Lemma quiet_sleep n : quiet (do_sleep n).
Proof. intros s b es s' [= <- <- <-]. by repeat constructor. Qed.
Lemma quiet_time : quiet time.
Proof. intros s b es s'. unfold time. destruct (now _). by intros [= <- <- <-]. Qed.
Lemma quiet_uuid : quiet uuid.
Proof. intros s b es s'. unfold uuid. destruct (uuid4 _). by intros [= <- <- <-]. Qed.
Lemma quiet_file op : quiet (file op).
Proof.
  intros s b es s'. unfold file. destruct (filesystem op (world s)) as [[t|] w]; [|done].
  intros [= <- <- <-]. by repeat constructor.
Qed.
Lemma quiet_rmtree d : quiet (rmtree d).
Proof.
  intros s b es s'. unfold rmtree. destruct (filesystem _ (world s)) as [t w].
  intros [= <- <- <-]. by repeat constructor.
Qed.
Lemma quiet_lift {A} (r : res A) : quiet (lift r).
Proof. destruct r; [apply quiet_mret|apply quiet_raise]. Qed.
Lemma quiet_option {A} (o : option A) x : quiet (of_option o x).
Proof. destruct o; [apply quiet_mret|apply quiet_raise]. Qed.
Lemma quiet_command argv t : deed argv = false → quiet (command argv t).
Proof.
  intros Hd s b es s'. unfold command.
  destruct (subprocess_run argv t (world s)) as [[p|] w]; [|done].
  intros [= <- <- <-]. by repeat constructor.
Qed.
(** It never returns. *)
Lemma failed_never {A} f s (a : A) es s' : measurement_failed f s = (Ret a, es, s') → False.
Proof.
  intros (? & ? & ? & ? & _ & E & _)%bind_Ret. revert E.
  intros (? & ? & ? & ? & _ & E & _)%bind_Ret. revert E.
  by intros (? & ? & ? & ? & _ & E & _)%bind_Ret.
Qed.
Lemma quiet_failed {A} f : quiet (measurement_failed f : P A).
Proof. by intros s a es s' ?%failed_never. Qed.
Lemma quiet_iterM {A} (f : A → P unit) l : (∀ a, quiet (f a)) → quiet (iterM f l).
Proof. intros Hf. induction l as [|a l IH]; [apply quiet_mret|]. by apply quiet_seq. Qed.

Lemma quiet_lift_bind {A B} (r : res A) (f : A → P B) :
    (∀ a, r = Ok a → quiet (f a)) → quiet (lift r ≫= f).
Proof.
  intros H s b es s' (a & es1 & s1 & es2 & E1 & E2 & ->)%bind_Ret.
  destruct r as [a'|]; [|done]. injection E1 as -> <- <-. by eapply H.
Qed.

(** A command whose first words show what it is. *)
Lemma quiet_sh ss t l check :
    (∀ l', deed (ss ++ l') = false) → quiet (sh_for t ((VStr <$> ss) ++ l) check).
Proof.
  intros H. apply quiet_lift_bind. intros argv (ys & _ & ->)%mapM_as_str_head.
  apply quiet_seq; [by apply quiet_command|]. intros out.
  destruct (check && _); [apply quiet_failed|apply quiet_mret].
Qed.

Lemma deed_server n l : n = SERVER ∨ n = SERVER +:+ "-narrow" →
    deed (["docker"; "exec"; n] ++ l) = false.
Proof. by intros [-> | ->]. Qed.
Lemma deed_start_server l : deed (["docker"; "start"; SERVER] ++ l) = false.
Proof. done. Qed.

Lemma quiet_exec n l : n = SERVER ∨ n = SERVER +:+ "-narrow" →
    quiet (sh (VStr "docker" :: VStr "exec" :: VStr n :: l)).
Proof. intros Hn. apply (quiet_sh ["docker"; "exec"; n]). intros l'. by apply deed_server. Qed.
Lemma quiet_select l :
    quiet (sh str["docker"; "exec"; DB; "mariadb"; "-uroot"; l; "-e"; "select 1"]).
Proof.
  apply quiet_lift_bind. intros argv H. destruct l; try done. injection H as <-.
  apply quiet_seq; [|intros out; apply quiet_mret]. apply quiet_command. unfold deed.
  cbn [List.last is_prefix String.eqb Ascii.eqb Bool.eqb andb orb]. by rewrite andb_false_r.
Qed.
Lemma quiet_logs l : quiet (sh (VStr "docker" :: VStr "logs" :: l)).
Proof. by apply (quiet_sh ["docker"; "logs"]). Qed.
Lemma quiet_inspect l : quiet (sh (VStr "docker" :: VStr "inspect" :: l)).
Proof. by apply (quiet_sh ["docker"; "inspect"]). Qed.
Lemma quiet_version l : quiet (sh (VStr "docker" :: VStr "version" :: l)).
Proof. by apply (quiet_sh ["docker"; "version"]). Qed.
Lemma quiet_start l : quiet (sh_check (VStr "docker" :: VStr "start" :: VStr SERVER :: l)).
Proof. by apply (quiet_sh ["docker"; "start"; SERVER]). Qed.
Lemma quiet_volume l : quiet (sh_check (VStr "docker" :: VStr "volume" :: l)).
Proof. by apply (quiet_sh ["docker"; "volume"]). Qed.
Lemma quiet_rm l : quiet (sh_check (VStr "docker" :: VStr "run" :: VStr "--rm" :: l)).
Proof. by apply (quiet_sh ["docker"; "run"; "--rm"]). Qed.
End Smoke.

Create HintDb quiet.
#[export] Hint Resolve quiet_mret quiet_raise quiet_gets quiet_modify quiet_print quiet_sleep quiet_time
  quiet_uuid quiet_file quiet_rmtree quiet_lift quiet_option quiet_failed quiet_logs quiet_inspect
  quiet_version quiet_start quiet_volume quiet_rm quiet_select : quiet.
#[export] Hint Extern 1 (quiet (command _ _)) => by apply quiet_command : quiet.

(** Programs are taken apart down to steps that are known. *)
Ltac quiets :=
  repeat first
    [ solve [auto with quiet]
    | match goal with
      | |- quiet (_ ≫= _) => apply quiet_seq; [|intros ?]
      | |- quiet (if ?b then _ else _) => destruct b
      | |- quiet (match ?x with _ => _ end) => destruct x
      | |- quiet (iterM _ _) => apply quiet_iterM; intros ?
      end ].

Section Programs.
  Context {W : Type} {ENV : Env W}.
  #[local] Notation P := (Powerdns.P W).

Lemma quiet_running n : quiet (running n).
Proof. unfold running. quiets. Qed.
Lemma quiet_find ds k n : quiet (find ds k n).
Proof. unfold find. quiets. Qed.
Lemma quiet_db_logs : quiet db_logs.
Proof. unfold db_logs. quiets. Qed.
Hint Resolve quiet_running quiet_find quiet_db_logs : quiet.
Lemma quiet_next {A} (r : res (option A)) : quiet (lift_next r).
Proof. unfold lift_next. quiets. Qed.
Lemma quiet_wait_for_db : quiet wait_for_db.
Proof. unfold wait_for_db. generalize POLLS. intros n. induction n as [|n IH]; simpl; quiets. Qed.
Lemma quiet_cleanup : quiet cleanup.
Proof. unfold cleanup. quiets. Qed.
Lemma quiet_before_try : quiet before_try.
Proof. unfold before_try. quiets. Qed.
Lemma quiet_hold n : quiet (hold n).
Proof.
  unfold hold. apply quiet_seq; [apply quiet_time|intros t]. apply quiet_seq; [|intros _; quiets].
  generalize fuel. intros k. induction k as [|k IH]; simpl; quiets.
Qed.
Hint Resolve quiet_next quiet_wait_for_db quiet_hold : quiet.
Lemma quiet_report_outage n w : quiet (report_outage n w).
Proof. unfold report_outage. quiets. Qed.
Lemma quiet_probe n c k : n = SERVER ∨ n = SERVER +:+ "-narrow" → quiet (probe_of n c k).
Proof.
  intros Hn. unfold probe_of, probe. quiets. by apply quiet_exec.
Qed.
Lemma quiet_pod_volume i k : quiet (pod_volume i k).
Proof. unfold pod_volume, setdefault. quiets. Qed.
Lemma quiet_create_volume i v : quiet (create_volume i v).
Proof. unfold create_volume, make_volume. quiets. Qed.

(** ** What is known of a run *)

(** The emptyDirs of a pod are named after it. *)
Definition pod_at (i : nat) (id : string) (s : state W) : Prop :=
    ∃ p, pods s !! i = Some p ∧ pod_id p = id ∧
      Forall (λ kv, ∃ n, py_str kv.1 = Ok n ∧ kv.2 = volume_name n id) (volumes p).

(** Problems are only ever added, and a pod stays what it is. *)
Definition grown (s : state W) (es : list event) (s' : state W) : Prop :=
    problems s `prefix_of` problems s' ∧ ∀ i id, pod_at i id s → pod_at i id s'.

Lemma grown_same s es s' : problems s' = problems s → pods s' = pods s → grown s es s'.
Proof. intros Hp Hq. split; [by rewrite Hp|]. intros i id. unfold pod_at. by rewrite Hq. Qed.

Lemma grown_steps : step_rules grown.
Proof.
  constructor; try by intros; apply grown_same.
  - intros s es s1 es' s2 [H1 H2] [H3 H4]. split; [by etrans|auto].
  - intros s p. split; [by exists [p]|done].
  - intros s u. split; [done|]. intros i id (p & Hp & Hi). exists p.
    split; [by apply lookup_app_l_Some|done].
  - intros s i p k n Hp Hk. split; [done|]. intros j id (q & Hq & Hid & Hv). unfold pod_at. simpl.
    destruct (decide (i = j)) as [<-|Hij]; [|rewrite list_lookup_insert_ne by done; by exists q].
    rewrite Hp in Hq. injection Hq as <-. eexists.
    split; [apply list_lookup_insert_eq; by eapply lookup_lt_Some|]. split; [done|]. simpl.
    apply Forall_app. split; [done|]. repeat constructor. exists n. by rewrite Hid.
  - intros s v argv. destruct (succeeded _); by apply grown_same.
  - intros s argv. destruct (succeeded _); by apply grown_same.
Qed.

Notation grows := (judge grown (λ _, True)).
#[local] Instance grows_base : Base grows :=
    judge_base _ grown_steps _ (λ _ _, Logic.I) (λ _, 0%Z) (or_introl Logic.I).
#[local] Instance grows_logic : Logic grows :=
    judge_logic _ grown_steps _ (λ _ _, Logic.I) (λ _, 0%Z) (or_introl Logic.I).

Lemma grows_run {A} (m : P A) s o es s' : grows [] A m any → m s = (o, es, s') → grown s es s'.
Proof. intros H E. destruct (H s o es s') as [? _]; [done|set_solver|done|done]. Qed.

(** The pods that were made, by their places and ids. *)
Definition knows (I : list (nat * string)) (s : state W) : Prop :=
    ∀ i id, (i, id) ∈ I → pod_at i id s.

(** Where [m] returns and no problem was found by then, [Q] holds of the value and the events. *)
Definition sees (I : list (nat * string)) {A} (m : P A) (Q : A → list event → Prop) : Prop :=
    grows [] A m any ∧
    ∀ s a es s', knows I s → m s = (Ret a, es, s') → problems s' = [] → Q a es.

Lemma prefix_none {A} (l l' : list A) : l `prefix_of` l' → l' = [] → l = [].
Proof. intros [k ->] [-> _]%app_eq_nil. done. Qed.

Section Sees.
  Context {I : list (nat * string)}.

Lemma sees_weaken {A} (m : P A) (Q Q' : A → list event → Prop) :
    (∀ a es, Q a es → Q' a es) → sees I m Q → sees I m Q'.
Proof. intros HQ [Hg H]. split; [done|]. eauto. Qed.

Lemma sees_bind {A B} (m : P A) (f : A → P B) Q1 Q2 Q3 :
    sees I m Q1 → (∀ a, sees I (f a) (Q2 a)) →
    (∀ a b es1 es2, Q1 a es1 → Q2 a b es2 → Q3 b (es1 ++ es2)) → sees I (m ≫= f) Q3.
Proof.
  intros [Hm H1] Hf H3. split.
  - eapply j_seq; [apply grows_base|exact Hm|intros a; apply Hf].
  - intros s b es s' Hk (a & es1 & s1 & es2 & E1 & E2 & ->)%bind_Ret Hp.
    destruct (grows_run _ _ _ _ _ Hm E1) as [_ Hg1].
    destruct (Hf a) as [Hg2 H2]. destruct (grows_run _ _ _ _ _ Hg2 E2) as [Hp2 _].
    eapply H3; [eapply H1; [exact Hk|exact E1|by eapply prefix_none]|].
    eapply H2; [|exact E2|done]. intros i id Hin. by apply Hg1, Hk.
Qed.

Lemma sees_ret {A} (a : A) : sees I (mret a) (λ b es, b = a ∧ es = []).
Proof. split; [by apply (j_ret (Base := grows_base))|]. by intros s b es s' _ [= <- <- <-]. Qed.

Lemma sees_quiet {A} (m : P A) : grows [] A m any → quiet m → sees I m (λ _, Forall calm).
Proof. intros Hg Hq. split; [done|]. intros s a es s' _ E _. by eapply Hq. Qed.

(** A step that is not looked at, before one for which calm events before it do not count. *)
Definition settled {A} (Q : A → list event → Prop) : Prop :=
    ∀ a es es', Forall calm es → Q a es' → Q a (es ++ es').
Lemma settled_trace {A} (l : A → list item) : settled (λ a, trace (l a)).
Proof. intros a es es'. apply trace_skip. Qed.

Lemma sees_skip {A B} (m : P A) (f : A → P B) Q :
    settled Q → grows [] A m any → quiet m → (∀ a, sees I (f a) Q) → sees I (m ≫= f) Q.
Proof.
  intros HQ Hg Hm Hf. eapply sees_bind; [by apply sees_quiet|exact Hf|]. intros a b es es'. apply HQ.
Qed.

(** Reading a value first. *)
Lemma sees_lift_bind {A B} (r : res A) (f : A → P B) Q :
    (∀ a, r = Ok a → sees I (f a) Q) → sees I (lift r ≫= f) Q.
Proof.
  intros H. split.
  - apply (j_lift_bind grows). intros a Ha. by apply H.
  - intros s b es s' Hk (a & es1 & s1 & es2 & E1 & E & ->)%bind_Ret. destruct r as [a'|]; [|done].
    injection E1 as -> <- <-. by eapply H.
Qed.

Lemma sees_option {A B} (o : option A) x (f : A → P B) Q : x ≠ OutOfFuel →
    (∀ a, o = Some a → sees I (f a) Q) → sees I (of_option o x ≫= f) Q.
Proof.
  intros Hx H. split.
  - destruct o as [a|].
    + eapply (j_bind (Base := grows_base)); [by apply (j_ret (Base := grows_base)) with (Q := eq a)|].
      intros b <-. by apply H.
    + eapply (j_bind (Base := grows_base)); [by apply (j_raise (Base := grows_base)) with (Q := λ _, False)|done].
  - intros s b es s' Hk (a & es1 & s1 & es2 & E1 & E & ->)%bind_Ret. destruct o as [a'|]; [|done].
    injection E1 as -> <- <-. by eapply H.
Qed.

Lemma sees_failed {A} f Q : sees I (measurement_failed f : P A) Q.
Proof. split; [apply (j_failed grows)|]. by intros s a es s' _ ?%failed_never. Qed.

Lemma sees_problem p Q : sees I (problem_ p) Q.
Proof.
  split; [by apply (j_problem (Base := grows_base))|]. intros s a es s' _ [= <- <- <-]. simpl.
  by destruct (problems s).
Qed.

Lemma sees_when b p : sees I (when b p) (λ _ es, b = false ∧ es = []).
Proof. destruct b; [apply sees_problem|]. eapply sees_weaken; [|apply sees_ret]. by intros a es [_ ->]. Qed.

(** *** Values that are read from the render alone *)

Definition reads {A} (m : P A) (a : A) : Prop := ∀ s, m s = (Ret a, [], s).
Definition pure {A} (m : P A) : Prop :=
    ∀ s a es s', m s = (Ret a, es, s') → es = [] ∧ reads m a.

Lemma pure_ret {A} (a : A) : pure (mret a).
Proof. by intros s b es s' [= <- <- <-]. Qed.
Lemma pure_lift {A} (r : res A) : pure (lift r).
Proof. by destruct r as [a|x]; intros s b es s' [= <- <- <-]. Qed.
Lemma pure_option {A} (o : option A) x : pure (of_option o x).
Proof. by destruct o as [a|]; intros s b es s' [= <- <- <-]. Qed.
Lemma pure_raise {A} x : pure (raise x : P A).
Proof. by intros s b es s'. Qed.
Lemma pure_failed {A} f : pure (measurement_failed f : P A).
Proof. by intros s a es s' ?%failed_never. Qed.
Lemma pure_bind {A B} (m : P A) (f : A → P B) : pure m → (∀ a, pure (f a)) → pure (m ≫= f).
Proof.
  intros Hm Hf s b es s' (a & es1 & s1 & es2 & E1 & E2 & ->)%bind_Ret.
  destruct (Hm _ _ _ _ E1) as [-> Ha]. destruct (Hf _ _ _ _ _ E2) as [-> Hb]. split; [done|].
  intros s0. unfold mbind, P_bind, Io_bind. by rewrite Ha, Hb.
Qed.

Lemma sees_pure {A} (m : P A) : grows [] A m any → pure m → sees I m (λ a es, reads m a ∧ es = []).
Proof. intros Hg Hm. split; [done|]. intros s a es s' _ E _. by destruct (Hm _ _ _ _ E). Qed.
Lemma grows_reads {A} (m : P A) : grows [] A m any → pure m → grows [] A m (reads m).
Proof.
  intros Hg Hm s o es s' Hs Hr E. destruct (Hg _ _ _ _ Hs Hr E) as (? & ? & ? & _).
  split_and!; [done..|]. intros a ->. by destruct (Hm _ _ _ _ E).
Qed.
Lemma sees_read {A B} (m : P A) (f : A → P B) Q :
    grows [] A m any → pure m → (∀ a, reads m a → sees I (f a) Q) → sees I (m ≫= f) Q.
Proof.
  intros Hg Hm Hf. split.
  - eapply (j_bind (Base := grows_base)); [by apply grows_reads|]. intros a Ha. by apply Hf.
  - intros s b es s' Hk (a & es1 & s1 & es2 & E1 & E & ->)%bind_Ret Hp.
    destruct (Hm _ _ _ _ E1) as [-> Ha]. pose proof (Ha s) as Ha'. rewrite E1 in Ha'.
    injection Ha' as ->. by eapply Hf.
Qed.
End Sees.

Hint Resolve pure_ret pure_lift pure_option pure_raise pure_failed : pure.
Ltac pures :=
  repeat first
    [ solve [auto with pure]
    | match goal with
      | |- pure (_ ≫= _) => apply pure_bind; [|intros ?]
      | |- pure (if ?b then _ else _) => destruct b
      | |- pure (match ?x with _ => _ end) => destruct x
      end ].

Lemma pure_find ds k n : pure (find ds k n).
Proof. unfold find. pures. Qed.
Hint Resolve pure_find : pure.
Lemma pure_next {A} (r : res (option A)) : pure (lift_next r).
Proof. unfold lift_next. pures. Qed.
Hint Resolve pure_next : pure.
Lemma pure_next_in spec k n : pure (next_in spec k n).
Proof. unfold next_in. pures. Qed.
Hint Resolve pure_next_in : pure.
Lemma pure_port c n : pure (container_port c n).
Proof. unfold container_port. pures. Qed.
Lemma pure_secret ds n k : pure (secret_value ds n k).
Proof. unfold secret_value. pures. Qed.
Lemma pure_job_env c n : pure (job_env c n).
Proof. unfold job_env. pures. Qed.
Lemma pure_hash ds : pure (db_secret_hash ds).
Proof. unfold db_secret_hash. pures. Qed.
Hint Resolve pure_port pure_secret pure_job_env pure_hash : pure.
Lemma pure_env ds c : pure (container_env ds c).
Proof.
  unfold container_env. apply pure_bind; [apply pure_lift|]. intros l.
  generalize (@nil (val * val)). induction l as [|x l IH]; intros acc; simpl; [apply pure_ret|].
  apply pure_bind; [|done]. unfold env_item. pures.
Qed.
Hint Resolve pure_env : pure.

(** ** The items *)

Definition said (argv : list string) (ok : proc → Prop) (e : event) : Prop :=
    ∃ p, e = Ran argv (Some p) ∧ ok p.
(** A file operation that was answered, and one that was answered with a text. *)
Definition did (op : file_op) (pre : list event) : Prop := ∃ r, File op (Some r) ∈ pre.
Definition read_ (path text : string) (pre : list event) : Prop :=
    File (ReadText path) (Some text) ∈ pre.

Definition zero (p : proc) : Prop := returncode p = 0%Z.
Definition nonzero (p : proc) : Prop := returncode p ≠ 0%Z.

(** helm rendered [ds], with these flags, from a copy of the chart: stamped, with the toolkit. *)
Definition rendered (workdir : string) (flags : list string) (ds : list val) : item := λ pre e,
    ∃ u chart_yaml values all, let dst := workdir +:+ "/chart-" +:+ u in
      did (CopyTree CHART dst false) pre ∧ did (CopyTree TOOLKIT (dst +:+ "/charts/helm-toolkit") true) pre ∧
      read_ (dst +:+ "/Chart.yaml") chart_yaml pre ∧ read_ (dst +:+ "/values.yaml") values pre ∧
      did (WriteText (dst +:+ "/Chart.yaml")
        (replace_str "CHART_VERSION" "0.0.0-smoke" chart_yaml)) pre ∧
      did (WriteText (dst +:+ "/values.yaml") (replace_str "chartVersion: CHART_VERSION"
        ("chartVersion: " +:+ dquote +:+ "0.0.0-smoke" +:+ dquote) values)) pre ∧
      said (["helm"; "template"; "powerdns"; dst; "--namespace"; NAMESPACE] ++ flags)
        (λ p, zero p ∧ load_all (stdout p) = Ok all) e ∧
      ds = filter (λ d, truthy d = true) all.

(** A mount of a container, as its pod declares it: the text of a config map, written to a file and
    readable there, or the pod's docker volume, which is named after the mount. *)
Definition named (k : val) (n : string) : Prop := ∃ j, (j = k ∨ py_eq j k = true) ∧ py_str j = Ok n.
Definition config_mounted (ds : list val) (workdir : string) (vol mount : val) (mp flag : string)
    (pre : list event) : Prop :=
    ∃ cm d data key t path,
      getpath vol ["configMap"; "name"] = Ok cm ∧ reads (find ds "ConfigMap" (Some cm)) d ∧
      getitem d "data" = Ok data ∧ get mount "subPath" = Ok key ∧ text_at key data = Ok t ∧
      fstr str[workdir; "/"; cm; "-"; key] = Ok path ∧
      did (WriteText path t) pre ∧ did (Chmod path 493) pre ∧ flag = path +:+ ":" +:+ mp +:+ ":ro".
Definition mounted (ds : list val) (vols : list (val * val)) (workdir id : string)
    (pre : list event) (mount : val) (flag : string) : Prop :=
    ∃ name vol mp, (let* n := getitem mount "name" in hashable n) = Ok name ∧
      vget name vols = Some vol ∧ (let* m := getitem mount "mountPath" in py_str m) = Ok mp ∧
      (key_in "configMap" vol = Ok true ∧ config_mounted ds workdir vol mount mp flag pre ∨
       key_in "configMap" vol = Ok false ∧ key_in "emptyDir" vol = Ok true ∧
       ∃ n, named name n ∧ flag = volume_name n id +:+ ":" +:+ mp).

Definition mount_flags (flags : list string) : list string := concat (map (λ f, ["-v"; f]) flags).

(** A setting of a container's security context, its own before its pod's. *)
Definition context_of (v : val) : res (list (string * val)) :=
    let* a := get v "securityContext" in
    match or_ a (VDict []) with VDict d => Ok d | _ => Raise Unmodelled end.
Definition setting (pod own : list (string * val)) (k : string) : option val :=
    match assoc k (rev own) with Some v => Some v | None => assoc k pod end.
Definition user_words (u : option val) (ws : list string) : Prop :=
    match u with
    | None | Some VNone => ws = []
    | Some u => ∃ t, py_str u = Ok t ∧ ws = ["--user"; t]
    end.
Definition privilege_words (p : option val) : list string :=
    match p with Some (VBool false) => ["--security-opt"; "no-new-privileges"] | _ => [] end.

(** What docker is told to run: the image, with the first word of the command as the entrypoint, and
    its other words and the arguments after the image. *)
Definition run_words (container : val) (ws : list string) : Prop :=
    ∃ image cmd args, getitem container "image" = Ok (VStr image) ∧
      get_iter container "command" = Ok (VStr <$> cmd) ∧ get_iter container "args" = Ok (VStr <$> args) ∧
      ws = match cmd with [] => [] | c :: _ => ["--entrypoint"; c] end ++ [image] ++ tail cmd ++ args.

(** A container of a pod ran as it is rendered: its mounts, user, restrictions, environment,
    entrypoint, image and arguments. *)
Definition ran (opts : list string) (name : string → Prop) (ds : list val) (spec container : val)
    (workdir id : string) (ok : proc → Prop) : item := λ pre e,
    ∃ n vols mounts flags pod own user env ea ws,
      name n ∧ volumes_of spec = Ok vols ∧ get_iter container "volumeMounts" = Ok mounts ∧
      Forall2 (mounted ds vols workdir id pre) mounts flags ∧
      context_of spec = Ok pod ∧ context_of container = Ok own ∧
      user_words (setting pod own "runAsUser") user ∧
      reads (container_env ds container) env ∧ env_args env = Ok ea ∧ run_words container ws ∧
      said (["docker"; "run"] ++ opts ++ ["--name"; n; "--network"; NET] ++ mount_flags flags ++ user
            ++ privilege_words (setting pod own "allowPrivilegeEscalation")
            ++ ["--cap-drop"; "ALL"; "--sysctl"; "net.ipv4.ip_unprivileged_port_start=1024"]
            ++ ea ++ ws) ok e.
(** [run_once]: under a name made from the container's. *)
Definition once_name (container : val) (n : string) : Prop :=
    ∃ cn u, getitem container "name" = Ok cn ∧ fstr str["pdns-smoke-"; cn; "-"; VStr u] = Ok n.
Definition ran_once ds spec container workdir id ok : item :=
    ran [] (once_name container) ds spec container workdir id ok.

Definition probed (n : string) (container : val) (key : string) (ok : proc → Prop) : item := just (λ e,
    ∃ spec cmd ws, getitem container key = Ok spec ∧
      (let* c := getpath spec ["exec"; "command"] in py_iter c) = Ok cmd ∧
      mapM as_str cmd = Ok ws ∧ said (["docker"; "exec"; n] ++ ws) ok e).
Definition api_said (c : setup) (method key : string) (body : option val) (status : string) : item :=
    just (λ e, ∃ port, py_str (API_PORT c) = Ok port ∧
      said ["docker"; "exec"; SERVER; "python3"; "-c"; api_code port method zones_path key body]
        (λ p, strip (stdout p) = status) e).
Definition dns_answered (c : setup) : item := just (λ e,
    ∃ pk port, packet 4660 0 ZONE = Ok pk ∧ py_str (DNS_PORT c) = Ok port ∧
      said ["docker"; "exec"; SERVER; "python3"; "-c"; dns_code pk port]
        (λ p, unanswered (strip (stdout p)) = false) e).
Definition notified (c : setup) : item := just (λ e,
    ∃ pk port image, packet 16962 9216 SECONDARY_ZONE = Ok pk ∧ py_str (DNS_PORT c) = Ok port ∧
      getitem (server c) "image" = Ok (VStr image) ∧
      said ["docker"; "run"; "--rm"; "--network"; NET; "--entrypoint"; "python3"; image; "-c";
            notify_code pk port]
        (λ p, strip (stdout p) = "0" ∨ strip (stdout p) = "" ∧
              last_chars 200 (strip (stderr p)) = "0") e).
Definition db_told (verb : string) : item := just (said ["docker"; verb; DB] zero).
Definition db_up : item := just (said
    ["docker"; "exec"; DB; "mariadb"; "-uroot"; "-p" +:+ ROOT_PASSWORD; "-e"; "select 1"] zero).

(** What was read of the setup, before anything was started. *)
Definition image_read (c : setup) : item := just (λ e, ∃ t v,
    e = File (ReadText (ROOT +:+ "/blueprints/mariadb/chart/values.yaml")) (Some t) ∧
    load t = Ok v ∧ getpath v ["images"; "tags"; "mariadb"] = Ok (DB_IMAGE c)).
Record setup_of (c : setup) : Prop := {
    so_pod : ∃ d, reads (find (docs c) "Deployment" None) d ∧ template_spec d = Ok (pod_spec c);
    so_server : reads (next_in (pod_spec c) "containers" "powerdns") (server c);
    so_job : ∃ d, reads (find (docs c) "Job" (Some (VStr "powerdns-db-sync"))) d ∧
      template_spec d = Ok (job_pod c);
    so_api : reads (container_port (server c) "api") (API_PORT c);
    so_dns : reads (container_port (server c) "dns-udp") (DNS_PORT c);
  }.

(** Every port of the Service targets a port of the server. *)
Definition service_fits (c : setup) : Prop :=
    ∃ ports names svc targets,
      (let* l := getitem (server c) "ports" in py_iter l) = Ok ports ∧ port_names ports = Ok names ∧
      reads (find (docs c) "Service" (Some (VStr "powerdns"))) svc ∧
      (let* l := getpath svc ["spec"; "ports"] in py_iter l) = Ok targets ∧
      Forall (λ p, ∃ t, getitem p "targetPort" = Ok t ∧ py_in t names = true) targets.

(** With another password the pods have another hash. *)
Definition rolled (c : setup) (workdir : string) : item := λ pre e,
    ∃ ds h h', rendered workdir ["--set"; rotated] ds pre e ∧ reads (db_secret_hash (docs c)) h ∧
      is_none h = false ∧ reads (db_secret_hash ds) h' ∧ py_eq h h' = false.

(** The database, as the job is configured to reach it. *)
Record database_of (c : setup) (d : database) : Prop := {
    do_user : reads (job_env c "DB_USER") (db_user d);
    do_name : reads (job_env c "DB_NAME") (db_name d);
    do_pass : reads (secret_value (docs c) "powerdns-db-user" "DB_PASSWORD") (db_pass d);
  }.
Definition db_ran (c : setup) (d : database) : item := just (λ e,
    ∃ host image mdb mu, reads (job_env c "DB_HOST") (VStr host) ∧ DB_IMAGE c = VStr image ∧
      fstr str["MARIADB_DATABASE="; db_name d] = Ok mdb ∧ fstr str["MARIADB_USER="; db_user d] = Ok mu ∧
      said ["docker"; "run"; "-d"; "--name"; DB; "--network"; NET; "--network-alias"; host;
            "-e"; "MARIADB_ROOT_PASSWORD=" +:+ ROOT_PASSWORD; "-e"; mdb; "-e"; mu;
            "-e"; "MARIADB_PASSWORD=" +:+ db_pass d; image] zero e).

Definition tables_read (d : database) (tables : list string) : item := just (λ e,
    ∃ u name, fstr str["-u"; db_user d] = Ok u ∧ db_name d = VStr name ∧
      said ["docker"; "exec"; DB; "mariadb"; u; "-p" +:+ db_pass d; name; "-Nse"; "show tables"]
        (λ p, words (stdout p) = tables) e).
Definition sql_ran (d : database) (sql : string) : item := just (λ e,
    ∃ name, db_name d = VStr name ∧
      said ["docker"; "exec"; DB; "mariadb"; "-uroot"; "-p" +:+ ROOT_PASSWORD; name; "-e";
            "SET FOREIGN_KEY_CHECKS=0;" +:+ sql] (λ _, True) e).
Definition refused_naming (t : string) (p : proc) : Prop :=
    nonzero p ∧ contains t (both p) = true.

(** The schema: copied and applied, applied again, refused by name without its last table, and
    applied to an emptied database. The job's two containers are of one pod. *)
Definition sync_items (c : setup) (d : database) (workdir id : string) (copier syncer : val)
    (tables : list string) (t : string) : list item :=
    let sync := ran_once (docs c) (job_pod c) syncer workdir id in
    [ ran_once (docs c) (job_pod c) copier workdir id zero; sync zero; tables_read d tables; sync zero;
      sql_ran d (drop_table t); sync (refused_naming t);
      sql_ran d (String.concat "" (drop_table <$> removelast tables)); sync zero ].

(** The database comes back, and the server answers again. *)
Definition recover_items (c : setup) : list item :=
    [ db_told "start"; db_up; probed SERVER (server c) "readinessProbe" zero; dns_answered c ].
Definition api_items (c : setup) : list item :=
    [ api_said c "GET" API_KEY None "200"; api_said c "GET" "wrong-key" None "401";
      api_said c "POST" API_KEY (Some native_zone) "201"; dns_answered c ].
Definition outage_items (c : setup) : list item :=
    [ db_told "stop"; probed SERVER (server c) "readinessProbe" nonzero;
      probed SERVER (server c) "livenessProbe" zero ] ++ recover_items c.
Definition notify_items (c : setup) : list item :=
    [ api_said c "POST" API_KEY (Some secondary_zone) "201"; notified c; db_told "stop" ]
    ++ recover_items c.
(** The server with its clients narrowed, of a render with that setting. *)
Definition narrow_items (c : setup) (workdir id : string) (ds : list val) (narrow : val) : list item :=
    let name := SERVER +:+ "-narrow" in
    [ rendered workdir ["--set"; narrowed] ds;
      ran ["-d"] (λ n, n = name) ds (pod_spec c) narrow workdir id (λ _, True);
      probed name narrow "readinessProbe" zero; probed name narrow "livenessProbe" zero ].
Definition container_of (ds : list val) (container : val) : Prop :=
    ∃ d spec, reads (find ds "Deployment" None) d ∧ template_spec d = Ok spec ∧
      reads (next_in spec "containers" "powerdns") container.

(** A run, from what it read to the verdict. *)
Record found := {
    workdir : string; set_up : setup; db : database; copier : val; syncer : val;
    tables : list string; last_table : string; narrow_docs : list val; narrow : val;
    job_id : string; server_id : string; narrow_id : string;
  }.
Record found_in (f : found) : Prop := {
    fi_setup : setup_of (set_up f);
    fi_service : service_fits (set_up f);
    fi_db : database_of (set_up f) (db f);
    fi_copier : reads (next_in (job_pod (set_up f)) "initContainers" "powerdns-schema-copy") (copier f);
    fi_syncer : syncer_of (set_up f) = Ok (syncer f);
    fi_domains : "domains" ∈ tables f;
    fi_last : last (tables f) = Some (last_table f);
    fi_narrow : container_of (narrow_docs f) (narrow f);
  }.
Definition start_items (c : setup) (d : database) (workdir : string) : list item :=
    [ image_read c; rendered workdir [] (docs c); rolled c workdir;
      just (said ["docker"; "network"; "create"; NET] zero); db_ran c d; db_up ].
Definition server_items (c : setup) (workdir id narrow_id : string) (narrow_docs : list val)
    (narrow : val) : list item :=
    [ ran ["-d"] (λ n, n = SERVER) (docs c) (pod_spec c) (server c) workdir id zero;
      probed SERVER (server c) "readinessProbe" zero ]
    ++ api_items c ++ outage_items c ++ notify_items c
    ++ narrow_items c workdir narrow_id narrow_docs narrow.
Definition body_items (f : found) : list item :=
    let c := set_up f in
    start_items c (db f) (workdir f)
    ++ sync_items c (db f) (workdir f) (job_id f) (copier f) (syncer f) (tables f) (last_table f)
    ++ server_items c (workdir f) (server_id f) (narrow_id f) (narrow_docs f) (narrow f).
Definition run_items (f : found) : list item :=
    just (λ e, e = File MkDTemp (Some (workdir f))) :: body_items f
    ++ [ just (λ e, e = Printed OkLine) ].

(** ** What the steps are seen to do *)

Section Steps.
  Context {I : list (nat * string)}.
  #[local] Notation sees := (sees I).

Lemma command_Ret argv t s p es s' :
    command argv t s = (Ret p, es, s') → es = [Ran argv (Some p)].
Proof.
  unfold command. destruct (subprocess_run argv t (world s)) as [[q|] w]; [|done].
  by intros [= <- <- <-].
Qed.

Lemma sees_sh t cmd check argv :
    mapM as_str cmd = Ok argv → allowed [] argv →
    sees (sh_for t cmd check) (λ p, trace [just (said argv (λ q, q = p ∧ (check = true → zero q)))]).
Proof.
  intros Ha Hc. unfold sh_for. rewrite Ha. apply sees_lift_bind. intros argv' [= <-].
  eapply sees_bind with (Q1 := λ p es, es = [Ran argv (Some p)])
    (Q2 := λ out p es, p = out ∧ (check = true → zero out) ∧ es = []).
  - split; [by apply (j_command (Base := grows_base))|]. intros s p es s' _ E _. by apply command_Ret in E.
  - intros out. destruct check; simpl.
    + destruct (Z.eqb_spec (returncode out) 0) as [E|E]; simpl; [|apply sees_failed].
      eapply sees_weaken; [|apply sees_ret]. intros p es [-> ->]. by split_and!.
    + eapply sees_weaken; [|apply sees_ret]. intros p es [-> ->]. by split_and!.
  - intros out p es1 es2 -> (-> & Hz & ->). apply (trace_one _ []); [constructor|]. by exists out.
Qed.

Lemma sees_quiet_sh t cmd check argv :
    mapM as_str cmd = Ok argv → creating argv = None →
    sees (sh_for t cmd check) (λ p, trace [just (said argv (λ q, q = p ∧ (check = true → zero q)))]).
Proof. intros Ha Hc. apply sees_sh; [done|by apply allow_quiet]. Qed.

(** A command whose words are known, and a value read from its answer. *)
Lemma sees_sh_value {A} cmd argv (g : proc → A) :
    mapM as_str cmd = Ok argv → creating argv = None →
    sees (let* out := sh cmd in mret (g out)) (λ a, trace [just (said argv (λ p, g p = a))]).
Proof.
  intros Ha Hc. eapply sees_bind; [by apply sees_quiet_sh|intros out; apply sees_ret|].
  intros p a es1 es2 H [-> ->]. rewrite app_nil_r. eapply trace_mono; [|exact H].
  intros pre e (q & -> & -> & _). by exists p.
Qed.

Lemma sees_unreadable t cmd check x Q : mapM as_str cmd = Raise x → sees (sh_for t cmd check) Q.
Proof.
  intros Ha. split; [apply j_sh_for; [apply grows_base|congruence]|].
  intros s p es s' _. unfold sh_for. by rewrite Ha.
Qed.

(** [m], whose answer is a problem where it is [bad], and then [k]. *)
Lemma sees_checked {A B} (m : P A) (bad : A → bool) p (k : A → P B) φ l :
    sees m (λ a es, bad a = false → trace [φ] es) → (∀ a, sees (k a) (λ _, trace l)) →
    sees (m ≫= λ a, when (bad a) (p a) ≫= λ _, k a) (λ _, trace (φ :: l)).
Proof.
  intros Hm Hk.
  eapply sees_bind with (Q2 := λ a _ es, bad a = false ∧ trace l es); [exact Hm|intros a|].
  { eapply sees_bind; [apply sees_when|intros u; apply Hk|]. by intros u b es1 es2 [Hb ->] H. }
  intros a b es1 es2 H [Hb Ht]. apply (trace_app [φ]); auto.
Qed.

Lemma sees_last {A} (m : P A) (bad : A → bool) p φ :
    sees m (λ a es, bad a = false → trace [φ] es) →
    sees (m ≫= λ a, when (bad a) (p a)) (λ _, trace [φ]).
Proof.
  intros Hm. eapply sees_bind; [exact Hm|intros a; apply sees_when|].
  intros a b es1 es2 H [Hb ->]. rewrite app_nil_r. auto.
Qed.

Lemma sees_step {A B} (m : P A) (f : A → P B) l l' :
    sees m (λ _, trace l) → (∀ a, sees (f a) (λ _, trace l')) → sees (m ≫= f) (λ _, trace (l ++ l')).
Proof. intros Hm Hf. eapply sees_bind; [exact Hm|exact Hf|]. intros a b es1 es2. exact (trace_app l l' es1 es2). Qed.

Lemma sees_pass {A B} (m : P A) (f : A → P B) l :
    grows [] A m any → quiet m → (∀ a, sees (f a) (λ _, trace l)) → sees (m ≫= f) (λ _, trace l).
Proof. apply sees_skip, (settled_trace (λ _, l)). Qed.

(** A branch that is a problem. *)
Lemma sees_if {A B} (m : P A) (bad : A → bool) (y n : A → P B) φ l :
    sees m (λ a es, bad a = false → trace [φ] es) → (∀ a, sees (y a) (λ _ _, False)) →
    (∀ a, sees (n a) (λ _, trace l)) →
    sees (m ≫= λ a, if bad a then y a else n a) (λ _, trace (φ :: l)).
Proof.
  intros Hm Hy Hn. eapply sees_bind with (Q2 := λ a _ es, bad a = false ∧ trace l es); [exact Hm| |].
  - intros a. destruct (bad a); [by eapply sees_weaken; [|apply Hy]|].
    eapply sees_weaken; [|apply Hn]. auto.
  - intros a b es1 es2 H [Hb Ht]. apply (trace_app [φ]); auto.
Qed.

Lemma sees_probe n c key : 
    sees (probe_of n c key) (λ b, trace [probed n c key (λ p, (returncode p =? 0)%Z = b)]).
Proof.
  unfold probe_of, probe. apply sees_lift_bind. intros spec Hs. apply sees_lift_bind.
  intros [] _; [|apply sees_failed]. apply sees_lift_bind. intros cmd Hc.
  destruct (mapM as_str cmd) as [ws|x] eqn:Ew.
  - eapply sees_weaken; [|eapply (sees_sh_value _ (["docker"; "exec"; n] ++ ws))].
    + intros b es. apply trace_mono. intros pre e He. by exists spec, cmd, ws.
    + simpl. by rewrite Ew.
    + done.
  - eapply sees_bind; [apply (sees_unreadable 120 _ false x (λ _ _, False)); simpl; by rewrite Ew| |].
    + intros out. apply sees_ret.
    + by intros.
Qed.

Lemma sees_probe_if n c key (b : bool) (ok : proc → Prop) :
    (∀ p, (returncode p =? 0)%Z = b → ok p) →
    sees (probe_of n c key) (λ r es, r = b → trace [probed n c key ok] es).
Proof.
  intros Hok. eapply sees_weaken; [|apply sees_probe]. intros r es H ->. eapply trace_mono; [|exact H].
  intros pre e (spec & cmd & ws & ? & ? & ? & p & -> & Hp). exists spec, cmd, ws.
  split_and!; [done..|]. exists p. auto.
Qed.

Lemma zero_eqb p : (returncode p =? 0)%Z = true → zero p.
Proof. apply Z.eqb_eq. Qed.
Lemma nonzero_eqb p : (returncode p =? 0)%Z = false → nonzero p.
Proof. apply Z.eqb_neq. Qed.

Lemma sees_live n c :
    sees (probe_of n c "livenessProbe")
      (λ l es, negb l = false → trace [probed n c "livenessProbe" zero] es).
Proof.
  eapply sees_weaken; [|apply (sees_probe_if _ _ _ true zero), zero_eqb]. intros [] es H Hl; auto.
Qed.

Lemma sees_api c method key body status :
    sees (api (API_PORT c) method zones_path key body)
      (λ a es, negb (String.eqb a status) = false → trace [api_said c method key body status] es).
Proof.
  unfold api. apply sees_lift_bind. intros port Hp.
  eapply sees_weaken; [|by eapply (sees_sh_value _ _ (λ out, strip (stdout out)))].
  intros a es H Ha%negb_false_iff%String.eqb_eq. subst a. eapply trace_mono; [|exact H].
  intros pre e He. by exists port.
Qed.

Lemma sees_dns c :
    sees (dns_query ZONE (DNS_PORT c)) (λ a es, unanswered a = false → trace [dns_answered c] es).
Proof.
  unfold dns_query. apply sees_lift_bind. intros pk Hpk. apply sees_lift_bind. intros port Hp.
  eapply sees_weaken; [|by eapply (sees_sh_value _ _ (λ out, strip (stdout out)))].
  intros a es H Ha. eapply trace_mono; [|exact H]. intros pre e (p & -> & <-).
  exists pk, port. split_and!; [done..|]. by exists p.
Qed.

Lemma sees_notify c :
    sees (send_notify (server c) SECONDARY_ZONE (DNS_PORT c))
      (λ a es, negb (String.eqb a "0") = false → trace [notified c] es).
Proof.
  unfold send_notify. apply sees_lift_bind. intros pk Hpk. apply sees_lift_bind. intros port Hp.
  apply sees_lift_bind. intros image Hi. destruct (as_str image) as [i|x] eqn:Ei.
  - assert (image = VStr i) as -> by (destruct image; simpl in Ei; congruence).
    eapply sees_weaken; [|by eapply (sees_sh_value _ _ (λ out,
      if String.eqb (strip (stdout out)) "" then last_chars 200 (strip (stderr out))
      else strip (stdout out)))].
    intros a es H Ha%negb_false_iff%String.eqb_eq. eapply trace_mono; [|exact H].
    intros pre e (p & -> & Hg). exists pk, port, i. split_and!; [done..|]. exists p. split; [done|].
    destruct (String.eqb_spec (strip (stdout p)) ""); subst; auto.
  - eapply sees_bind; [eapply (sees_unreadable 120 _ false x (λ _ _, False)); simpl; by rewrite Ei|
      intros; apply sees_ret|done].
Qed.

Lemma sees_told (verb : string) :
    verb = "start" ∨ verb = "stop" →
    sees (sh_check str["docker"; verb; DB]) (λ _, trace [db_told verb]).
Proof.
  intros Hv. eapply sees_weaken; [|eapply (sees_quiet_sh 120 _ true ["docker"; verb; DB]); [done|]].
  2: by destruct Hv as [-> | ->].
  intros p es. apply trace_mono. intros pre e (q & -> & _ & Hz). exists q. auto.
Qed.

(** The waits end with the answer that is waited for, or with none. *)
Lemma knows_after {A} (m : P A) s o es s' : grows [] A m any → knows I s → m s = (o, es, s') → knows I s'.
Proof. intros Hg Hk E i id Hin. by eapply grows_run; [exact Hg|exact E|apply Hk]. Qed.

Lemma sees_wait_loop n c k deadline s b es s' :
    n = SERVER ∨ n = SERVER +:+ "-narrow" → knows I s →
    wait_loop k (probe_of n c "readinessProbe") deadline n s = (Ret b, es, s') → problems s' = [] →
    negb b = false → trace [probed n c "readinessProbe" zero] es.
Proof.
  intros Hn Hk E Hp Hb. revert es s Hk E. induction k as [|k IH]; intros es s Hk; [done|].
  intros (t & es1 & s1 & es2 & E1 & E & ->)%bind_Ret. apply trace_skip; [by apply quiet_time in E1|].
  eapply knows_after in E1 as Hk1; [|apply (j_time (Base := grows_base))|done].
  revert E. case_match; [by intros [= <- <- <-]|].
  intros (r & es4 & s4 & es5 & E4 & E & ->)%bind_Ret. destruct r.
  { revert E. intros [= <- <- <-]. rewrite app_nil_r.
    pose proof (sees_probe_if n c "readinessProbe" true zero zero_eqb) as [_ Hs]. by eapply Hs. }
  apply trace_skip; [by apply quiet_probe in E4|].
  eapply knows_after in E4 as Hk4; [|apply (j_probe grows)|done].
  revert E. intros (u & es6 & s6 & es7 & E6 & E & ->)%bind_Ret.
  apply trace_skip; [by apply quiet_running in E6|].
  eapply knows_after in E6 as Hk6; [|apply (j_running grows)|done].
  revert E. case_match; [by intros [= <- <- <-]|].
  intros (v & es8 & s8 & es9 & E8 & E & ->)%bind_Ret. apply trace_skip; [by apply quiet_sleep in E8|].
  eapply knows_after in E8 as Hk8; [|by apply (j_sleep (Base := grows_base) [] 1)|done]. by eapply IH.
Qed.

Lemma sees_ready n c :
    n = SERVER ∨ n = SERVER +:+ "-narrow" →
    sees (wait_until (probe_of n c "readinessProbe") 45 n)
      (λ b es, negb b = false → trace [probed n c "readinessProbe" zero] es).
Proof.
  intros Hn. split; [apply (j_ready grows)|]. intros s b es s' Hk. unfold wait_until.
  intros (t & es0 & s0 & es1 & E0 & E & ->)%bind_Ret Hp Hb. apply trace_skip; [by apply quiet_time in E0|].
  eapply knows_after in E0 as Hk0; [|apply (j_time (Base := grows_base))|done].
  by eapply sees_wait_loop.
Qed.

Lemma sees_quietly {A} (m : P A) Q : quiet m → sees m Q → sees m (λ a es, Q a es ∧ Forall calm es).
Proof. intros Hq [Hg H]. split; [done|]. intros s a es s' Hk E Hp. split; [by eapply H|by eapply Hq]. Qed.

(** The database answers, or has not in time. *)
Lemma sees_db_up : sees wait_for_db (λ b es, negb b = false → trace [db_up] es).
Proof.
  unfold wait_for_db. generalize POLLS. intros n. induction n as [|n IH]; cbn [poll_db].
  { eapply sees_weaken; [|apply sees_ret]. by intros b es [-> _]. }
  eapply sees_bind with (Q2 := λ out b es, negb b = false →
    zero out ∧ es = [] ∨ trace [db_up] es);
    [apply sees_quietly; [apply quiet_select|by apply sees_quiet_sh]|intros out|].
  - destruct (Z.eqb_spec (returncode out) 0) as [Hz|Hz].
    + eapply sees_weaken; [|apply sees_ret]. intros b es [_ ->] _. by left.
    + eapply sees_weaken with (Q := λ b es, negb b = false → trace [db_up] es); [by auto|].
      assert (settled (λ b es, negb b = false → trace [db_up] es)) as Hs.
      { intros b es es' Hc H Hb. by apply trace_skip; auto. }
      apply sees_skip; [done|apply (j_running grows)|apply quiet_running|intros up].
      destruct (negb up).
      { apply sees_skip; [done|apply (j_db_logs grows)|apply quiet_db_logs|intros; apply sees_failed]. }
      apply sees_skip; [done|by apply (j_sleep (Base := grows_base) [] 1)|apply quiet_sleep|done].
  - intros out b es1 es2 [H1 Hc] H2 Hb. destruct (H2 Hb) as [[Hz ->]|H]; [|by apply trace_skip].
    rewrite app_nil_r. eapply trace_mono; [|exact H1]. intros pre e (q & -> & -> & _). by exists out.
Qed.

(** *** Renders and containers *)

Lemma file_Ret op s t es s' : file op s = (Ret t, es, s') → es = [File op (Some t)].
Proof.
  unfold file. destruct (filesystem op (world s)) as [[q|] w]; [|done]. by intros [= <- <- <-].
Qed.

Lemma helm_Ret (dst : string) (flags : list string) s ds es s' :
    (let* out := sh (str["helm"; "template"; "powerdns"; dst; "--namespace"; NAMESPACE] ++ (VStr <$> flags)) in
     if negb (returncode out =? 0)%Z then measurement_failed (HelmFailed (last_chars 400 (strip (stderr out))))
     else let* docs := lift (load_all (stdout out)) in mret (filter (λ d, truthy d = true) docs)) s =
      (Ret ds, es, s') →
    ∃ all, ds = filter (λ d, truthy d = true) all ∧
      ∃ e, es = [e] ∧ said (["helm"; "template"; "powerdns"; dst; "--namespace"; NAMESPACE] ++ flags)
        (λ p, zero p ∧ load_all (stdout p) = Ok all) e.
Proof.
  intros (p & e1 & s1 & e2 & Es & E & ->)%bind_Ret. unfold sh, sh_for in Es.
  change (str["helm"; "template"; "powerdns"; dst; "--namespace"; NAMESPACE] ++ (VStr <$> flags))
    with (VStr <$> (["helm"; "template"; "powerdns"; dst; "--namespace"; NAMESPACE] ++ flags)) in Es.
  rewrite mapM_as_str_strs in Es. revert Es.
  intros (argv & ? & s2 & e3 & [= <- <- <-] & Es & ->)%bind_Ret.
  revert Es. intros (q & ? & s3 & ? & ->%command_Ret & [= -> <- <-] & ->)%bind_Ret.
  revert E. destruct (Z.eqb_spec (returncode p) 0) as [Hz|]; [|by intros ?%failed_never].
  intros (all & ? & s4 & ? & El & [= <- <- <-] & ->)%bind_Ret.
  destruct (load_all (stdout p)) as [l|] eqn:Ea; [|done]. injection El as -> <- <-.
  exists all. split; [done|]. eexists. split; [done|]. by exists p.
Qed.

Lemma render_Ret workdir flags s ds es s' :
    render workdir (VStr <$> flags) s = (Ret ds, es, s') → trace [rendered workdir flags ds] es.
Proof.
  unfold render.
  intros (u & e0 & s0 & e1 & E0%quiet_uuid & E & ->)%bind_Ret.
  revert E. intros (r1 & e2 & s2 & e3 & ->%file_Ret & E & ->)%bind_Ret.
  revert E. intros (r2 & e4 & s4 & e5 & ->%file_Ret & E & ->)%bind_Ret.
  revert E. intros (r3 & e6 & s6 & e7 & ->%file_Ret & E & ->)%bind_Ret.
  revert E. intros (t1 & e8 & s8 & e9 & ->%file_Ret & E & ->)%bind_Ret.
  revert E. intros (r4 & e10 & s10 & e11 & ->%file_Ret & E & ->)%bind_Ret.
  revert E. intros (t2 & e12 & s12 & e13 & ->%file_Ret & E & ->)%bind_Ret.
  revert E. intros (r5 & e14 & s14 & e15 & ->%file_Ret & E & ->)%bind_Ret.
  apply helm_Ret in E as (all & -> & e & -> & He). rewrite !app_assoc. apply trace_one.
  { rewrite !Forall_app. split_and!; [done|repeat constructor..]. }
  exists (take_str 6 u), t1, t2, all. cbv zeta. unfold did, read_.
  split_and!; [exists r1|exists r3| | |exists r4|exists r5|exact He|done];
    repeat first [ apply elem_of_app; right; apply list_elem_of_singleton; reflexivity
                 | apply elem_of_app; left ].
Qed.

Lemma sees_render workdir flags :
    sees (render workdir (VStr <$> flags)) (λ ds, trace [rendered workdir flags ds]).
Proof. split; [apply (j_render grows)|]. intros s ds es s' _ E _. by eapply render_Ret. Qed.

Lemma mounted_mono ds vols w id pre pre' mount flag :
    pre ⊆ pre' → mounted ds vols w id pre mount flag → mounted ds vols w id pre' mount flag.
Proof.
  intros Hp (name & vol & mp & ? & ? & ? & H). exists name, vol, mp. split_and!; [done..|].
  destruct H as [[Hk (cm & d & data & key & t & path & ? & ? & ? & ? & ? & ? & [r Hr] & [r' Hr'] & ?)]|H];
    [left|by right]. split; [done|]. exists cm, d, data, key, t, path.
  split_and!; try done; eexists; by apply Hp.
Qed.

(** The name of a volume is the first that an equal mount of the pod had. *)
Lemma sees_pod_volume i id k : (i, id) ∈ I →
    sees (pod_volume i k) (λ v es, es = [] ∧ ∃ n, named k n ∧ v = volume_name n id).
Proof.
  intros Hin. split; [apply (j_pod_volume (Base := grows_base))|]. intros s v es s' Hk E _.
  destruct (Hk i id Hin) as (p & Hp & Hid & Hv). revert E.
  unfold pod_volume, setdefault, mbind, P_bind, Io_bind, gets, modify, mret, P_ret, Io_ret, lift.
  destruct (py_str k) as [n|] eqn:Ek; [|done]. simpl. rewrite Hp. simpl. rewrite Hp.
  destruct (vget k _) as [w|] eqn:Eg.
  - apply vget_elem in Eg as (j & Hj & Hjk). apply list_elem_of_fmap in Hj as ([j' w'] & [= -> ->] & Hj).
    intros [= <- <- <-]. split; [done|]. rewrite Forall_forall in Hv.
    destruct (Hv _ Hj) as (m & Hm & Hw). simplify_eq/=. exists m. split; [by exists j'; auto|done].
  - intros [= <- <- <-]. split; [done|]. exists n. rewrite Hid. split; [|done]. exists k. auto.
Qed.

Lemma sees_config_file path t args mount :
    sees (let* _ := file (WriteText path t) in let* _ := file (Chmod path 493) in
          let* mp := lift (let* m := getitem mount "mountPath" in py_str m) in
          mret (args ++ ["-v"; path +:+ ":" +:+ mp +:+ ":ro"]))
      (λ l es, Forall calm es ∧ ∃ mp, l = args ++ ["-v"; path +:+ ":" +:+ mp +:+ ":ro"] ∧
         (let* m := getitem mount "mountPath" in py_str m) = Ok mp ∧
         did (WriteText path t) es ∧ did (Chmod path 493) es).
Proof.
  split.
  { do 2 (apply (j_seq grows); [apply (j_file (Base := grows_base))|intros _]).
    apply (j_lift_bind grows). intros; by apply (j_ret (Base := grows_base)). }
  intros s l es s' _ (r1 & e1 & s1 & e2 & ->%file_Ret & E & ->)%bind_Ret.
  revert E. intros (r2 & e3 & s3 & e4 & ->%file_Ret & E & ->)%bind_Ret.
  revert E. intros (mp & e5 & s5 & e6 & E5 & [= <- <- <-] & ->)%bind_Ret _.
  destruct (let* m := getitem mount "mountPath" in py_str m) as [mp'|]; [|done].
  injection E5 as -> <- <-. split; [by repeat constructor|]. exists mp.
  split_and!; [done..|exists r1; by left|exists r2; by right; left].
Qed.

Lemma sees_mount_args img ds vols c w i id args mount : (i, id) ∈ I →
    sees (mount_args img ds vols c w i args mount)
      (λ l es, Forall calm es ∧ ∃ flag, l = args ++ ["-v"; flag] ∧ mounted ds vols w id es mount flag).
Proof.
  intros Hin. unfold mount_args. apply sees_lift_bind. intros name Hname.
  destruct (vget name vols) as [vol|] eqn:Hvol; [|apply sees_lift_bind; intros; apply sees_failed].
  apply sees_lift_bind. intros [] Hcm.
  - apply sees_lift_bind. intros cm Hc. apply sees_read; [apply (j_find grows)|auto with pure|intros d Hd].
    apply sees_lift_bind. intros data Hdata. apply sees_lift_bind. intros key Hkey.
    apply sees_skip; [intros a es es' Hq [Hq' (f & -> & Hm)]; split; [by apply Forall_app|];
      exists f; split; [done|]; eapply mounted_mono; [|exact Hm]; set_solver
      |destruct (is_none key); [by apply (j_ret (Base := grows_base))|apply (j_lift_any grows)]
      |destruct (is_none key); [apply quiet_mret|apply quiet_lift]|].
    intros has. destruct has; [|apply sees_lift_bind; intros; apply sees_failed].
    apply sees_lift_bind. intros path Hpath. apply sees_lift_bind. intros t Ht.
    eapply sees_weaken; [|apply sees_config_file]. intros l es (Hes & mp & -> & Hmp & Hw & Hx).
    split; [done|]. eexists. split; [done|]. exists name, vol, mp. split_and!; [done..|]. left.
    split; [done|]. by exists cm, d, data, key, t, path.
  - apply sees_lift_bind. intros [] Hed; [|apply sees_failed].
    eapply sees_bind; [by apply sees_pod_volume|intros v|].
    { eapply (sees_skip (I := I) _ _ (λ l es, Forall calm es ∧ ∃ mp,
        (let* m := getitem mount "mountPath" in py_str m) = Ok mp ∧ l = args ++ ["-v"; v +:+ ":" +:+ mp])).
      - intros a es es' Hq [Hq' H]. split; [by apply Forall_app|done].
      - by apply (j_gets (Base := grows_base)).
      - apply quiet_gets.
      - intros created. apply sees_skip; [intros a es es' Hq [Hq' H]; split; [by apply Forall_app|done]|..].
        + destruct (bool_decide _); [by apply (j_ret (Base := grows_base))|apply (j_create_volume grows)].
        + destruct (bool_decide _); [apply quiet_mret|apply quiet_create_volume].
        + intros _. apply sees_lift_bind. intros mp Hmp. eapply sees_weaken; [|apply sees_ret].
          intros l es [-> ->]. split; [constructor|by exists mp]. }
    intros v l es1 es2 [-> (n & Hn & ->)] (Hc & mp & Hmp & ->). split; [done|]. eexists. split; [done|].
    exists name, vol, mp. split_and!; [done..|]. right. split_and!; [done..|]. by exists n.
Qed.

Lemma sees_mounts img ds vols c w i id args mounts : (i, id) ∈ I →
    sees (loop (mount_args img ds vols c w i) args mounts)
      (λ l es, Forall calm es ∧ ∃ flags, l = args ++ mount_flags flags ∧
         Forall2 (mounted ds vols w id es) mounts flags).
Proof.
  intros Hin. revert args. induction mounts as [|m mounts IH]; intros args; cbn [loop].
  { eapply sees_weaken; [|apply sees_ret]. intros l es [-> ->]. split; [constructor|]. exists [].
    by rewrite app_nil_r. }
  eapply sees_bind; [by apply sees_mount_args|intros l; apply IH|].
  intros l l' es1 es2 [H1 (f & -> & Hf)] [H2 (fs & -> & Hfs)]. split; [by apply Forall_app|].
  exists (f :: fs). split; [by rewrite <- app_assoc|]. constructor.
  - eapply mounted_mono; [|exact Hf]. set_solver.
  - eapply Forall2_impl; [exact Hfs|]. intros x y. apply mounted_mono. set_solver.
Qed.

Lemma assoc_update k b : ∀ a,
    assoc k (foldl (λ acc '(k, v), dict_set k v acc) a b) = setting a b k.
Proof.
  unfold setting. induction b as [|[j v] b IH] using rev_ind; intros a; [done|].
  rewrite foldl_snoc, rev_app_distr. simpl. rewrite assoc_dict_set.
  by destruct (String.eqb_spec k j) as [->|Hne].
Qed.

Lemma security_context_setting spec c sc : security_context spec c = Ok sc →
    ∃ a b, context_of spec = Ok a ∧ context_of c = Ok b ∧ ∀ k, assoc k sc = setting a b k.
Proof.
  unfold security_context, context_of. intros (a & -> & H)%bind_Ok. apply bind_Ok in H as (a' & Ha & H).
  apply bind_Ok in H as (b & -> & H). apply bind_Ok in H as (b' & Hb & [= <-]).
  exists a', b'. split_and!; [done..|]. intros k. apply assoc_update.
Qed.

Lemma user_args_words sc user : user_args sc = Ok user → user_words (assoc "runAsUser" sc) user.
Proof.
  unfold user_args, user_words. destruct (assoc _ sc) as [u|]; simpl; [|by intros [= <-]].
  destruct (is_none u) eqn:Hn; [by destruct u; try done; intros [= <-]|].
  intros (t & Ht & [= <-])%bind_Ok. destruct u; try done; by exists t.
Qed.

Lemma sees_docker_args img ds spec c w i id : (i, id) ∈ I →
    sees (docker_args img ds spec c w i) (λ l es, Forall calm es ∧
      ∃ vols mounts flags pod own user, l = mount_flags flags ++ user
          ++ privilege_words (setting pod own "allowPrivilegeEscalation") ++ restrictions ∧
        volumes_of spec = Ok vols ∧ get_iter c "volumeMounts" = Ok mounts ∧
        Forall2 (mounted ds vols w id es) mounts flags ∧
        context_of spec = Ok pod ∧ context_of c = Ok own ∧
        user_words (setting pod own "runAsUser") user).
Proof.
  intros Hin. unfold docker_args. apply sees_lift_bind. intros vols Hvols.
  apply sees_lift_bind. intros mounts Hmounts.
  eapply sees_bind with (Q2 := λ args l es, es = [] ∧ ∃ sc user, security_context spec c = Ok sc ∧
    user_args sc = Ok user ∧ l = args ++ user ++ privilege_args sc ++ restrictions);
    [by apply sees_mounts|intros args|].
  - apply sees_lift_bind. intros sc Hsc. apply sees_lift_bind. intros user Hu.
    eapply sees_weaken; [|apply sees_ret]. intros l es [-> ->]. split; [done|]. by exists sc, user.
  - intros args l es1 es2 [H1 (flags & -> & Hf)] [-> (sc & user & Hsc & Hu & ->)].
    rewrite app_nil_r. split; [done|]. apply security_context_setting in Hsc as (pod & own & Hp & Ho & Hk).
    exists vols, mounts, flags, pod, own, user. apply user_args_words in Hu. rewrite Hk in Hu.
    split_and!; try done. unfold privilege_args, privilege_words. by rewrite Hk.
Qed.

Lemma docker_run_argv (n : string) (opts args ea : list string) (rest : list val) argv :
    mapM as_str ((VStr <$> ["docker"; "run"] ++ opts ++ ["--name"; n; "--network"; NET] ++ args ++ ea)
      ++ rest) = Ok argv →
    ∃ ws, mapM as_str rest = Ok ws ∧
      argv = ["docker"; "run"] ++ opts ++ ["--name"; n; "--network"; NET] ++ args ++ ea ++ ws.
Proof.
  intros (ws & Hws & ->)%mapM_as_str_head. exists ws. split; [done|].
  by rewrite <- !app_assoc.
Qed.

Lemma as_str_inv v x : as_str v = Ok x → v = VStr x.
Proof. destruct v; simpl; congruence. Qed.
Lemma mapM_as_str_inv l ws : mapM as_str l = Ok ws → l = VStr <$> ws.
Proof.
  revert ws. induction l as [|v l IH]; intros ws; [by intros [= <-]|].
  intros (x & Hx%as_str_inv & Hl)%bind_Ok. apply bind_Ok in Hl as (xs & Hl%IH & [= <-]). by subst.
Qed.

Lemma command_words command entry rest :
    (if truthy command then let* c := getidx command 0 in Ok str["--entrypoint"; c] else Ok []) = Ok entry →
    slice1 (or_ command (VList [])) = Ok rest →
    ∃ l, py_iter (or_ command (VList [])) = Ok l ∧ rest = tail l ∧
      entry = match l with [] => [] | c :: _ => str["--entrypoint"; c] end.
Proof.
  unfold or_. destruct (truthy command) eqn:Ht; [|intros [= <-] [= <-]; by exists []].
  destruct command as [| | | |[|a s]|[|v l]|]; simpl; try done.
  - intros [= <-] [= <-]. by eexists.
  - intros [= <-] [= <-]. by eexists.
Qed.

Lemma tail_args_words c rest ws : tail_args c = Ok rest → mapM as_str rest = Ok ws → run_words c ws.
Proof.
  intros (command & Hc & H)%bind_Ok Hws%mapM_as_str_inv. apply bind_Ok in H as (entry & He & H).
  apply bind_Ok in H as (image & Hi & H). apply bind_Ok in H as (words & Hw & H).
  apply bind_Ok in H as (args & Ha & [= <-]).
  destruct (command_words _ _ _ He Hw) as (l & Hl & -> & ->).
  symmetry in Hws. apply fmap_app_inv in Hws as (ws1 & ws2 & H1 & H2 & ->).
  symmetry in H2. apply fmap_cons_inv in H2 as (i & ws3 & -> & H3 & ->). symmetry in H3.
  apply fmap_app_inv in H3 as (ws4 & ws5 & H4 & H5 & ->).
  assert (∃ cmd, l = VStr <$> cmd ∧ ws4 = tail cmd ∧
    ws1 = match cmd with [] => [] | x :: _ => ["--entrypoint"; x] end) as (cmd & -> & -> & ->).
  { destruct l as [|x l]; simpl in H1, H4.
    - exists []. symmetry in H1, H4. apply fmap_nil_inv in H1 as ->. by apply fmap_nil_inv in H4 as ->.
    - symmetry in H1. apply fmap_cons_inv in H1 as (e & ws6 & [= <-] & H6 & ->).
      symmetry in H6. apply fmap_cons_inv in H6 as (y & ws7 & -> & H7 & ->). 
      symmetry in H7. apply fmap_nil_inv in H7 as ->. exists (y :: ws4). by rewrite H4. }
  exists i, cmd, ws5. split_and!; [done|by unfold get_iter; rewrite Hc|by rewrite Ha, H5|done].
Qed.

(** What is run once the arguments of a pod are known, and that it leaves the records as they are. *)
Lemma container_Ret t n opts (args : list string) ds c s q es s' :
    (let* env := container_env ds c in let* env := lift (env_args env) in
     let* rest := lift (tail_args c) in
     sh_for t ((VStr <$> ["docker"; "run"] ++ opts ++ ["--name"; n; "--network"; NET] ++ args ++ env)
       ++ rest) false) s = (Ret q, es, s') →
    problems s' = problems s ∧ ∃ env ea ws, reads (container_env ds c) env ∧ env_args env = Ok ea ∧
      run_words c ws ∧
      es = [Ran (["docker"; "run"] ++ opts ++ ["--name"; n; "--network"; NET] ++ args ++ ea ++ ws) (Some q)].
Proof.
  intros (env & e1 & s1 & e2 & E1 & E & ->)%bind_Ret. apply pure_env in E1 as H1.
  destruct H1 as [-> Henv]. rewrite Henv in E1. injection E1 as <-.
  revert E. intros (ea & e3 & s3 & e4 & E3 & E & ->)%bind_Ret.
  destruct (env_args env) as [ea'|] eqn:Hea; [|done]. injection E3 as -> <- <-.
  revert E. intros (rest & e5 & s5 & e6 & E5 & E & ->)%bind_Ret.
  destruct (tail_args c) as [rest'|] eqn:Hr; [|done]. injection E5 as -> <- <-.
  revert E. unfold sh_for. intros (argv & e7 & s7 & e8 & E7 & E & ->)%bind_Ret.
  destruct (mapM as_str _) as [argv'|] eqn:Hv in E7; [|done]. injection E7 as -> <- <-.
  apply docker_run_argv in Hv as (ws & Hws & ->).
  revert E. intros (p & e9 & s9 & e10 & E9 & [= -> <- <-] & ->)%bind_Ret.
  apply command_Ret in E9 as H9. subst e9. split.
  - revert E9. unfold command. destruct (subprocess_run _ _ _) as [[p|] w]; [|done]. intros E9. by simplify_eq/=.
  - exists env, ea, ws. split_and!; [done..|by eapply tail_args_words|done].
Qed.

Lemma sees_docker_run img n ds spec c w i id (detach : bool) : (i, id) ∈ I →
    sees (docker_run img n ds spec c w i detach)
      (λ q, trace [ran (if detach then ["-d"] else []) (λ m, m = n) ds spec c w id (λ p, p = q)]).
Proof.
  intros Hin. split; [apply (j_docker_run grows)|]. intros s q es s' Hk. unfold docker_run.
  intros (u & es0 & s0 & es1 & [= <- <- <-] & E & ->)%bind_Ret Hp.
  revert E. intros (args & es2 & s2 & es3 & E2 & E & ->)%bind_Ret.
  apply container_Ret in E as (Hs & env & ea & ws & Henv & Hea & Hws & ->).
  destruct (sees_docker_args img ds spec c w i id Hin) as [_ Hargs].
  destruct (Hargs _ _ _ _ (Hk : knows I (add_container n s)) E2 ltac:(congruence))
    as (Hc & vols & mounts & flags & pod & own & user & -> & ? & ? & ? & ? & ? & ?).
  apply trace_one; [done|]. exists n, vols, mounts, flags, pod, own, user, env, ea, ws. split_and!; [done..|].
  exists q. split; [|done]. by rewrite <- !app_assoc.
Qed.

Lemma ran_weaken opts name name' ds spec c w id (ok ok' : proc → Prop) pre e :
    (∀ n, name n → name' n) → (∀ p, ok p → ok' p) →
    ran opts name ds spec c w id ok pre e → ran opts name' ds spec c w id ok' pre e.
Proof.
  intros Hn Hok (n & vols & mounts & flags & pod & own & user & env & ea & ws & H0 & H).
  exists n, vols, mounts, flags, pod, own, user, env, ea, ws. split; [auto|].
  destruct H as (? & ? & ? & ? & ? & ? & ? & ? & ? & p & -> & ?). split_and!; [done..|]. exists p. auto.
Qed.

Lemma sees_run_once img ds spec c w i id : (i, id) ∈ I →
    sees (run_once img ds spec c w i) (λ q, trace [ran_once ds spec c w id (λ p, p = q)]).
Proof.
  intros Hin. unfold run_once. apply sees_lift_bind. intros cn Hcn.
  apply sees_skip; [apply settled_trace with (l := λ q, [_])|apply (j_uuid (Base := grows_base))|
    apply quiet_uuid|intros u].
  apply sees_lift_bind. intros n Hn. eapply sees_weaken; [|by apply sees_docker_run].
  intros q es. apply trace_mono. intros pre e. apply ran_weaken; [|done]. intros m ->.
  by exists cn, (take_str 6 u).
Qed.

Lemma sees_sync img ds spec c w i id : (i, id) ∈ I →
    sees (run_once img ds spec c w i)
      (λ q es, failed q = false → trace [ran_once ds spec c w id zero] es).
Proof.
  intros Hin. eapply sees_weaken; [|by apply sees_run_once].
  intros q es H Hf%negb_false_iff%Z.eqb_eq. eapply trace_mono; [|exact H]. intros pre e.
  apply ran_weaken; [done|]. by intros p ->.
Qed.
End Steps.

(** ** The stages *)

Lemma new_pod_Ret s i es s' : new_pod s = (Ret i, es, s') → es = [] ∧ ∃ id, pod_at i id s'.
Proof.
  unfold new_pod, uuid, mbind, P_bind, Io_bind, gets, modify, mret, P_ret, Io_ret.
  destruct (uuid4 (world s)) as [u w]. generalize (take_str 6 u). intros id [= <- <- <-].
  split; [done|]. exists id. eexists. split; [by apply list_lookup_middle|]. by split.
Qed.

Lemma sees_new_pod {A} I (f : nat → P A) Q :
    (∀ i id, sees ((i, id) :: I) (f i) Q) → sees I (new_pod ≫= f) Q.
Proof.
  intros Hf. split.
  { apply (j_seq grows); [apply (j_new_pod (Base := grows_base))|intros i; apply (Hf i "")]. }
  intros s a es s' Hk (i & es1 & s1 & es2 & E1 & E2 & ->)%bind_Ret Hp.
  pose proof (grows_run _ _ _ _ _ (j_new_pod (Base := grows_base) []) E1) as [_ Hg].
  apply new_pod_Ret in E1 as (-> & id & Hid). destruct (Hf i id) as [_ H]. eapply H; [|exact E2|done].
  intros j jd [[= -> ->]|Hin]%elem_of_cons; [done|by apply Hg, Hk].
Qed.

Section Stages.
  Context {I : list (nat * string)}.
  #[local] Notation sees := (sees I).

Lemma sees_logs_failed (f : string → failure) :
    sees (let* l := db_logs in measurement_failed (f l)) (λ (_ : unit) _, False).
Proof.
  eapply sees_bind; [apply sees_quiet; [apply (j_db_logs grows)|apply quiet_db_logs]|
    intros l; apply sees_failed with (Q := λ _ _, False)|done].
Qed.
Lemma sees_require (b : bool) (m : P unit) :
    sees m (λ _ _, False) → sees (if b then mret () else m) (λ _ es, b = true ∧ es = []).
Proof.
  intros Hm. destruct b; [|by eapply sees_weaken; [|apply Hm]].
  eapply sees_weaken; [|apply sees_ret]. by intros u es [_ ->].
Qed.

(** The database comes up, or the run does not go on. *)
Lemma sees_wait_db {A} (f : string → failure) (k : P A) (F : A → Prop) l :
    sees k (λ a es, F a ∧ trace l es) →
    sees (wait_for_db ≫= λ b, (if b : bool then mret () else
            let* l := db_logs in measurement_failed (f l)) ≫= λ _, k) (λ a es, F a ∧ trace (db_up :: l) es).
Proof.
  intros Hk. eapply sees_bind with (Q2 := λ b a es, negb b = false ∧ F a ∧ trace l es);
    [apply sees_db_up|intros b|].
  - eapply sees_bind; [apply sees_require, sees_logs_failed|intros u; exact Hk|].
    intros u a es1 es2 [-> ->]. done.
  - intros b a es1 es2 H (Hb & Ha & H2). split; [done|]. by apply (trace_app [db_up]); [apply H|].
Qed.

Lemma sees_check_api c : sees (check_api c) (λ _, trace (api_items c)).
Proof.
  unfold check_api. do 3 (apply sees_checked; [apply sees_api|intros ?]). apply sees_last, sees_dns.
Qed.

Lemma sees_recover c a : sees (recover (server c) (DNS_PORT c) a) (λ _, trace (recover_items c)).
Proof.
  unfold recover. apply (sees_step _ _ [_]); [by apply sees_told; left|intros _].
  eapply sees_weaken; [|apply (sees_wait_db DbNotBack _ (λ _, True))]; [by intros u es [_ H]|].
  eapply sees_weaken; [intros u es H; exact (conj Logic.I H)|].
  apply sees_pass; [apply (j_running grows)|apply quiet_running|intros up].
  apply sees_pass; [|destruct up; quiets|intros _].
  { destruct up; [by apply (j_ret (Base := grows_base))|].
    apply (j_seq grows); [apply (j_start grows)|intros; by apply (j_ret (Base := grows_base))]. }
  apply sees_if; [by apply sees_ready; left|intros; apply sees_problem|intros _].
  apply (sees_last _ unanswered (λ answer, NoAnswerAfter a answer)), sees_dns.
Qed.

Lemma sees_check_outage c : sees (check_outage c) (λ _, trace (outage_items c)).
Proof.
  unfold check_outage. apply (sees_step _ _ [_]); [by apply sees_told; right|intros _].
  apply sees_pass; [by apply (j_sleep (Base := grows_base) [] 2)|apply quiet_sleep|intros _].
  apply sees_pass; [apply (j_running grows)|apply quiet_running|intros up].
  apply (sees_step _ _ [_; _]).
  - destruct (negb up); [apply sees_problem|].
    apply (sees_checked _ (λ r, r) (λ _, ReadyWithoutDb)).
    + apply (sees_probe_if _ _ _ false nonzero), nonzero_eqb.
    + intros r. apply sees_last, sees_live.
  - intros _. apply sees_pass; [by apply (j_report_outage grows)|apply quiet_report_outage|intros _].
    apply sees_recover.
Qed.

Lemma sees_check_notify c : sees (check_notify c) (λ _, trace (notify_items c)).
Proof.
  unfold check_notify. apply sees_checked; [apply sees_api|intros _].
  apply sees_checked; [apply sees_notify|intros _].
  apply (sees_step _ _ [_]); [by apply sees_told; right|intros _].
  apply sees_pass; [by apply (j_report_outage grows)|apply quiet_report_outage|intros _].
  apply sees_recover.
Qed.

Lemma sees_check_narrow c w : sees (check_narrow c w)
    (λ _ es, ∃ ds narrow id, container_of ds narrow ∧ trace (narrow_items c w id ds narrow) es).
Proof.
  unfold check_narrow. eapply sees_bind with (Q2 := λ ds _ es, ∃ narrow id, container_of ds narrow ∧
    trace (tail (narrow_items c w id ds narrow)) es); [apply (sees_render w [_; _])|intros ds|].
  2: { intros ds u es1 es2 H (narrow & id & Hn & H2). exists ds, narrow, id. split; [done|].
       by apply (trace_app [_]). }
  apply sees_read; [apply (j_find grows)|auto with pure|intros d Hd]. apply sees_lift_bind. intros spec Hspec.
  apply sees_read; [apply (j_next grows)|auto with pure|intros narrow Hnarrow].
  apply sees_new_pod. intros i id. eapply sees_weaken.
  { intros u es H. exists narrow, id. split; [by exists d, spec|exact H]. }
  eapply sees_bind with (Q2 := λ _ _, trace _); [apply (sees_docker_run _ _ _ _ _ _ i id); left|intros q|].
  - apply sees_if; [by apply sees_ready; right|intros; apply sees_problem|intros _].
    apply sees_last, sees_live.
  - intros q u es1 es2 H H2. apply (trace_app [_]); [|exact H2]. eapply trace_mono; [|exact H].
    intros pre e. by apply ran_weaken.
Qed.

(** Traces with something that is found on the way. *)
Definition some {X} (F : X → Prop) (l : X → list item) (es : list event) : Prop :=
    ∃ x, F x ∧ trace (l x) es.

Lemma some_skip {A X} (F : X → Prop) l : settled (λ _ : A, some F l).
Proof. intros a es es' Hc (x & Hx & H). exists x. split; [done|by apply trace_skip]. Qed.
Lemma some_app {X} (F : X → Prop) l0 l es es' :
    trace l0 es → some F l es' → some F (λ x, l0 ++ l x) (es ++ es').
Proof. intros H0 (x & Hx & H). exists x. split; [done|by apply trace_app]. Qed.

Lemma sees_step_some {A B X} (m : P A) (f : A → P B) l0 (F : X → Prop) l :
    sees m (λ _, trace l0) → (∀ a, sees (f a) (λ _, some F l)) →
    sees (m ≫= f) (λ _, some F (λ x, l0 ++ l x)).
Proof. intros Hm Hf. eapply sees_bind; [exact Hm|exact Hf|]. intros a b es1 es2. exact (some_app F l0 l es1 es2). Qed.

Lemma sees_guard_some {A B X} (m : P A) (bad : A → bool) (y : A → P unit) (k : A → P B) φ (F : X → Prop) l :
    sees m (λ a es, bad a = false → trace [φ] es) → (∀ a, sees (y a) (λ _ _, False)) →
    (∀ a, sees (k a) (λ _, some F l)) →
    sees (m ≫= λ a, (if bad a then y a else mret ()) ≫= λ _, k a) (λ _, some F (λ x, φ :: l x)).
Proof.
  intros Hm Hy Hk.
  eapply sees_bind with (Q2 := λ a _ es, bad a = false ∧ some F l es); [exact Hm|intros a|].
  - eapply sees_bind with (Q1 := λ _ es, bad a = false ∧ es = []); [|intros u; apply Hk|].
    + destruct (bad a); [by eapply sees_weaken; [|apply Hy]|].
      eapply sees_weaken; [|apply sees_ret]. by intros u es [_ ->].
    + by intros u b es1 es2 [Hb ->] H.
  - intros a b es1 es2 H [Hb Ht]. by apply (some_app F [φ]); [apply H|].
Qed.

Lemma sees_if_some {A B X} (m : P A) (bad : A → bool) (y n : A → P B) φ (F : X → Prop) l :
    sees m (λ a es, bad a = false → trace [φ] es) → (∀ a, sees (y a) (λ _ _, False)) →
    (∀ a, sees (n a) (λ _, some F l)) →
    sees (m ≫= λ a, if bad a then y a else n a) (λ _, some F (λ x, φ :: l x)).
Proof.
  intros Hm Hy Hn. eapply sees_bind with (Q2 := λ a _ es, bad a = false ∧ some F l es); [exact Hm| |].
  - intros a. destruct (bad a); [by eapply sees_weaken; [|apply Hy]|].
    eapply sees_weaken; [|apply Hn]. auto.
  - intros a b es1 es2 H [Hb Ht]. by apply (some_app F [φ]); [apply H|].
Qed.

Lemma sees_zero (m : P proc) ds spec c w id opts name :
    sees m (λ q, trace [ran opts name ds spec c w id (λ p, p = q)]) →
    sees m (λ q es, failed q = false → trace [ran opts name ds spec c w id zero] es).
Proof.
  apply sees_weaken. intros q es H Hq%negb_false_iff%Z.eqb_eq. eapply trace_mono; [|exact H].
  intros pre e. apply ran_weaken; [done|]. by intros p ->.
Qed.

(** *** The schema *)

Lemma sh_for_Ret t cmd check s p es s' : sh_for t cmd check s = (Ret p, es, s') →
    ∃ argv, mapM as_str cmd = Ok argv ∧ es = [Ran argv (Some p)] ∧ (check = true → zero p) ∧
      problems s' = problems s.
Proof.
  unfold sh_for. intros (argv & e1 & s1 & e2 & E1 & E & ->)%bind_Ret.
  destruct (mapM as_str cmd) as [argv'|]; [|done]. injection E1 as -> <- <-.
  revert E. intros (q & e3 & s3 & e4 & E3 & E & ->)%bind_Ret. exists argv. split; [done|].
  assert (p = q ∧ e4 = [] ∧ s' = s3 ∧ (check = true → zero p)) as (-> & -> & -> & Hz).
  { destruct check; simpl in E; [|by injection E as <- <- <-].
    destruct (Z.eqb_spec (returncode q) 0); simpl in E; [|by apply failed_never in E].
    by injection E as <- <- <-. }
  apply command_Ret in E3 as H3. subst e3. split; [done|]. split; [done|].
  revert E3. unfold command. destruct (subprocess_run _ _ _) as [[r|] w]; [|done].
  intros E3. by simplify_eq/=.
Qed.

(** A command that some of the words of may not be text. *)
Lemma sees_words t cmd check ψ :
    grows [] _ (sh_for t cmd check) any →
    (∀ argv p, mapM as_str cmd = Ok argv → (check = true → zero p) → ψ p (Ran argv (Some p))) →
    sees (sh_for t cmd check) (λ p, trace [just (ψ p)]).
Proof.
  intros Hg Hψ. split; [done|]. intros s p es s' _ (argv & Ha & -> & Hz & _)%sh_for_Ret _.
  apply (trace_one _ []); [constructor|]. by apply Hψ.
Qed.

Lemma sees_tables d u : fstr str["-u"; db_user d] = Ok u →
    sees (sh str["docker"; "exec"; DB; "mariadb"; VStr u; "-p" +:+ db_pass d; db_name d; "-Nse"; "show tables"])
      (λ p, trace [tables_read d (words (stdout p))]).
Proof.
  intros Hu. apply sees_words; [apply (j_exec grows)|]. intros argv p Ha _. simpl in Ha.
  destruct (as_str (db_name d)) as [name|] eqn:En; [|done]. injection Ha as <-.
  exists u, name. split_and!; [done|by apply as_str_inv|by exists p].
Qed.

Lemma sees_sql d sql : sees (db_sql d sql) (λ _, trace [sql_ran d sql]).
Proof.
  unfold db_sql. apply (sees_step _ _ [_] []); [|intros p].
  - eapply sees_weaken; [|apply sees_words with (ψ := λ _ e, ∃ name, db_name d = VStr name ∧
      said ["docker"; "exec"; DB; "mariadb"; "-uroot"; "-p" +:+ ROOT_PASSWORD; name; "-e";
        "SET FOREIGN_KEY_CHECKS=0;" +:+ sql] (λ _, True) e)]; [done|apply (j_exec grows)|].
    intros argv p Ha _. simpl in Ha. destruct (as_str (db_name d)) as [name|] eqn:En; [|done].
    injection Ha as <-. exists name. split; [by apply as_str_inv|by exists p].
  - eapply sees_weaken; [|apply sees_ret]. intros a es [_ ->]. constructor.
Qed.

Lemma sees_refused (m : P proc) ds spec c w id t (y n : proc → problem) (k : P unit) l :
    sees m (λ q, trace [ran_once ds spec c w id (λ p, p = q)]) → sees k (λ _, trace l) →
    sees (m ≫= λ q, (if (returncode q =? 0)%Z then problem_ (y q)
                     else when (negb (contains t (both q))) (n q)) ≫= λ _, k)
      (λ _, trace (ran_once ds spec c w id (refused_naming t) :: l)).
Proof.
  intros Hm Hk. eapply sees_bind with (Q2 := λ q _ es, refused_naming t q ∧ trace l es); [exact Hm|intros q|].
  - eapply sees_bind with (Q1 := λ _ es, refused_naming t q ∧ es = []); [|intros u; apply Hk|].
    + destruct (Z.eqb_spec (returncode q) 0) as [|Hz]; [apply sees_problem|].
      eapply sees_weaken; [|apply sees_when]. intros u es [Hc%negb_false_iff ->]. by split.
    + by intros u b es1 es2 [Hr ->] H.
  - intros q u es1 es2 H [Hr H2]. apply (trace_app [_]); [|exact H2]. eapply trace_mono; [|exact H].
    intros pre e. apply ran_weaken; [done|]. by intros p ->.
Qed.

End Stages.

Section Runs.
  Context {I : list (nat * string)}.
  #[local] Notation sees := (sees I).

(** The server is up, and all that is asked of it. *)
Lemma sees_check_server c w : sees (check_server c w) (λ _ es, ∃ id,
    some (λ x : list val * val * string, container_of x.1.1 x.1.2)
      (λ x, server_items c w id x.2 x.1.1 x.1.2) es).
Proof.
  unfold check_server. apply sees_new_pod. intros i id.
  eapply sees_weaken; [intros u es H; exists id; exact H|].
  unfold server_items. cbn [app]. apply (sees_guard_some _ failed (λ q, measurement_failed
    (ServerNotStarted (last_chars 400 (strip (stderr q)))))); [apply sees_zero, (sees_docker_run _ _ _ _ _ _ i id true); left|
    intros q; apply sees_failed|intros q].
  apply (sees_if_some _ negb); [by apply sees_ready; left|intros b|intros b].
  { apply sees_skip; [by intros u es es'|apply (j_logs grows)|apply quiet_logs|intros l; apply sees_problem]. }
  apply sees_step_some; [apply sees_check_api|intros _].
  apply sees_step_some; [apply sees_check_outage|intros _].
  apply sees_step_some; [apply sees_check_notify|intros _].
  eapply sees_weaken; [|apply sees_check_narrow]. intros u es (ds & narrow & nid & Hn & H).
  by exists (ds, narrow, nid).
Qed.

(** The stages of the schema, for the tables that there are after the first apply. *)
Lemma sees_check_db_sync c d w : sees (check_db_sync c d w) (λ _ es, ∃ id,
    some (λ x : val * val * list string * string,
        reads (next_in (job_pod c) "initContainers" "powerdns-schema-copy") x.1.1.1 ∧
        syncer_of c = Ok x.1.1.2 ∧ "domains" ∈ x.1.2 ∧ last x.1.2 = Some x.2)
      (λ x, sync_items c d w id x.1.1.1 x.1.1.2 x.1.2 x.2) es).
Proof.
  unfold check_db_sync. apply sees_new_pod. intros i id.
  eapply sees_weaken; [intros u es H; exists id; exact H|].
  apply sees_read; [apply (j_next grows)|auto with pure|intros copier Hcopier].
  apply sees_lift_bind. intros syncer Hsyncer. cbv zeta.
  eapply sees_weaken with (Q := λ _, some (λ x : list string * string, "domains" ∈ x.1 ∧ last x.1 = Some x.2)
    (λ x, sync_items c d w id copier syncer x.1 x.2)).
  { intros u es ([tables t] & [Hd Hl] & H). by exists (copier, syncer, tables, t). }
  apply sees_guard_some; [apply sees_sync; left|intros q; apply sees_problem|intros q].
  apply sees_guard_some; [apply sees_sync; left|intros q1; apply sees_problem|intros q1].
  apply sees_lift_bind. intros u Hu.
  eapply sees_bind with (Q2 := λ out _ es, "domains" ∈ words (stdout out) ∧ ∃ t, last (words (stdout out)) = Some t ∧
    trace (drop 3 (sync_items c d w id copier syncer (words (stdout out)) t)) es);
    [by apply sees_tables|intros out|].
  2: { intros out v es1 es2 H (Hd & t & Hl & H2). exists (words (stdout out), t). split; [done|].
       by apply (trace_app [_]). }
  eapply sees_bind; [apply sees_when|intros v|].
  2: { intros v v' es1 es2 [Hd%bool_decide_eq_false ->] H. split; [by apply dec_stable|exact H]. }
  eapply sees_weaken with (Q := λ _, some (λ t, last (words (stdout out)) = Some t)
    (λ t, drop 3 (sync_items c d w id copier syncer (words (stdout out)) t))); [done|].
  apply sees_guard_some; [apply sees_sync; left|intros q2; apply sees_problem|intros q2].
  apply sees_option; [done|]. intros t Ht. eapply sees_weaken; [intros v' es H; exact (ex_intro _ t (conj Ht H))|].
  apply (sees_step _ _ [_]); [apply sees_sql|intros _].
  apply sees_refused; [apply sees_run_once; left|].
  apply (sees_step _ _ [_]); [apply sees_sql|intros _]. apply sees_last, sees_sync. left.
Qed.
End Runs.

(** *** The whole run *)

Lemma sees_file I op : sees I (file op) (λ t es, es = [File op (Some t)]).
Proof. split; [apply (j_file (Base := grows_base))|]. by intros s t es s' _ ->%file_Ret. Qed.

Lemma sees_read_setup I w :
    sees I (read_setup w) (λ c es, setup_of c ∧ trace [image_read c; rendered w [] (docs c)] es).
Proof.
  unfold read_setup. eapply sees_bind with (Q2 := λ t c es, setup_of c ∧
    (∃ v, load t = Ok v ∧ getpath v ["images"; "tags"; "mariadb"] = Ok (DB_IMAGE c)) ∧
    trace [rendered w [] (docs c)] es); [apply sees_file|intros t|].
  2: { intros t c es1 es2 -> (Hc & (v & Hv & Hi) & H). split; [done|].
       apply (trace_app [_] [_] [_]); [|done]. apply (trace_one _ []); [constructor|]. by exists t, v. }
  apply sees_lift_bind. intros v Hv. apply sees_lift_bind. intros image Hi.
  eapply sees_bind with (Q2 := λ ds c es, es = [] ∧ docs c = ds ∧ DB_IMAGE c = image ∧ setup_of c);
    [apply (sees_render w [])|intros ds|].
  2: { intros ds c es1 es2 H (-> & <- & <- & Hc). rewrite app_nil_r. split_and!; [done|by exists v|done]. }
  apply sees_read; [apply (j_find grows)|auto with pure|intros deployment Hd].
  apply sees_lift_bind. intros pod Hpod.
  apply sees_read; [apply (j_next grows)|auto with pure|intros srv Hsrv].
  apply sees_read; [apply (j_find grows)|auto with pure|intros job Hjob].
  apply sees_lift_bind. intros jp Hjp.
  assert (∀ n, grows [] val (container_port srv n) any) as Hg.
  { intros n. unfold container_port. apply (j_seq grows); [apply (j_next grows)|intros; apply (j_lift_any grows)]. }
  apply sees_read; [done|auto with pure|intros ap Hap].
  apply sees_read; [done|auto with pure|intros dp Hdp].
  eapply sees_weaken; [|apply sees_ret]. intros c es [-> ->]. split_and!; [done..|].
  by split; [exists deployment| |exists job|..].
Qed.

Lemma sees_iterM {A} I (f : A → P unit) (R : A → Prop) l :
    (∀ x, sees I (f x) (λ _ es, R x ∧ es = [])) → sees I (iterM f l) (λ _ es, Forall R l ∧ es = []).
Proof.
  intros Hf. induction l as [|x l IH]; cbn [iterM].
  { eapply sees_weaken; [|apply sees_ret]. intros u es [_ ->]. by split. }
  eapply sees_bind; [apply Hf|intros u; exact IH|]. intros u v es1 es2 [H1 ->] [H2 ->].
  split; [by constructor|done].
Qed.

Lemma sees_check_service I c : sees I (check_service c) (λ _ es, service_fits c ∧ es = []).
Proof.
  unfold check_service. apply sees_lift_bind. intros names (ports & Hports & Hnames)%bind_Ok.
  apply bind_Ok in Hnames as (ps & Hps & Hnames).
  apply sees_read; [apply (j_find grows)|auto with pure|intros svc Hsvc].
  apply sees_lift_bind. intros targets Htargets.
  eapply sees_weaken; [|apply sees_iterM with (R := λ p, ∃ t, getitem p "targetPort" = Ok t ∧ py_in t names = true)].
  - intros u es [Ht ->]. split; [|done]. exists ps, names, svc, targets. split_and!; try done.
    by rewrite Hports.
  - intros p. unfold check_service_port. apply sees_lift_bind. intros t (t' & Ht & Hh)%bind_Ok.
    assert (t' = t) as -> by (by destruct t'; simpl in Hh; simplify_eq).
    destruct (py_in t names) eqn:Hin.
    + eapply sees_weaken; [|apply sees_ret]. intros u es [_ ->]. by eauto.
    + apply sees_lift_bind. intros n _. apply sees_problem.
Qed.

(** Reading the same again. *)
Lemma sees_reread {A B} I (m : P A) a (f : A → P B) Q :
    grows [] A m any → reads m a → sees I (f a) Q → sees I (m ≫= f) Q.
Proof.
  intros Hg Ha Hf. split.
  - eapply (j_bind (Base := grows_base)) with (Q := λ b, b = a); [|intros b ->; apply Hf].
    intros s o es s' Hs Hr E. destruct (Hg _ _ _ _ Hs Hr E) as (? & ? & ? & _). split_and!; [done..|].
    intros b ->. rewrite Ha in E. by injection E.
  - intros s b es s' Hk (a' & es1 & s1 & es2 & E1 & E & ->)%bind_Ret Hp. rewrite Ha in E1.
    injection E1 as <- <- <-. by eapply Hf.
Qed.

Lemma sees_check_rotation I c w : sees I (check_rotation c w) (λ _, trace [rolled c w]).
Proof.
  unfold check_rotation.
  assert (∀ ds, grows [] val (db_secret_hash ds) any) as Hg.
  { intros ds. unfold db_secret_hash. apply (j_seq grows); [apply (j_find grows)|intros; apply (j_lift_any grows)]. }
  apply sees_read; [done|auto with pure|intros h Hh].
  eapply sees_bind with (Q1 := λ b es, b = false → trace [rolled c w] es); [|intros b; apply sees_when|].
  2: { intros b u es1 es2 H [Hb ->]. rewrite app_nil_r. auto. }
  destruct (is_none h) eqn:Hn; [eapply sees_weaken; [|apply sees_ret]; by intros b es [-> _]|].
  apply (sees_reread _ _ h); [done|exact Hh|].
  eapply sees_bind with (Q2 := λ ds b es, es = [] ∧ ∃ h', reads (db_secret_hash ds) h' ∧ b = py_eq h h');
    [apply (sees_render w [_; _])|intros ds|].
  - apply sees_read; [done|auto with pure|intros h' Hh']. eapply sees_weaken; [|apply sees_ret].
    intros b es [-> ->]. by eauto.
  - intros ds b es1 es2 H [-> (h' & Hh' & ->)] Hb. rewrite app_nil_r. eapply trace_mono; [|exact H].
    intros pre e He. by exists ds, h, h'.
Qed.

Lemma sees_create_network I :
    sees I create_network (λ _, trace [just (said ["docker"; "network"; "create"; NET] zero)]).
Proof.
  split; [apply (j_network (Logic := grows_logic))|]. unfold create_network, sh_check. intros s u es s' _.
  intros (p & e1 & s1 & e2 & (argv & Ha & -> & Hz & _)%sh_for_Ret & [= <- <- <-] & ->)%bind_Ret _.
  injection Ha as <-. apply (trace_one _ []); [constructor|]. exists p. auto.
Qed.

Lemma sees_start_db I c : sees I (start_db c) (λ d es, database_of c d ∧ trace [db_ran c d; db_up] es).
Proof.
  split; [apply (j_start_db grows)|]. intros s d es s' Hk. unfold start_db.
  intros (user & e1 & s1 & e2 & [-> Hu]%pure_job_env & E & ->)%bind_Ret.
  revert E. intros (name & e3 & s3 & e4 & [-> Hn]%pure_job_env & E & ->)%bind_Ret.
  revert E. intros (pass & e5 & s5 & e6 & [-> Hp]%pure_secret & E & ->)%bind_Ret.
  revert E. intros (host & e7 & s7 & e8 & [-> Hh]%pure_job_env & E & ->)%bind_Ret.
  revert E. intros (v & e9 & s9 & e10 & [= _ <- <-] & E & ->)%bind_Ret.
  revert E. intros (mdb & e11 & s11 & e12 & E11 & E & ->)%bind_Ret.
  destruct (fstr _) as [mdb'|] eqn:Hmdb in E11; [|done]. injection E11 as -> <- <-.
  revert E. intros (mu & e13 & s13 & e14 & E13 & E & ->)%bind_Ret.
  destruct (fstr _) as [mu'|] eqn:Hmu in E13; [|done]. injection E13 as -> <- <-.
  revert E. intros (q & e15 & s15 & e16 & (argv & Ha & -> & Hz & _)%sh_for_Ret & E & ->)%bind_Ret Hpr.
  destruct (sees_wait_db (I := []) DbNotUp
    (mret {| db_user := user; db_name := name; db_pass := pass |} : P database)
    (λ d, d = {| db_user := user; db_name := name; db_pass := pass |}) []) as [_ Hs].
  { eapply sees_weaken; [|apply sees_ret]. intros d' es' [-> ->]. by split; [|constructor]. }
  destruct (Hs _ _ _ _ ltac:(by intros i id ?%not_elem_of_nil) E Hpr) as [-> Ht]. split; [by split|].
  apply (trace_app [_] [_] [_]); [|exact Ht].
  simpl in Ha. destruct (as_str host) as [h|] eqn:Eh; [|done]. simpl in Ha.
  destruct (as_str (DB_IMAGE c)) as [i|] eqn:Ei; [|done]. injection Ha as <-.
  apply as_str_inv in Eh as ->. apply as_str_inv in Ei.
  apply (trace_one _ []); [constructor|]. exists h, i, mdb, mu. split_and!; [done..|]. exists q. auto.
Qed.

Lemma sees_from_sync I c d w :
    sees I (let* _ := check_db_sync c d w in check_server c w)
      (λ _ es, ∃ f, set_up f = c ∧ workdir f = w ∧ db f = d ∧
         (setup_of c → service_fits c → database_of c d → found_in f) ∧ trace (drop 6 (body_items f)) es).
Proof.
  eapply sees_bind; [apply sees_check_db_sync|intros u; apply sees_check_server|].
  intros u v es1 es2 (jid & x & (Hcopier & Hsyncer & Hd & Hl) & H1) (sid & y & Hy & H2).
  exists {| workdir := w; set_up := c; db := d; copier := x.1.1.1; syncer := x.1.1.2; tables := x.1.2;
    last_table := x.2; narrow_docs := y.1.1; narrow := y.1.2; job_id := jid; server_id := sid;
    narrow_id := y.2 |}.
  split_and!; [done..|by intros; split|by apply (trace_app (sync_items _ _ _ _ _ _ _ _))].
Qed.

(** The run from the item [n] on, and what is found if what was read before is right. *)
Definition seen_from (n : nat) (c : setup) (w : string) (es : list event) : Prop :=
    ∃ f, set_up f = c ∧ workdir f = w ∧ (setup_of c → service_fits c → found_in f) ∧
      trace (drop n (body_items f)) es.

Lemma sees_from_rotation I c w :
    sees I (let* _ := check_rotation c w in let* _ := create_network in let* d := start_db c in
            let* _ := check_db_sync c d w in check_server c w) (λ _, seen_from 2 c w).
Proof.
  eapply sees_bind with (Q2 := λ _ _, seen_from 3 c w); [apply sees_check_rotation|intros u|].
  2: { intros u v es1 es2 H1 (f & <- & <- & Hf & H2). exists f. split_and!; [done..|]. by apply (trace_app [_]). }
  eapply sees_bind with (Q2 := λ _ _, seen_from 4 c w); [apply sees_create_network|intros v|].
  2: { intros v v' es1 es2 H1 (f & <- & <- & Hf & H2). exists f. split_and!; [done..|]. by apply (trace_app [_]). }
  eapply sees_bind; [apply sees_start_db|intros d; apply sees_from_sync|].
  intros d v' es1 es2 [Hd H1] (f & <- & <- & <- & Hf & H2). exists f. split_and!; [done..|auto|].
  by apply (trace_app [_; _]).
Qed.

Lemma sees_body I w :
    sees I (body w) (λ _ es, ∃ f, workdir f = w ∧ found_in f ∧ trace (body_items f) es).
Proof.
  unfold body. eapply sees_bind with (Q2 := λ c _ es, service_fits c ∧ seen_from 2 c w es);
    [apply sees_read_setup|intros c|].
  - eapply sees_bind; [apply sees_check_service|intros u; apply sees_from_rotation|].
    by intros u v es1 es2 [Hs ->] H.
  - intros c u es1 es2 [Hc H1] (Hs & f & <- & <- & Hf & H2). exists f. split_and!; [done|auto|].
    by apply (trace_app [_; _]).
Qed.

(** What the run did, where nothing was wrong. *)
Definition smoke_seen (es : list event) : Prop := ∃ f, found_in f ∧ trace (run_items f) es.

Lemma before_try_Ret s d es s' : before_try s = (Ret d, es, s') →
    trace [just (λ e, e = File MkDTemp (Some d))] es.
Proof.
  unfold before_try. intros (u & e1 & s1 & e2 & E1 & E & ->)%bind_Ret. apply trace_skip.
  { revert E1. destruct (_ || _); [by intros ?%failed_never|apply quiet_mret]. }
  revert E. intros (v & e3 & s3 & e4 & E3 & E & ->)%bind_Ret. apply trace_skip.
  { eapply quiet_version, E3. }
  revert E. intros (u' & e5 & s5 & e6 & E5 & ->%file_Ret & ->)%bind_Ret. apply trace_skip.
  { revert E5. destruct (failed v); [by intros ?%failed_never|apply quiet_mret]. }
  by apply (trace_one _ []); [constructor|].
Qed.

Lemma report_Ret (s : state W) (u : unit) es s' : report s = (Ret u, es, s') →
    problems s = [] ∧ s' = s ∧ es = [Printed OkLine].
Proof.
  unfold report. intros (ps & e1 & s1 & e2 & [= <- <- <-] & E & ->)%bind_Ret.
  destruct (problems s) as [|q qs] eqn:Eq; [by injection E as <- <- <-|].
  revert E. intros (? & ? & ? & ? & _ & E & _)%bind_Ret. revert E.
  by intros (? & ? & ? & ? & _ & E & _)%bind_Ret.
Qed.

End Programs.

(** ** The concrete run *)

Import PowerdnsRuns.Sample.

End PowerdnsSeen.
