(* ===== verification/EmitterSchedule.v ===== *)
(** * templates/contract-emitter.yaml of the umbrella chart: when the emitter runs, and with what

    The template emits, when it is enabled, a ConfigMap that states its verdict and, once the
    credentials are there, one CronJob per signal. The schedule comes from [osh.cronFromInterval],
    the environment from the chart's values and the credentials; both meet files/contract-emitter.py,
    which derives its window from the same interval (Emitter). *)
From S2P Require Import Prelude PyStr PyVal Emitter.
#[local] Open Scope string_scope.
#[local] Open Scope list_scope.

Module EmitterSchedule.
Import Emitter.Emitter.

(** ** Schedules

    The fields of a cron expression that the template writes; the day, the month and the day of
    the week are always any. Times are seconds since the epoch, in UTC. *)
Inductive field := Any | At (n : Z) | Step (n : Z).
Record cron := Cron { minute : field; hour : field }.

Definition field_text (f : field) : string :=
  match f with Any => "*" | At n => str_of_Z n | Step n => "*/" +:+ str_of_Z n end.
Definition cron_text (c : cron) : string :=
  field_text (minute c) +:+ " " +:+ field_text (hour c) +:+ " * * *".

(** How Kubernetes reads a schedule: a step runs from the field's lowest value. *)
Definition read_field (s : string) : option field :=
  match s with
  | "*" => Some Any
  | String "*" (String "/" n) => match py_int n with Ok n => Some (Step n) | _ => None end
  | _ => match py_int s with Ok n => Some (At n) | _ => None end
  end.
Definition read_cron (s : string) : option cron :=
  match split_on " " s with
  | [m; h; "*"; "*"; "*"] =>
      match read_field m, read_field h with
      | Some m, Some h => Some (Cron m h)
      | _, _ => None
      end
  | _ => None
  end.

Definition matches (f : field) (x : Z) : bool :=
  match f with Any => true | At n => (x =? n)%Z | Step n => (x mod n =? 0)%Z end.
(** The schedule fires at the start of each minute whose fields match. *)
Definition fires (c : cron) (t : Z) : bool :=
  (t mod 60 =? 0)%Z && matches (minute c) (t / 60 mod 60) && matches (hour c) (t / 3600 mod 24).

Section Template.
  (** Sprig's [int] of a string. *)
  Context (sprig_int : string → Z).

Definition trim_last (s : string) : string := fst (split_last s).

Definition cron_of_interval (i : string) : cron :=
  if endswith "h" i then
    let n := sprig_int (trim_last i) in
    if (n <=? 1)%Z then Cron (At 0) Any else Cron (At 0) (Step n)
  else if endswith "m" i then
    let n := sprig_int (trim_last i) in
    if (n <=? 1)%Z then Cron Any Any
    else if (60 <=? n)%Z then Cron (At 0) Any else Cron (Step n) Any
  else Cron Any Any.

(** [osh.cronFromInterval] *)
Definition cronFromInterval (i : string) : string := cron_text (cron_of_interval i).

(** ** The manifests *)

(** [contractEmitter] of the values, and what of [serviceContract] the template reads. An empty
    string is a value that is not set. *)
Record clickhouse := {
  ch_url : string; ch_database : string; ch_healthDatabase : string; ch_usageTable : string;
  ch_healthTable : string; ch_bootstrapHealthTable : bool; ch_existingSecret : string;
}.
Record emitter_values := {
  enabled : bool; org : string; svc : string; existingSecret : string; authUrl : string;
  region : string; interface : string; tlsVerify : bool; click : clickhouse;
  usage_interval : string; health_interval : string;
}.

(** An environment variable has a text or is a key of a Secret, which may be absent. *)
Inductive source := Text (s : string) | SecretKey (secret key : string).

Record cronjob := {
  job_name : string; schedule : string; env_from : string; job_env : list (string * source);
}.
(** A ConfigMap by the entries of its metadata and of its data, less the labels. *)
Inductive manifest :=
  | ConfigMap (metadata data : list (string * string))
  | Job (j : cronjob).

Definition quote_bool (b : bool) : string := if b then "true" else "false".
(** [{{- with x }} ... {{- end }}] *)
Definition with_ {A} (x : string) (l : list A) : list A := if String.eqb x "" then [] else l.

Definition emitter_env (v : emitter_values) (mode interval : string) : list (string * source) :=
  let c := click v in
  [("MODE", Text mode); ("ORG", Text (org v)); ("SERVICE_NAME", Text (svc v));
   ("INTERVAL", Text interval); ("OS_INTERFACE", Text (interface v));
   ("TLS_VERIFY", Text (quote_bool (tlsVerify v)))]
  ++ with_ (authUrl v) [("OS_AUTH_URL", Text (authUrl v))]
  ++ with_ (region v) [("OS_REGION_NAME", Text (region v))]
  ++ [("CH_URL", Text (ch_url c)); ("CH_DATABASE", Text (ch_database c));
      ("CH_USAGE_TABLE", Text (ch_usageTable c));
      ("CH_HEALTH_DATABASE", Text (if String.eqb (ch_healthDatabase c) "" then ch_database c
                                   else ch_healthDatabase c));
      ("CH_HEALTH_TABLE", Text (ch_healthTable c));
      ("CH_BOOTSTRAP_HEALTH_TABLE", Text (quote_bool (ch_bootstrapHealthTable c)))]
  ++ with_ (ch_existingSecret c)
       [("CH_USERNAME", SecretKey (ch_existingSecret c) "username");
        ("CH_PASSWORD", SecretKey (ch_existingSecret c) "password")].

Definition interval_of (v : emitter_values) (mode : string) : string :=
  if String.eqb mode "usage" then usage_interval v else health_interval v.

Definition cron_job (v : emitter_values) (mode : string) : cronjob :=
  {| job_name := svc v +:+ "-emit-" +:+ mode;
     schedule := cronFromInterval (interval_of v mode);
     env_from := existingSecret v;
     job_env := emitter_env v mode (interval_of v mode) |}.

Definition emitter_state (secret namespace : string) (found : bool) : string :=
  if found then
    "cronjobs: rendered" +:+ newline +:+
    "reason: Secret " +:+ secret +:+ " found in namespace " +:+ namespace +:+ newline
  else
    "cronjobs: WITHHELD" +:+ newline +:+
    "reason: Secret " +:+ secret +:+ " not found in namespace " +:+ namespace +:+ newline +:+
    "effect: no usage or health records are being emitted, and nothing else will report this"
    +:+ newline +:+
    "remedy: the Secret is created by keystone's release; this resolves by itself once keystone"
    +:+ newline +:+
    "  has deployed, and the CronJobs appear on the next reconcile with nothing to re-run" +:+ newline.

(** The template: [namespace] is the release's, [secret_exists] the lookup of the credentials in
    it and [script] the file that the ConfigMap carries. The state is an entry of [metadata]. *)
Definition contract_emitter (v : emitter_values) (namespace script : string)
  (secret_exists : string → bool) : list manifest :=
  if enabled v then
    let found := secret_exists (existingSecret v) in
    ConfigMap [("emitter-state", emitter_state (existingSecret v) namespace found);
               ("name", svc v +:+ "-contract-emitter")]
              [("contract-emitter.py", script)]
    :: if found then [Job (cron_job v "usage"); Job (cron_job v "health")] else []
  else [].

(** What the API server keeps of a ConfigMap: a field that metadata does not have is dropped. *)
Definition meta_fields : list string :=
  ["annotations"; "creationTimestamp"; "deletionGracePeriodSeconds"; "deletionTimestamp";
   "finalizers"; "generateName"; "generation"; "labels"; "managedFields"; "name"; "namespace";
   "ownerReferences"; "resourceVersion"; "selfLink"; "uid"].
Definition stored (m : manifest) : manifest :=
  match m with
  | ConfigMap meta d => ConfigMap (List.filter (λ e, bool_decide (e.1 ∈ meta_fields)) meta) d
  | Job j => Job j
  end.

(** ** The environment of a run

    The variables of the credentials Secret, overridden by the job's own; the last entry of a
    name counts, and an entry for a key that an optional Secret lacks is passed over. *)
Definition value_of (secrets : string → option (list (string * string))) (s : source)
  : option string :=
  match s with
  | Text t => Some t
  | SecretKey n k => match secrets n with Some d => assoc k d | None => None end
  end.

Fixpoint last_var (secrets : string → option (list (string * string))) (k : string)
  (l : list (string * source)) : option string :=
  match l with
  | [] => None
  | (n, s) :: l =>
      match last_var secrets k l with
      | Some t => Some t
      | None => if String.eqb k n then value_of secrets s else None
      end
  end.

Definition pod_env (secrets : string → option (list (string * string))) (j : cronjob)
  : string → option string := λ k,
  match last_var secrets k (job_env j) with
  | Some t => Some t
  | None => match secrets (env_from j) with Some d => assoc k d | None => None end
  end.

End Template.

(** ** Schedules are read back *)

Definition plain_field (f : field) : Prop :=
  match f with Any => True | At n | Step n => (0 <= n)%Z end.

Lemma read_number n :
  (0 <= n)%Z → read_field (str_of_Z n) = Some (At n) ∧
  all_chars (λ d, negb (Ascii.eqb " " d)) (str_of_Z n) = true.
Proof.
  intros Hn. split; [|by apply str_of_nat_chars].
  pose proof (py_int_str_of_Z n Hn) as Hi.
  assert (all_chars is_digit (str_of_Z n) = true) as Hc by by apply str_of_nat_chars.
  destruct (str_of_Z n) as [|c s]; [done|]. apply andb_prop in Hc as [Hc _].
  unfold read_field. rewrite Hi. by destruct c as [[] [] [] [] [] [] [] []].
Qed.

Lemma read_field_text f : plain_field f →
  read_field (field_text f) = Some f ∧
  all_chars (λ d, negb (Ascii.eqb " " d)) (field_text f) = true.
Proof.
  destruct f as [|n|n]; intros Hn; [done|by apply read_number|]. split.
  - simpl. by rewrite py_int_str_of_Z.
  - simpl. by apply str_of_nat_chars.
Qed.

Lemma read_cron_text c :
  plain_field (minute c) → plain_field (hour c) → read_cron (cron_text c) = Some c.
Proof.
  intros [Hm Hms]%read_field_text [Hh Hhs]%read_field_text. unfold read_cron, cron_text.
  change (_ +:+ " " +:+ field_text (hour c) +:+ " * * *") with
    (String.concat " " [field_text (minute c); field_text (hour c) +:+ " * * *"]).
  replace (String.concat " " [field_text (minute c); field_text (hour c) +:+ " * * *"]) with
    (String.concat " " [field_text (minute c); field_text (hour c); "*"; "*"; "*"]) by done.
  rewrite split_on_concat_words by (done || by repeat constructor).
  rewrite Hm, Hh. by destruct c.
Qed.

(** ** Every window is run in *)

(** From [a] on, a time whose count of [u] seconds modulo [p] is a multiple of [n] comes within
    [n] counts. *)
Lemma step_gap u p n a : (0 < u → 0 < p → 0 < n →
  ∃ f, a <= u * f < a + u * n ∧ f mod p mod n = 0)%Z.
Proof.
  intros Hu Hp Hn. set (m := ((a + u - 1) / u)%Z). set (q := (m mod p)%Z).
  assert (a <= u * m < a + u)%Z as Hm.
  { pose proof (Z.div_mod (a + u - 1) u ltac:(lia)). pose proof (Z.mod_pos_bound (a + u - 1) u Hu).
    unfold m. lia. }
  assert (0 <= q < p)%Z as Hq by by apply Z.mod_pos_bound.
  assert (m = p * (m / p) + q)%Z as Hj by (apply Z.div_mod; lia).
  set (r := ((q + n - 1) / n * n)%Z).
  assert (q <= r < q + n)%Z as Hr.
  { pose proof (Z.div_mod (q + n - 1) n ltac:(lia)). pose proof (Z.mod_pos_bound (q + n - 1) n Hn).
    unfold r. lia. }
  destruct (Z.lt_ge_cases r p) as [Hrp|Hrp].
  - exists (p * (m / p) + r)%Z. split; [nia|].
    replace (p * (m / p) + r)%Z with (r + m / p * p)%Z by lia.
    rewrite Z.mod_add, (Z.mod_small r p) by lia. apply Z.mod_mul. lia.
  - exists (p * (m / p + 1))%Z. split; [nia|].
    rewrite (Z.mul_comm p), Z.mod_mul by lia. apply Z.mod_0_l. lia.
Qed.

Lemma fires_minute f h n :
  h = Any → (f mod 60 mod n = 0)%Z → fires (Cron (Step n) h) (60 * f) = true.
Proof.
  intros -> Hf. unfold fires. simpl. rewrite (Z.mul_comm 60), Z.mod_mul, Z.div_mul by lia.
  by rewrite Hf.
Qed.

Lemma fires_any f : fires (Cron Any Any) (60 * f) = true.
Proof. unfold fires. simpl. by rewrite (Z.mul_comm 60), Z.mod_mul by lia. Qed.

Lemma hour_parts f :
  ((3600 * f) mod 60 = 0 ∧ (3600 * f) / 60 mod 60 = 0 ∧ (3600 * f) / 3600 mod 24 = f mod 24)%Z.
Proof.
  replace (3600 * f)%Z with (f * 60 * 60)%Z by lia. rewrite Z.mod_mul, Z.div_mul, Z.mod_mul by lia.
  split_and!; [done..|]. replace (f * 60 * 60)%Z with (f * 3600)%Z by lia. by rewrite Z.div_mul by lia.
Qed.

Lemma fires_hour f h :
  matches h (f mod 24) = true → fires (Cron (At 0) h) (3600 * f) = true.
Proof.
  intros Hf. destruct (hour_parts f) as (H1 & H2 & H3). unfold fires. simpl. by rewrite H1, H2, H3.
Qed.

(** A window of [size] seconds is run in when the schedule fires within it. *)
Definition run_in (c : cron) (size k : Z) : Prop :=
  ∃ t, fires c t = true ∧ window_start t size = Ok (k * size)%Z.

Lemma window_of t size k :
  (0 < size → k * size <= t < k * size + size → window_start t size = Ok (k * size))%Z.
Proof.
  intros Hs Ht. unfold window_start. destruct (Z.eqb_spec size 0); [lia|].
  do 2 f_equal. symmetry. apply Z.div_unique with (t - k * size)%Z; lia.
Qed.

Lemma window_holds t size k :
  (0 < size)%Z → window_start t size = Ok (k * size)%Z → (k * size <= t < k * size + size)%Z.
Proof.
  intros Hs. unfold window_start. destruct (Z.eqb_spec size 0); [lia|]. intros [= H].
  pose proof (Z.div_mod t size ltac:(lia)). pose proof (Z.mod_pos_bound t size Hs). nia.
Qed.

Section Windows.
  Context (sprig_int : string → Z) (Hint : ∀ n, (0 <= n)%Z → sprig_int (str_of_Z n) = n).

Definition interval_text (n : Z) (u : ascii) : string := str_of_Z n +:+ String u "".

Lemma split_last_app s u : split_last (s +:+ String u "") = (s, Some u).
Proof.
  induction s as [|c s IH]; [done|]. cbn [String.append split_last]. rewrite IH.
  by destruct s.
Qed.

Lemma endswith_unit s u v : endswith (String v "") (s +:+ String u "") = Ascii.eqb v u.
Proof.
  induction s as [|c s IH]; cbn [String.append endswith].
  - simpl. destruct (Ascii.eqb_spec v u) as [->|H]; [done|]. by rewrite orb_false_r.
  - rewrite IH. destruct (String.eqb_spec (String v "") (String c (s +:+ String u ""))) as [H|_]; [|done].
    injection H as _ H. by destruct s.
Qed.

(** The schedule of a number of minutes, hours or seconds. *)
Definition schedule_for (n : Z) (u : ascii) : cron :=
  if Ascii.eqb "h" u then if (n <=? 1)%Z then Cron (At 0) Any else Cron (At 0) (Step n)
  else if Ascii.eqb "m" u then
    if (n <=? 1)%Z then Cron Any Any else if (60 <=? n)%Z then Cron (At 0) Any else Cron (Step n) Any
  else Cron Any Any.

Lemma schedule_read n u : (0 <= n)%Z →
  read_cron (cronFromInterval sprig_int (interval_text n u)) = Some (schedule_for n u).
Proof.
  intros Hn. unfold cronFromInterval, cron_of_interval, trim_last, interval_text.
  rewrite !endswith_unit, split_last_app. simpl fst. rewrite Hint by done.
  unfold schedule_for. repeat case_match; apply read_cron_text; simpl; lia || done.
Qed.

Inductive unit_size : ascii → Z → Prop :=
  | seconds : unit_size "s" 1
  | minutes : unit_size "m" 60
  | hours : unit_size "h" 3600.

Lemma interval_read n u size : (0 <= n)%Z → unit_size u size →
  parse_interval (interval_text n u) = Ok (n * size)%Z.
Proof.
  intros Hn Hu. unfold parse_interval, interval_text. rewrite split_last_app, py_int_str_of_Z by done.
  by destruct Hu.
Qed.

Lemma run_each c size u n p :
  (0 < u → 0 < p → 0 < n → u * n <= size →
   (∀ f, f mod p mod n = 0 → fires c (u * f) = true) → ∀ k, run_in c size k)%Z.
Proof.
  intros Hu Hp Hn Hs Hf k. destruct (step_gap u p n (k * size) Hu Hp Hn) as (f & Hb & Hm).
  exists (u * f)%Z. split; [by apply Hf|]. apply window_of; nia.
Qed.

Lemma windows_run n u size : (1 <= n)%Z → unit_size u size →
  (∀ k, run_in (schedule_for n u) (n * size) k) ↔ (60 <= n * size)%Z.
Proof.
  intros Hn Hu. split.
  - intros Hk. destruct Hu; [|lia..]. destruct (Z.lt_ge_cases n 60) as [Hlt|]; [|lia].
    destruct (Hk 59%Z) as (t & Ht & Hw). apply window_holds in Hw; [|lia].
    apply andb_prop in Ht as [[Ht%Z.eqb_eq _]%andb_prop _].
    pose proof (Z.div_mod t 60 ltac:(lia)). nia.
  - intros Hs. unfold schedule_for. destruct Hu; simpl.
    + apply (run_each _ _ 60 1 60); [lia..|]. intros f _. apply fires_any.
    + destruct (Z.leb_spec n 1) as [H1|H1]; [|destruct (Z.leb_spec 60 n) as [H60|H60]].
      * apply (run_each _ _ 60 1 60); [lia..|]. intros f _. apply fires_any.
      * apply (run_each _ _ 3600 1 24); [lia..|]. intros f _. by apply fires_hour.
      * apply (run_each _ _ 60 n 60); [lia..|]. intros f. by apply fires_minute.
    + destruct (Z.leb_spec n 1) as [H1|H1].
      * apply (run_each _ _ 3600 1 24); [lia..|]. intros f _. by apply fires_hour.
      * apply (run_each _ _ 3600 n 24); [lia..|]. intros f Hf. apply fires_hour. simpl. by rewrite Hf.
Qed.

(** ** The jobs *)

Lemma jobs_are v ns py found j : Job j ∈ contract_emitter sprig_int v ns py found →
  enabled v = true ∧ found (existingSecret v) = true ∧
  ∃ mode, mode ∈ ["usage"; "health"] ∧ j = cron_job sprig_int v mode.
Proof.
  unfold contract_emitter. destruct (enabled v); [|by intros ?%not_elem_of_nil].
  destruct (found (existingSecret v)); intros [?|H]%elem_of_cons; try done.
  - apply elem_of_cons in H as [[= ->]|[[= ->]|[]%not_elem_of_nil]%elem_of_cons];
      (split_and!; [done..|]; eexists; split; [|done]; set_solver).
  - by apply not_elem_of_nil in H.
Qed.

Ltac env_text := unfold pod_env, cron_job, emitter_env, with_; cbn [job_env env_from];
  repeat case_match; subst; simplify_eq/=; repeat case_match; simplify_eq/=; done.

Lemma env_mode secrets v mode : pod_env secrets (cron_job sprig_int v mode) "MODE" = Some mode.
Proof. env_text. Qed.
Lemma env_interval secrets v mode :
  pod_env secrets (cron_job sprig_int v mode) "INTERVAL" = Some (interval_of v mode).
Proof. env_text. Qed.
Lemma env_ch_url secrets v mode :
  pod_env secrets (cron_job sprig_int v mode) "CH_URL" = Some (ch_url (click v)).
Proof. env_text. Qed.

Lemma env_credentials secrets v mode d : secrets (existingSecret v) = Some d →
  let env := pod_env secrets (cron_job sprig_int v mode) in
  env "OS_USERNAME" = assoc "OS_USERNAME" d ∧ env "OS_PASSWORD" = assoc "OS_PASSWORD" d ∧
  env "OS_AUTH_URL" = if String.eqb (authUrl v) "" then assoc "OS_AUTH_URL" d else Some (authUrl v).
Proof.
  intros Hd. unfold pod_env, cron_job, emitter_env, with_. cbn [job_env env_from]. rewrite Hd.
  by destruct (String.eqb (authUrl v) ""), (String.eqb (region v) ""),
    (String.eqb (ch_existingSecret (click v)) "").
Qed.

(** C39: every job that the template emits runs the emitter in every window of its signal, and
    reads that window from its own environment: for an interval of a whole number of seconds,
    minutes or hours the schedule is one Kubernetes reads, the emitter's window has the interval's
    size, and each window holds a time at which the job starts exactly when the interval is a
    minute or more. *)
Theorem windows_emitted v ns py secrets found j mode n u size :
  Job j ∈ contract_emitter sprig_int v ns py found →
  pod_env secrets j "MODE" = Some mode → interval_of v mode = interval_text n u →
  (1 <= n)%Z → unit_size u size →
  ∃ c, read_cron (schedule j) = Some c ∧
    (∀ d, parse_interval (getenv (pod_env secrets j) "INTERVAL" d) = Ok (n * size)%Z) ∧
    ((∀ k, run_in c (n * size) k) ↔ (60 <= n * size)%Z).
Proof.
  intros (_ & _ & m & _ & ->)%jobs_are Hm Hi Hn Hu. rewrite env_mode in Hm. injection Hm as ->.
  exists (schedule_for n u). split; [|split].
  - simpl. rewrite Hi. apply schedule_read. lia.
  - intros d. unfold getenv. rewrite env_interval, Hi. simpl. apply interval_read; [lia|done].
  - by apply windows_run.
Qed.

(** The template's verdict is true of what is rendered with it: its ConfigMap says that the jobs
    were rendered exactly when there are some, and they are there when the credentials are. *)
Lemma verdict_true v ns py found meta d :
  ConfigMap meta d ∈ contract_emitter sprig_int v ns py found →
  ∃ b, assoc "emitter-state" meta = Some (emitter_state (existingSecret v) ns b) ∧
    (b = true ↔ ∃ j, Job j ∈ contract_emitter sprig_int v ns py found).
Proof.
  unfold contract_emitter. destruct (enabled v); [|by intros ?%not_elem_of_nil].
  destruct (found (existingSecret v)); intros [[= -> _]|H]%elem_of_cons.
  - exists true. split; [done|]. split; [|done]. intros _. eexists. right. left.
  - set_solver.
  - exists false. split; [done|]. split; [done|]. by intros (j & [?|?%not_elem_of_nil]%elem_of_cons).
  - by apply not_elem_of_nil in H.
Qed.

(** The verdict does not reach a reader of the cluster: the ConfigMap that is stored is the same
    whether the credentials are there or not. *)
Lemma verdict_lost v ns py found found' :
  head (map stored (contract_emitter sprig_int v ns py found)) =
  head (map stored (contract_emitter sprig_int v ns py found')).
Proof.
  unfold contract_emitter. destruct (enabled v); [|done]. unfold stored. simpl map. simpl head.
  do 3 f_equal.
Qed.

(** Each job has a mode that the emitter knows and, with credentials that hold the user, the
    password and an address (or an address among the values), every variable the emitter cannot
    do without. *)
Lemma jobs_configured v ns py secrets j :
  Job j ∈ contract_emitter sprig_int v ns py (λ n, bool_decide (is_Some (secrets n))) →
  ∃ d, secrets (env_from j) = Some d ∧
    (pod_env secrets j "MODE" = Some "usage" ∨ pod_env secrets j "MODE" = Some "health") ∧
    (∀ k, k = "CH_URL" ∨ (k = "OS_USERNAME" ∨ k = "OS_PASSWORD" ∨ k = "OS_AUTH_URL") ∧
          assoc k d ≠ None ∨ k = "OS_AUTH_URL" ∧ authUrl v ≠ "" →
       pod_env secrets j k ≠ None).
Proof.
  intros (_ & [d Hd]%bool_decide_eq_true & m & Hm & ->)%jobs_are. simpl. exists d.
  split; [done|]. rewrite !env_mode. split; [set_solver|].
  destruct (env_credentials secrets v m d Hd) as (Hu & Hp & Ha).
  intros k [->|[[[->|[->| ->]] Hk]|[-> Hk]]].
  - by rewrite env_ch_url.
  - by rewrite Hu.
  - by rewrite Hp.
  - rewrite Ha. by destruct (String.eqb (authUrl v) "").
  - rewrite Ha. by destruct (String.eqb_spec (authUrl v) "").
Qed.
End Windows.

(** ** A deployment *)

Definition sample_int (s : string) : Z := match py_int s with Ok n => n | _ => 0 end.
Lemma sample_int_reads n : (0 <= n)%Z → sample_int (str_of_Z n) = n.
Proof. intros Hn. unfold sample_int. by rewrite py_int_str_of_Z. Qed.

Definition sample_values : emitter_values :=
  {| enabled := true; org := "default"; svc := "openstack";
     existingSecret := "keystone-keystone-admin"; authUrl := ""; region := "";
     interface := "internal"; tlsVerify := true;
     click := {| ch_url := "http://clickhouse:8123"; ch_database := "showback";
       ch_healthDatabase := "default"; ch_usageTable := "usage_records";
       ch_healthTable := "health_records"; ch_bootstrapHealthTable := true;
       ch_existingSecret := "" |};
     usage_interval := "5m"; health_interval := "1m" |}.
Definition sample_secrets (n : string) : option (list (string * string)) :=
  if String.eqb n "keystone-keystone-admin" then
    Some [("OS_USERNAME", "admin"); ("OS_PASSWORD", "secret"); ("MODE", "other")]
  else None.

Lemma windows_emitted_witness : ∃ c,
  read_cron (schedule (cron_job sample_int sample_values "usage")) = Some c ∧
  (∀ d, parse_interval (getenv (pod_env sample_secrets
     (cron_job sample_int sample_values "usage")) "INTERVAL" d) = Ok (5 * 60)%Z) ∧
  ((∀ k, run_in c (5 * 60) k) ↔ (60 <= 5 * 60)%Z).
Proof.
  apply (windows_emitted sample_int sample_int_reads sample_values "openstack" "" sample_secrets
    (λ _, true) _ "usage" 5 "m" 60).
  - right. left.
  - vm_compute. reflexivity.
  - reflexivity.
  - lia.
  - constructor.
Defined.

(** With intervals of thirty seconds, the second half of each minute is never emitted. *)
Example half_minutes_lost :
  parse_interval "30s" = Ok 30%Z ∧ cronFromInterval sample_int "30s" = "* * * * *" ∧
  ¬ run_in (Cron Any Any) 30 1.
Proof.
  split_and!; [done..|]. intros (t & Ht & Hw). apply window_holds in Hw; [|lia].
  apply andb_prop in Ht as [[Ht%Z.eqb_eq _]%andb_prop _].
  pose proof (Z.div_mod t 60 ltac:(lia)). lia.
Qed.
End EmitterSchedule.
