(* ===== verification/Files.v ===== *)
(** * Files: a file system, and the calls of os, pathlib, shutil and tempfile that change it

    A path is its components from the root. The state maps each path that exists to a directory
    or to the text of a file; there are no links. Programs are those of Io, over that state. *)
From S2P Require Import Prelude Io PyStr.
#[local] Open Scope string_scope.
#[local] Open Scope list_scope.

Notation path := (list string).
Inductive node := Dir | File (text : string).
Notation fs := (@gmap (list string) list_eq_dec (list_countable) node).

(** The classes of OSError; [CopyError] is shutil's Error, which collects those of its parts. *)
Inductive os_error :=
  FileNotFoundError | NotADirectoryError | IsADirectoryError | FileExistsError | CopyError.
Inductive fault := Os (e : os_error) | Py (e : exn) | YamlError.

#[global] Instance node_eq_dec : EqDecision node.
Proof. solve_decision. Defined.

(** ** Parts of a file system *)

(** [p] with [d ++ p = q], if there is one. *)
Definition strip_path (d q : path) : option path :=
  if decide (d `prefix_of` q) then Some (drop (length d) q) else None.

(** What is under [d], by its path from there. *)
Definition under (s : fs) (d : path) : fs :=
  map_imap (λ p _, s !! (d ++ p))
    (gset_to_gmap () (list_to_set (omap (strip_path d) (elements (dom s))) : gset path)).

Definition without (s : fs) (d : path) : fs := filter (λ e, ¬ d `prefix_of` e.1) s.

(** [e] laid over what is under [d]. *)
Definition overlay (e : fs) (d : path) (s : fs) : fs := kmap (d ++.) e ∪ s.

(** The nonempty prefixes of a path, the shortest first. *)
Definition prefixes (p : path) : list path := map (λ n, take n p) (seq 1 (length p)).
Definition parent (p : path) : path := removelast p.

Definition is_file_node (n : option node) : bool :=
  match n with Some (File _) => true | _ => false end.
Definition is_dir_node (n : option node) : bool :=
  match n with Some Dir => true | _ => false end.

(** Every entry but the root is in a directory, and the root is one. *)
Definition wf (s : fs) : Prop :=
  s !! [] = Some Dir ∧ ∀ p x n, s !! (p ++ [x]) = Some n → s !! p = Some Dir.

(** ** Calls *)

Section Calls.
  (** What the programs record. *)
  Context {E : Type}.

Definition F : Type → Type := Io fs E fault.
#[global] Instance F_ret : MRet F := Io_ret.
#[global] Instance F_bind : MBind F := Io_bind.

Definition os_raise {A} (e : os_error) : F A := raise (Os e).

(** The error of a path that is not there. *)
Definition missing (s : fs) (p : path) : os_error :=
  if existsb (λ q, is_file_node (s !! q)) (prefixes (parent p)) then NotADirectoryError
  else FileNotFoundError.

Definition is_dir (p : path) : F bool := gets (λ s, is_dir_node (s !! p)).
Definition is_file (p : path) : F bool := gets (λ s, is_file_node (s !! p)).

Definition read_text (p : path) : F string := λ s,
  match s !! p with
  | Some (File t) => (Ret t, [], s)
  | Some Dir => os_raise IsADirectoryError s
  | None => os_raise (missing s p) s
  end.

Definition write_text (p : path) (t : string) : F unit := λ s,
  match s !! p with
  | Some Dir => os_raise IsADirectoryError s
  | Some (File _) => (Ret (), [], <[p := File t]> s)
  | None =>
      if is_dir_node (s !! parent p) then (Ret (), [], <[p := File t]> s)
      else os_raise (missing s p) s
  end.

Definition mkdir (p : path) (exist_ok : bool) : F unit := λ s,
  match s !! p with
  | Some n =>
      if exist_ok && is_dir_node (Some n) then (Ret (), [], s) else os_raise FileExistsError s
  | None =>
      if is_dir_node (s !! parent p) then (Ret (), [], <[p := Dir]> s)
      else os_raise (missing s p) s
  end.

(** [os.makedirs]: the parents that are not there, from the top, and then the directory. *)
Definition ensure (p : path) : F unit := λ s,
  match s !! p with Some _ => (Ret (), [], s) | None => mkdir p false s end.
Definition makedirs (p : path) (exist_ok : bool) : F unit :=
  iterM ensure (prefixes (parent p)) ≫= λ _, mkdir p exist_ok.

(** [path.unlink(missing_ok=True)] *)
Definition unlink (p : path) : F unit := λ s,
  match s !! p with
  | Some Dir => os_raise IsADirectoryError s
  | _ => (Ret (), [], delete p s)
  end.

(** [shutil.rmtree] *)
Definition rmtree (p : path) : F unit := modify (λ s, without s p).

(** *** [shutil.copytree]

    [e] is what is under the source and [t] what is under the destination. A directory that meets
    a file is an error, and nothing of it is copied; a file that meets a directory is copied into
    it, under its own name, which is an error where that is a directory too. *)
Definition blocked (e t : fs) (p : path) : bool :=
  existsb (λ q, is_dir_node (e !! q) && is_file_node (t !! q)) (prefixes p).
Definition inner (p : path) : path := p ++ [default "" (last p)].

Definition copied (e t : fs) : fs :=
  map_imap (λ p n,
    if decide (p = []) then None else
    if blocked e t p then None else
    if is_file_node (Some n) && is_dir_node (t !! p) then None else Some n) e.
Definition into_dirs (e t : fs) : fs :=
  list_to_map (omap (λ en,
    if blocked e t en.1 then None else
    if is_file_node (Some en.2) && is_dir_node (t !! en.1) && negb (is_dir_node (t !! inner en.1))
    then Some (inner en.1, en.2) else None) (map_to_list e)).
Definition conflict (e t : fs) : bool :=
  existsb (λ en, blocked e t en.1 ||
    is_file_node (Some en.2) && is_dir_node (t !! en.1) && is_dir_node (t !! inner en.1))
    (map_to_list e).

Definition copy_entries (e : fs) (dst : path) : F unit := λ s,
  let t := under s dst in
  (if conflict e t then Exn (Os CopyError) else Ret (), [],
   overlay (into_dirs e t ∪ copied e t) dst s).

(** The destination is not inside the source. *)
Definition copytree (src dst : path) (dirs_exist_ok : bool) : F unit := λ s,
  match s !! src with
  | Some Dir => (makedirs dst dirs_exist_ok ≫= λ _, copy_entries (under s src) dst) s
  | Some (File _) => os_raise NotADirectoryError s
  | None => os_raise (missing s src) s
  end.

(** *** A directory for the time of a program

    [with tempfile.TemporaryDirectory() as tmp], and [tmp = tempfile.mkdtemp()] with a [try] whose
    [finally] removes it: the directory is new, and goes however the program ends. *)
Definition in_tmp {A} (mkdtemp : fs → path) (body : path → F A) : F A := λ s,
  let tmp := mkdtemp s in
  let '(o, es, s') := body tmp (<[tmp := Dir]> s) in
  (o, es, without s' tmp).

(** [try: m finally: f] *)
Definition finally {A} (m : F A) (f : F unit) : F A := λ s,
  let '(o, es, s') := m s in
  let '(o', es', s'') := f s' in
  (match o' with Exn x => Exn x | Ret _ => o end, es ++ es', s'').
End Calls.
Arguments F : clear implicits.

(** What [mkdtemp] promises: a path that does not exist, in a directory that does. *)
Class Mkdtemp (mkdtemp : fs → path) := {
  mkdtemp_new s : wf s → s !! mkdtemp s = None;
  mkdtemp_in s : wf s → s !! parent (mkdtemp s) = Some Dir;
}.

(** A directory of the root whose name is on no path. *)
Definition new_in_root (s : fs) : path :=
  [fresh (list_to_set (concat (elements (dom s))) : gset string)].

(** ** Lookups *)

Lemma strip_path_Some d q p : strip_path d q = Some p ↔ q = d ++ p.
Proof.
  unfold strip_path. case_decide as H.
  - destruct H as [r ->]. rewrite drop_app_length. split; [by intros [= ->]|].
    by intros ->%app_inv_head.
  - split; [done|]. intros ->. by destruct H; exists p.
Qed.

Lemma lookup_under s d p : under s d !! p = s !! (d ++ p).
Proof.
  unfold under. etrans; [apply map_lookup_imap|]. rewrite lookup_gset_to_gmap. case_guard as H; simpl; [done|].
  symmetry. apply not_elem_of_dom. intros Hd. apply H. rewrite elem_of_list_to_set, list_elem_of_omap.
  exists (d ++ p). by rewrite strip_path_Some, elem_of_elements.
Qed.

Lemma lookup_overlay e d s p :
  overlay e d s !! (d ++ p) = match e !! p with Some n => Some n | None => s !! (d ++ p) end.
Proof.
  unfold overlay. destruct (e !! p) as [n|] eqn:Ep.
  - apply lookup_union_Some_l. by rewrite lookup_kmap by apply _.
  - apply lookup_union_r. by rewrite lookup_kmap by apply _.
Qed.

Lemma lookup_overlay_out e d s q : ¬ d `prefix_of` q → overlay e d s !! q = s !! q.
Proof.
  intros Hq. apply lookup_union_r, lookup_kmap_None; [apply _|]. intros p ->. destruct Hq. by exists p.
Qed.

Lemma lookup_without s d q : ¬ d `prefix_of` q → without s d !! q = s !! q.
Proof.
  intros Hq. unfold without. rewrite map_lookup_filter. destruct (s !! q); simpl; [|done].
  by rewrite option_guard_True.
Qed.

Lemma lookup_without_in s d p : without s d !! (d ++ p) = None.
Proof.
  apply map_lookup_filter_None. right. intros n _ H. apply H. by exists p.
Qed.

Lemma under_under s d d' : under (under s d) d' = under s (d ++ d').
Proof. apply map_eq. intros p. by rewrite !lookup_under, app_assoc. Qed.

Lemma under_insert s d p n : under (<[d ++ p := n]> s) d = <[p := n]> (under s d).
Proof.
  apply map_eq. intros q. rewrite lookup_under. destruct (decide (p = q)) as [->|Hq].
  - by rewrite !lookup_insert_eq.
  - rewrite !lookup_insert_ne, lookup_under; [done..|]. intros ?%app_inv_head. done.
Qed.

Lemma under_overlay e d p s : under (overlay e (d ++ p) s) d = overlay e p (under s d).
Proof.
  apply map_eq. intros q. rewrite lookup_under. destruct (decide (p `prefix_of` q)) as [[r ->]|Hq].
  - rewrite app_assoc, !lookup_overlay. by rewrite lookup_under, app_assoc.
  - rewrite !lookup_overlay_out, lookup_under; [done..|]. intros ?%prefix_app_inv. done.
Qed.

(** *** Well-formed file systems *)

Lemma wf_dir s p q n : wf s → q ≠ [] → s !! (p ++ q) = Some n → s !! p = Some Dir.
Proof.
  intros [_ Hw]. revert n. induction q as [|x q IH] using rev_ind; intros n Hq H; [done|].
  rewrite app_assoc in H. apply Hw in H. destruct q as [|y q]; [by rewrite app_nil_r in H|].
  by apply (IH Dir).
Qed.

Lemma wf_none s p q : wf s → s !! p = None → s !! (p ++ q) = None.
Proof.
  intros Hw Hp. destruct q as [|x q]; [by rewrite app_nil_r|].
  destruct (s !! (p ++ x :: q)) as [n|] eqn:Es; [|done]. apply wf_dir in Es; [congruence|done..].
Qed.

Lemma elem_of_prefixes p q : q ∈ prefixes p → q `prefix_of` p.
Proof. unfold prefixes. intros (n & -> & _)%list_elem_of_fmap. apply prefix_take. Qed.

Lemma parent_prefix p : parent p `prefix_of` p.
Proof. unfold parent. rewrite removelast_firstn_len. apply prefix_take. Qed.

Lemma parent_snoc p x : parent (p ++ [x]) = p.
Proof. apply removelast_last. Qed.

Lemma wf_insert s p n : wf s → p ≠ [] → s !! parent p = Some Dir → n = Dir ∨ s !! p ≠ Some Dir →
  wf (<[p := n]> s).
Proof.
  intros [Hr Hw] Hne Hp Hn. split; [by rewrite lookup_insert_ne|]. intros q x m H.
  assert (s !! q = Some Dir) as Hq.
  { destruct (decide (p = q ++ [x])) as [->|Hx]; [by rewrite parent_snoc in Hp|].
    rewrite lookup_insert_ne in H by done. by apply Hw in H. }
  destruct (decide (p = q)) as [->|]; [|by rewrite lookup_insert_ne].
  rewrite lookup_insert_eq. destruct Hn as [->|Hn]; [done|congruence].
Qed.

Lemma wf_delete s p : wf s → s !! p ≠ Some Dir → wf (delete p s).
Proof.
  intros [Hr Hw] Hp. split; [rewrite lookup_delete_ne; [done|by intros ->]|]. intros q x n H.
  apply lookup_delete_Some in H as [_ H%Hw]. rewrite lookup_delete_ne; [done|by intros ->].
Qed.

Lemma wf_under s d : wf s → s !! d = Some Dir → wf (under s d).
Proof.
  intros [_ Hw] Hd. split; [by rewrite lookup_under, app_nil_r|]. intros p x n.
  rewrite !lookup_under, app_assoc. apply Hw.
Qed.

Lemma wf_parent s p n : wf s → p ≠ [] → s !! p = Some n → s !! parent p = Some Dir.
Proof.
  intros [_ Hw] Hp. destruct p as [|x p _] using rev_ind; [done|]. rewrite parent_snoc. apply Hw.
Qed.

#[global] Instance new_in_root_ok : Mkdtemp new_in_root.
Proof.
  split; intros s [Hr _]; [|done]. apply not_elem_of_dom. intros H.
  apply (is_fresh (list_to_set (concat (elements (dom s))) : gset string)).
  apply elem_of_list_to_set, list_elem_of_In, in_concat. exists (new_in_root s). split; [|by left].
  apply list_elem_of_In, elem_of_elements. exact H.
Qed.

(** Well-formedness by inspection. *)
Definition wf_check (s : fs) : bool :=
  bool_decide (s !! [] = Some Dir) &&
  forallb (λ e, match e.1 with [] => true | p => is_dir_node (s !! parent p) end) (map_to_list s).

Lemma wf_check_ok s : wf_check s = true → wf s.
Proof.
  unfold wf_check. intros [Hr%bool_decide_eq_true Ha]%andb_prop. split; [done|]. intros p x n H.
  rewrite forallb_forall in Ha. specialize (Ha (p ++ [x], n)).
  rewrite <-list_elem_of_In, elem_of_map_to_list in Ha. specialize (Ha H). cbn [fst] in Ha.
  destruct (p ++ [x]) as [|y q] eqn:Eq; [by destruct p|]. rewrite <-Eq, parent_snoc in Ha.
  by destruct (s !! p) as [[|u]|].
Qed.

(** ** Programs that work in one directory *)

Section Frame.
  Context {E : Type}.

(** Outside of [d] the state is that of [s], [d] and its parents are directories, and the whole is
    well formed. *)
Definition inside (s : fs) (d : path) (s' : fs) : Prop :=
  (∀ q, ¬ d `prefix_of` q → s' !! q = s !! q) ∧ (∀ q, q `prefix_of` d → s' !! q = Some Dir) ∧ wf s'.

(** Whatever was there, the program changes nothing outside of [d]. *)
Definition works_in {A} (d : path) (m : F E A) : Prop :=
  ∀ s, keeps (inside s d) (λ _, True) m.

Lemma inside_insert s d s' p n :
  inside s d s' → d `prefix_of` p → s' !! parent p = Some Dir → s' !! p ≠ Some Dir →
  inside s d (<[p := n]> s').
Proof.
  intros (Ho & Hd & Hw) Hp Hpar Hn. assert (p ≠ []) as Hne by (intros ->; by apply Hn, Hw).
  split_and!; [intros q Hq; rewrite lookup_insert_ne..|apply wf_insert; auto].
  - by apply Ho.
  - by intros <-.
  - by apply Hd.
  - intros <-. by apply Hn, Hd.
Qed.

Lemma inside_delete s d s' p :
  inside s d s' → d `prefix_of` p → s' !! p ≠ Some Dir → inside s d (delete p s').
Proof.
  intros (Ho & Hd & Hw) Hp Hn.
  split_and!; [intros q Hq; rewrite lookup_delete_ne..|by apply wf_delete].
  - by apply Ho.
  - by intros <-.
  - by apply Hd.
  - intros <-. by apply Hn, Hd.
Qed.

Lemma inside_write s d s' p u t :
  inside s d s' → d `prefix_of` p → s' !! p = Some (File u) → inside s d (<[p := File t]> s').
Proof.
  intros H Hp Hs. apply inside_insert; try done; [|congruence].
  apply (wf_parent s' p (File u)); [apply H| |done].
  intros ->. destruct H as (_ & _ & Hr & _). congruence.
Qed.

Lemma works_ret {A} d (a : A) : works_in d (mret a).
Proof. intros s. apply keeps_ret. Qed.
Lemma works_raise {A} d x : works_in d (@raise _ E _ A x).
Proof. intros s. apply keeps_raise. Qed.
Lemma works_tell d (e : E) : works_in d (tell e).
Proof. intros s. by apply keeps_tell. Qed.
Lemma works_gets {A} d (f : fs → A) : works_in d (gets f).
Proof. intros s. apply keeps_gets. Qed.
Lemma works_bind {A B} d (m : F E A) (f : A → F E B) :
  works_in d m → (∀ a, works_in d (f a)) → works_in d (m ≫= f).
Proof. intros Hm Hf s. apply keeps_bind; [apply Hm|]. intros a. apply Hf. Qed.
Lemma works_try {A} d (m : F E A) h :
  works_in d m → (∀ x, works_in d (h x)) → works_in d (try_ m h).
Proof. intros Hm Hh s. apply keeps_try; [apply Hm|]. intros x. apply Hh. Qed.
Lemma works_finally {A} d (m : F E A) f : works_in d m → works_in d f → works_in d (finally m f).
Proof.
  intros Hm Hf s s' Hs. destruct (Hm s s' Hs) as [H1 H2]. unfold finally.
  destruct (m s') as [[o es] s1]. destruct (Hf s s1 H1) as [H3 H4].
  destruct (f s1) as [[o' es'] s2]. simpl in *. split; [done|by apply Forall_app].
Qed.
Lemma works_iterM {A} d (f : A → F E unit) l :
  Forall (λ a, works_in d (f a)) l → works_in d (iterM f l).
Proof. induction 1; [apply works_ret|]. by apply works_bind. Qed.

(** A call that leaves the state as it is, or changes it as [f] says. *)
Lemma works_call {A} d (m : F E A) :
  (∀ s s', inside s d s' → inside s d (m s').2) → works_in d m.
Proof.
  intros H s s' Hs. split; [by apply H|]. by apply Forall_true.
Qed.

Lemma works_read d p : works_in d (read_text p).
Proof. apply works_call. intros s s' H. unfold read_text. by destruct (s' !! p) as [[]|]. Qed.

Lemma is_dir_node_true n : is_dir_node n = true → n = Some Dir.
Proof. by destruct n as [[]|]. Qed.

Lemma works_write d p t : d `prefix_of` p → works_in d (write_text p t).
Proof.
  intros Hp. apply works_call. intros s s' H. unfold write_text.
  destruct (s' !! p) as [[|u]|] eqn:Es; [done| |case_match eqn:Ed; [|done]].
  - by apply (inside_write s d s' p u).
  - apply inside_insert; try done; [|congruence]. by apply is_dir_node_true.
Qed.

Lemma works_mkdir d p ok : d `prefix_of` p → works_in d (mkdir p ok).
Proof.
  intros Hp. apply works_call. intros s s' H. unfold mkdir.
  destruct (s' !! p) eqn:Es; case_match eqn:Ed; try done.
  apply inside_insert; try done; [|congruence]. by apply is_dir_node_true.
Qed.

Lemma works_ensure d p : d `prefix_of` p ∨ p `prefix_of` d → works_in d (ensure p).
Proof.
  intros Hp. apply works_call. intros s s' H. unfold ensure.
  destruct (s' !! p) eqn:Es; [done|]. destruct Hp as [Hp|Hp].
  - by apply (works_mkdir d p false Hp).
  - by rewrite (proj1 (proj2 H) p Hp) in Es.
Qed.

Lemma works_makedirs d p ok : d `prefix_of` p → works_in d (makedirs p ok).
Proof.
  intros Hp. apply works_bind; [|intros _; by apply works_mkdir]. apply works_iterM, Forall_forall.
  intros q Hq%elem_of_prefixes. apply works_ensure.
  assert (q `prefix_of` p) by (etrans; [done|apply parent_prefix]).
  by apply (prefix_weak_total _ _ p).
Qed.

Lemma works_unlink d p : d `prefix_of` p → works_in d (unlink p).
Proof.
  intros Hp. apply works_call. intros s s' H. unfold unlink.
  destruct (s' !! p) as [[|]|] eqn:Es; [done|..]; apply inside_delete; congruence.
Qed.

Lemma copied_root e t : into_dirs e t !! [] = None ∧ copied e t !! [] = None.
Proof.
  split.
  - unfold into_dirs. apply not_elem_of_list_to_map_1.
    intros ((p & n) & Hp & (en & _ & Hen)%list_elem_of_omap)%list_elem_of_fmap. simpl in Hp.
    destruct (blocked e t en.1); [done|]. case_match; [|done]. injection Hen as Hi _.
    rewrite <-Hp in Hi. by apply app_nil in Hi as [_ ?].
  - unfold copied. rewrite map_lookup_imap. by destruct (e !! []).
Qed.

Lemma copied_Some e t p n : copied e t !! p = Some n →
  e !! p = Some n ∧ p ≠ [] ∧ blocked e t p = false ∧ (n = Dir ∨ t !! p ≠ Some Dir).
Proof.
  unfold copied. rewrite map_lookup_imap. destruct (e !! p) as [m|]; [|done]. simpl.
  case_decide; [done|]. destruct (blocked e t p); [done|]. destruct m as [|u]; simpl.
  - intros [= <-]. auto.
  - destruct (is_dir_node (t !! p)) eqn:Et; [done|]. intros [= <-].
    split_and!; [done..|]. right. intros H'. by rewrite H' in Et.
Qed.

Lemma into_Some e t p n : into_dirs e t !! p = Some n →
  ∃ q u, p = inner q ∧ n = File u ∧ e !! q = Some (File u) ∧ t !! q = Some Dir ∧ t !! p ≠ Some Dir.
Proof.
  unfold into_dirs. intros H%elem_of_list_to_map_2.
  apply list_elem_of_omap in H as ((q & m) & Hq%elem_of_map_to_list & H). cbn [fst snd] in H.
  destruct (blocked e t q); [done|]. destruct m as [|u]; [done|]. simpl in H.
  destruct (is_dir_node (t !! q)) eqn:Eq; [|done].
  destruct (is_dir_node (t !! inner q)) eqn:Ei; [done|]. injection H as <- <-.
  exists q, u. split_and!; [done..|by apply is_dir_node_true|]. intros H'. by rewrite H' in Ei.
Qed.

Lemma blocked_parent e t p x : blocked e t (p ++ [x]) = false →
  blocked e t p = false ∧ (e !! (p ++ [x]) = Some Dir → is_file_node (t !! (p ++ [x])) = false).
Proof.
  unfold blocked, prefixes. rewrite length_app, Nat.add_1_r, seq_S, map_app, existsb_app. simpl.
  rewrite orb_false_r. intros [H1 H2]%orb_false_iff. split.
  - rewrite <-H1. f_equal. apply map_ext_in. intros n Hn%in_seq.
    by rewrite take_app_le by lia.
  - intros He. rewrite <-Nat.add_1_r, take_ge, He in H2; [done|]. rewrite length_app. simpl. lia.
Qed.

(** Copying a well-formed tree into a directory. *)
Lemma wf_copy e t : wf e → wf t → wf (into_dirs e t ∪ copied e t ∪ t).
Proof.
  intros [_ He] [Hr Ht]. destruct (copied_root e t) as [H1 H2].
  assert (∀ p, t !! p = Some Dir → (into_dirs e t ∪ copied e t ∪ t) !! p = Some Dir) as Hkeep.
  { intros p Hp. rewrite lookup_union. destruct ((into_dirs e t ∪ copied e t) !! p) as [n|] eqn:Ec;
      rewrite Hp; [|done].
    assert (n = Dir) as ->; [|done]. apply lookup_union_Some_raw in Ec as [Hi|[_ Hc]].
    - by apply into_Some in Hi as (q & u & -> & -> & _ & _ & Hn).
    - by apply copied_Some in Hc as (_ & _ & _ & [->|Hn]). }
  split; [by apply Hkeep|]. intros p x n H. apply lookup_union_Some_raw in H as [H|[_ H%Ht]]; [|auto].
  apply lookup_union_Some_raw in H as [Hi|[_ Hc]].
  - apply into_Some in Hi as (q & u & Heq & _ & _ & Hq & _). unfold inner in Heq.
    apply app_inj_tail in Heq as [-> _]. auto.
  - apply copied_Some in Hc as (Hpx%He & _ & [Hb _]%blocked_parent & _).
    destruct (decide (p = [])) as [->|Hne]; [auto|].
    destruct (t !! p) as [[|u]|] eqn:Et; [auto| |].
    + exfalso. destruct p as [|y p _] using rev_ind; [done|].
      apply blocked_parent in Hb as [_ Hb]. specialize (Hb Hpx). by rewrite Et in Hb.
    + rewrite lookup_union_l by done. rewrite lookup_union.
      assert (copied e t !! p = Some Dir) as ->.
      { unfold copied. rewrite map_lookup_imap, Hpx. simpl. rewrite decide_False by done.
        by rewrite Hb. }
      destruct (into_dirs e t !! p) as [m|] eqn:Ei; [|done].
      apply into_Some in Ei as (q & v & -> & _ & Hq & _). apply He in Hpx. congruence.
Qed.

Lemma lookup_overlay_in e d s p : overlay e d s !! (d ++ p) = (e ∪ under s d) !! p.
Proof.
  rewrite lookup_overlay. destruct (e !! p) as [n|] eqn:Ep.
  - by rewrite (lookup_union_Some_l _ _ _ _ Ep).
  - by rewrite lookup_union_r, lookup_under.
Qed.

Lemma wf_overlay e d s :
  wf s → s !! d = Some Dir → wf (e ∪ under s d) → wf (overlay e d s).
Proof.
  intros [Hr Hw] Hd [Her Hew]. split.
  - destruct d; [|by rewrite lookup_overlay_out by (by intros ?%prefix_nil_not)].
    by rewrite <-Her, <-(lookup_overlay_in e [] s []).
  - intros q x n H. destruct (decide (d `prefix_of` q)) as [[p ->]|Hq].
    + rewrite lookup_overlay_in. rewrite <-app_assoc, lookup_overlay_in in H. by apply Hew in H.
    + rewrite lookup_overlay_out by done. destruct (decide (d `prefix_of` q ++ [x])) as [[p Hp]|Hx].
      * destruct p as [|y p _] using rev_ind; [|rewrite app_assoc in Hp].
        -- rewrite app_nil_r in Hp. rewrite <-Hp in Hd. by apply Hw in Hd.
        -- apply app_inj_tail in Hp as [-> _]. destruct Hq. by exists p.
      * rewrite lookup_overlay_out in H by done. by apply Hw in H.
Qed.

Lemma inside_overlay s d s' e dst :
  inside s d s' → d `prefix_of` dst → s' !! dst = Some Dir → e !! [] = None →
  wf (e ∪ under s' dst) → inside s d (overlay e dst s').
Proof.
  intros (Ho & Hp & Hw) Hd Hdst Hroot He.
  assert (∀ q, ¬ dst `prefix_of` q ∨ q = dst → overlay e dst s' !! q = s' !! q) as Hq.
  { intros q [Hq| ->]; [by apply lookup_overlay_out|].
    pose proof (lookup_overlay e dst s' []) as Hl. rewrite app_nil_r, Hroot in Hl. done. }
  split_and!; [intros q H; rewrite Hq..|by apply wf_overlay].
  - by apply Ho.
  - left. intros H'. apply H. by etrans.
  - by apply Hp.
  - destruct (decide (q = dst)) as [|Hne]; [by right|left].
    intros H'. apply Hne, (anti_symm prefix); [by etrans|done].
Qed.

Lemma makedirs_dir dst ok (s : fs) es s' :
  @makedirs E dst ok s = (Ret (), es, s') → s' !! dst = Some Dir.
Proof.
  unfold makedirs, mbind, F_bind, Io_bind.
  destruct (iterM (@ensure E) (prefixes (parent dst)) s) as [[[a|x] es1] s1]; [|done].
  unfold mkdir. destruct (s1 !! dst) as [[|u]|] eqn:Ed.
  - destruct ok; [|done]. by intros [= _ <-].
  - by destruct ok.
  - destruct (is_dir_node (s1 !! parent dst)); [|done]. intros [= _ <-]. apply lookup_insert_eq.
Qed.

Lemma works_copytree d src dst ok : d `prefix_of` dst → works_in d (copytree src dst ok).
Proof.
  intros Hd. apply works_call. intros s s' Hs. unfold copytree.
  destruct (s' !! src) as [[|]|] eqn:Esrc; [|done..].
  assert (wf (under s' src)) as Hsrc by (apply wf_under; [apply Hs|done]).
  unfold mbind, F_bind, Io_bind. destruct (works_makedirs d dst ok Hd s s' Hs) as [Hm _].
  destruct (makedirs dst ok s') as [[[[]|x] es] s1] eqn:Em; [|done]. simpl in *.
  apply makedirs_dir in Em. apply inside_overlay; try done.
  - by apply lookup_union_None, copied_root.
  - apply wf_copy; [done|]. apply wf_under; [apply Hm|done].
Qed.

(** A new temporary directory. *)
Lemma tmp_inside mkdtemp `{!Mkdtemp mkdtemp} s :
  wf s → inside s (mkdtemp s) (<[mkdtemp s := Dir]> s).
Proof.
  intros Hw. pose proof (mkdtemp_new s Hw) as Hnew. pose proof (mkdtemp_in s Hw) as Hin.
  split_and!; [intros q Hq..|].
  - rewrite lookup_insert_ne; [done|]. by intros <-.
  - destruct (decide (mkdtemp s = q)) as [<-|Hne]; [apply lookup_insert_eq|].
    rewrite lookup_insert_ne by done. destruct Hq as [r Hr].
    destruct r as [|x r _] using rev_ind; [by rewrite app_nil_r in Hr|].
    rewrite app_assoc in Hr. rewrite Hr, parent_snoc in Hin.
    destruct r as [|y r]; [by rewrite app_nil_r in Hin|]. by apply (wf_dir s q (y :: r) Dir).
  - apply wf_insert; [done| |done|by left]. intros H'. rewrite H' in Hnew.
    by rewrite (proj1 Hw) in Hnew.
Qed.

(** A temporary directory leaves no trace. *)
Lemma in_tmp_restores {A} mkdtemp `{!Mkdtemp mkdtemp} (body : path → F E A) s :
  wf s → (∀ tmp, works_in tmp (body tmp)) → (in_tmp mkdtemp body s).2 = s.
Proof.
  intros Hw Hb. pose proof (mkdtemp_new s Hw) as Hnew. pose proof (tmp_inside mkdtemp s Hw) as Hi.
  unfold in_tmp. set (tmp := mkdtemp s) in *.
  destruct (Hb tmp s _ Hi) as [[Ho _] _]. destruct (body tmp _) as [[o es] s']. simpl in *.
  apply map_eq. intros q. destruct (decide (tmp `prefix_of` q)) as [[r ->]|Hq].
  - by rewrite lookup_without_in, wf_none.
  - rewrite lookup_without by done. by apply Ho.
Qed.

Lemma works_tmp {A} d mkdtemp `{!Mkdtemp mkdtemp} (body : path → F E A) :
  (∀ tmp, works_in tmp (body tmp)) → works_in d (in_tmp mkdtemp body).
Proof.
  intros Hb. apply works_call. intros s s' Hs. rewrite in_tmp_restores; [done..|apply Hs|done].
Qed.
End Frame.

(** ** Runs that succeed *)

Section Runs.
  Context {E : Type}.

(** Neither is in the other. *)
Definition away (d d' : path) : Prop := ¬ d `prefix_of` d' ∧ ¬ d' `prefix_of` d.

Lemma away_under s d s' d' : inside s d s' → away d d' → under s' d' = under s d' ∧ s' !! d' = s !! d'.
Proof.
  intros [Ho _] [H1 H2].
  assert (∀ p, s' !! (d' ++ p) = s !! (d' ++ p)) as Hp.
  { intros p. apply Ho. intros H. destruct (prefix_weak_total d d' (d' ++ p)); [done|by exists p|done..]. }
  split; [|by rewrite <-(app_nil_r d')]. apply map_eq. intros p. by rewrite !lookup_under.
Qed.

(** The entries that two trees share are of the same kind. *)
Definition plain (e t : fs) : Prop :=
  ∀ p n m, e !! p = Some n → t !! p = Some m → is_dir_node (Some n) = is_dir_node (Some m).

Lemma plain_blocked e t p : plain e t → blocked e t p = false.
Proof.
  intros Hp. apply not_true_is_false. intros (q & _ & [He Ht]%andb_prop)%existsb_exists.
  destruct (e !! q) as [n|] eqn:En, (t !! q) as [m|] eqn:Em; try done.
  specialize (Hp q n m En Em). destruct m; simpl in *; congruence.
Qed.

Lemma plain_node e t p n :
  plain e t → e !! p = Some n → is_file_node (Some n) && is_dir_node (t !! p) = false.
Proof.
  intros Hp Hn. destruct (t !! p) as [m|] eqn:Em; [|by rewrite andb_false_r].
  specialize (Hp p n m Hn Em). destruct n, m; simpl in *; congruence.
Qed.

Lemma plain_copy e t : plain e t →
  conflict e t = false ∧ into_dirs e t = ∅ ∧ copied e t = delete [] e.
Proof.
  intros Hp. split_and!.
  - apply not_true_is_false. intros ((p & n) & Hin & H)%existsb_exists. cbn [fst snd] in H.
    apply list_elem_of_In, elem_of_map_to_list in Hin.
    by rewrite plain_blocked, (plain_node e t) in H.
  - unfold into_dirs. match goal with |- list_to_map ?l = _ => assert (l = []) as ->; [|done] end.
    apply elem_of_nil_inv. intros x ((p & n) & Hin & H)%list_elem_of_omap. cbn [fst snd] in H.
    apply elem_of_map_to_list in Hin. by rewrite plain_blocked, (plain_node e t) in H.
  - apply map_eq. intros p. unfold copied. rewrite map_lookup_imap.
    destruct (e !! p) as [n|] eqn:Ep; cbn [mbind option_bind].
    + case_decide as Hd; [subst; by rewrite lookup_delete_eq|].
      rewrite plain_blocked, (plain_node e t), lookup_delete_ne by done. done.
    + destruct (decide (p = [])) as [->|]; [by rewrite lookup_delete_eq|].
      by rewrite lookup_delete_ne.
Qed.

Lemma ensure_all l (s : fs) : (∀ q, q ∈ l → s !! q = Some Dir) → iterM (@ensure E) l s = (Ret (), [], s).
Proof.
  induction l as [|q l IH]; intros Hq; [done|]. cbn [iterM].
  rewrite (run_bind_pure _ _ s () s); [apply IH; set_solver|]. unfold ensure.
  by rewrite (Hq q) by set_solver.
Qed.

Lemma makedirs_run p ok (s : fs) :
  (∀ q, q `prefix_of` parent p → s !! q = Some Dir) → @makedirs E p ok s = mkdir p ok s.
Proof.
  intros Hq. apply (run_bind_pure _ (λ _, mkdir p ok) s () s), ensure_all.
  intros q Hin%elem_of_prefixes. by apply Hq.
Qed.

Lemma mkdir_run p ok (s : fs) :
  s !! parent p = Some Dir → s !! p = None ∨ ok = true ∧ s !! p = Some Dir →
  @mkdir E p ok s = (Ret (), [], <[p := Dir]> s).
Proof.
  intros Hp [Hn|[-> Hn]]; unfold mkdir; rewrite Hn; [by rewrite Hp|]. by rewrite insert_id.
Qed.

Lemma copytree_run src dst ok (s : fs) :
  s !! src = Some Dir → (∀ q, q `prefix_of` parent dst → s !! q = Some Dir) →
  s !! dst = None ∨ ok = true ∧ s !! dst = Some Dir → plain (under s src) (under s dst) →
  @copytree E src dst ok s = (Ret (), [], overlay (under s src) dst s).
Proof.
  intros Hs Hq Hd Hp. unfold copytree. rewrite Hs.
  assert (under s src !! [] = Some Dir) as Hroot by by rewrite lookup_under, app_nil_r.
  etrans; [apply (run_bind_pure (makedirs dst ok) (λ _, copy_entries (under s src) dst) s ()
    (<[dst := Dir]> s)); rewrite makedirs_run by done; apply mkdir_run; [by apply Hq|done]|].
  unfold copy_entries. set (t := under (<[dst := Dir]> s) dst).
  assert (∀ p, p ≠ [] → t !! p = under s dst !! p) as Ht.
  { intros p Hne. unfold t. rewrite !lookup_under, lookup_insert_ne; [done|].
    intros H. rewrite <-(app_nil_r dst) in H at 1. by apply app_inv_head in H. }
  assert (plain (under s src) t) as Hpt.
  { intros p n m He Hm. destruct (decide (p = [])) as [->|Hne].
    - unfold t in Hm. rewrite lookup_under, app_nil_r, lookup_insert_eq in Hm. congruence.
    - rewrite (Ht p Hne) in Hm. by apply (Hp p). }
  destruct (plain_copy _ _ Hpt) as (-> & -> & ->). f_equal. apply map_eq. intros q.
  destruct (decide (dst `prefix_of` q)) as [[p ->]|Hout].
  - rewrite !lookup_overlay, map_empty_union. destruct (decide (p = [])) as [->|Hne].
    + by rewrite lookup_delete_eq, Hroot, app_nil_r, lookup_insert_eq.
    + rewrite lookup_delete_ne by done. case_match; [done|]. rewrite lookup_insert_ne; [done|].
      intros H'. rewrite <-(app_nil_r dst) in H' at 1. by apply app_inv_head in H'.
  - rewrite !lookup_overlay_out by done. rewrite lookup_insert_ne; [done|]. by intros ->; destruct Hout.
Qed.

Lemma write_run p t u (s : fs) :
  s !! p = Some (File u) → @write_text E p t s = (Ret (), [], <[p := File t]> s).
Proof. intros H. unfold write_text. by rewrite H. Qed.
Lemma read_run p u (s : fs) : s !! p = Some (File u) → @read_text E p s = (Ret u, [], s).
Proof. intros H. unfold read_text. by rewrite H. Qed.

(** A directory that is there already, and may not be. *)
Lemma copytree_exists src dst (s : fs) :
  s !! src = Some Dir → (∀ q, q `prefix_of` parent dst → s !! q = Some Dir) →
  s !! dst ≠ None → @copytree E src dst false s = (Exn (Os FileExistsError), [], s).
Proof.
  intros Hs Hq Hd. unfold copytree. rewrite Hs.
  apply (run_bind_exn (makedirs dst false) (λ _, copy_entries (under s src) dst)).
  rewrite makedirs_run by done. unfold mkdir. by destruct (s !! dst).
Qed.
End Runs.
