(* ===== verification/Rendering.v ===== *)
(** * How the gates render a chart

    Most gates under hack/ render charts themselves: they copy a chart to a temporary directory,
    stamp its version, put helm-toolkit beside its templates, run helm template on the copy and
    read what it prints. These programs, one per gate, run on Files' file system; what helm prints
    for a chart is a parameter, and so is the parse of it. *)
From S2P Require Import Prelude PyStr PyText PyVal Io Files Udp.
From S2P Require Import UwsgiStats ConfigClosure DurableState NodeLabels OriginPin Provisioning ComponentDag UpgradeNotPrune.
#[local] Open Scope string_scope.
#[local] Open Scope list_scope.

Module Rendering.
Import ComponentDag.ComponentDag.

Record proc := { returncode : Z; stdout : string; stderr : string }.

(** helm template of a release, with its flags, on a chart. *)
Inductive event := Template (release : string) (flags : list string) (chart : fs).

Notation P := (F event).

(** What each gate has of helm-toolkit and of its own arguments *)
Definition GATE : string := "0.0.0-gate".
Definition KUBE : list string := ["--kube-version"; "1.36.0"].

Section Programs.
  (** [None] where helm is not installed. *)
  Context (helm : string → list string → fs → option proc).
  (** The documents of a text, or why it does not parse. *)
  Context (load_all : string → list val + string).
  Context (mkdtemp : fs → path) (ROOT : path).

Definition TOOLKIT : path := ROOT ++ ["charts"; "helm-toolkit"].
Definition chart_of (name : string) : path := ROOT ++ ["blueprints"; name; "chart"].

(** ** Parts that the gates share *)

Definition helm_template (release : string) (work : path) (flags : list string) : P proc :=
  let* chart := gets (λ s, under s work) in
  let* _ := tell (Template release flags chart) in
  match helm release flags chart with
  | Some p => mret p
  | None => raise (Os FileNotFoundError)
  end.

Definition stamp (p : path) (pat rep : string) : P unit :=
  let* text := read_text p in write_text p (replace_str pat rep text).

Definition copy_chart (chart work : path) (version : string) : P unit :=
  let* _ := copytree chart work false in stamp (work ++ ["Chart.yaml"]) "CHART_VERSION" version.

(** The toolkit over what the chart has of it, where [merge] is set. *)
Definition add_toolkit (mk : path → bool → P unit) (work : path) (merge : bool) : P unit :=
  let* _ := mk (work ++ ["charts"]) true in
  copytree TOOLKIT (work ++ ["charts"; "helm-toolkit"]) merge.

Definition if_toolkit (m : P unit) : P unit :=
  let* b := is_dir TOOLKIT in if b : bool then m else mret ().

Definition load (text : string) : P (list val) :=
  match load_all text with inl docs => mret docs | inr _ => raise YamlError end.

Definition last_line (stderr : string) : option string := last (splitlines (strip stderr)).
Definition tail_of (n : nat) (stderr : string) : string :=
  match last_line stderr with Some l => take_str n l | None => "no stderr" end.
(** [stderr.strip().splitlines()[-1] if stderr else ...] *)
Definition last_or (stderr : string) : P string :=
  match DurableState.DurableState.error_line stderr with Ok l => mret l | Raise e => raise (Py e) end.

(** With [tempfile.TemporaryDirectory], the toolkit merged: where it is there, or without asking. *)
Definition stage_if (chart work : path) : P unit :=
  let* _ := copy_chart chart work GATE in if_toolkit (add_toolkit mkdir work true).
Definition stage_always (chart work : path) : P unit :=
  let* _ := copy_chart chart work GATE in add_toolkit mkdir work true.
(** With [tempfile.mkdtemp] and [finally], the toolkit not merged. *)
Definition stage_os (chart work : path) : P unit :=
  let* _ := copy_chart chart work GATE in if_toolkit (add_toolkit makedirs work false).

(** ** The gates *)

(** hack/validate-udp-services.py *)
Definition udp_helm (work : path) : P (option proc) :=
  try_ (let* p := helm_template "gate" work KUBE in mret (Some p))
    (λ x, match x with Os FileNotFoundError => mret None | _ => raise x end).
Definition udp_render (chart : path) : P (list val + string) :=
  let* out := in_tmp mkdtemp (λ tmp,
    let work := tmp ++ ["chart"] in
    let* _ := stage_if chart work in udp_helm work) in
  match out with
  | None => mret (inr "helm is not installed, so nothing could be rendered")
  | Some p =>
      if negb (returncode p =? 0)%Z then
        mret (inr ("helm template failed: " +:+ tail_of 200 (stderr p)))
      else let* docs := load (stdout p) in mret (Udp.Udp.render (inl docs))
  end.

(** The run of helm on a copy that [stage] makes. *)
Definition rendered (stage : path → P unit) (name release : string) (flags : list string) : P proc :=
  in_tmp mkdtemp (λ tmp,
    let work := tmp ++ [name] in
    let* _ := stage work in helm_template release work flags).

(** hack/validate-probe-not-uwsgi-stats.py *)
Definition uwsgi_stats_render (chart : path) : P (list val + string) :=
  let* p := rendered (stage_if chart) "chart" "gate" KUBE in
  if negb (returncode p =? 0)%Z then mret (inr (tail_of 200 (stderr p)))
  else let* docs := load (stdout p) in mret (UwsgiStats.UwsgiStats.render (inl docs)).

(** hack/validate-component-config-closure.py *)
Definition closure_render (name : string) : P (list val + string) :=
  let chart := chart_of name in
  let* there := is_file (chart ++ ["Chart.yaml"]) in
  if negb there then mret (inr ("no chart at blueprints/" +:+ name +:+ "/chart")) else
  let* p := rendered (stage_always chart) "chart" "gate" KUBE in
  if negb (returncode p =? 0)%Z then
    mret (inr ("helm template failed -- " +:+ tail_of 200 (stderr p)))
  else match load_all (stdout p) with
  | inr e => mret (inr ("rendered output does not parse as YAML -- " +:+ take_str 200 e))
  | inl docs => mret (ConfigClosure.ConfigClosure.render (inl docs))
  end.

(** hack/validate-node-label-preconditions.py *)
Definition labels_render (chart : path) (extra : list string) : P proc :=
  rendered (stage_always chart) "chart" "gate" (KUBE ++ extra).
Definition labels_render_docs (name : string) : P (list val + string) :=
  let chart := chart_of name in
  let* there := is_file (chart ++ ["Chart.yaml"]) in
  if negb there then mret (inr ("no chart at blueprints/" +:+ name +:+ "/chart")) else
  let* p := labels_render chart [] in
  if negb (returncode p =? 0)%Z then
    mret (inr ("helm template failed -- " +:+ tail_of 200 (stderr p)))
  else match load_all (stdout p) with
  | inr e => mret (inr ("rendered output does not parse as YAML -- " +:+ take_str 200 e))
  | inl docs =>
      mret (match List.filter truthy docs with [] => inr "rendered 0 objects" | ds => inl ds end)
  end.

(** hack/validate-shipped-python.py *)
Definition python_render (chart : path) : P string :=
  let* p := rendered (stage_if chart) "chart" "gate" KUBE in
  mret (if negb (returncode p =? 0)%Z then "" else stdout p).

(** hack/validate-readiness-deadlock.py *)
Definition deadlock_render (name : string) : P (list val + string) :=
  let chart := chart_of name in
  let* there := is_file (chart ++ ["Chart.yaml"]) in
  if negb there then mret (inr ("no chart at blueprints/" +:+ name +:+ "/chart")) else
  let* p := rendered (stage_if chart) "chart" name KUBE in
  if negb (returncode p =? 0)%Z then
    mret (inr ("helm template failed -- " +:+ tail_of 160 (stderr p)))
  else match load_all (stdout p) with
  | inr e => mret (inr ("rendered output does not parse -- " +:+ take_str 160 e))
  | inl docs =>
      mret (match List.filter is_dict docs with [] => inr "rendered 0 objects" | ds => inl ds end)
  end.

(** hack/validate-component-dag.py: the problems of a component's chart, and how many rendered. *)
Definition dag_render (n : string) : P (list problem * nat) :=
  let chart := chart_of n in
  let* there := is_file (chart ++ ["Chart.yaml"]) in
  if negb there then mret ([NoChart n], 0%nat) else
  if decide (n ∈ SKIP_RENDER) then mret ([], 0%nat) else
  let* p := rendered (stage_if chart) "chart" "gate" KUBE in
  mret (if negb (returncode p =? 0)%Z then ([RenderFailed n (stderr p)], 0%nat)
        else if String.eqb (strip (stdout p)) "" then ([RenderedNothing n], 0%nat)
        else ([], 1%nat)).

Fixpoint dag_renders (names : list string) (acc : list problem * nat) : P (list problem * nat) :=
  match names with
  | [] => mret acc
  | n :: rest => let* r := dag_render n in dag_renders rest (acc.1 ++ r.1, acc.2 + r.2)%nat
  end.

Definition lift {A} (r : res A) : P A :=
  match r with Ok a => mret a | Raise e => raise (Py e) end.

(** The whole gate, from the parsed umbrella on. *)
Definition dag_gate (fuel : nat) (umbrella : option val) : P outcome :=
  match umbrella with
  | None => mret NotMeasured
  | Some u =>
      let* comps := lift (read_components u) in
      if (size comps =? 0)%nat then mret NotMeasured else
      let* cyc := lift (find_cycles fuel comps) in
      let* r := dag_renders (sorted_names comps) ([], 0%nat) in
      match missing_deps comps ++ cyc ++ wrong_kinds comps ++ r.1 with
      | [] => mret (Passed (size comps) r.2)
      | ps => mret (Failed ps)
      end
  end.

(** hack/validate-config-file-refs.py and hack/validate-durable-state.py *)
Definition refs_render (chart : path) : P (list val + string) :=
  let* p := rendered (stage_os chart) "chart" "gate" [] in
  if negb (returncode p =? 0)%Z then let* e := last_or (stderr p) in mret (inr e)
  else let* docs := load (stdout p) in mret (inl docs).
Definition durable_render (chart : path) : P (list val + string) :=
  let* p := rendered (stage_os chart) "chart" "gate" ["--namespace"; "openstack"] in
  if negb (returncode p =? 0)%Z then let* e := last_or (stderr p) in mret (inr e)
  else let* docs := load (stdout p) in mret (inl (List.filter truthy docs)).

(** hack/validate-uwsgi-probe-traverses-worker.py and hack/validate-same-node-colocation.py *)
Definition worker_render (chart : path) : P (option (list val)) :=
  let* p := rendered (stage_os chart) "c" "gate" [] in
  if negb (returncode p =? 0)%Z then mret None
  else let* docs := load (stdout p) in mret (Some (List.filter is_dict docs)).
Definition colocation_render (chart : path) : P (option (list val)) :=
  let* p := rendered (stage_os chart) "c" "gate" [] in
  if negb (returncode p =? 0)%Z then mret None
  else let* docs := load (stdout p) in mret (Some (List.filter is_dict docs)).

(** hack/validate-capability-roles.py: the toolkit is looked for from the chart. *)
Definition roles_stage (chart work : path) : P unit :=
  let* _ := copy_chart chart work "0.0.0-validate" in if_toolkit (add_toolkit mkdir work false).
Definition roles_render : P string :=
  let chart := chart_of "openstack" in
  let* p := rendered (roles_stage chart) "chart" "validate" ["--set"; "chartVersion=0.0.0-validate"] in
  if negb (returncode p =? 0)%Z then raise (Py (SystemExit 1)) else mret (stdout p).

(** The probe gates of one chart end with [failed] where helm fails, and with status 2 where there
    is nothing to measure. *)
Definition probed (stage : path → path → P unit) (name : string) (failed : Z) : P string :=
  let* p := rendered (stage (chart_of name)) "chart" "gate" KUBE in
  if negb (returncode p =? 0)%Z then raise (Py (SystemExit failed)) else mret (stdout p).
Definition some_docs (docs : list val) : P (list val) :=
  match List.filter truthy docs with [] => raise (Py (SystemExit 2)) | ds => mret ds end.

Definition keystone_docs : P (list val) :=
  let* out := probed stage_if "keystone" 1 in let* docs := load out in some_docs docs.
Definition horizon_docs : P (list val) :=
  let* out := probed stage_if "horizon" 1 in let* docs := load out in some_docs docs.
Definition glance_docs : P (list val) :=
  let* out := probed stage_if "glance" 1 in let* docs := load out in some_docs docs.
Definition gnocchi_docs : P (list val) :=
  let* out := probed stage_if "gnocchi" 2 in let* docs := load out in some_docs docs.
Definition redis_docs : P (list val) :=
  let* out := probed stage_always "redis" 2 in
  match load_all out with
  | inr _ => raise (Py (SystemExit 2))
  | inl docs => some_docs docs
  end.

(** ** Renders with a probe

    A template of the gate's own beside the chart's. *)

Definition probe_path (work : path) : path := work ++ ["templates"; "zz-gate-probe.yaml"].

(** hack/validate-node-label-preconditions.py and hack/validate-origin-version-pin.py: the chart
    is copied once, and each probe is written and removed again. *)
Definition with_probe (work : path) (body : string) (flags : list string) : P proc :=
  let* _ := write_text (probe_path work) body in
  finally (helm_template "gate" work flags) (unlink (probe_path work)).
Definition labels_probe (work : path) (nodes : string) (extra : list string) : P proc :=
  with_probe work (replace_str "NODES" nodes NodeLabels.NodeLabels.PROBE) (KUBE ++ extra).
Definition origin_probe (work : path) (origin literal kind : string) (extra : list string) : P proc :=
  with_probe work (OriginPin.OriginPin.probe_body origin literal kind)
    (KUBE ++ ["--set"; "chartVersion=" +:+ OriginPin.OriginPin.CURRENT_CHART_VERSION] ++ extra).

(** hack/validate-provisioning-preconditions.py *)
Definition selection_stage (work : path) (probe : string) : P unit :=
  let* _ := copytree (chart_of "openstack") work false in
  let* _ := stamp (work ++ ["Chart.yaml"]) "CHART_VERSION" GATE in
  let* _ := stamp (work ++ ["values.yaml"]) "chartVersion: CHART_VERSION"
              ("chartVersion: " +:+ dquote +:+ GATE +:+ dquote) in
  let* _ := if_toolkit (add_toolkit makedirs work false) in
  write_text (work ++ ["templates"; "zz-selection-probe.yaml"]) probe.
Definition SELECTION_PROBE : string :=
  "#SELECTED {{ include " +:+ dquote +:+ "osh.selected" +:+ dquote +:+ " (list $) }}" +:+ newline.
Definition selection_for_profile (profile : string) : P (option (gset string)) :=
  let* p := rendered (λ work, selection_stage work SELECTION_PROBE) "chart" "gate"
              ["--set"; "profile=" +:+ profile] in
  mret (if negb (returncode p =? 0)%Z then None
        else Provisioning.Provisioning.selected_line (splitlines (stdout p))).

(** hack/validate-readiness-deadlock.py: [debug] is the partition statements with their output. *)
Definition partition_render (debug : string) : P proc :=
  let probe := "templates/zz-gate-partition.yaml" in
  rendered (λ work,
    let* _ := stage_if (chart_of "openstack") work in
    write_text (work ++ ["templates"; "zz-gate-partition.yaml"]) debug)
    "chart" "openstack" (KUBE ++ ["--show-only"; probe]).

(** hack/validate-origin-version-pin.py, the selections of a chart *)
Fixpoint each_selection (work : path) (names : list string) (out : list string) : P (list string) :=
  match names with
  | [] => mret out
  | name :: rest =>
      let* p := helm_template "gate" work (KUBE ++ ["--set"; name]) in
      if negb (returncode p =? 0)%Z then raise (Py (SystemExit 2))
      else each_selection work rest (out ++ [stdout p])
  end.
Definition origin_render_all (chart : path) : P (list string) :=
  in_tmp mkdtemp (λ tmp,
    let work := tmp ++ ["chart"] in
    let* _ := copy_chart chart work OriginPin.OriginPin.CURRENT_CHART_VERSION in
    each_selection work OriginPin.OriginPin.SELECTIONS []).

(** The chart beside a copy of it whose compositions.yaml is not pinned. *)
Definition unpinned_copy (copy : path) : P unit :=
  let compositions := copy ++ ["templates"; "compositions.yaml"] in
  let* _ := copytree (chart_of "openstack") copy false in
  let* before := read_text compositions in
  let* after := lift (OriginPin.OriginPin.unpin before) in
  if String.eqb after before then raise (Py (SystemExit 2)) else write_text compositions after.
Definition origin_differential : P (list string * list string) :=
  in_tmp mkdtemp (λ tmp,
    let counterfactual := tmp ++ ["chart"] in
    let* _ := unpinned_copy counterfactual in
    let* pinned := origin_render_all (chart_of "openstack") in
    let* unpinned := origin_render_all counterfactual in
    mret (pinned, unpinned)).

(** ** Charts made for the occasion *)

(** [shutil.copyfile] to a path that is no directory *)
Definition copyfile (src dst : path) : P unit := let* t := read_text src in write_text dst t.

(** hack/validate-values-schema.py *)
Definition schema_harness (chart_dir harness : path) : P unit :=
  let* _ := makedirs (harness ++ ["templates"]) false in
  let* _ := write_text (harness ++ ["Chart.yaml"])
    ("apiVersion: v2" +:+ newline +:+ "name: harness" +:+ newline +:+ "version: 0.0.1" +:+ newline) in
  let* _ := write_text (harness ++ ["templates"; "noop.yaml"]) ("# intentionally empty" +:+ newline) in
  let* _ := copyfile (chart_dir ++ ["values.yaml"]) (harness ++ ["values.yaml"]) in
  copyfile (chart_dir ++ ["values.schema.json"]) (harness ++ ["values.schema.json"]).
Definition schema_render (chart_dir : path) : P proc :=
  rendered (schema_harness chart_dir) "harness" "values-schema-conformance" [].

(** hack/validate-upgrade-does-not-prune.py: [probe] is its template, [safe_dump] PyYAML's. *)
Definition prune_probe_chart (safe_dump : val → string) (probe : string) (state : val) (chart : path)
  : P unit :=
  let* _ := makedirs (chart ++ ["templates"]) false in
  let* _ := copyfile (chart_of "openstack" ++ ["templates"; "_helpers.tpl"])
              (chart ++ ["templates"; "_helpers.tpl"]) in
  let* _ := write_text (chart ++ ["templates"; "probe.yaml"]) probe in
  let* _ := write_text (chart ++ ["Chart.yaml"]) (safe_dump (VDict
    [("apiVersion", VStr "v2"); ("name", VStr "probe"); ("version", VStr "0.0.0")])) in
  write_text (chart ++ ["values.yaml"]) (safe_dump (VDict
    [("chartVersion", VStr "0.3.33"); ("state", state);
     ("origins", VDict [("existing", VStr UpgradeNotPrune.UpgradeNotPrune.OLD);
        ("born_at_current", VStr UpgradeNotPrune.UpgradeNotPrune.CUR);
        ("unstamped", VStr ""); ("retired", VStr "v0-3-29")])])).

Fixpoint first_config_map (docs : list val) : res (val + string) :=
  match docs with
  | [] => Ok (inr "the probe rendered no ConfigMap")
  | d :: rest =>
      if negb (truthy d) then first_config_map rest else
      let* k := get d "kind" in
      if eq_str k "ConfigMap" then let* data := get d "data" in Ok (inl (or_ data (VDict [])))
      else first_config_map rest
  end.
Definition run_probe (safe_dump : val → string) (probe : string) (state : val) : P (val + string) :=
  let* p := rendered (prune_probe_chart safe_dump probe state) "probe" "p" [] in
  if negb (returncode p =? 0)%Z then
    mret (inr (match last_line (stderr p) with Some l => take_str 300 l | None => "" end))
  else let* docs := load (stdout p) in lift (first_config_map docs).
End Programs.
End Rendering.
