(* ===== verification/RenderingRuns.v ===== *)
(** * The renders of the gates: what helm is run on, and that the repository stays as it was *)
From S2P Require Import Prelude PyStr PyText PyVal Io Files Udp.
From S2P Require Import UwsgiStats ConfigClosure DurableState NodeLabels OriginPin Provisioning ComponentDag Rendering.
#[local] Open Scope string_scope.
#[local] Open Scope list_scope.

Module RenderingRuns.
Import ComponentDag.ComponentDag Rendering.Rendering.
Notation P := (F event).

(** ** The frame of each program *)

Create HintDb works.
#[export] Hint Resolve works_ret works_raise works_tell works_gets works_read works_write works_mkdir
  works_makedirs works_unlink works_copytree works_bind works_try works_finally works_tmp : works.

(** Programs are walked by their structure; every path they change extends the directory's. *)
Ltac below := unfold probe_path; repeat apply prefix_app_r; reflexivity.
Ltac works :=
  repeat first
    [ apply works_ret | apply works_raise | apply works_tell | apply works_gets | apply works_read
    | apply works_write; below | apply works_mkdir; below | apply works_makedirs; below
    | apply works_unlink; below | apply works_copytree; below
    | apply works_bind; [|intros ?] | apply works_try; [|intros ?] | apply works_finally
    | match goal with |- works_in _ (match ?x with _ => _ end) => destruct x end ].

Section Runs.
  Context (helm : string → list string → fs → option proc) (load_all : string → list val + string).
  Context (mkdtemp : fs → path) `{!Mkdtemp mkdtemp} (ROOT : path).

(** The state is as it was, whatever the outcome. *)
Definition kept {A} (m : P A) : Prop := ∀ s, wf s → (m s).2 = s.

Lemma kept_ret {A} (a : A) : kept (mret a).
Proof. done. Qed.
Lemma kept_raise {A} x : kept (@raise _ _ _ A x).
Proof. done. Qed.
Lemma kept_gets {A} (f : fs → A) : kept (gets f).
Proof. done. Qed.
Lemma kept_tmp {A} (body : path → P A) :
  (∀ tmp, works_in tmp (body tmp)) → kept (in_tmp mkdtemp body).
Proof. intros Hb s Hw. by apply in_tmp_restores. Qed.
Lemma kept_bind {A B} (m : P A) (f : A → P B) : kept m → (∀ a, kept (f a)) → kept (m ≫= f).
Proof.
  intros Hm Hf s Hw. unfold mbind, F_bind, Io_bind. specialize (Hm s Hw).
  destruct (m s) as [[[a|x] es] s1]; [|done]. simpl in Hm. subst s1. specialize (Hf a s Hw).
  by destruct (f a s) as [[o es'] s2].
Qed.

Lemma works_helm d release work flags : works_in d (helm_template helm release work flags).
Proof. unfold helm_template. works. Qed.
Lemma works_stamp d p pat rep : d `prefix_of` p → works_in d (stamp p pat rep).
Proof. intros Hp. unfold stamp. apply works_bind; [works|]. intros t. by apply works_write. Qed.
Lemma works_copy_chart tmp chart x version :
  works_in tmp (copy_chart chart (tmp ++ [x]) version).
Proof.
  unfold copy_chart. apply works_bind; [works|]. intros _. apply works_stamp. below.
Qed.
Lemma works_toolkit tmp mk x merge :
  mk = mkdir ∨ mk = makedirs → works_in tmp (add_toolkit ROOT mk (tmp ++ [x]) merge).
Proof. unfold add_toolkit. intros [->| ->]; works. Qed.
Lemma works_if tmp m : works_in tmp m → works_in tmp (if_toolkit ROOT m).
Proof. intros Hm. unfold if_toolkit, is_dir. apply works_bind; [works|]. by intros []; works. Qed.

Lemma works_stages tmp chart x :
  works_in tmp (stage_if ROOT chart (tmp ++ [x])) ∧
  works_in tmp (stage_always ROOT chart (tmp ++ [x])) ∧
  works_in tmp (stage_os ROOT chart (tmp ++ [x])) ∧
  works_in tmp (roles_stage ROOT chart (tmp ++ [x])).
Proof.
  split_and!; (apply works_bind; [apply works_copy_chart|intros _]);
    try apply works_if; apply works_toolkit; auto.
Qed.

Lemma kept_rendered stage x release flags :
  (∀ tmp, works_in tmp (stage (tmp ++ [x]))) → kept (rendered helm mkdtemp stage x release flags).
Proof.
  intros Hs. apply kept_tmp. intros tmp. apply works_bind; [done|]. intros _. apply works_helm.
Qed.

Ltac kept :=
  repeat first
    [ apply kept_ret | apply kept_raise | apply kept_gets
    | apply kept_rendered; intros ?; apply works_stages | apply kept_bind; [|intros ?]
    | match goal with |- kept (match ?x with _ => _ end) => destruct x end ].

Lemma kept_load text : kept (load load_all text).
Proof. unfold load. kept. Qed.
Lemma kept_last_or stderr : kept (last_or stderr).
Proof. unfold last_or. kept. Qed.
Lemma kept_docs docs : kept (some_docs docs).
Proof. unfold some_docs. kept. Qed.

Lemma works_selection tmp x probe : works_in tmp (selection_stage ROOT (tmp ++ [x]) probe).
Proof.
  unfold selection_stage. repeat (apply works_bind; [|intros _]); [works|..|works].
  - apply works_stamp. below.
  - apply works_stamp. below.
  - apply works_if, works_toolkit. auto.
Qed.

Lemma works_udp tmp chart : works_in tmp
  (let* _ := stage_if ROOT chart (tmp ++ ["chart"]) in udp_helm helm (tmp ++ ["chart"])).
Proof.
  apply works_bind; [apply works_stages|]. intros _. unfold udp_helm. apply works_try.
  - apply works_bind; [apply works_helm|]. intros p. works.
  - intros x. works.
Qed.

Lemma works_each work names out tmp : works_in tmp (each_selection helm work names out).
Proof.
  revert out. induction names as [|n names IH]; intros out; cbn [each_selection]; [works|].
  apply works_bind; [apply works_helm|]. intros p. case_match; [works|apply IH].
Qed.

Lemma works_differential tmp : works_in tmp
  (let* _ := unpinned_copy ROOT (tmp ++ ["chart"]) in
   let* pinned := origin_render_all helm mkdtemp (chart_of ROOT "openstack") in
   let* unpinned := origin_render_all helm mkdtemp (tmp ++ ["chart"]) in mret (pinned, unpinned)).
Proof.
  assert (∀ d chart, works_in d (origin_render_all helm mkdtemp chart)) as Hr.
  { intros d chart. apply works_tmp; [done|]. intros tmp'. apply works_bind; [apply works_copy_chart|].
    intros _. apply works_each. }
  apply works_bind; [|intros _; apply works_bind; [done|intros p]; apply works_bind; [done|]; works].
  unfold unpinned_copy, lift. apply works_bind; [works|intros _]. apply works_bind; [works|intros before].
  apply works_bind; [works|]. intros after. works.
Qed.

Lemma works_copyfile d src dst : d `prefix_of` dst → works_in d (copyfile src dst).
Proof. intros Hd. apply works_bind; [works|]. intros t. by apply works_write. Qed.

Lemma works_harness tmp chart x : works_in tmp (schema_harness chart (tmp ++ [x])).
Proof.
  unfold schema_harness.
  unfold copyfile. works.
Qed.

Lemma works_prune tmp x safe_dump probe state :
  works_in tmp (prune_probe_chart ROOT safe_dump probe state (tmp ++ [x])).
Proof.
  unfold prune_probe_chart.
  unfold copyfile. works.
Qed.

Lemma kept_gate fuel umbrella : kept (dag_gate helm mkdtemp ROOT fuel umbrella).
Proof.
  assert (∀ names acc, kept (dag_renders helm mkdtemp ROOT names acc)) as Hd.
  { induction names as [|n names IH]; intros acc; cbn [dag_renders]; [kept|].
    apply kept_bind; [unfold dag_render; kept|done]. }
  unfold dag_gate, lift. destruct umbrella as [u|]; [|kept].
  apply kept_bind; [kept|]. intros comps. destruct (size comps =? 0)%nat; [kept|].
  apply kept_bind; [kept|]. intros cyc. apply kept_bind; [done|]. intros r. kept.
Qed.

(** C35: rendering leaves no trace: every gate's render, however it ends (a chart that is missing or
    malformed, a helm that fails or is not installed, output that does not parse), leaves the file
    system as it found it. *)
Theorem repository_kept chart name profile debug extra safe_dump state fuel umbrella :
  kept (udp_render helm load_all mkdtemp ROOT chart) ∧
  kept (uwsgi_stats_render helm load_all mkdtemp ROOT chart) ∧
  kept (closure_render helm load_all mkdtemp ROOT name) ∧
  kept (labels_render helm mkdtemp ROOT chart extra) ∧
  kept (labels_render_docs helm load_all mkdtemp ROOT name) ∧
  kept (python_render helm mkdtemp ROOT chart) ∧
  kept (deadlock_render helm load_all mkdtemp ROOT name) ∧
  kept (partition_render helm mkdtemp ROOT debug) ∧
  kept (dag_render helm mkdtemp ROOT name) ∧
  kept (refs_render helm load_all mkdtemp ROOT chart) ∧
  kept (durable_render helm load_all mkdtemp ROOT chart) ∧
  kept (worker_render helm load_all mkdtemp ROOT chart) ∧
  kept (colocation_render helm load_all mkdtemp ROOT chart) ∧
  kept (roles_render helm mkdtemp ROOT) ∧
  kept (keystone_docs helm load_all mkdtemp ROOT) ∧
  kept (horizon_docs helm load_all mkdtemp ROOT) ∧
  kept (glance_docs helm load_all mkdtemp ROOT) ∧
  kept (gnocchi_docs helm load_all mkdtemp ROOT) ∧
  kept (redis_docs helm load_all mkdtemp ROOT) ∧
  kept (selection_for_profile helm mkdtemp ROOT profile) ∧
  kept (origin_render_all helm mkdtemp chart) ∧
  kept (origin_differential helm mkdtemp ROOT) ∧
  kept (schema_render helm mkdtemp chart) ∧
  kept (run_probe helm load_all mkdtemp ROOT safe_dump debug state) ∧
  kept (dag_gate helm mkdtemp ROOT fuel umbrella).
Proof.
  pose proof kept_load. pose proof kept_last_or. pose proof kept_docs.
  assert (∀ stage name failed, stage = stage_if ROOT ∨ stage = stage_always ROOT →
    kept (probed helm mkdtemp ROOT stage name failed)) as Hprobed.
  { unfold probed. intros stage nm failed [->| ->]; kept. }
  split_and!.
  - apply kept_bind; [apply kept_tmp; intros tmp; apply works_udp|]. intros o. by kept.
  - unfold uwsgi_stats_render. by kept.
  - unfold closure_render. kept.
  - unfold labels_render. kept.
  - unfold labels_render_docs, labels_render. kept.
  - unfold python_render. kept.
  - unfold deadlock_render. kept.
  - apply kept_rendered. intros tmp. apply works_bind; [apply works_stages|]. intros _. works.
  - unfold dag_render. kept.
  - unfold refs_render. by kept.
  - unfold durable_render. by kept.
  - unfold worker_render. by kept.
  - unfold colocation_render. by kept.
  - unfold roles_render. kept.
  - unfold keystone_docs. kept; auto.
  - unfold horizon_docs. kept; auto.
  - unfold glance_docs. kept; auto.
  - unfold gnocchi_docs. kept; auto.
  - unfold redis_docs. kept; auto.
  - unfold selection_for_profile. apply kept_bind; [|by kept].
    apply kept_rendered. intros tmp. apply works_selection.
  - apply kept_tmp. intros tmp. apply works_bind; [apply works_copy_chart|]. intros _. apply works_each.
  - apply kept_tmp. intros tmp. apply works_differential.
  - apply kept_rendered. intros tmp. apply works_harness.
  - apply kept_bind; [apply kept_rendered; intros tmp; apply works_prune|]. intros p. unfold lift.
    by kept.
  - apply kept_gate.
Qed.

(** ** What a gate judges *)

Lemma bind_outcome {A B} (m : P A) (f : A → P B) s b :
  ((m ≫= f) s).1.1 = Ret b →
  ∃ a s1, (m s).1.1 = Ret a ∧ (f a s1).1.1 = Ret b ∧ (m s).1.2 ⊆ ((m ≫= f) s).1.2 ∧
    (f a s1).1.2 ⊆ ((m ≫= f) s).1.2.
Proof.
  unfold mbind, F_bind, Io_bind. destruct (m s) as [[[a|x] es] s1]; [|done]. intros H. exists a, s1.
  destruct (f a s1) as [[o es'] s2]. simpl in *. split_and!; try done; set_solver.
Qed.

(** A helm ran on a tree of the program's, and answered [p]. *)
Definition ran (release : string) (flags : list string) (es : list event) (p : proc) : Prop :=
  ∃ tree, Template release flags tree ∈ es ∧ helm release flags tree = Some p.

(** The documents are all of a kind that a helm printed that succeeded. *)
Definition from_helm (release : string) (flags : list string) (keep : val → bool)
  (es : list event) (docs : list val) : Prop :=
  ∃ p all, ran release flags es p ∧ returncode p = 0%Z ∧ load_all (stdout p) = inl all ∧
    docs = List.filter keep all.

(** The documents of a result are from helm; and where they are [measured], there are some. *)
Definition judged {A} (some : Prop) (docs_of : A → option (list val)) (m : P A) release flags keep : Prop :=
  ∀ s a docs, (m s).1.1 = Ret a → docs_of a = Some docs →
    (some → docs ≠ []) ∧ from_helm release flags keep (m s).1.2 docs.
Definition measured {A} (docs_of : A → option (list val)) (m : P A) release flags keep : Prop :=
  judged True docs_of m release flags keep.
Definition printed_docs {A} (docs_of : A → option (list val)) (m : P A) release flags keep : Prop :=
  judged False docs_of m release flags keep.

Definition docs_or_error (r : list val + string) : option (list val) :=
  match r with inl docs => Some docs | inr _ => None end.

Lemma helm_printed release work flags s p :
  (helm_template helm release work flags s).1.1 = Ret p →
  ran release flags (helm_template helm release work flags s).1.2 p.
Proof.
  unfold helm_template, mbind, F_bind, Io_bind. simpl. destruct (helm _ _ _) as [p'|] eqn:Eh; [|done].
  intros [= ->]. eexists. split; [|done]. set_solver.
Qed.

Lemma rendered_printed stage x release flags s p :
  (rendered helm mkdtemp stage x release flags s).1.1 = Ret p →
  ran release flags (rendered helm mkdtemp stage x release flags s).1.2 p.
Proof.
  unfold rendered, in_tmp. set (m := let* _ := stage _ in helm_template helm release _ flags).
  intros H. assert ((m (<[mkdtemp s := Dir]> s)).1.1 = Ret p) as Hm by by destruct (m _) as [[o es] s'].
  apply bind_outcome in Hm as (u & s1 & _ & Hh & _ & Hes).
  apply helm_printed in Hh as (tree & Hin & Hp). exists tree. split; [|done].
  destruct (m _) as [[o es] s'] eqn:Em. simpl. apply Hes in Hin. unfold m in Em. by rewrite Em in Hin.
Qed.

Lemma ran_mono release flags es es' p : ran release flags es p → es ⊆ es' → ran release flags es' p.
Proof. intros (tree & Hin & Hp) Hes. exists tree. split; [by apply Hes|done]. Qed.

Lemma judged_after {A B} some docs_of (m : P B) (f : B → P A) release flags keep :
  (∀ b, judged some docs_of (f b) release flags keep) → judged some docs_of (m ≫= f) release flags keep.
Proof.
  intros Hf s a docs Ha Hd. apply bind_outcome in Ha as (b & s1 & _ & Hb & _ & Hes).
  destruct (Hf b s1 a docs Hb Hd) as (Hne & p & all & Hr & Hp). split; [done|].
  exists p, all. split; [by eapply ran_mono|done].
Qed.

(** A program that judges what [rendered] gives it. *)
Lemma judged_rendered {A} some docs_of stage x release flags keep (k : proc → P A) :
  (∀ p s a docs, (k p s).1.1 = Ret a → docs_of a = Some docs → (some → docs ≠ []) ∧ returncode p = 0%Z ∧
     ∃ all, load_all (stdout p) = inl all ∧ docs = List.filter keep all) →
  judged some docs_of (rendered helm mkdtemp stage x release flags ≫= k) release flags keep.
Proof.
  intros Hk s a docs Ha Hd. apply bind_outcome in Ha as (p & s1 & Hp & Hb & Hes & _).
  destruct (Hk p s1 a docs Hb Hd) as (Hne & H0 & all & Hl & Hf). split; [done|].
  apply rendered_printed in Hp. exists p, all. split; [by eapply ran_mono|done].
Qed.

Lemma some_of_filter keep all docs :
  docs_or_error (match List.filter keep all with [] => inr "rendered 0 objects" | ds => inl ds end)
    = Some docs → docs ≠ [] ∧ docs = List.filter keep all.
Proof. by destruct (List.filter keep all); [|intros [= <-]]. Qed.

Lemma probed_printed stage name failed s out :
  (probed helm mkdtemp ROOT stage name failed s).1.1 = Ret out →
  ∃ p, ran "gate" KUBE (probed helm mkdtemp ROOT stage name failed s).1.2 p ∧
    returncode p = 0%Z ∧ stdout p = out.
Proof.
  intros H. unfold probed in *. pose proof H as Ho.
  apply bind_outcome in H as (p & s1 & Hp & Hb & Hes & _).
  apply rendered_printed in Hp. exists p.
  destruct (Z.eqb_spec (returncode p) 0); [|done]. injection Hb as Hb.
  split; [by eapply ran_mono|done].
Qed.

Lemma measured_probed stage name failed (k : string → P (list val)) :
  (∀ out s docs, (k out s).1.1 = Ret docs → ∃ all, load_all out = inl all ∧
     docs ≠ [] ∧ docs = List.filter truthy all) →
  measured Some (probed helm mkdtemp ROOT stage name failed ≫= k) "gate" KUBE truthy.
Proof.
  intros Hk s a docs Ha [= ->]. apply bind_outcome in Ha as (out & s1 & Hp & Hb & Hes & _).
  apply Hk in Hb as (all & Hl & Hne & Hf).
  apply probed_printed in Hp as (p & Hp & H0 & <-). split; [done|].
  exists p, all. split; [by eapply ran_mono|done].
Qed.

Lemma some_docs_ret docs all s : (some_docs all s).1.1 = Ret docs →
  docs ≠ [] ∧ docs = List.filter truthy all.
Proof. unfold some_docs. by destruct (List.filter truthy all); [|intros [= <-]]. Qed.

Lemma load_some out s docs : ((load load_all out ≫= some_docs) s).1.1 = Ret docs →
  ∃ all, load_all out = inl all ∧ docs ≠ [] ∧ docs = List.filter truthy all.
Proof.
  intros (all & s1 & Hl & Hd & _)%bind_outcome. apply some_docs_ret in Hd.
  unfold load in Hl. destruct (load_all out) as [l|]; [|done]. injection Hl as ->. by exists all.
Qed.

(** Documents that are parsed with an error caught, or not, and filtered. *)
Lemma measured_caught stage release flags keep (msg : proc → string) (bad : string → string) :
  measured docs_or_error (let* p := rendered helm mkdtemp stage "chart" release flags in
    if negb (returncode p =? 0)%Z then mret (inr (msg p))
    else match load_all (stdout p) with
         | inr e => mret (inr (bad e))
         | inl docs => mret (match List.filter keep docs with
                             | [] => inr "rendered 0 objects" | ds => inl ds end)
         end) release flags keep.
Proof.
  apply judged_rendered. intros p s a docs Ha Hd.
  destruct (Z.eqb_spec (returncode p) 0); [|by injection Ha as <-]. simpl in Ha.
  destruct (load_all (stdout p)) as [all|]; [|by injection Ha as <-]. injection Ha as <-.
  apply some_of_filter in Hd as [Hne Hf]. split_and!; try done. by exists all.
Qed.

Lemma load_filtered keep p msg s a docs :
  ((if negb (returncode p =? 0)%Z then mret (inr msg)
    else let* docs := load load_all (stdout p) in
         mret (match List.filter keep docs with [] => inr "rendered 0 objects" | ds => inl ds end)) s).1.1
    = Ret a → docs_or_error a = Some docs →
  docs ≠ [] ∧ returncode p = 0%Z ∧ ∃ all, load_all (stdout p) = inl all ∧ docs = List.filter keep all.
Proof.
  intros Ha Hd. destruct (Z.eqb_spec (returncode p) 0); [|by injection Ha as <-].
  apply bind_outcome in Ha as (all & s1 & Hl & Hb & _). injection Hb as <-. unfold load in Hl.
  destruct (load_all (stdout p)) as [l|]; [|done]. injection Hl as ->.
  apply some_of_filter in Hd as [Hne Hf]. split_and!; try done. by exists all.
Qed.

Lemma measured_there name (k : P (list val + string)) release keep :
  measured docs_or_error k release KUBE keep →
  measured docs_or_error (let* there := is_file (chart_of ROOT name ++ ["Chart.yaml"]) in
    if negb there then mret (inr ("no chart at blueprints/" +:+ name +:+ "/chart")) else k)
    release KUBE keep.
Proof.
  intros Hk. apply judged_after. intros [] s a docs Ha Hd; cbn [negb] in *.
  - by apply (Hk s a docs).
  - by injection Ha as <-.
Qed.

Lemma udp_printed chart s p :
  (in_tmp mkdtemp (λ tmp, let* _ := stage_if ROOT chart (tmp ++ ["chart"]) in
      udp_helm helm (tmp ++ ["chart"])) s).1.1 = Ret (Some p) →
  ran "gate" KUBE (in_tmp mkdtemp (λ tmp,
      let* _ := stage_if ROOT chart (tmp ++ ["chart"]) in udp_helm helm (tmp ++ ["chart"])) s).1.2 p.
Proof.
  unfold in_tmp. set (m := let* _ := stage_if ROOT chart _ in udp_helm helm _).
  intros H. assert ((m (<[mkdtemp s := Dir]> s)).1.1 = Ret (Some p)) as Hm
    by by destruct (m _) as [[o es] s'].
  apply bind_outcome in Hm as (u & s1 & _ & Hh & _ & Hes). fold m in Hes.
  destruct (m _) as [[o es] s']. simpl in *.
  unfold udp_helm, try_, helm_template, mbind, F_bind, Io_bind in Hh, Hes. simpl in Hh, Hes.
  destruct (helm "gate" KUBE _) as [p'|] eqn:Eh; simpl in Hh, Hes; [|done]. injection Hh as ->.
  eexists. split; [|done]. apply Hes. set_solver.
Qed.

(** A text that helm printed with status 0. *)
Lemma rendered_text {A} stage x release flags (k : proc → P A) s a :
  ((rendered helm mkdtemp stage x release flags ≫= k) s).1.1 = Ret a →
  ∃ p s1, ran release flags ((rendered helm mkdtemp stage x release flags ≫= k) s).1.2 p ∧
    (k p s1).1.1 = Ret a.
Proof.
  intros (p & s1 & Hp%rendered_printed & Hb & Hes & _)%bind_outcome. exists p, s1.
  split; [by eapply ran_mono|done].
Qed.

Lemma load_kept (pick : list val → list val) p m s a docs :
  ((if negb (returncode p =? 0)%Z then let* e := m in mret (inr e)
    else let* docs := load load_all (stdout p) in mret (inl (pick docs))) s).1.1
    = Ret a → docs_or_error a = Some docs →
  (False → docs ≠ []) ∧ returncode p = 0%Z ∧
  ∃ all, load_all (stdout p) = inl all ∧ docs = pick all.
Proof.
  intros Ha Hd. destruct (Z.eqb_spec (returncode p) 0).
  - apply bind_outcome in Ha as (all & s1 & Hl & Hb & _). injection Hb as <-. injection Hd as <-.
    unfold load in Hl. destruct (load_all (stdout p)) as [l|]; [|done]. injection Hl as ->.
    split_and!; try done. by exists all.
  - apply bind_outcome in Ha as (e & s1 & _ & Hb & _). by injection Hb as <-.
Qed.

Lemma load_option p s a docs :
  ((if negb (returncode p =? 0)%Z then mret None
    else let* docs := load load_all (stdout p) in mret (Some (List.filter is_dict docs))) s).1.1
    = Ret a → a = Some docs →
  (False → docs ≠ []) ∧ returncode p = 0%Z ∧
  ∃ all, load_all (stdout p) = inl all ∧ docs = List.filter is_dict all.
Proof.
  intros Ha ->. destruct (Z.eqb_spec (returncode p) 0); [|done].
  apply bind_outcome in Ha as (all & s1 & Hl & Hb & _). injection Hb as <-.
  unfold load in Hl. destruct (load_all (stdout p)) as [l|]; [|done]. injection Hl as ->.
  split_and!; try done. by exists all.
Qed.

(** C36: what the gates judge was rendered. Whenever the programs of the UDP, uWSGI stats, config
    closure, node label and deadlock gates, and of the keystone, horizon, glance, gnocchi and
    redis gates, return documents, there are some, and they are those of their kind in what helm
    printed with status 0 for a tree that the program gave it. Those of the config reference,
    durable state, worker and colocation gates are printed with status 0 too, and may be none. The
    component gate counts a chart as rendered only where helm printed a text that is not blank
    with status 0, and the roles gate takes only such a status; the shipped Python gate takes the
    text of a helm that failed to be empty. *)
Theorem docs_measured chart name :
  measured docs_or_error (udp_render helm load_all mkdtemp ROOT chart) "gate" KUBE is_dict ∧
  measured docs_or_error (uwsgi_stats_render helm load_all mkdtemp ROOT chart) "gate" KUBE is_dict ∧
  measured docs_or_error (closure_render helm load_all mkdtemp ROOT name) "gate" KUBE truthy ∧
  measured docs_or_error (labels_render_docs helm load_all mkdtemp ROOT name) "gate" KUBE truthy ∧
  measured docs_or_error (deadlock_render helm load_all mkdtemp ROOT name) name KUBE is_dict ∧
  measured Some (keystone_docs helm load_all mkdtemp ROOT) "gate" KUBE truthy ∧
  measured Some (horizon_docs helm load_all mkdtemp ROOT) "gate" KUBE truthy ∧
  measured Some (glance_docs helm load_all mkdtemp ROOT) "gate" KUBE truthy ∧
  measured Some (gnocchi_docs helm load_all mkdtemp ROOT) "gate" KUBE truthy ∧
  measured Some (redis_docs helm load_all mkdtemp ROOT) "gate" KUBE truthy ∧
  printed_docs docs_or_error (refs_render helm load_all mkdtemp ROOT chart) "gate" [] (λ _, true) ∧
  printed_docs docs_or_error (durable_render helm load_all mkdtemp ROOT chart) "gate"
    ["--namespace"; "openstack"] truthy ∧
  printed_docs id (worker_render helm load_all mkdtemp ROOT chart) "gate" [] is_dict ∧
  printed_docs id (colocation_render helm load_all mkdtemp ROOT chart) "gate" [] is_dict ∧
  (∀ s, (dag_render helm mkdtemp ROOT name s).1.1 = Ret ([], 1%nat) →
     ∃ p, ran "gate" KUBE (dag_render helm mkdtemp ROOT name s).1.2 p ∧ returncode p = 0%Z ∧
       strip (stdout p) ≠ "") ∧
  (∀ s text, (roles_render helm mkdtemp ROOT s).1.1 = Ret text →
     ∃ p, ran "validate" ["--set"; "chartVersion=0.0.0-validate"] (roles_render helm mkdtemp ROOT s).1.2 p ∧
       returncode p = 0%Z ∧ text = stdout p) ∧
  (∀ s text, (python_render helm mkdtemp ROOT chart s).1.1 = Ret text →
     ∃ p, ran "gate" KUBE (python_render helm mkdtemp ROOT chart s).1.2 p ∧
       text = if (returncode p =? 0)%Z then stdout p else "").
Proof.
  pose proof load_some as Hload.
  split_and!.
  - intros s a docs Ha Hd. apply bind_outcome in Ha as (o & s1 & Hp & Hb & Hes & _).
    destruct o as [p|]; [|by injection Hb as <-].
    apply (load_filtered is_dict p _ s1 a docs) in Hb as (Hne & H0 & all & Hl & Hf); [|done].
    apply udp_printed in Hp. split; [done|]. exists p, all. split; [by eapply ran_mono|done].
  - apply judged_rendered. intros p s a docs Ha Hd.
    destruct (load_filtered is_dict p (tail_of 200 (stderr p)) s a docs Ha Hd). by split.
  - apply measured_there, measured_caught.
  - apply measured_there, measured_caught.
  - apply measured_there, measured_caught.
  - apply measured_probed, Hload.
  - apply measured_probed, Hload.
  - apply measured_probed, Hload.
  - apply measured_probed, Hload.
  - apply measured_probed. intros out s docs Ha. destruct (load_all out) as [all|]; [|done].
    apply some_docs_ret in Ha. by exists all.
  - apply judged_rendered. intros p s a docs Ha Hd.
    destruct (load_kept id p _ s a docs Ha Hd) as (Hne & H0 & all & Hl & ->). split_and!; [done..|].
    exists all. split; [done|]. unfold id. clear. induction all; simpl; congruence.
  - apply judged_rendered. intros p s a docs. apply (load_kept (List.filter truthy)).
  - apply judged_rendered. intros p s a docs. apply load_option.
  - apply judged_rendered. intros p s a docs. apply load_option.
  - intros s (there & s1 & _ & Hb & _ & Hes)%bind_outcome. destruct there; [|done].
    match type of Hes with ?l ⊆ _ => change (l ⊆ (dag_render helm mkdtemp ROOT name s).1.2) in Hes end.
    cbn [negb] in Hb, Hes. destruct (decide _); [done|]. apply rendered_text in Hb as (p & s2 & Hr & Hb). exists p.
    split; [by eapply ran_mono; [exact Hr|exact Hes]|]. injection Hb as Hb.
    destruct (Z.eqb_spec (returncode p) 0); [|done]. cbn [negb] in Hb.
    by destruct (String.eqb_spec (strip (stdout p)) "").
  - intros s text (p & s2 & Hr & Hb)%rendered_text. exists p. split; [done|].
    destruct (Z.eqb_spec (returncode p) 0); [|done]. by injection Hb as <-.
  - intros s text (p & s2 & Hr & Hb)%rendered_text. exists p. split; [done|].
    injection Hb as <-. by destruct (returncode p =? 0)%Z.
Qed.

(** ** What helm is run on *)

(** The chart with its version stamped, and with the toolkit over its charts. *)
Definition stamp_at (p : path) (pat rep : string) (chart : fs) : fs :=
  match chart !! p with
  | Some (File t) => <[p := File (replace_str pat rep t)]> chart
  | _ => chart
  end.
Definition stamped (version : string) : fs → fs := stamp_at ["Chart.yaml"] "CHART_VERSION" version.
Definition with_toolkit (tk chart : fs) : fs :=
  overlay tk ["charts"; "helm-toolkit"] (<[["charts"] := Dir]> chart).

(** A chart that the programs can copy, and a toolkit that fits into it: what the chart has of it
    already is of the same kind, and is nothing where it would not be merged. *)
Record chart_ok (s : fs) (chart : path) : Prop := {
  ok_in : ROOT `prefix_of` chart;
  ok_dir : s !! chart = Some Dir;
  ok_meta : ∃ t, s !! (chart ++ ["Chart.yaml"]) = Some (File t);
}.
Record toolkit_fits (merge : bool) (tk chart : fs) : Prop := {
  fit_charts : is_file_node (chart !! ["charts"]) = false;
  fit_plain : plain tk (under chart ["charts"; "helm-toolkit"]);
  fit_merge : merge = true ∨ chart !! ["charts"; "helm-toolkit"] = None;
}.

(** Temporary directories are not made in the repository. *)
Context (outside : ∀ s, wf s → s !! ROOT ≠ None → ¬ ROOT `prefix_of` mkdtemp s).

Lemma away_repo s d : wf s → ROOT `prefix_of` d → s !! d ≠ None → away (mkdtemp s) d.
Proof.
  intros Hw Hr Hd. split.
  - intros [p ->]. apply Hd, wf_none; [done|by apply mkdtemp_new].
  - intros H. apply (outside s Hw); [|by etrans]. intros Hn. destruct Hr as [p ->].
    by apply Hd, wf_none.
Qed.

Lemma works_run {A} s tmp (m : P A) s1 o es s2 :
  works_in tmp m → inside s tmp s1 → m s1 = (o, es, s2) → inside s tmp s2.
Proof. intros Hm Hi Hr. destruct (Hm s s1 Hi) as [H _]. by rewrite Hr in H. Qed.

Lemma inside_prefix s tmp s' x p q : inside s tmp s' → s' !! (tmp ++ [x]) = Some Dir →
  q `prefix_of` parent ((tmp ++ [x]) ++ p) → p ≠ [] → 
  (∀ r, r `prefix_of` parent p → s' !! ((tmp ++ [x]) ++ r) = Some Dir) → s' !! q = Some Dir.
Proof.
  intros Hi Hx Hq Hp Hr. unfold parent in Hq. rewrite removelast_app in Hq by done.
  destruct (prefix_weak_total (tmp ++ [x]) q ((tmp ++ [x]) ++ removelast p)) as [[r ->]|H];
    [by apply prefix_app_r|done|..].
  - apply Hr. by apply prefix_app_inv in Hq.
  - destruct (decide (q = tmp ++ [x])) as [->|Hne]; [done|]. apply Hi. destruct H as [r Hr'].
    destruct r as [|y r _] using rev_ind; [by rewrite app_nil_r in Hr'|].
    rewrite app_assoc in Hr'. apply app_inj_tail in Hr' as [-> _]. by exists r.
Qed.

Lemma copy_run s chart x s1 :
  wf s → chart_ok s chart → inside s (mkdtemp s) s1 → under s1 (mkdtemp s ++ [x]) = ∅ →
  ∃ s2, @copytree event chart (mkdtemp s ++ [x]) false s1 = (Ret (), [], s2) ∧
    inside s (mkdtemp s) s2 ∧ under s2 (mkdtemp s ++ [x]) = under s chart.
Proof.
  intros Hw [Hr Hd _] Hi He. set (tmp := mkdtemp s) in *.
  destruct (away_under s tmp s1 chart Hi) as [Hu Hl]; [apply away_repo; [done..|congruence]|].
  assert (s1 !! (tmp ++ [x]) = None) as Hnone.
  { rewrite <-(app_nil_r (tmp ++ [x])), <-lookup_under, He. done. }
  assert (@copytree event chart (tmp ++ [x]) false s1 =
    (Ret (), [], overlay (under s1 chart) (tmp ++ [x]) s1)) as Hc.
  { apply copytree_run; [congruence| |by left|by rewrite He].
    intros q Hq. rewrite parent_snoc in Hq. by apply Hi. }
  eexists. split_and!; [exact Hc| |].
  - apply (works_run s tmp _ s1 _ _ _ (works_copytree tmp chart (tmp ++ [x]) false ltac:(below)) Hi Hc).
  - apply map_eq. intros p. by rewrite lookup_under, lookup_overlay_in, He, Hu, map_union_empty.
Qed.

(** A file of the copy is stamped. *)
Lemma stamp_run s x e s2 p pat rep t :
  inside s (mkdtemp s) s2 → under s2 (mkdtemp s ++ [x]) = e → e !! p = Some (File t) →
  ∃ s3, stamp ((mkdtemp s ++ [x]) ++ p) pat rep s2 = (Ret (), [], s3) ∧
    inside s (mkdtemp s) s3 ∧ under s3 (mkdtemp s ++ [x]) = stamp_at p pat rep e.
Proof.
  intros Hi He Hp. assert (s2 !! ((mkdtemp s ++ [x]) ++ p) = Some (File t)) as Hy
    by by rewrite <-lookup_under, He.
  eexists. split_and!.
  - unfold stamp. etrans; [apply run_bind_pure; by apply read_run|]. by eapply write_run.
  - apply (inside_write s (mkdtemp s) s2 _ t); [done|below|done].
  - by rewrite under_insert, He; unfold stamp_at; rewrite Hp.
Qed.

Lemma copy_chart_run s chart x version s1 :
  wf s → chart_ok s chart → inside s (mkdtemp s) s1 → under s1 (mkdtemp s ++ [x]) = ∅ →
  ∃ s2, copy_chart chart (mkdtemp s ++ [x]) version s1 = (Ret (), [], s2) ∧
    inside s (mkdtemp s) s2 ∧ under s2 (mkdtemp s ++ [x]) = stamped version (under s chart).
Proof.
  intros Hw Hc Hi He. destruct (copy_run s chart x s1 Hw Hc Hi He) as (s2 & R2 & H2 & Hu2).
  destruct (ok_meta _ _ Hc) as [t Ht].
  destruct (stamp_run s x _ s2 ["Chart.yaml"] "CHART_VERSION" version t H2 Hu2) as (s3 & R3 & H3 & Hu3);
    [by rewrite lookup_under|].
  exists s3. split; [|done]. unfold copy_chart. by etrans; [apply (run_bind_pure _ _ _ _ _ R2)|].
Qed.

Definition HELM_TOOLKIT : path := ["charts"; "helm-toolkit"].

(** The directory for it is made, or is there. *)
Lemma charts_run s mk x s2 e :
  wf s → s !! TOOLKIT ROOT = Some Dir → inside s (mkdtemp s) s2 →
  under s2 (mkdtemp s ++ [x]) = e → e !! [] = Some Dir → is_file_node (e !! ["charts"]) = false →
  mk = mkdir ∨ mk = makedirs →
  ∃ s3, mk ((mkdtemp s ++ [x]) ++ ["charts"]) true s2 = (Ret (), @nil event, s3) ∧
    under s3 (mkdtemp s ++ [x]) = <[["charts"] := Dir]> e ∧
    under s3 (TOOLKIT ROOT) = under s (TOOLKIT ROOT) ∧ s3 !! TOOLKIT ROOT = Some Dir ∧
    (∀ q, q `prefix_of` parent ((mkdtemp s ++ [x]) ++ HELM_TOOLKIT) → s3 !! q = Some Dir).
Proof.
  intros Hw Ht Hi He Hroot Hf Hmk. set (tmp := mkdtemp s) in *. set (work := tmp ++ [x]) in *.
  assert (∀ p, s2 !! (work ++ p) = e !! p) as Hl by (intros p; by rewrite <-He, lookup_under).
  assert (s2 !! work = Some Dir) as Hwork by (by rewrite <-(app_nil_r work), Hl).
  assert (∀ q, q `prefix_of` work → s2 !! q = Some Dir) as Hq.
  { intros q Hq. apply (inside_prefix s tmp s2 x ["charts"]); try done.
    - by rewrite parent_snoc.
    - intros r ->%prefix_nil_inv. by rewrite app_nil_r. }
  set (s3 := <[work ++ ["charts"] := Dir]> s2).
  assert (mk (work ++ ["charts"]) true s2 = (Ret (), [], s3)) as Hmkr.
  { assert (@mkdir event (work ++ ["charts"]) true s2 = (Ret (), [], s3)) as Hmd.
    { apply mkdir_run; [by rewrite parent_snoc|]. rewrite Hl.
      destruct (e !! ["charts"]) as [[|u]|]; [by right|done|by left]. }
    destruct Hmk as [->| ->]; [done|]. rewrite makedirs_run; [done|].
    intros q Hqq. rewrite parent_snoc in Hqq. by apply Hq. }
  assert (inside s tmp s3) as Hi3.
  { apply (works_run s tmp (mk (work ++ ["charts"]) true) s2 (Ret ()) []); [|done..].
    destruct Hmk as [->| ->]; [apply works_mkdir|apply works_makedirs]; below. }
  destruct (away_under s tmp s3 (TOOLKIT ROOT) Hi3) as [Hut Hlt].
  { apply away_repo; [done| |congruence]. by exists HELM_TOOLKIT. }
  assert (under s3 work = <[["charts"] := Dir]> e) as Hu3 by (unfold s3; by rewrite under_insert, He).
  exists s3. split_and!; [done..|congruence|].
  intros q Hqq. apply (inside_prefix s tmp s3 x HELM_TOOLKIT); try done.
  - fold work. rewrite <-(app_nil_r work), <-lookup_under, Hu3. by rewrite lookup_insert_ne.
  - intros r Hr. fold work. rewrite <-lookup_under, Hu3.
    destruct (decide (r = ["charts"])) as [->|Hne]; [by rewrite lookup_insert_eq|].
    rewrite lookup_insert_ne by done. destruct r as [|y r]; [done|]. exfalso. apply Hne.
    destruct Hr as [r' Hr]. simpl in Hr. injection Hr as -> Hr.
    symmetry in Hr. by apply app_nil in Hr as [-> _].
Qed.

(** The toolkit goes over what is in the copy. *)
Lemma add_toolkit_run s mk x merge s2 e :
  wf s → s !! TOOLKIT ROOT = Some Dir → inside s (mkdtemp s) s2 →
  under s2 (mkdtemp s ++ [x]) = e → e !! [] = Some Dir →
  toolkit_fits merge (under s (TOOLKIT ROOT)) e → mk = mkdir ∨ mk = makedirs →
  ∃ s3, add_toolkit ROOT mk (mkdtemp s ++ [x]) merge s2 = (Ret (), [], s3) ∧
    under s3 (mkdtemp s ++ [x]) = with_toolkit (under s (TOOLKIT ROOT)) e.
Proof.
  intros Hw Ht Hi He Hroot [Hf Hp Hm] Hmk.
  destruct (charts_run s mk x s2 e) as (s3 & Hmkr & Hu3 & Hut & Hlt & Hq); [done..|].
  set (work := mkdtemp s ++ [x]) in *.
  exists (overlay (under s (TOOLKIT ROOT)) (work ++ HELM_TOOLKIT) s3). split.
  - unfold add_toolkit. etrans; [by apply (run_bind_pure _ _ _ _ _ Hmkr)|]. rewrite <-Hut.
    apply copytree_run; [done..| |].
    + rewrite <-lookup_under, Hu3, lookup_insert_ne by done. destruct Hm as [->|Hm]; [|by left].
      destruct (e !! HELM_TOOLKIT) as [m|] eqn:Em; [right|by left]. split; [done|].
      specialize (Hp [] Dir m). rewrite !lookup_under, !app_nil_r in Hp.
      specialize (Hp Ht Em). by destruct m.
    + rewrite Hut. intros p n m Hn Hm'. apply (Hp p n m Hn).
      rewrite <-Hm', <-under_under, Hu3. rewrite !lookup_under. by rewrite lookup_insert_ne.
  - by rewrite under_overlay, Hu3.
Qed.

(** Where the copy has some of it and it is not to be merged, the program stops. *)
Lemma add_toolkit_refused s mk x s2 e :
  wf s → s !! TOOLKIT ROOT = Some Dir → inside s (mkdtemp s) s2 →
  under s2 (mkdtemp s ++ [x]) = e → e !! [] = Some Dir → is_file_node (e !! ["charts"]) = false →
  e !! HELM_TOOLKIT ≠ None → mk = mkdir ∨ mk = makedirs →
  ∃ s3, add_toolkit ROOT mk (mkdtemp s ++ [x]) false s2 = (Exn (Os FileExistsError), [], s3).
Proof.
  intros Hw Ht Hi He Hroot Hf Hex Hmk.
  destruct (charts_run s mk x s2 e) as (s3 & Hmkr & Hu3 & Hut & Hlt & Hq); [done..|].
  exists s3. unfold add_toolkit. etrans; [by apply (run_bind_pure _ _ _ _ _ Hmkr)|].
  apply copytree_exists; [done..|]. rewrite <-lookup_under, Hu3. by rewrite lookup_insert_ne.
Qed.

(** *** A copy is made as meant *)

(** In a new temporary directory, [stage] makes [tree]. *)
Definition stages (stage : path → P unit) (s tree : fs) : Prop :=
  ∀ x, ∃ s', stage (mkdtemp s ++ [x]) (<[mkdtemp s := Dir]> s) = (Ret (), [], s') ∧
    under s' (mkdtemp s ++ [x]) = tree.

Lemma tmp_empty s x : wf s → under (<[mkdtemp s := Dir]> s) (mkdtemp s ++ [x]) = ∅.
Proof.
  intros Hw. apply map_eq. intros p. rewrite lookup_under, lookup_empty, lookup_insert_ne.
  - rewrite <-app_assoc. apply wf_none; [done|by apply mkdtemp_new].
  - intros H. rewrite <-(app_nil_r (mkdtemp s)), <-!app_assoc in H at 1. by apply app_inv_head in H.
Qed.

Lemma stamp_other q pat rep c p : p ≠ q → stamp_at q pat rep c !! p = c !! p.
Proof. intros Hp. unfold stamp_at. repeat case_match; try done. by rewrite lookup_insert_ne. Qed.
Lemma stamped_other version c p : p ≠ ["Chart.yaml"] → stamped version c !! p = c !! p.
Proof. apply stamp_other. Qed.

(** A file that is not among the charts does not matter to the toolkit. *)
Lemma fits_stamp merge tk q pat rep c : ¬ ["charts"] `prefix_of` q →
  toolkit_fits merge tk c → toolkit_fits merge tk (stamp_at q pat rep c).
Proof.
  intros Hq [Hf Hp Hm]. assert (∀ p, stamp_at q pat rep c !! ("charts" :: p) = c !! ("charts" :: p)) as Ho.
  { intros p. apply stamp_other. intros <-. apply Hq. by exists p. }
  split; rewrite ?Ho; [done| |done].
  intros p n m Hn. rewrite lookup_under. cbn [app]. rewrite Ho. intros Hm'. apply (Hp p n m Hn).
  by rewrite lookup_under.
Qed.
Lemma fits_stamped merge tk version c :
  toolkit_fits merge tk c → toolkit_fits merge tk (stamped version c).
Proof. apply fits_stamp. by intros [? H]. Qed.

(** A chart with its version, and the toolkit in it. *)
Definition staged (version : string) (s : fs) (chart : path) : fs :=
  with_toolkit (under s (TOOLKIT ROOT)) (stamped version (under s chart)).

Lemma stage_runs s chart version mk merge :
  wf s → chart_ok s chart → s !! TOOLKIT ROOT = Some Dir →
  toolkit_fits merge (under s (TOOLKIT ROOT)) (under s chart) → mk = mkdir ∨ mk = makedirs →
  stages (λ work, let* _ := copy_chart chart work version in add_toolkit ROOT mk work merge) s
    (staged version s chart) ∧
  stages (λ work, let* _ := copy_chart chart work version in
    if_toolkit ROOT (add_toolkit ROOT mk work merge)) s (staged version s chart).
Proof.
  intros Hw Hc Ht Hf Hmk.
  assert (∀ x, ∃ s2 s3,
    copy_chart chart (mkdtemp s ++ [x]) version (<[mkdtemp s := Dir]> s) = (Ret (), [], s2) ∧
    s2 !! TOOLKIT ROOT = Some Dir ∧
    add_toolkit ROOT mk (mkdtemp s ++ [x]) merge s2 = (Ret (), [], s3) ∧
    under s3 (mkdtemp s ++ [x]) = staged version s chart) as H.
  { intros x. destruct (copy_chart_run s chart x version _ Hw Hc (tmp_inside mkdtemp s Hw)
      (tmp_empty s x Hw)) as (s2 & H2 & Hi & Hu).
    destruct (add_toolkit_run s mk x merge s2 _ Hw Ht Hi Hu) as (s3 & H3 & Hu3); [..|done|].
    - rewrite stamped_other, lookup_under, app_nil_r by done. apply Hc.
    - by apply fits_stamped.
    - exists s2, s3. split_and!; try done.
      destruct (away_under s _ s2 (TOOLKIT ROOT) Hi) as [_ Hl]; [|congruence].
      apply away_repo; [done|by exists HELM_TOOLKIT|congruence]. }
  split; intros x; destruct (H x) as (s2 & s3 & H2 & Hd & H3 & Hu); exists s3; (split; [|done]).
  - etrans; [by apply (run_bind_pure _ _ _ _ _ H2)|]. done.
  - etrans; [by apply (run_bind_pure _ _ _ _ _ H2)|]. unfold if_toolkit, is_dir.
    etrans; [by apply (run_bind_pure (gets _) _ s2 true s2); unfold gets; rewrite Hd|]. done.
Qed.

(** What is asked of the copy is asked of that tree, and is the result. *)
Lemma staged_ask {A} stage s tree x (ask : path → P A) o es :
  wf s → (∀ tmp, works_in tmp (stage (tmp ++ [x]))) → (∀ tmp, works_in tmp (ask (tmp ++ [x]))) →
  stages stage s tree → (∀ work s', under s' work = tree → ask work s' = (o, es, s')) →
  in_tmp mkdtemp (λ tmp, let* _ := stage (tmp ++ [x]) in ask (tmp ++ [x])) s = (o, es, s).
Proof.
  intros Hw Hk Ha Hs Hask. destruct (Hs x) as (s' & Hr & Hu).
  assert ((in_tmp mkdtemp (λ tmp, let* _ := stage (tmp ++ [x]) in ask (tmp ++ [x])) s).2 = s) as Hkept.
  { apply in_tmp_restores; [done..|]. intros tmp. apply works_bind; auto. }
  unfold in_tmp in *.
  assert ((let* _ := stage (mkdtemp s ++ [x]) in ask (mkdtemp s ++ [x])) (<[mkdtemp s := Dir]> s)
    = (o, es, s')) as Heq.
  { etrans; [by apply (run_bind_pure _ _ _ _ _ Hr)|]. by apply Hask. }
  rewrite Heq in *. simpl in *. by rewrite Hkept.
Qed.

Lemma helm_asked release work flags s' tree : under s' work = tree →
  helm_template helm release work flags s' =
    (match helm release flags tree with Some p => Ret p | None => Exn (Os FileNotFoundError) end,
     [Template release flags tree], s').
Proof.
  intros Hu. unfold helm_template, mbind, F_bind, Io_bind. simpl. rewrite Hu.
  by destruct (helm release flags tree).
Qed.

Lemma rendered_run stage s tree x release flags :
  wf s → (∀ tmp, works_in tmp (stage (tmp ++ [x]))) → stages stage s tree →
  rendered helm mkdtemp stage x release flags s =
    (match helm release flags tree with Some p => Ret p | None => Exn (Os FileNotFoundError) end,
     [Template release flags tree], s).
Proof.
  intros Hw Hk Hs. apply (staged_ask stage s tree x (λ work, helm_template helm release work flags)); try done.
  - intros tmp. apply works_helm.
  - intros work s'. apply helm_asked.
Qed.

Lemma udp_run chart s tree :
  wf s → stages (stage_if ROOT chart) s tree →
  in_tmp mkdtemp (λ tmp, let* _ := stage_if ROOT chart (tmp ++ ["chart"]) in
      udp_helm helm (tmp ++ ["chart"])) s =
    (Ret (helm "gate" KUBE tree), [Template "gate" KUBE tree], s).
Proof.
  intros Hw Hs. apply (staged_ask (stage_if ROOT chart) s tree "chart" (udp_helm helm)); try done.
  - intros tmp. apply works_stages.
  - intros tmp. unfold udp_helm. apply works_try; [|intros y; works].
    apply works_bind; [apply works_helm|]. intros p. works.
  - intros work s' Hu. unfold udp_helm, try_, helm_template, mbind, F_bind, Io_bind. simpl. rewrite Hu.
    by destruct (helm "gate" KUBE tree).
Qed.

(** *** What each gate asks *)

(** One run of helm, on this tree. *)
Definition asks {A} (m : P A) (s : fs) (release : string) (flags : list string) (tree : fs) : Prop :=
  (m s).1.2 = [Template release flags tree] ∧ (m s).2 = s.

(** A program that does nothing but compute. *)
Definition silent {A} (m : P A) : Prop := ∀ s, (m s).1.2 = [] ∧ (m s).2 = s.

Lemma silent_ret {A} (a : A) : silent (mret a).
Proof. done. Qed.
Lemma silent_raise {A} x : silent (@raise _ _ _ A x).
Proof. done. Qed.
Lemma silent_gets {A} (f : fs → A) : silent (gets f).
Proof. done. Qed.
Lemma silent_bind {A B} (m : P A) (f : A → P B) : silent m → (∀ a, silent (f a)) → silent (m ≫= f).
Proof.
  intros Hm Hf s. unfold mbind, F_bind, Io_bind. specialize (Hm s).
  destruct (m s) as [[[a|x] es] s1]; [|done]. destruct Hm as [H1 H2]. simpl in *. subst.
  specialize (Hf a s). destruct (f a s) as [[o es'] s2]. by destruct Hf.
Qed.

Ltac silent :=
  unfold load, last_or, some_docs;
  repeat first
    [ apply silent_ret | apply silent_raise | apply silent_gets | apply silent_bind; [|intros ?]
    | match goal with |- silent (match ?x with _ => _ end) => destruct x end ].

Lemma asks_then {A B} (m : P A) (f : A → P B) s release flags tree :
  asks m s release flags tree → (∀ a, silent (f a)) → asks (m ≫= f) s release flags tree.
Proof.
  intros [H1 H2] Hf. unfold asks, mbind, F_bind, Io_bind.
  destruct (m s) as [[[a|x] es] s1]; [|done]. simpl in *. subst. specialize (Hf a s).
  destruct (f a s) as [[o es'] s2]. destruct Hf as [Hf1 Hf2]. simpl in *. by subst.
Qed.

Lemma asks_after {A B} (m : P A) (f : A → P B) s a release flags tree :
  m s = (Ret a, [], s) → asks (f a) s release flags tree → asks (m ≫= f) s release flags tree.
Proof. intros Hm Hf. unfold asks. by rewrite (run_bind_pure _ _ _ _ _ Hm). Qed.

Lemma asks_rendered stage s tree x release flags :
  wf s → (∀ tmp, works_in tmp (stage (tmp ++ [x]))) → stages stage s tree →
  asks (rendered helm mkdtemp stage x release flags) s release flags tree.
Proof. intros Hw Hk Hs. unfold asks. by rewrite (rendered_run stage s tree). Qed.

(** The chart of a component, which exists and takes the toolkit. *)
Record renderable (s : fs) (name : string) : Prop := {
  r_wf : wf s;
  r_chart : chart_ok s (chart_of ROOT name);
  r_toolkit : s !! TOOLKIT ROOT = Some Dir;
  r_fits : toolkit_fits true (under s (TOOLKIT ROOT)) (under s (chart_of ROOT name));
}.

Lemma renderable_file s name : renderable s name →
  @is_file event (chart_of ROOT name ++ ["Chart.yaml"]) s = (Ret true, [], s).
Proof. intros [_ [_ _ [t Ht]] _ _]. unfold is_file, gets. by rewrite Ht. Qed.

Lemma renderable_stages s name : renderable s name →
  stages (stage_if ROOT (chart_of ROOT name)) s (staged GATE s (chart_of ROOT name)) ∧
  stages (stage_always ROOT (chart_of ROOT name)) s (staged GATE s (chart_of ROOT name)).
Proof.
  intros [Hw Hc Ht Hf].
  destruct (stage_runs s (chart_of ROOT name) GATE mkdir true Hw Hc Ht Hf) as [H1 H2]; [auto|done].
Qed.

(** A chart with nothing of the toolkit in it. *)
Definition bare (s : fs) (name : string) : Prop := s !! (chart_of ROOT name ++ HELM_TOOLKIT) = None.

Lemma bare_stages s name version mk : renderable s name → bare s name → mk = mkdir ∨ mk = makedirs →
  stages (λ work, let* _ := copy_chart (chart_of ROOT name) work version in
    if_toolkit ROOT (add_toolkit ROOT mk work false)) s (staged version s (chart_of ROOT name)).
Proof.
  intros [Hw Hc Ht [Hfc Hfp _]] Hb Hmk.
  apply (stage_runs s (chart_of ROOT name) version mk false Hw Hc Ht); [|done].
  split; [done..|]. right. by rewrite lookup_under.
Qed.

(** *** The umbrella's own renders *)

Lemma parent_app (d p : path) : p ≠ [] → parent (d ++ p) = d ++ parent p.
Proof. intros Hp. unfold parent. by apply removelast_app. Qed.

(** A file is put beside the copy's own. *)
Lemma write_under d p t (s' tree : fs) :
  under s' d = tree → p ≠ [] → tree !! parent p = Some Dir → tree !! p = None →
  ∃ s'', @write_text event (d ++ p) t s' = (Ret (), [], s'') ∧ under s'' d = <[p := File t]> tree.
Proof.
  intros Hu Hp Hd Hn. exists (<[d ++ p := File t]> s'). split; [|by rewrite under_insert, Hu].
  unfold write_text. rewrite parent_app, <-!lookup_under, Hu, Hn, Hd by done. done.
Qed.

Lemma stages_write stage s tree p t :
  stages stage s tree → p ≠ [] → tree !! parent p = Some Dir → tree !! p = None →
  stages (λ work, let* _ := stage work in write_text (work ++ p) t) s (<[p := File t]> tree).
Proof.
  intros Hs Hp Hd Hn x. destruct (Hs x) as (s' & Hr & Hu).
  destruct (write_under _ p t s' tree Hu Hp Hd Hn) as (s'' & Hw & Hu''). exists s''. split; [|done].
  by etrans; [apply (run_bind_pure _ _ _ _ _ Hr)|].
Qed.

Lemma toolkit_other tk c p : ¬ ["charts"] `prefix_of` p → with_toolkit tk c !! p = c !! p.
Proof.
  intros Hp. unfold with_toolkit. rewrite lookup_overlay_out, lookup_insert_ne; [done|by intros <-|].
  intros [r ->]. apply Hp. by eexists.
Qed.

(** The umbrella has templates, none of them a gate's, and values. *)
Record umbrella_ok (s : fs) (chart : path) : Prop := {
  u_templates : s !! (chart ++ ["templates"]) = Some Dir;
  u_free f : f ∈ ["zz-gate-partition.yaml"; "zz-selection-probe.yaml"] →
    s !! (chart ++ ["templates"; f]) = None;
  u_values : ∃ t, s !! (chart ++ ["values.yaml"]) = Some (File t);
}.

Definition with_values (version : string) : fs → fs :=
  stamp_at ["values.yaml"] "chartVersion: CHART_VERSION"
    ("chartVersion: " +:+ dquote +:+ version +:+ dquote).

(** The probe of the selection, beside the umbrella with its version in its values too. *)
Definition selection_tree (s : fs) (chart : path) : fs :=
  <[["templates"; "zz-selection-probe.yaml"] := File SELECTION_PROBE]>
    (with_toolkit (under s (TOOLKIT ROOT)) (with_values GATE (stamped GATE (under s chart)))).

Lemma selection_stages s : renderable s "openstack" → bare s "openstack" →
  umbrella_ok s (chart_of ROOT "openstack") →
  stages (λ work, selection_stage ROOT work SELECTION_PROBE) s
    (selection_tree s (chart_of ROOT "openstack")).
Proof.
  intros [Hw Hc Ht [Hfc Hfp _]] Hb [Hut Huf [v Hv]] x. set (chart := chart_of ROOT "openstack") in *.
  destruct (copy_run s chart x _ Hw Hc (tmp_inside mkdtemp s Hw) (tmp_empty s x Hw)) as (s1 & R1 & H1 & U1).
  destruct (ok_meta _ _ Hc) as [t Hm].
  destruct (stamp_run s x _ s1 ["Chart.yaml"] "CHART_VERSION" GATE t H1 U1) as (s2 & R2 & H2 & U2);
    [by rewrite lookup_under|]. fold (stamped GATE) in U2.
  destruct (stamp_run s x _ s2 ["values.yaml"] "chartVersion: CHART_VERSION"
    ("chartVersion: " +:+ dquote +:+ GATE +:+ dquote) v H2 U2) as (s3 & R3 & H3 & U3);
    [by rewrite stamped_other, lookup_under|]. fold (with_values GATE) in U3.
  destruct (add_toolkit_run s makedirs x false s3 _ Hw Ht H3 U3) as (s4 & R4 & U4); [..|by right|].
  { unfold with_values. rewrite stamp_other, stamped_other, lookup_under, app_nil_r by done. apply Hc. }
  { apply fits_stamp; [by intros [? ?]|]. apply fits_stamped. split; [done..|]. right.
    by rewrite lookup_under. }
  assert (s3 !! TOOLKIT ROOT = Some Dir) as Hl.
  { destruct (away_under s _ s3 (TOOLKIT ROOT) H3) as [_ Hl]; [|congruence].
    apply away_repo; [done|by exists HELM_TOOLKIT|congruence]. }
  assert (∀ f, with_toolkit (under s (TOOLKIT ROOT)) (with_values GATE (stamped GATE (under s chart)))
    !! ("templates" :: f) = s !! (chart ++ "templates" :: f)) as Hother.
  { intros f. rewrite toolkit_other by by intros [? ?].
    unfold with_values. by rewrite stamp_other, stamped_other, lookup_under. }
  destruct (write_under _ ["templates"; "zz-selection-probe.yaml"] SELECTION_PROBE s4 _ U4)
    as (s5 & R5 & U5); [done|by etrans; [apply (Hother [])|]|rewrite Hother; apply Huf; set_solver|].
  exists s5. split; [|done]. unfold selection_stage. fold chart.
  etrans; [by apply (run_bind_pure _ _ _ _ _ R1)|]. etrans; [by apply (run_bind_pure _ _ _ _ _ R2)|].
  etrans; [by apply (run_bind_pure _ _ _ _ _ R3)|].
  etrans; [apply (run_bind_pure _ _ s3 () s4)|done]. unfold if_toolkit, is_dir.
  etrans; [by apply (run_bind_pure (gets _) _ s3 true s3); unfold gets; rewrite Hl|]. done.
Qed.

Lemma umbrella_asks s debug profile : renderable s "openstack" →
  let chart := chart_of ROOT "openstack" in
  umbrella_ok s chart →
  asks (partition_render helm mkdtemp ROOT debug) s "openstack"
    (KUBE ++ ["--show-only"; "templates/zz-gate-partition.yaml"])
    (<[["templates"; "zz-gate-partition.yaml"] := File debug]> (staged GATE s chart)) ∧
  (bare s "openstack" → asks (selection_for_profile helm mkdtemp ROOT profile) s "gate"
    ["--set"; "profile=" +:+ profile] (selection_tree s chart)).
Proof.
  intros Hr chart Hu. pose proof (r_wf _ _ Hr) as Hw. split.
  - apply asks_rendered; [done| |].
    + intros tmp. apply works_bind; [apply works_stages|]. intros _. works.
    + assert (∀ f, staged GATE s chart !! ("templates" :: f) = s !! (chart ++ "templates" :: f)) as Ho.
      { intros f. unfold staged. rewrite toolkit_other by by intros [? ?].
        by rewrite stamped_other, lookup_under. }
      apply stages_write; [by apply renderable_stages|done| |rewrite Ho; apply Hu; set_solver].
      etrans; [apply (Ho [])|]. apply Hu.
  - intros Hb. apply asks_then; [|intros o; silent].
    apply asks_rendered; [done|intros tmp; apply works_selection|by apply selection_stages].
Qed.

(** The runs of helm on one tree, in order; all of them where the program returns. *)
Definition asks_each {A} (m : P A) (s : fs) (release : string) (flags : list (list string)) (tree : fs)
  : Prop :=
  let all := map (λ f, Template release f tree) flags in
  (m s).1.2 `prefix_of` all ∧ (m s).2 = s ∧ ∀ a, (m s).1.1 = Ret a → (m s).1.2 = all.

Definition set_flags (selection : string) : list string := KUBE ++ ["--set"; selection].

Lemma each_run tree names : ∀ out, ∃ o es,
  (∀ work s', under s' work = tree → each_selection helm work names out s' = (o, es, s')) ∧
  es `prefix_of` map (λ f, Template "gate" f tree) (map set_flags names) ∧
  ∀ a, o = Ret a → es = map (λ f, Template "gate" f tree) (map set_flags names).
Proof.
  induction names as [|n names IH]; intros out.
  - by exists (Ret out), [].
  - destruct (helm "gate" (set_flags n) tree) as [p|] eqn:Eh; [destruct (Z.eqb_spec (returncode p) 0) as [E0|E0]|].
    + destruct (IH (out ++ [stdout p])) as (o & es & Hrun & Hes & Hret).
      exists o, (Template "gate" (set_flags n) tree :: es). split_and!.
      * intros work s' Hu. cbn [each_selection]. fold (set_flags n). unfold mbind, F_bind, Io_bind.
        rewrite (helm_asked _ _ _ _ _ Hu), Eh, E0. cbn [Z.eqb negb]. by rewrite (Hrun _ _ Hu).
      * by apply prefix_cons.
      * intros a Ha. simpl. by rewrite (Hret a Ha).
    + exists (Exn (Py (SystemExit 2))), [Template "gate" (set_flags n) tree]. split_and!; [|by eexists|done].
      intros work s' Hu. cbn [each_selection]. fold (set_flags n). unfold mbind, F_bind, Io_bind.
      rewrite (helm_asked _ _ _ _ _ Hu), Eh. by destruct (Z.eqb_spec (returncode p) 0).
    + exists (Exn (Os FileNotFoundError)), [Template "gate" (set_flags n) tree].
      split_and!; [|by eexists|done].
      intros work s' Hu. cbn [each_selection]. fold (set_flags n). unfold mbind, F_bind, Io_bind.
      by rewrite (helm_asked _ _ _ _ _ Hu), Eh.
Qed.

Lemma origin_asks s chart : wf s → chart_ok s chart →
  asks_each (origin_render_all helm mkdtemp chart) s "gate"
    (map set_flags OriginPin.OriginPin.SELECTIONS)
    (stamped OriginPin.OriginPin.CURRENT_CHART_VERSION (under s chart)).
Proof.
  intros Hw Hc. set (tree := stamped _ _).
  destruct (each_run tree OriginPin.OriginPin.SELECTIONS []) as (o & es & Hrun & Hes & Hret).
  assert (origin_render_all helm mkdtemp chart s = (o, es, s)) as Ho; [|unfold asks_each; by rewrite Ho].
  apply (staged_ask (λ work, copy_chart chart work OriginPin.OriginPin.CURRENT_CHART_VERSION) s tree "chart"
    (λ work, each_selection helm work OriginPin.OriginPin.SELECTIONS [])); try done.
  - intros tmp. apply works_copy_chart.
  - intros tmp. apply works_each.
  - intros x. destruct (copy_chart_run s chart x OriginPin.OriginPin.CURRENT_CHART_VERSION _ Hw Hc
      (tmp_inside mkdtemp s Hw) (tmp_empty s x Hw)) as (s2 & R2 & _ & U2). by exists s2.
Qed.

(** C34: the gates of a chart measure the same chart. The renders of the UDP, uWSGI stats, config
    closure, node label, shipped Python, deadlock and component gates (but for the charts that the
    component gate skips) and of the gates of keystone, horizon, glance, gnocchi and redis run
    helm once, with the gate's release and flags, on the chart of the repository with its version
    stamped and helm-toolkit among its charts; so do those of the config reference, durable state,
    worker, colocation and roles gates, which do not merge the toolkit, for a chart that carries
    none of it (the roles gate at a version of its own). The partition check and the selection
    of the provisioning gate render the umbrella that way with one template more, the latter with
    the version in the values too. The offline renders of the version pin gate run helm in order
    on each of its selections, on the chart stamped and without the toolkit. Renders of other
    charts (a probe on a prepared copy, the schema's harness, the prune probe) are not among
    these. *)
Theorem gates_render_alike s name extra failed debug profile : renderable s name →
  let chart := chart_of ROOT name in
  let tree := staged GATE s chart in
  (asks (udp_render helm load_all mkdtemp ROOT chart) s "gate" KUBE tree ∧
   asks (uwsgi_stats_render helm load_all mkdtemp ROOT chart) s "gate" KUBE tree ∧
   asks (closure_render helm load_all mkdtemp ROOT name) s "gate" KUBE tree ∧
   asks (labels_render helm mkdtemp ROOT chart extra) s "gate" (KUBE ++ extra) tree ∧
   asks (labels_render_docs helm load_all mkdtemp ROOT name) s "gate" KUBE tree ∧
   asks (python_render helm mkdtemp ROOT chart) s "gate" KUBE tree ∧
   asks (deadlock_render helm load_all mkdtemp ROOT name) s name KUBE tree ∧
   (name ∉ SKIP_RENDER → asks (dag_render helm mkdtemp ROOT name) s "gate" KUBE tree) ∧
   asks (probed helm mkdtemp ROOT (stage_if ROOT) name failed) s "gate" KUBE tree ∧
   asks (probed helm mkdtemp ROOT (stage_always ROOT) name failed) s "gate" KUBE tree) ∧
  (bare s name →
   asks (refs_render helm load_all mkdtemp ROOT chart) s "gate" [] tree ∧
   asks (durable_render helm load_all mkdtemp ROOT chart) s "gate" ["--namespace"; "openstack"] tree ∧
   asks (worker_render helm load_all mkdtemp ROOT chart) s "gate" [] tree ∧
   asks (colocation_render helm load_all mkdtemp ROOT chart) s "gate" [] tree ∧
   (name = "openstack" → asks (roles_render helm mkdtemp ROOT) s "validate"
      ["--set"; "chartVersion=0.0.0-validate"] (staged "0.0.0-validate" s chart))) ∧
  (name = "openstack" → umbrella_ok s chart →
   asks (partition_render helm mkdtemp ROOT debug) s "openstack"
     (KUBE ++ ["--show-only"; "templates/zz-gate-partition.yaml"])
     (<[["templates"; "zz-gate-partition.yaml"] := File debug]> tree) ∧
   (bare s name → asks (selection_for_profile helm mkdtemp ROOT profile) s "gate"
     ["--set"; "profile=" +:+ profile] (selection_tree s chart))) ∧
  asks_each (origin_render_all helm mkdtemp chart) s "gate"
    (map set_flags OriginPin.OriginPin.SELECTIONS)
    (stamped OriginPin.OriginPin.CURRENT_CHART_VERSION (under s chart)).
Proof.
  intros Hr chart tree. destruct (renderable_stages s name Hr) as [Hif Hal].
  pose proof (renderable_file s name Hr) as Hf. pose proof (r_wf s name Hr) as Hw.
  assert (∀ release flags,
    asks (rendered helm mkdtemp (stage_if ROOT chart) "chart" release flags) s release flags tree) as Ai.
  { intros. apply asks_rendered; [done| |done]. intros tmp. apply works_stages. }
  assert (∀ release flags,
    asks (rendered helm mkdtemp (stage_always ROOT chart) "chart" release flags) s release flags tree) as Aa.
  { intros. apply asks_rendered; [done| |done]. intros tmp. apply works_stages. }
  split_and!.
  - apply asks_then; [unfold asks; by rewrite (udp_run chart s tree)|]. intros o. silent.
  - apply asks_then; [done|]. intros o. silent.
  - apply (asks_after _ _ s true); [done|]. apply asks_then; [done|]. intros o. silent.
  - apply Aa.
  - apply (asks_after _ _ s true); [done|]. apply asks_then; [apply Aa|]. intros o. silent.
  - apply asks_then; [done|]. intros o. silent.
  - apply (asks_after _ _ s true); [done|]. apply asks_then; [done|]. intros o. silent.
  - intros Hskip. apply (asks_after _ _ s true); [done|]. cbn [negb].
    rewrite decide_False by done. apply asks_then; [done|]. intros o. silent.
  - apply asks_then; [done|]. intros o. silent.
  - apply asks_then; [done|]. intros o. silent.
  - intros Hb.
    assert (∀ x release flags,
      asks (rendered helm mkdtemp (stage_os ROOT chart) x release flags) s release flags tree) as Ao.
    { intros. apply asks_rendered; [done|intros tmp; apply works_stages|].
      apply (bare_stages s name GATE makedirs Hr Hb). auto. }
    split_and!; [apply asks_then; [apply Ao|intros o; silent]..|intros ->].
    apply asks_then; [|intros o; silent]. apply asks_rendered; [done|intros tmp; apply works_stages|].
    apply (bare_stages s "openstack" "0.0.0-validate" mkdir Hr Hb). auto.
  - intros -> Hu. by apply umbrella_asks.
  - apply origin_asks; [done|apply Hr].
Qed.

(** ** Probes leave the copy as it was *)

(** A copy with a directory of templates and no probe in it. *)
Record probed_copy (s : fs) (work : path) : Prop := {
  pc_templates : s !! (work ++ ["templates"]) = Some Dir;
  pc_free : s !! probe_path work = None;
}.

(** Each probe of the label gate and the version gate is measured on the prepared chart and
    nothing else: helm sees the chart with this probe as the one template more, and whatever it
    answers the copy is left as it was for the next. *)
Theorem probes_leave_copy s work nodes origin literal kind extra : probed_copy s work →
  let sees body := <[["templates"; "zz-gate-probe.yaml"] := File body]> (under s work) in
  asks (labels_probe helm work nodes extra) s "gate" (KUBE ++ extra)
    (sees (replace_str "NODES" nodes NodeLabels.NodeLabels.PROBE)) ∧
  asks (origin_probe helm work origin literal kind extra) s "gate"
    (KUBE ++ ["--set"; "chartVersion=0.3.30"] ++ extra)
    (sees (OriginPin.OriginPin.probe_body origin literal kind)).
Proof.
  intros [Ht Hf] sees.
  assert (∀ body flags, asks (with_probe helm work body flags) s "gate" flags (sees body)) as H;
    [|split; apply H].
  intros body flags. assert (write_text (probe_path work) body s =
    (Ret (), @nil event, <[probe_path work := File body]> s)) as Hw.
  { unfold write_text. rewrite Hf. unfold parent, probe_path. rewrite removelast_app by done.
    simpl. by rewrite Ht. }
  unfold asks, with_probe. rewrite (run_bind_pure _ _ _ _ _ Hw).
  unfold finally, helm_template, mbind, F_bind, Io_bind. simpl. unfold probe_path.
  rewrite under_insert. fold (sees body). fold (probe_path work).
  destruct (helm "gate" flags (sees body)); simpl; unfold unlink; rewrite lookup_insert_eq; simpl;
    by rewrite delete_insert_id.
Qed.

(** ** The component gate on the file system *)

(** What helm answers for a component's chart, as the gate's model is given it. *)
Definition printed (s : fs) (name : string) : Z * string * string :=
  match helm "gate" KUBE (staged GATE s (chart_of ROOT name)) with
  | Some p => (returncode p, stdout p, stderr p)
  | None => (0%Z, "", "")
  end.
Definition has_chart (s : fs) (name : string) : bool :=
  is_file_node (s !! (chart_of ROOT name ++ ["Chart.yaml"])).

(** A chart that is there is one that can be rendered, by a helm that is there. *)
Definition sound_chart (s : fs) (name : string) : Prop :=
  has_chart s name = true → name ∉ SKIP_RENDER →
  renderable s name ∧ is_Some (helm "gate" KUBE (staged GATE s (chart_of ROOT name))).

Lemma dag_render_run s name : sound_chart s name →
  ∃ es, dag_render helm mkdtemp ROOT name s =
    (Ret (check_render (has_chart s) (printed s) name), es, s).
Proof.
  intros Hs. unfold dag_render, check_render, sound_chart in *.
  assert (@is_file event (chart_of ROOT name ++ ["Chart.yaml"]) s = (Ret (has_chart s name), [], s))
    as Hfile by done.
  rewrite (run_bind_pure _ _ _ _ _ Hfile).
  destruct (has_chart s name) eqn:Eh; cbn [negb]; [|by eexists].
  destruct (decide (name ∈ SKIP_RENDER)) as [|Hn]; [by eexists|].
  destruct (Hs eq_refl Hn) as [Hr [p Hp]]. destruct (renderable_stages s name Hr) as [Hif _].
  pose proof (rendered_run (stage_if ROOT (chart_of ROOT name)) s _ "chart" "gate" KUBE
    (r_wf s name Hr) ltac:(intros tmp; apply works_stages) Hif) as Hrun.
  rewrite Hp in Hrun. rewrite (run_bind _ _ _ _ _ _ Hrun). unfold printed. rewrite Hp.
  eexists. simpl. repeat case_match; done.
Qed.

Lemma dag_renders_run s names : (∀ n, n ∈ names → sound_chart s n) → ∀ acc,
  ∃ es, dag_renders helm mkdtemp ROOT names acc s =
    (Ret (foldl (λ acc n, let '(p, r) := check_render (has_chart s) (printed s) n in
       (acc.1 ++ p, acc.2 + r)%nat) acc names), es, s).
Proof.
  clear load_all. induction names as [|n names IH]; intros Hn acc; [by eexists|].
  cbn [dag_renders foldl].
  destruct (dag_render_run s n) as [es Hd]; [set_solver|]. rewrite (run_bind _ _ _ _ _ _ Hd).
  destruct (check_render (has_chart s) (printed s) n) as [p r].
  cbn [fst snd]. destruct (IH ltac:(set_solver) (acc.1 ++ p, (acc.2 + r)%nat)) as [es' ->].
  by eexists.
Qed.

(** C37: the component gate on the file system is the gate that is verified: it ends as
    [ComponentDag.gate] does on the charts of the repository and what helm prints for them, with
    the same verdict or the same exception, and leaves the repository as it was. *)
Theorem dag_gate_refines s fuel umbrella :
  (∀ u comps n, umbrella = Some u → read_components u = Ok comps → n ∈ dom comps → sound_chart s n) →
  ∃ es, dag_gate helm mkdtemp ROOT fuel umbrella s =
    (match ComponentDag.ComponentDag.gate (has_chart s) (printed s) fuel umbrella with
     | Ok o => Ret o | Raise e => Exn (Py e) end, es, s).
Proof.
  intros Hs. unfold dag_gate, ComponentDag.ComponentDag.gate.
  destruct umbrella as [u|]; [|by eexists]. destruct (read_components u) as [comps|e] eqn:Ec;
    [|by eexists]. cbn [lift mbind res_bind].
  assert ((mret comps : P _) s = (Ret comps, [], s)) as Hc by done.
  rewrite (run_bind_pure _ _ _ _ _ Hc). destruct (size comps =? 0)%nat; [by eexists|].
  destruct (find_cycles fuel comps) as [cyc|e]; [|by eexists].
  cbn [lift]. assert ((mret cyc : P _) s = (Ret cyc, [], s)) as Hcyc by done.
  rewrite (run_bind_pure _ _ _ _ _ Hcyc).
  destruct (dag_renders_run s (sorted_names comps)) with (acc := (@nil problem, 0%nat)) as [es Hd].
  { intros n Hn%elem_of_sorted_names. by apply (Hs u comps). }
  rewrite (run_bind _ _ _ _ _ _ Hd). unfold check_renders. simpl.
  destruct (foldl _ _ _) as [rp rendered]. simpl.
  by destruct (missing_deps comps ++ cyc ++ wrong_kinds comps ++ rp); eexists.
Qed.

(** ** The schema gate's harness *)

(** A chart of nothing but the values and the schema of another. *)
Definition harness_of (values schema : string) : fs :=
  <[["values.schema.json"] := File schema]> (<[["values.yaml"] := File values]>
   (<[["templates"; "noop.yaml"] := File ("# intentionally empty" +:+ newline)]>
    (<[["Chart.yaml"] := File ("apiVersion: v2" +:+ newline +:+ "name: harness" +:+ newline +:+
        "version: 0.0.1" +:+ newline)]>
     (<[["templates"] := Dir]> (<[[] := Dir]> ∅))))).

Lemma prefixes_snoc (p : path) x : prefixes (p ++ [x]) = prefixes p ++ [p ++ [x]].
Proof.
  unfold prefixes. rewrite length_app. cbn [length]. rewrite Nat.add_1_r, seq_S, map_app. cbn [map].
  f_equal.
  - apply map_ext_in. intros n Hn%in_seq. by rewrite take_app_le by lia.
  - by rewrite take_ge by (rewrite length_app; simpl; lia).
Qed.

(** A directory in a new one. *)
Lemma makedirs_two (p : path) x y ok (s : fs) :
  (∀ q, q `prefix_of` p → s !! q = Some Dir) → s !! (p ++ [x]) = None → s !! ((p ++ [x]) ++ [y]) = None →
  makedirs ((p ++ [x]) ++ [y]) ok s =
    (Ret (), @nil event, <[(p ++ [x]) ++ [y] := Dir]> (<[p ++ [x] := Dir]> s)).
Proof.
  intros Hq Hx Hy. unfold makedirs. rewrite parent_snoc, prefixes_snoc.
  assert (iterM (@ensure event) (prefixes p ++ [p ++ [x]]) s = (Ret (), [], <[p ++ [x] := Dir]> s)) as He.
  { assert (∀ l, (∀ q, q ∈ l → s !! q = Some Dir) → iterM (@ensure event) (l ++ [p ++ [x]]) s =
      (Ret (), [], <[p ++ [x] := Dir]> s)) as Hl.
    { induction l as [|q l IH]; intros Hin.
      - cbn [app iterM]. unfold ensure, mkdir, mbind, Io_bind. rewrite Hx, parent_snoc, Hq by done. done.
      - cbn [app iterM]. assert (@ensure event q s = (Ret (), [], s)) as Hqs.
        { unfold ensure. by rewrite (Hin q) by set_solver. }
        rewrite (run_bind_pure _ _ _ _ _ Hqs). apply IH. set_solver. }
    apply Hl. intros q H%elem_of_prefixes. by apply Hq. }
  etrans; [by apply (run_bind_pure _ _ _ _ _ He)|]. apply mkdir_run.
  - by rewrite parent_snoc, lookup_insert_eq.
  - left. rewrite lookup_insert_ne; [done|]. intros H. rewrite <-(app_nil_r (p ++ [x])) in H at 1.
    by apply app_inv_head in H.
Qed.

(** Under [h] the state has [e], and elsewhere it is that of [s]. *)
Definition only_in (s : fs) (h : path) (e s' : fs) : Prop :=
  under s' h = e ∧ ∀ q, ¬ h `prefix_of` q → s' !! q = s !! q.

Lemma only_in_insert s h e s' p n :
  only_in s h e s' → only_in s h (<[p := n]> e) (<[h ++ p := n]> s').
Proof.
  intros [He Ho]. split; [by rewrite under_insert, He|]. intros q Hq.
  rewrite lookup_insert_ne; [by apply Ho|]. intros <-. apply Hq. by exists p.
Qed.

Lemma write_in s h e s' p t : only_in s h e s' → p ≠ [] → e !! p = None → e !! parent p = Some Dir →
  ∃ s'', write_text (h ++ p) t s' = (Ret (), @nil event, s'') ∧ only_in s h (<[p := File t]> e) s''.
Proof.
  intros Hs Hp Hn Hd. eexists. split; [|by apply only_in_insert]. destruct Hs as [He _].
  unfold write_text. rewrite <-lookup_under, He, Hn. unfold parent. rewrite removelast_app by done.
  rewrite <-lookup_under, He. unfold parent in Hd. by rewrite Hd.
Qed.

Lemma copyfile_in s h e s' src p t : only_in s h e s' → ¬ h `prefix_of` src →
  s !! src = Some (File t) → p ≠ [] → e !! p = None → e !! parent p = Some Dir →
  ∃ s'', copyfile src (h ++ p) s' = (Ret (), [], s'') ∧ only_in s h (<[p := File t]> e) s''.
Proof.
  intros Hs Hsrc Ht Hp Hn Hd. destruct (write_in s h e s' p t Hs Hp Hn Hd) as (s'' & Hw & Hs'').
  exists s''. split; [|done]. unfold copyfile.
  etrans; [apply run_bind_pure; apply (read_run src t); by rewrite (proj2 Hs)|]. done.
Qed.

(** The schema gate asks helm about that chart, and so about the values and the schema alone. *)
Lemma schema_asks s chart values schema : wf s →
  s !! (chart ++ ["values.yaml"]) = Some (File values) →
  s !! (chart ++ ["values.schema.json"]) = Some (File schema) →
  asks (schema_render helm mkdtemp chart) s "values-schema-conformance" [] (harness_of values schema).
Proof.
  intros Hw Hv Hs. apply asks_rendered; [done|intros tmp; apply works_harness|]. intros x.
  set (h := mkdtemp s ++ [x]). set (s1 := <[mkdtemp s := Dir]> s).
  pose proof (tmp_inside mkdtemp s Hw) as (Ho & Hd & _). fold s1 in Ho, Hd.
  assert (∀ p, s1 !! (h ++ p) = None) as Hnone.
  { intros p. rewrite <-lookup_under. unfold s1, h. by rewrite tmp_empty. }
  assert (∀ n t, s !! (chart ++ [n]) = Some (File t) →
    ¬ h `prefix_of` (chart ++ [n]) ∧ s1 !! (chart ++ [n]) = Some (File t)) as Hsrc.
  { intros n t Hn. assert (¬ mkdtemp s `prefix_of` chart ++ [n]) as Hout.
    { intros [r Hr]. rewrite Hr, wf_none in Hn; [done..|by apply mkdtemp_new]. }
    split; [|by rewrite (Ho _ Hout)]. intros H. apply Hout. etrans; [|exact H]. by exists [x]. }
  assert (only_in s1 h ∅ s1) as H0 by (split; [apply tmp_empty|]; done).
  assert (only_in s1 h (<[["templates"] := Dir]> (<[[] := Dir]> ∅))
    (<[h ++ ["templates"] := Dir]> (<[h := Dir]> s1))) as H1.
  { apply only_in_insert. rewrite <-(app_nil_r h) at 2. by apply only_in_insert. }
  destruct (Hsrc _ _ Hv) as [Hv1 Hv2]. destruct (Hsrc _ _ Hs) as [Hs1 Hs2].
  destruct (write_in _ _ _ _ ["Chart.yaml"] ("apiVersion: v2" +:+ newline +:+ "name: harness" +:+
    newline +:+ "version: 0.0.1" +:+ newline) H1) as (s2 & R2 & H2); [done..|].
  destruct (write_in _ _ _ _ ["templates"; "noop.yaml"] ("# intentionally empty" +:+ newline) H2)
    as (s3 & R3 & H3); [done..|].
  destruct (copyfile_in _ _ _ _ (chart ++ ["values.yaml"]) ["values.yaml"] values H3)
    as (s4 & R4 & H4); [done..|].
  destruct (copyfile_in _ _ _ _ (chart ++ ["values.schema.json"]) ["values.schema.json"] schema H4)
    as (s5 & R5 & H5); [done..|].
  exists s5. split; [|apply H5]. unfold schema_harness. fold h.
  assert (makedirs (h ++ ["templates"]) false s1 =
    (Ret (), @nil event, <[h ++ ["templates"] := Dir]> (<[h := Dir]> s1))) as R1.
  { apply makedirs_two; [done| |apply Hnone]. rewrite <-(app_nil_r (_ ++ [x])). apply Hnone. }
  etrans; [apply (run_bind_pure _ _ _ _ _ R1)|]. etrans; [apply (run_bind_pure _ _ _ _ _ R2)|].
  etrans; [apply (run_bind_pure _ _ _ _ _ R3)|]. by etrans; [apply (run_bind_pure _ _ _ _ _ R4)|].
Qed.

(** ** A chart that carries the toolkit *)

(** The programs that do not merge stop at a chart with helm-toolkit in it, before helm is run. *)
Lemma vendored_refused s name x : renderable s name →
  s !! (chart_of ROOT name ++ HELM_TOOLKIT) ≠ None →
  ∀ release flags, rendered helm mkdtemp (stage_os ROOT (chart_of ROOT name)) x release flags s =
    (Exn (Os FileExistsError), [], s).
Proof.
  intros [Hw Hc Ht [Hf _ _]] Hv release flags.
  pose proof (kept_rendered (stage_os ROOT (chart_of ROOT name)) x release flags
    ltac:(intros tmp; apply works_stages) s Hw) as Hkept. revert Hkept.
  destruct (copy_chart_run s (chart_of ROOT name) x GATE _ Hw Hc (tmp_inside mkdtemp s Hw)
    (tmp_empty s x Hw)) as (s2 & H2 & Hi & Hu).
  destruct (add_toolkit_refused s makedirs x s2 _ Hw Ht Hi Hu) as [s3 H3]; [..|by right|].
  { rewrite stamped_other, lookup_under, app_nil_r by done. apply Hc. }
  { by rewrite stamped_other. }
  { by rewrite stamped_other, lookup_under. }
  assert (s2 !! TOOLKIT ROOT = Some Dir) as Hl.
  { destruct (away_under s _ s2 (TOOLKIT ROOT) Hi) as [_ Hl]; [|congruence].
    apply away_repo; [done|by exists HELM_TOOLKIT|congruence]. }
  assert (stage_os ROOT (chart_of ROOT name) (mkdtemp s ++ [x]) (<[mkdtemp s := Dir]> s) =
    (Exn (Os FileExistsError), [], s3)) as Hstage.
  { unfold stage_os. etrans; [by apply (run_bind_pure _ _ _ _ _ H2)|]. unfold if_toolkit, is_dir.
    etrans; [by apply (run_bind_pure (gets _) _ s2 true s2); unfold gets; rewrite Hl|]. done. }
  unfold rendered, in_tmp. rewrite (run_bind_exn _ _ _ _ _ _ Hstage). simpl. by intros ->.
Qed.
End Runs.

(** ** A repository *)

Definition sample_repo : fs := list_to_map
  [([], Dir); (["repo"], Dir); (["repo"; "charts"], Dir); (["repo"; "charts"; "helm-toolkit"], Dir);
   (["repo"; "charts"; "helm-toolkit"; "Chart.yaml"], File "name: helm-toolkit");
   (["repo"; "blueprints"], Dir); (["repo"; "blueprints"; "glance"], Dir);
   (["repo"; "blueprints"; "glance"; "chart"], Dir);
   (["repo"; "blueprints"; "glance"; "chart"; "Chart.yaml"], File "version: CHART_VERSION");
   (["repo"; "blueprints"; "glance"; "chart"; "templates"], Dir)].
Definition sample_helm (release : string) (flags : list string) (chart : fs) : option proc :=
  Some {| returncode := 0; stdout := "kind: Secret"; stderr := "" |}.
Definition sample_load (text : string) : list val + string :=
  inl [VDict [("kind", VStr "Secret")]].

Lemma sample_outside s : wf s → s !! ["repo"] ≠ None → ¬ ["repo"] `prefix_of` new_in_root s.
Proof.
  intros Hw Hn [p Hp]. unfold new_in_root in Hp. injection Hp as Hf _. apply Hn.
  rewrite <-Hf. exact (mkdtemp_new (mkdtemp := new_in_root) s Hw).
Qed.

Lemma sample_renderable : renderable ["repo"] sample_repo "glance".
Proof.
  assert (under sample_repo ["repo"; "blueprints"; "glance"; "chart"; "charts"; "helm-toolkit"] = ∅)
    as He by (vm_compute; reflexivity).
  split.
  - apply wf_check_ok. vm_compute. reflexivity.
  - split; [by eexists|vm_compute; reflexivity|]. eexists. vm_compute. reflexivity.
  - vm_compute. reflexivity.
  - split; [vm_compute; reflexivity| |by left]. intros p n m _ Hm.
    rewrite under_under in Hm. change (chart_of ["repo"] "glance" ++ ["charts"; "helm-toolkit"]) with
      ["repo"; "blueprints"; "glance"; "chart"; "charts"; "helm-toolkit"] in Hm. by rewrite He in Hm.
Qed.

Lemma repository_kept_witness :
  (udp_render sample_helm sample_load new_in_root ["repo"] ["repo"; "blueprints"; "glance"; "chart"]
    sample_repo).2 = sample_repo.
Proof.
  destruct (repository_kept sample_helm sample_load new_in_root ["repo"]
    ["repo"; "blueprints"; "glance"; "chart"] "glance" "full" "" [] (λ _, "") VNone 0 None) as [H _].
  apply H, wf_check_ok. vm_compute. reflexivity.
Defined.

Lemma gates_render_alike_witness :
  asks (udp_render sample_helm sample_load new_in_root ["repo"] (chart_of ["repo"] "glance"))
    sample_repo "gate" KUBE (staged ["repo"] GATE sample_repo (chart_of ["repo"] "glance")) ∧
  staged ["repo"] GATE sample_repo (chart_of ["repo"] "glance") !! ["Chart.yaml"] =
    Some (File "version: 0.0.0-gate").
Proof.
  split; [|vm_compute; reflexivity].
  destruct (gates_render_alike sample_helm sample_load new_in_root ["repo"] sample_outside
    sample_repo "glance" [] 1 "" "full" sample_renderable) as [[H _] _]. exact H.
Defined.

Lemma docs_measured_witness : from_helm sample_helm sample_load "gate" KUBE is_dict
  (udp_render sample_helm sample_load new_in_root ["repo"] (chart_of ["repo"] "glance")
    sample_repo).1.2 [VDict [("kind", VStr "Secret")]].
Proof.
  destruct (docs_measured sample_helm sample_load new_in_root ["repo"] (chart_of ["repo"] "glance")
    "glance") as [H _].
  apply (H sample_repo (inl [VDict [("kind", VStr "Secret")]]));
    vm_compute; reflexivity.
Defined.

Definition sample_umbrella : val :=
  VDict [("components", VList [VDict [("name", VStr "glance"); ("kind", VStr "Glance")]])].

Lemma sample_components :
  read_components sample_umbrella = Ok {["glance" := Component (VStr "Glance") [] "?"]}.
Proof. vm_compute. reflexivity. Qed.

Lemma dag_gate_refines_witness : ∃ es,
  dag_gate sample_helm new_in_root ["repo"] 10 (Some sample_umbrella) sample_repo =
    (Ret (Passed 1 1), es, sample_repo).
Proof.
  destruct (dag_gate_refines sample_helm new_in_root ["repo"] sample_outside sample_repo 10
    (Some sample_umbrella)) as [es H].
  - intros u comps n [= <-] Hc Hn. rewrite sample_components in Hc. injection Hc as <-.
    rewrite dom_singleton_L, elem_of_singleton in Hn. subst n. intros _ _. split; [apply sample_renderable|by eexists].
  - exists es. rewrite H.
    assert (ComponentDag.ComponentDag.gate (has_chart ["repo"] sample_repo)
      (printed sample_helm ["repo"] sample_repo) 10 (Some sample_umbrella) = Ok (Passed 1 1)) as Hg
      by (vm_compute; reflexivity).
    by rewrite Hg.
Defined.

Definition sample_copy : fs := <[["repo"; "blueprints"; "glance"; "chart"; "values.yaml"] := File ""]> sample_repo.

Lemma probes_leave_copy_witness :
  asks (labels_probe sample_helm (chart_of ["repo"] "glance") "[]" []) sample_copy "gate" KUBE
    (<[["templates"; "zz-gate-probe.yaml"] :=
        File (replace_str "NODES" "[]" NodeLabels.NodeLabels.PROBE)]>
      (under sample_copy (chart_of ["repo"] "glance"))).
Proof.
  destruct (probes_leave_copy sample_helm sample_copy (chart_of ["repo"] "glance") "[]" "" "" "" [])
    as [H _]; [split; vm_compute; reflexivity|]. exact H.
Defined.
End RenderingRuns.
